(* ===== verification/_CoqProject ===== *)
-Q . S2P
Prelude.v
Bytes.v
Exchange.v
CText.v
Monitor.v
ProcAncestry.v
PaCache.v
Config.v
PidLock.v
Daemon.v
EventLoop.v
Walker.v
Protocol.v
Collector.v
EventQueue.v
InotifyMon.v
LkmPolicy.v
ProcCache.v
LkmEvents.v
LkmAccess.v
LkmSyscall.v
LkmInstall.v
LkmLsm.v
LkmUnload.v
LkmChardev.v
LkmWakeup.v
EbpfPrograms.v
PathCache.v
EbpfTrace.v
EbpfLoader.v
TlsContext.v
TcpClient.v
Session.v
SessionTable.v
Baseline.v
AgentMain.v
Heartbeat.v
Enroll.v
EnrollMemory.v
EnrollServer.v
Startup.v
TestTransport.v
LogFile.v
MainLoop.v
Signals.v
StartLkm.v
EndToEnd.v
EbpfEndToEnd.v
