(* ===== verification/Prelude.v ===== *)
(** * KN-IG agent: verification library

    KN-IG is a host integrity monitor. Its agent (src/Agent/src, C) watches a
    list of paths, blocks or reports writes, deletions and renames of the files
    under them in the kernel, keeps a baseline of file hashes, and sends every
    event with the process ancestry to a central collector over TLS.

    ** The program

<<
      main.c: options, ig.env, ig.conf, pid lock, daemon -> main loop
                   |
                   |-- scanner/ (walker, baseline): hashes of the files;
                   |        pid_ancestry: who did it, from /proc
                   |-- lkm/lkm_client.c -> /dev/ig -> lkm/ (kernel module):
                   |        policy table, process cache, hooks (system calls
                   |        or LSM), event fifo
                   |-- ebpf/ig_trace.c -> ebpf/ig_trace.bpf.c: the same task
                   |        with BPF maps, LSM programs and a ring buffer
                   |-- realtime/inotify_mon.c: the same reports, no blocking
                   |
              event queue (ig_queue.c) -> process_event: baseline, transport
                   |
              transport/ (tcp_client, protocol, heartbeat) -> collector
              enroll/: certificate for the transport, once
>>

    ** The files

    Shared:
    - Prelude (this file): machine integers, lists, folds over [option], tactics.
    - Bytes: big-endian integers, C strings, the cursor monad with an
      out-of-bounds outcome, triples over it, exact specifications of writers
      ([emits], [encodes]) and readers ([parses]).
    - Exchange: the monad of the enrollment protocol's two sides, what a step
      leaves alone ([keeps]), reads and writes ([runs], [moves]).
    - CText: the character functions of libc on strings - [isspace], [strtol],
      [atoi], [fgets] - with the lines of a file as [fgets] cuts them.
    - Monitor: the records of realtime/monitor.h and scanner/pid_ancestry.h, when
      they are well typed, and the classes [ProcSource], [ProcSourceLaws]: what
      the event handlers may use of the process ancestry.

    Files and processes:
    - ProcAncestry (scanner/pid_ancestry.c): parsing of stat, status, exe and
      cmdline, the chain of parents, its two formats. [procfs_source] makes it an
      instance of [ProcSource]. PaCache: the cache of chains with its LRU list.
    - Walker (scanner/walker.c), Baseline (scanner/baseline.c): the scan and
      the hash database.
    - InotifyMon (realtime/inotify_mon.c): the watch table beside the kernel's
      watches, one read of events, removal and clean-up.

    Kernel module:
    - LkmPolicy (lkm/ig_lkm_policy.c): the hash table of policies. The classes
      [PolicyStore] and [PolicyStoreLaws] are what the hooks may use of it; the
      table is their instance. An addition is two critical sections, so that
      overlapping additions can be stated.
    - ProcCache (lkm/ig_lkm_proc_cache.c): nodes on a heap with hash chains and
      an LRU list; every pointer dereference can fail in the model.
    - LkmEvents (lkm/ig_lkm_events.c): the module's state, its monad [K], the
      fifo. LkmAccess: what a list of policy checks does, for any store.
      LkmWakeup: the fifo's callers, its work item and the sleeping readers, access
      by access.
    - LkmSyscall, LkmLsm (lkm/hooks/): the hooks, as checks over that store.
      LkmInstall: the table of system calls while the hooks come and go, one
      store at a time, with the write protection as a register of each processor
      between which the scheduler may move the thread.
    - LkmChardev (lkm/ig_lkm_chardev.c, lkm_client.c, ig_lkm_main.c): device,
      user-space client, module loading. LkmUnload (lkm/ig_lkm_main.c): unloading
      beside the calls that are inside the hooks.

    eBPF:
    - EbpfPrograms (ebpf/ig_trace.bpf.c): the BPF programs and their maps.
    - PathCache, EbpfTrace, EbpfLoader (ebpf/ig_trace.c): the path cache, the
      policies by path and the event handler, loading, the polling thread and
      what main.c does with them at start and at a reload.

    Queue and transport:
    - EventQueue (ig_queue.c): the bounded queue refines a list.
    - Protocol (transport/protocol.c): codecs, each against its wire format.
    - Collector (Backend/internal/collector/protocol.go): the peer's decoders.
    - TlsContext (transport/tls_context.c): OpenSSL's objects and the socket of
      one connection. TcpClient (transport/tcp_client.c): what is sent over it.
      Heartbeat (transport/heartbeat.c): the two threads that share it.
    - Session (Backend/internal/collector/agent_session.go): the collector's
      session with one agent, its effects in order. SessionTable: the sessions of
      one agent over the table they share, access by access. TestTransport
      (transport/test_transport.c): the smoke test, against that session.
    - Enroll (enroll/enroll.c): the enrollment exchange. EnrollMemory: the same
      functions as allocations, erasures and releases. EnrollServer
      (Backend/internal/enrollment, store/enrollment_store.go): its peer, over the
      interface [EnrollmentStore], [EnrollmentLaws], of which the MySQL statements
      are an instance.

    The process itself:
    - Config (ig_config.c): the configuration file.
    - PidLock (core/pid_lock.c): several processes over one lock file.
      Daemon (core/daemon.c): descriptors across the double fork, and the log.
      EventLoop (core/event_loop.c): the epoll dispatch table.
    - AgentMain (main.c): events, transport, the kernel module's reload.
      Startup (main.c): options, environment, trust in the files, enrollment
      mode, kernel version, logging. LogFile (main.c, realtime/monitor.h): the log
      file under several threads. MainLoop (main.c): the event thread of the
      kernel module, choice of the back end, connection, reload, signals, the
      loop, and the order in which [main] takes and gives back what it holds.
    - Signals (main.c, core/daemon.c): which action a signal meets, and when.
    - StartLkm (main.c): from the watched paths to the module's policies.
    - EndToEnd: the components one after the other, from a system call to the
      collector. EbpfEndToEnd: the same from start-up and an LSM program.

    ** How code is modelled

    A definition has the name of the C function it translates; a part of [main]
    has a name of its own and the comment before it gives the lines. A C integer
    is a [Z] and every wrap-around is written ([u8], [u16], [u32], [u64],
    [s32]); a [char] array is the string it holds; a NULL-able pointer is an
    [option]. State is passed explicitly; a call that can fail returns the
    code's own error value. What the program does not contain is a parameter:
    hash functions, [malloc], file system and [/proc], OpenSSL, the network, BPF
    helpers, inotify. A hypothesis on a parameter says what its documentation
    says (HMAC has 32 bytes, a directory lists a name once) and is named in the
    statement. A lock makes its critical section atomic; where sections of
    different processes or threads overlap, they are steps of their own.

    Calls that can fail do so in the model. The answers of [realloc] to the scan are
    part of [disk], those of [kzalloc] to the policies an argument by position; a
    theorem says what a refused allocation leaves out ([refused], [no_memory]), and
    uses of [realloc] only that no block exceeds [PTRDIFF_MAX] ([bounded_memory]),
    which keeps the doubled [int] capacity in its width. Each call of pid_lock.c has
    its answer in [lock_env]. A turn of the main loop says at which of five moments
    signals arrive ([moments]), one of them being during a reload. Other threads that
    use the cache of chains while /proc is read are an argument. EnrollMemory marks
    each block with what it holds and records what is freed unerased.

    ** What is shown

    - The whole: a refused call reaches the collector, whose session with the
      agent saves and publishes what the kernel saw, once
      ([refused_call_reaches_collector]); so does a denial by a BPF program under
      the policies the agent loaded at start ([ebpf_denial_reaches_collector]). An agent enrolls with the server
      ([enrollment_completes]) and is served by a session under the number its
      certificate names ([registered_agent_is_served]).
    - The server's side: a certificate is issued only to the holder of the key
      ([certificate_only_for_key_holder]), once ([enrollment_is_single_use]), and
      a session acts for its certificate's agent only
      ([session_bound_to_certificate]).
    - Enforcement: after a start the module refuses exactly the calls that would
      change a file of the baseline it could load, whatever an earlier run left in
      it, and these are the watched files but for those whose memory was refused
      ([start_enforces_watched_files]); the system call table serves every
      call while the hooks come and go ([hooks_come_and_go_live]). A file of the
      baseline cannot be written, deleted or renamed
      through any hooked system call, LSM hook or BPF program once its policy
      is loaded, and every decision is reported ([baseline_files_are_enforced],
      [syscall_hook_enforces_policy], [lsm_hook_enforces_policy],
      [ebpf_program_enforces_policy], [recursive_add_covers_tree]). The policy
      table, the path cache and the baseline are maps.
    - Reporting: a kernel event reaches the collector with its device, inode,
      path, process and ancestry ([kernel_event_reaches_collector]); a reader of
      the module never sleeps before a queued event ([no_wakeup_is_lost]); the event
      threads hand over everything they read ([lkm_thread_moves_fifo],
      [poll_thread_queues_typed]); frames cross the connection in order
      ([frames_cross_the_connection]); the queue accounts for every event;
      encoders are exact, decoders memory safe; every session is one with a
      server the CA signed ([tls_sessions_authenticated]).
    - Ancestry: what the kernel prints of a process is what the agent reads
      ([process_entry_roundtrip]), a chain follows the parents, both caches
      behave as least-recently-used maps and never follow a dangling link.
    - Life cycle: the loop answers every signal, in the turn it comes in or the next
      ([main_loop_serves_signals]); what [main] takes before it is used, gives
      back, and in which order ([main_order]); the lock
      admits one process, whichever of its calls fail ([pid_lock_exclusive]); the daemon keeps no terminal
      ([daemon_survivor_detached]); the watch table and the kernel agree through
      any run ([inotify_runs_typed]); reconnection terminates.
    - Configuration: a printed configuration is read back ([config_roundtrip])
      and nothing read can exceed its arrays ([config_load_bounded]); the kernel
      gate is exact (Startup).
    - The walk visits each file once, the scan records each file but for those that
      meet a full array that cannot grow ([scan_records_every_file]).
    - Enrollment installs only what the holder of the key sent, an honest
      exchange succeeds, the secret leaves the environment, and no path leaves
      memory, a socket or a secret in a local behind; which blocks are erased before
      they are freed, and which are not ([enrollment_leaves_no_memory]).
    - Defects, each as a theorem with a concrete run: overlapping additions of
      a policy, symbolic links in the system call hooks, threads in the BPF
      process map, tombstones, replaced inodes, a full map, overlapping
      watches, mount points with an equal inode number, reload of both kinds of
      policies, a refused configuration that is loaded, the race of the pid
      lock's release, recreated directories, a signal that ends the event
      thread, calls stranded in an unloaded module, a write window that is not tied to
      a processor, threads that outlive an aborted start, a log closed under a line, a
      log that shares syslog's
      descriptor, a heartbeat thread that gives up unnoticed, a rejected session
      that is still read, a reconnection set offline by the session it replaces,
      colliding agent numbers, an enrollment without signal handlers.

    ** Bounds and fuel

    Loops that the code bounds by a constant are structural on it (64 levels
    of directories, 16 ancestors, 20 reconnections, 16384 probes, 64 watches, 19
    fields of stat). Transfers have the bytes left as fuel, since each call moves
    at least one; the keystream has the length of its input, the lines of a file
    its length, a decimal its 20 digits, a free descriptor the number of open
    ones. The recursive addition or removal of a path, in eBPF and inotify, has
    a depth that the theorems take larger than the tree's ([depth] falls from a
    directory to its entries). Each of these has a theorem that the fuel
    suffices, as part of the result it states. Loops that end by an outside
    event (the main loop, the two event threads) run over the list of what each
    turn meets.

    ** Not modelled

    scan_state.c is four variables that nothing reads;
    vmlinux.h and ig_trace.skel.h are generated. Messages for the user, the text of log lines, systemd
    notifications and socket options are left out of the functions that are
    modelled. The server, the web frontend and the scripts are in other
    languages; of them the two peers of the agent appear here, the collector's
    session and the enrollment server, with the database (but for the table of
    enrollments), the event bus, X.509 and the cryptographic primitives as
    parameters. *)

From stdpp Require Export base numbers list option gmap.
From Stdlib Require Export ZArith Lia.

(** ** Notations and automation *)

Create HintDb ig.

(** Splits conjunctions and products, substitutes, discharges contradictions. *)
Ltac ig_simpl := repeat (simplify_eq/= || case_match || destruct_and?).

(** Case analysis on every boolean test of the goal, then arithmetic. *)
Ltac ig_bools :=
  repeat match goal with
         | |- context [bool_decide ?P] => destruct (bool_decide_reflect P)
         | |- context [Z.ltb ?a ?b] => destruct (Z.ltb_spec a b)
         | |- context [Z.leb ?a ?b] => destruct (Z.leb_spec a b)
         | |- context [Z.eqb ?a ?b] => destruct (Z.eqb_spec a b)
         end.

(** ** Machine integers

    A C unsigned integer of width [w] is a [Z]; every place where the code can
    exceed the width writes the wrap-around. *)
Section machine_integers.
Local Open Scope Z_scope.

Definition wrap (w : Z) (z : Z) : Z := z mod 2 ^ w.
Definition u8 : Z → Z := wrap 8.
Definition u16 : Z → Z := wrap 16.
Definition u32 : Z → Z := wrap 32.
Definition u64 : Z → Z := wrap 64.

(** A two's complement reading, for [pid_t] and [int]. *)
Definition s32 (z : Z) : Z := wrap 32 (z + 2 ^ 31) - 2 ^ 31.
Definition s64 (z : Z) : Z := wrap 64 (z + 2 ^ 63) - 2 ^ 63.

Definition in_width (w z : Z) : Prop := 0 ≤ z < 2 ^ w.
Definition fits (w z : Z) : bool := (0 <=? z) && (z <? 2 ^ w).

Lemma fits_spec w z : fits w z = true ↔ in_width w z.
Proof. unfold fits, in_width. rewrite andb_true_iff, Z.leb_le, Z.ltb_lt. lia. Qed.

Lemma wrap_range w z : 0 ≤ w → in_width w (wrap w z).
Proof. intros. apply Z.mod_pos_bound. by apply Z.pow_pos_nonneg. Qed.

Lemma wrap_small w z : in_width w z → wrap w z = z.
Proof. intros. by apply Z.mod_small. Qed.

Lemma wrap_wrap w z : wrap w (wrap w z) = wrap w z.
Proof. unfold wrap. by rewrite Zmod_mod. Qed.

Lemma u8_range z : 0 ≤ u8 z < 256.
Proof. apply (wrap_range 8); lia. Qed.
Lemma u16_range z : 0 ≤ u16 z < 65536.
Proof. apply (wrap_range 16); lia. Qed.
Lemma u32_range z : 0 ≤ u32 z < 4294967296.
Proof. apply (wrap_range 32); lia. Qed.
Lemma u64_range z : 0 ≤ u64 z < 18446744073709551616.
Proof. apply (wrap_range 64); lia. Qed.

Lemma s32_small z : - 2 ^ 31 ≤ z < 2 ^ 31 → s32 z = z.
Proof. intros. unfold s32. rewrite wrap_small; unfold in_width; lia. Qed.

(** The bits of a mask that share a bit with another one. *)
Definition has_bits (mask bits : Z) : bool := negb (Z.land mask bits =? 0).

Lemma has_bits_lor m a b : has_bits m (Z.lor a b) = has_bits m a || has_bits m b.
Proof.
  unfold has_bits. rewrite Z.land_lor_distr_r.
  destruct (Z.eqb_spec (Z.land m a) 0) as [Ha|Ha],
           (Z.eqb_spec (Z.land m b) 0) as [Hb|Hb]; simpl.
  - by rewrite Ha, Hb.
  - rewrite Ha, Z.lor_0_l. by destruct (Z.eqb_spec (Z.land m b) 0).
  - rewrite Hb, Z.lor_0_r. by destruct (Z.eqb_spec (Z.land m a) 0).
  - destruct (Z.eqb_spec (Z.lor (Z.land m a) (Z.land m b)) 0) as [E|E]; [|done].
    apply Z.lor_eq_0_iff in E. tauto.
Qed.
End machine_integers.

#[export] Hint Resolve u8_range u16_range u32_range u64_range : ig.

(** ** Generic lemmas on lists *)
Section lists.
Context {A : Type}.
Implicit Types l k : list A.

Lemma take_drop_app l k n : n = length l → take n (l ++ k) = l ∧ drop n (l ++ k) = k.
Proof. intros ->. by rewrite take_app_length, drop_app_length. Qed.

Lemma Forall_sublist_of (P : A → Prop) l k : l `sublist_of` k → Forall P k → Forall P l.
Proof. induction 1; rewrite ?Forall_cons; naive_solver. Qed.

Lemma filter_all (P : A → Prop) `{!∀ x, Decision (P x)} l : (∀ x, x ∈ l → P x) → filter P l = l.
Proof.
  induction l as [|x l IH]; intros Hl; [done|].
  rewrite filter_cons, decide_True.
  - f_equal. apply IH. intros y Hy. apply Hl. by right.
  - apply Hl. by left.
Qed.

Lemma elem_of_rev x l : x ∈ rev l ↔ x ∈ l.
Proof. by rewrite !list_elem_of_In, <- in_rev. Qed.

Lemma sublist_rev l k : l `sublist_of` k → rev l `sublist_of` rev k.
Proof.
  induction 1 as [|x l k Hs IH|x l k Hs IH]; cbn [rev]; [done| |].
  - by apply sublist_app.
  - by apply sublist_inserts_r.
Qed.

(** In a list without duplicates an element splits it in one way. *)
Lemma app_cons_inj_NoDup l1 l2 k1 k2 x :
  NoDup (l1 ++ x :: l2) → l1 ++ x :: l2 = k1 ++ x :: k2 → l1 = k1 ∧ l2 = k2.
Proof.
  revert k1. induction l1 as [|y l1 IH]; intros [|z k1] Hnd He; simplify_eq/=; [done| | |].
  - apply NoDup_cons in Hnd as [Hn _]. destruct Hn. apply elem_of_app. right. by left.
  - apply NoDup_cons in Hnd as [Hn _]. destruct Hn. apply elem_of_app. right. by left.
  - apply NoDup_cons in Hnd as [_ Hnd]. by destruct (IH k1 Hnd) as [-> ->].
Qed.

(** [find] the first element that satisfies a boolean test, with its index. *)
Fixpoint find_index (f : A → bool) (l : list A) : option nat :=
  match l with
  | [] => None
  | x :: l => if f x then Some 0 else S <$> find_index f l
  end.

Lemma find_index_Some f l i :
  find_index f l = Some i ↔
  (∃ x, l !! i = Some x ∧ f x = true) ∧ (∀ j y, j < i → l !! j = Some y → f y = false).
Proof.
  revert i. induction l as [|x l IH]; intros i; simpl.
  { split; [done|]. intros [(y & Hy & _) _]. by rewrite lookup_nil in Hy. }
  destruct (f x) eqn:Hx.
  - split.
    + intros [= <-]. split; [by exists x|]. intros; lia.
    + intros [_ H]. destruct i as [|i]; [done|].
      specialize (H 0 x ltac:(lia) eq_refl). congruence.
  - rewrite fmap_Some. split.
    + intros (i' & Hi & ->). apply IH in Hi as [(y & Hy & Hf) H]. split; [by exists y|].
      intros [|j] z Hj Hz; simplify_eq/=; [done|]. apply (H j z); [lia|done].
    + intros [(y & Hy & Hf) H]. destruct i as [|i]; simpl in Hy; [congruence|].
      exists i. split; [|done]. apply IH. split; [by exists y|].
      intros j z Hj Hz. apply (H (S j) z); [lia|done].
Qed.

Lemma find_index_None f l : find_index f l = None ↔ ∀ x, x ∈ l → f x = false.
Proof.
  induction l as [|x l IH]; simpl.
  { split; [|done]. intros _ y Hy. by apply elem_of_nil in Hy. }
  destruct (f x) eqn:Hx.
  - split; [done|]. intros H. specialize (H x (list_elem_of_here _ _)). congruence.
  - rewrite fmap_None, IH. split.
    + intros H y [->|Hy]%elem_of_cons; auto.
    + intros H y Hy. apply H. by right.
Qed.
End lists.

(** ** Folding a step that may fail *)

Lemma fold_none {A S} (f : S → A → option S) l : fold_left (λ acc x, s ← acc; f s x) l None = None.
Proof. by induction l. Qed.

(** Folding a step that may fail keeps what every step keeps. *)
Lemma fold_option_inv {A S} (f : S → A → option S) (R : S → S → Prop) l s s' :
  (∀ s, R s s) → (∀ a b c, R a b → R b c → R a c) →
  (∀ s x s', x ∈ l → f s x = Some s' → R s s') →
  fold_left (λ acc x, s ← acc; f s x) l (Some s) = Some s' → R s s'.
Proof.
  intros Hr Ht. revert s. induction l as [|x l IH]; intros s Hf; cbn; [by intros [= <-]|].
  destruct (f s x) as [s1|] eqn:E; cbn.
  - intros H. apply Ht with s1; [apply (Hf s x); [by left|done]|].
    apply IH; [|done]. intros s2 y s3 Hy. apply Hf. by right.
  - intros H. exfalso. clear -H. induction l as [|y l IH]; cbn in H; [done|auto].
Qed.

Lemma fold_option_total {A S} (f : S → A → option S) l s :
  (∀ s x, x ∈ l → is_Some (f s x)) → is_Some (fold_left (λ acc x, s ← acc; f s x) l (Some s)).
Proof.
  revert s. induction l as [|x l IH]; intros s Hf; cbn; [by eexists|].
  destruct (Hf s x) as [s' ->]; [by left|]. apply IH. intros a y Hy. apply Hf. by right.
Qed.
