(* ===== verification/Bytes.v ===== *)
(** * Bytes, C strings and buffer cursors

    The part of C that the codecs share: big-endian conversion of unsigned
    integers ([htons]/[htonl] followed by [memcpy]), [char] arrays seen as the
    string they hold, and a small state monad whose third outcome, [fault], is
    an access outside the buffer or an invalid [free]. *)

From S2P Require Import Prelude.

Local Open Scope Z_scope.

(** ** Big-endian integers *)

Definition is_byte (b : Z) : Prop := 0 ≤ b < 256.
Abbreviation bytes := (Forall is_byte).

Fixpoint be_bytes (n : nat) (v : Z) : list Z :=
  match n with
  | O => []
  | S n => Z.land (Z.shiftr v (8 * Z.of_nat n)) 255 :: be_bytes n v
  end.

Definition be_val (l : list Z) : Z := fold_left (λ acc b, acc * 256 + b) l 0.

Lemma be_bytes_length n v : length (be_bytes n v) = n.
Proof. induction n; simpl; congruence. Qed.

Lemma land_255 z : Z.land z 255 = z mod 256.
Proof. change 255 with (Z.ones 8). by rewrite Z.land_ones. Qed.

Lemma be_bytes_bytes n v : bytes (be_bytes n v).
Proof.
  induction n; simpl; constructor; [|done].
  unfold is_byte. rewrite land_255. apply Z.mod_pos_bound. lia.
Qed.

Lemma be_fold_shift l acc :
  fold_left (λ acc b, acc * 256 + b) l acc = acc * 256 ^ Z.of_nat (length l) + be_val l.
Proof.
  unfold be_val. revert acc. induction l as [|b l IH]; intros acc; cbn [fold_left length].
  { rewrite Z.pow_0_r. lia. }
  rewrite IH, (IH (0 * 256 + b)), Nat2Z.inj_succ, Z.pow_succ_r by lia. ring.
Qed.

Lemma be_val_cons b l : be_val (b :: l) = b * 256 ^ Z.of_nat (length l) + be_val l.
Proof. unfold be_val at 1. cbn [fold_left]. rewrite be_fold_shift. f_equal. Qed.

Lemma be_val_app l k : be_val (l ++ k) = be_val l * 256 ^ Z.of_nat (length k) + be_val k.
Proof. unfold be_val at 1. rewrite fold_left_app, be_fold_shift. done. Qed.

Lemma be_val_range l : bytes l → 0 ≤ be_val l < 256 ^ Z.of_nat (length l).
Proof.
  induction 1 as [|b l Hb Hl IH]; [done|].
  rewrite be_val_cons. cbn [length]. rewrite Nat2Z.inj_succ, Z.pow_succ_r by lia.
  unfold is_byte in Hb. nia.
Qed.

Lemma be_val_be_bytes_mod n v : be_val (be_bytes n v) = v mod 256 ^ Z.of_nat n.
Proof.
  induction n as [|n IH]; [by rewrite Z.mod_1_r|].
  cbn [be_bytes]. rewrite be_val_cons, be_bytes_length, IH, land_255.
  rewrite Z.shiftr_div_pow2 by lia.
  replace (2 ^ (8 * Z.of_nat n)) with (256 ^ Z.of_nat n)
    by (change 256 with (2 ^ 8); rewrite <- Z.pow_mul_r by lia; done).
  rewrite Nat2Z.inj_succ, Z.pow_succ_r, (Z.mul_comm 256) by lia.
  rewrite Z.rem_mul_r by lia. lia.
Qed.

Lemma be_val_be_bytes n v : 0 ≤ v < 256 ^ Z.of_nat n → be_val (be_bytes n v) = v.
Proof. intros. by rewrite be_val_be_bytes_mod, Z.mod_small. Qed.

Lemma be_bytes_be_val l : bytes l → be_bytes (length l) (be_val l) = l.
Proof.
  assert (Hmod : ∀ n a b, 0 ≤ b → be_bytes n (a * 256 ^ Z.of_nat n + b) = be_bytes n b).
  { intros n. assert (∀ m, (m ≤ n)%nat → ∀ a b, 0 ≤ b →
      be_bytes m (a * 256 ^ Z.of_nat n + b) = be_bytes m b) as H; [|by apply H].
    induction m as [|m IH]; intros Hm a b Hb; [done|]. cbn [be_bytes].
    f_equal; [|apply IH; lia].
    rewrite !land_255, !Z.shiftr_div_pow2 by lia.
    replace (2 ^ (8 * Z.of_nat m)) with (256 ^ Z.of_nat m)
      by (change 256 with (2 ^ 8); rewrite <- Z.pow_mul_r by lia; done).
    replace (Z.of_nat n) with (Z.of_nat (n - S m) + 1 + Z.of_nat m) by lia.
    rewrite !Z.pow_add_r by lia. rewrite Z.pow_1_r.
    rewrite !Z.mul_assoc, Z.div_add_l by lia.
    rewrite Z.add_comm, Z.mod_add by lia. done. }
  induction 1 as [|b l Hb Hl IH]; [done|].
  cbn [length be_bytes]. rewrite be_val_cons.
  pose proof (be_val_range l Hl). unfold is_byte in Hb.
  rewrite Hmod by lia. rewrite IH. f_equal.
  rewrite land_255, Z.shiftr_div_pow2 by lia.
  replace (2 ^ (8 * Z.of_nat (length l))) with (256 ^ Z.of_nat (length l))
    by (change 256 with (2 ^ 8); rewrite <- Z.pow_mul_r by lia; done).
  rewrite Z.div_add_l by lia. rewrite Z.div_small by done.
  rewrite Z.add_0_r, Z.mod_small; lia.
Qed.

Lemma be_bytes_app n m v : be_bytes (n + m) v = be_bytes n (Z.shiftr v (8 * Z.of_nat m)) ++ be_bytes m v.
Proof.
  induction n as [|n IH]; [done|]. cbn [Nat.add be_bytes app]. rewrite IH. f_equal.
  rewrite Z.shiftr_shiftr by lia. do 2 f_equal. lia.
Qed.

Lemma be_bytes_land n v w : Z.of_nat n * 8 ≤ w → be_bytes n (Z.land v (Z.ones w)) = be_bytes n v.
Proof.
  induction n as [|n IH]; intros Hw; [done|]. cbn [be_bytes]. rewrite IH by lia. f_equal.
  change 255 with (Z.ones 8). apply Z.bits_inj'. intros i Hi.
  rewrite !Z.land_spec, !Z.shiftr_spec, Z.land_spec by lia.
  destruct (Z.ltb_spec i 8).
  - rewrite (Z.ones_spec_low w) by lia. by rewrite andb_true_r.
  - rewrite (Z.ones_spec_high 8) by lia. by rewrite !andb_false_r.
Qed.

(** Two 32-bit halves put together again. *)
Lemma be_val_halves v : in_width 64 v →
  Z.lor (Z.shiftl (be_val (take 4 (be_bytes 8 v))) 32) (be_val (take 4 (drop 4 (be_bytes 8 v)))) = v.
Proof.
  intros H. change 8%nat with (4 + 4)%nat. rewrite be_bytes_app, take_app_length', drop_app_length' by done.
  rewrite (take_ge (be_bytes 4 v)) by (rewrite be_bytes_length; lia).
  rewrite !be_val_be_bytes_mod. change (8 * Z.of_nat 4) with 32. change (256 ^ Z.of_nat 4) with (2 ^ 32).
  rewrite <- !Z.land_ones by lia. apply Z.bits_inj'. intros i Hi. unfold in_width in H.
  rewrite Z.lor_spec. destruct (Z.ltb_spec i 32).
  - rewrite Z.shiftl_spec_low, Z.land_spec, Z.ones_spec_low by lia. by rewrite andb_true_r.
  - rewrite Z.shiftl_spec, !Z.land_spec, (Z.ones_spec_high 32 i) by lia. rewrite andb_false_r, orb_false_r.
    rewrite Z.shiftr_spec by lia. replace (i - 32 + 32) with i by lia.
    destruct (Z.ltb_spec (i - 32) 32); [rewrite Z.ones_spec_low by lia; by rewrite andb_true_r|].
    rewrite Z.ones_spec_high by lia. rewrite andb_false_r. symmetry.
    destruct (decide (v = 0)) as [->|]; [apply Z.bits_0|]. apply Z.bits_above_log2; [lia|].
    apply Z.log2_lt_pow2; [lia|]. apply Z.lt_le_trans with (2 ^ 64); [lia|]. apply Z.pow_le_mono_r; lia.
Qed.

#[export] Hint Resolve be_bytes_length be_bytes_bytes : ig.
#[global] Arguments be_bytes : simpl never.
#[global] Arguments be_val : simpl never.

(** ** C strings

    A [char] array is represented by its bytes; what the string functions read
    of it is the prefix before the first NUL. *)

Abbreviation cstring := (list Z).

Fixpoint cstr (s : list Z) : cstring :=
  match s with
  | [] => []
  | c :: s => if c =? 0 then [] else c :: cstr s
  end.

(** [strnlen(s, n)] *)
Definition strnlen (s : list Z) (n : nat) : nat := Nat.min (length (cstr s)) n.

(** The string in [dst] after [strncpy(dst, src, n)] into an array whose byte
    [n] is NUL (zeroed before, or terminated right after, as the code does). *)
Definition strncpy (src : list Z) (n : nat) : cstring := take n (cstr src).

(** No NUL inside: the value is exactly what the string functions see. *)
Definition is_cstring (s : list Z) : Prop := Forall (λ c, c ≠ 0) s.

Lemma cstr_id s : is_cstring s → cstr s = s.
Proof. induction 1 as [|c s Hc Hs IH]; simpl; [done|]. destruct (Z.eqb_spec c 0); congruence. Qed.

Lemma cstr_is_cstring s : is_cstring (cstr s).
Proof.
  induction s as [|c s IH]; simpl; [constructor|].
  destruct (Z.eqb_spec c 0); constructor; done.
Qed.

(** The string of an array keeps what its elements have, bytes for one. *)
Lemma Forall_cstr (P : Z → Prop) s : Forall P s → Forall P (cstr s).
Proof. induction 1 as [|b s Hb Hs IH]; cbn; [constructor|]. destruct (b =? 0); by constructor. Qed.

Lemma bytes_cstr s : bytes s → bytes (cstr s).
Proof. apply Forall_cstr. Qed.

Lemma cstr_idemp s : cstr (cstr s) = cstr s.
Proof. apply cstr_id, cstr_is_cstring. Qed.

Lemma strncpy_is_cstring s n : is_cstring (strncpy s n).
Proof. apply Forall_take, cstr_is_cstring. Qed.

Lemma strncpy_length s n : (length (strncpy s n) ≤ n)%nat.
Proof. unfold strncpy. rewrite length_take. lia. Qed.

Lemma strncpy_id s n : is_cstring s → (length s ≤ n)%nat → strncpy s n = s.
Proof. intros. unfold strncpy. rewrite cstr_id by done. by apply take_ge. Qed.

Lemma strnlen_le_l s n : (strnlen s n ≤ n)%nat.
Proof. unfold strnlen. lia. Qed.

Lemma cstr_length_le s : (length (cstr s) ≤ length s)%nat.
Proof. induction s as [|c s IH]; simpl; [done|]. destruct (c =? 0); simpl; lia. Qed.

#[export] Hint Resolve cstr_is_cstring strncpy_is_cstring strncpy_length : ig.

(** ** The cursor monad *)

Inductive outcome (S A : Type) : Type :=
  | Ok (a : A) (s : S)      (** the call returns normally *)
  | Fail (s : S)            (** the call returns its error code *)
  | Fault.                  (** out-of-bounds access or invalid [free] *)
Arguments Ok {S A}. Arguments Fail {S A}. Arguments Fault {S A}.

Definition cursor (S A : Type) : Type := S → outcome S A.

#[export] Instance cursor_ret S : MRet (cursor S) := λ A a s, Ok a s.
#[export] Instance cursor_bind S : MBind (cursor S) := λ A B f m s,
  match m s with
  | Ok a s' => f a s'
  | Fail s' => Fail s'
  | Fault => Fault
  end.

(** [if (m < 0) { cleanup; return -1; }] *)
Definition on_fail {S A} (m : cursor S A) (cleanup : cursor S unit) : cursor S A := λ s,
  match m s with
  | Ok a s' => Ok a s'
  | Fail s' => match cleanup s' with
               | Ok _ s'' => Fail s''
               | Fail s'' => Fail s''
               | Fault => Fault
               end
  | Fault => Fault
  end.

(** [if (!c) return -1;] *)
Definition require {S} (c : bool) : cursor S unit := λ s, if c then Ok tt s else Fail s.

Lemma bind_Ok {S A B} (m : cursor S A) (f : A → cursor S B) s a s' :
  m s = Ok a s' → (m ≫= f) s = f a s'.
Proof. intros H. unfold mbind, cursor_bind. by rewrite H. Qed.

Lemma on_fail_Ok {S A} (m : cursor S A) c s a s' : m s = Ok a s' → on_fail m c s = Ok a s'.
Proof. intros H. unfold on_fail. by rewrite H. Qed.

(** *** Reading

    The reader's state is what lies between the moving pointer and the end of
    the buffer, the number of heap blocks it owns, and how many times [malloc]
    was called (the oracle [malloc_ok] says which calls succeed). *)

Record rstate := RState { r_rest : list Z; r_live : nat; r_nalloc : nat }.

Abbreviation reader := (cursor rstate).

(** [memcpy] of [n] bytes from the pointer, which moves past them. *)
Definition take_bytes (n : nat) : reader (list Z) := λ s,
  if bool_decide (n ≤ length (r_rest s))%nat
  then Ok (take n (r_rest s)) (RState (drop n (r_rest s)) (r_live s) (r_nalloc s))
  else Fault.

(** [(size_t)(end - p)] *)
Definition remaining : reader nat := λ s, Ok (length (r_rest s)) s.

(** [free(p)]: a no-op on NULL, otherwise gives one block back. *)
Definition free_ptr (p : option (list Z)) : reader unit := λ s,
  match p with
  | None => Ok tt s
  | Some _ => match r_live s with
              | O => Fault
              | S n => Ok tt (RState (r_rest s) n (r_nalloc s))
              end
  end.

Definition live_of (p : option (list Z)) : nat := match p with Some _ => 1 | None => 0 end.

Lemma take_bytes_app n l k live na :
  n = length l → take_bytes n (RState (l ++ k) live na) = Ok l (RState k live na).
Proof.
  intros ->. unfold take_bytes. cbn. rewrite bool_decide_eq_true_2 by (rewrite length_app; lia).
  by rewrite take_app_length, drop_app_length.
Qed.

Lemma take_bytes_enough n s :
  (n ≤ length (r_rest s))%nat →
  ∃ bs, take_bytes n s = Ok bs (RState (drop n (r_rest s)) (r_live s) (r_nalloc s)) ∧
        length bs = n.
Proof.
  intros H. unfold take_bytes. rewrite bool_decide_eq_true_2 by done.
  eexists. split; [done|]. rewrite length_take. lia.
Qed.

(** *** Writing

    The writer's state is the room left in the buffer and the bytes written so
    far; the pointer is the length of the latter. *)

Record wstate := WState { w_room : nat; w_out : list Z }.

Abbreviation writer := (cursor wstate).

(** [memcpy] of [bs] to the pointer, which moves past them. *)
Definition put_bytes (bs : list Z) : writer unit := λ s,
  if bool_decide (length bs ≤ w_room s)%nat
  then Ok tt (WState (w_room s - length bs) (w_out s ++ bs))
  else Fault.

(** [memcpy(p, src, n)] from a source object of which [src] are the bytes. *)
Definition copy_from (src : option (list Z)) (n : nat) : writer unit := λ s,
  match src with
  | None => Fault
  | Some d => if bool_decide (n ≤ length d)%nat then put_bytes (take n d) s else Fault
  end.

Definition room : writer nat := λ s, Ok (w_room s) s.

Lemma put_bytes_ok bs r out :
  (length bs ≤ r)%nat → put_bytes bs (WState r out) = Ok tt (WState (r - length bs) (out ++ bs)).
Proof. intros. unfold put_bytes. cbn. by rewrite bool_decide_eq_true_2. Qed.

Lemma put_bytes_room bs s :
  (w_room s < length bs)%nat → put_bytes bs s = Fault.
Proof. intros. unfold put_bytes. by rewrite bool_decide_eq_false_2 by lia. Qed.

(** *** Heap allocation in a reader

    [malloc_ok n] tells whether the [n]-th call of [malloc] succeeds. *)
Definition malloc (malloc_ok : nat → bool) : reader unit := λ s,
  if malloc_ok (r_nalloc s)
  then Ok tt (RState (r_rest s) (S (r_live s)) (S (r_nalloc s)))
  else Fail (RState (r_rest s) (r_live s) (S (r_nalloc s))).

(** ** Partial-correctness triples with an error postcondition

    [triple P m Q E]: from a state in [P], [m] does not fault; it ends in [Q]
    when it returns normally and in [E] when it returns its error code. *)
Definition triple {S A} (P : S → Prop) (m : cursor S A) (Q : A → S → Prop) (E : S → Prop) : Prop :=
  ∀ s, P s → match m s with
             | Ok a s' => Q a s'
             | Fail s' => E s'
             | Fault => False
             end.

Section triples.
Context {S : Type}.
Implicit Types P E : S → Prop.

Lemma triple_ret {A} P E (a : A) : triple P (mret a) (λ b s, b = a ∧ P s) E.
Proof. intros s Hs. by split. Qed.

Lemma triple_bind {A B} P E (m : cursor S A) (f : A → cursor S B) R Q :
  triple P m R E → (∀ a, triple (R a) (f a) Q E) → triple P (m ≫= f) Q E.
Proof.
  intros Hm Hf s Hs. specialize (Hm s Hs). unfold mbind, cursor_bind.
  destruct (m s) as [a s'|s'|]; [|done..]. by apply Hf.
Qed.

Lemma triple_conseq {A} P P' E E' (m : cursor S A) (Q Q' : A → S → Prop) :
  triple P m Q E → (∀ s, P' s → P s) → (∀ a s, Q a s → Q' a s) → (∀ s, E s → E' s) →
  triple P' m Q' E'.
Proof.
  intros Hm HP HQ HE s Hs. specialize (Hm s (HP s Hs)). destruct (m s); eauto.
Qed.

Lemma triple_require P E (c : bool) :
  (∀ s, P s → c = false → E s) → triple P (require c) (λ _ s, c = true ∧ P s) E.
Proof. intros H s Hs. unfold require. destruct c; eauto. Qed.

Lemma triple_on_fail {A} P E E' (m : cursor S A) c Q :
  triple P m Q E' → triple E' c (λ _, E) E → triple P (on_fail m c) Q E.
Proof.
  intros Hm Hc s Hs. specialize (Hm s Hs). unfold on_fail.
  destruct (m s) as [a s'|s'|]; [done| |done]. specialize (Hc s' Hm). by destruct (c s').
Qed.

Lemma triple_pure {A} (φ : Prop) P E (m : cursor S A) Q :
  (φ → triple P m Q E) → triple (λ s, φ ∧ P s) m Q E.
Proof. intros H s [Hφ Hs]. by apply H. Qed.
End triples.

(** Reader assertion: at least [n] bytes left and exactly [live] blocks owned. *)
Definition reads (n live : nat) (s : rstate) : Prop := (n ≤ length (r_rest s))%nat ∧ r_live s = live.

(** The only thing an error path promises: the blocks still owned. *)
Definition owns (live : nat) (s : rstate) : Prop := r_live s = live.

Lemma triple_take_bytes n k live E :
  (n ≤ k)%nat →
  triple (reads k live) (take_bytes n) (λ bs, reads (k - n) live) E.
Proof.
  intros Hn s [Hk Hl]. destruct (take_bytes_enough n s) as (bs & -> & Hbs); [lia|].
  split; [|done]. cbn. rewrite length_drop. lia.
Qed.

Lemma triple_remaining k live E :
  triple (reads k live) remaining (λ n, reads n live) E.
Proof. intros s [Hk Hl]. by repeat split. Qed.

Lemma triple_free p live E :
  triple (owns (live_of p + live)) (free_ptr p) (λ _, owns live) E.
Proof. intros [r l a] Hl. unfold owns in *. cbn in *. destruct p; cbn in *; by subst. Qed.

Lemma triple_malloc mok k live :
  triple (reads k live) (malloc mok) (λ _, reads k (1 + live)) (owns live).
Proof.
  intros [r l a] [Hk Hl]. unfold malloc; cbn in *. destruct (mok a); [|done].
  split; cbn; congruence.
Qed.

(** [if ((size_t)(end - p) < c) { cleanup; return -1; }] *)
Lemma triple_check {A} c cl k live (f : reader A) Q E :
  triple (owns live) cl (λ _, E) E →
  triple (reads c live) f Q E →
  triple (reads k live) (n ← remaining; _ ← on_fail (require (bool_decide (c ≤ n)%nat)) cl; f) Q E.
Proof.
  intros Hcl Hf [r l na] [Hk Hl]. unfold mbind, cursor_bind, remaining, on_fail, require. cbn in *.
  case_bool_decide as Hc.
  - apply Hf. by split.
  - specialize (Hcl (RState r l na) Hl). by destruct (cl _).
Qed.

Lemma triple_check_plain {A} c k live (f : reader A) Q E :
  (∀ s, owns live s → E s) →
  triple (reads c live) f Q E →
  triple (reads k live) (n ← remaining; _ ← require (bool_decide (c ≤ n)%nat); f) Q E.
Proof.
  intros HE Hf [r l na] [Hk Hl]. unfold mbind, cursor_bind, remaining, require. cbn in *.
  case_bool_decide as Hc; [apply Hf; by split|by apply HE].
Qed.

(** ** Exact specifications of writers and readers

    [emits m w]: [m] writes exactly the bytes [w] whenever they fit.
    [encodes m w]: it writes them when they fit and otherwise reports an error,
    without ever touching a byte past the end.
    [parses m bs a k]: [m] reads exactly [bs], returns [a] and makes [k]
    (successful) allocations. *)

Definition emits (m : writer unit) (w : list Z) : Prop :=
  ∀ r out, (length w ≤ r)%nat → m (WState r out) = Ok tt (WState (r - length w) (out ++ w)).

Definition encodes (m : writer unit) (w : list Z) : Prop :=
  emits m w ∧
  ∀ r out, (r < length w)%nat → ∃ s, m (WState r out) = Fail s.

Definition parses {A} (m : reader A) (bs : list Z) (a : A) (k : nat) : Prop :=
  ∀ rest live na,
    m (RState (bs ++ rest) live na) = Ok a (RState rest (k + live) (k + na)).

Lemma emits_put bs : emits (put_bytes bs) bs.
Proof. intros r out H. by apply put_bytes_ok. Qed.

Lemma emits_seq m k w1 w2 : emits m w1 → emits k w2 → emits (m ;; k) (w1 ++ w2).
Proof.
  intros H1 H2 r out Hr. rewrite length_app in Hr.
  rewrite (bind_Ok _ _ _ tt (WState (r - length w1) (out ++ w1))) by (apply H1; lia).
  rewrite H2 by lia. rewrite length_app, app_assoc. do 2 f_equal. lia.
Qed.

Lemma emits_ret : emits (mret tt) [].
Proof. intros r out _. cbn. by rewrite Nat.sub_0_r, app_nil_r. Qed.

Lemma encodes_ret : encodes (mret tt) [].
Proof. split; [apply emits_ret|]. intros; simpl in *; lia. Qed.

Lemma encodes_seq m k w1 w2 : encodes m w1 → encodes k w2 → encodes (m ;; k) (w1 ++ w2).
Proof.
  intros [E1 F1] [E2 F2]. split; [by apply emits_seq|].
  intros r out Hr. rewrite length_app in Hr.
  destruct (decide (r < length w1)%nat) as [H|H].
  - destruct (F1 r out H) as [s Hs]. exists s. unfold mbind, cursor_bind. by rewrite Hs.
  - rewrite (bind_Ok _ _ _ tt (WState (r - length w1) (out ++ w1))) by (apply E1; lia).
    apply F2. lia.
Qed.

(** Error reporting from [k] bytes of room on. *)
Definition encodes_from (k : nat) (m : writer unit) (w : list Z) : Prop :=
  emits m w ∧ ∀ r out, (k ≤ r < length w)%nat → ∃ s, m (WState r out) = Fail s.

Lemma encodes_encodes_from m w : encodes m w → encodes_from 0 m w.
Proof. intros [E F]. split; [done|]. intros r out H. apply F. lia. Qed.

Lemma encodes_from_seq j m k w1 w2 :
  emits m w1 → encodes_from j k w2 → encodes_from (length w1 + j) (m ;; k) (w1 ++ w2).
Proof.
  intros E1 [E2 F2]. split; [by apply emits_seq|].
  intros r out Hr. rewrite length_app in Hr.
  rewrite (bind_Ok _ _ _ tt (WState (r - length w1) (out ++ w1))) by (apply E1; lia).
  apply F2. lia.
Qed.

Lemma encodes_guard_from j (c : nat → bool) m w :
  encodes_from j m w → (j ≤ length w)%nat → (∀ n, c n = true ↔ (j ≤ n)%nat) →
  encodes (n ← room; _ ← require (c n); m) w.
Proof.
  intros [E F] Hj Hc. split; intros r out Hr; unfold mbind, cursor_bind, room, require; cbn.
  - rewrite (proj2 (Hc r)) by lia. by apply E.
  - destruct (c r) eqn:Ec; [|by eexists]. apply Hc in Ec. apply F. lia.
Qed.

(** A size check in front of the writes. *)
Lemma encodes_guard (c : nat → bool) m w :
  emits m w → (∀ n, c n = true ↔ (length w ≤ n)%nat) →
  encodes (n ← room; _ ← require (c n); m) w.
Proof.
  intros Hm Hc. split.
  - intros r out Hr. unfold mbind, cursor_bind, room, require. cbn.
    rewrite (proj2 (Hc r)) by done. by apply Hm.
  - intros r out Hr. unfold mbind, cursor_bind, room, require. cbn.
    destruct (c r) eqn:E; [|by eexists]. apply Hc in E. lia.
Qed.

Lemma parses_take n bs : n = length bs → parses (take_bytes n) bs bs 0.
Proof. intros -> rest live na. by apply take_bytes_app. Qed.

Lemma parses_ret {A} (a : A) : parses (mret a) [] a 0.
Proof. done. Qed.

Lemma parses_bind {A B} (m : reader A) (f : A → reader B) b1 b2 a c k1 k2 :
  parses m b1 a k1 → parses (f a) b2 c k2 → parses (m ≫= f) (b1 ++ b2) c (k1 + k2).
Proof.
  intros H1 H2 rest live na. rewrite <- app_assoc.
  rewrite (bind_Ok _ _ _ a (RState (b2 ++ rest) (k1 + live) (k1 + na))) by apply H1.
  rewrite H2. do 2 f_equal; lia.
Qed.

Lemma parses_check {A} (c : nat) cl (f : reader A) bs a k :
  (c ≤ length bs)%nat → parses f bs a k →
  parses (n ← remaining; _ ← on_fail (require (bool_decide (c ≤ n)%nat)) cl; f) bs a k.
Proof.
  intros Hc Hf rest live na. unfold mbind, cursor_bind, remaining, on_fail, require. cbn.
  rewrite bool_decide_eq_true_2 by (rewrite length_app; lia). apply Hf.
Qed.

Lemma parses_require {A} (c : nat) (f : reader A) bs a k :
  (c ≤ length bs)%nat → parses f bs a k →
  parses (n ← remaining; _ ← require (bool_decide (c ≤ n)%nat); f) bs a k.
Proof.
  intros Hc Hf rest live na. unfold mbind, cursor_bind, remaining, require. cbn.
  rewrite bool_decide_eq_true_2 by (rewrite length_app; lia). apply Hf.
Qed.

Lemma parses_on_fail {A} (m : reader A) cl bs a k : parses m bs a k → parses (on_fail m cl) bs a k.
Proof. intros H rest live na. by apply on_fail_Ok. Qed.
