(* ===== verification/Exchange.v ===== *)
(** * Steps that fail over a byte stream

    The monad of the two sides of the enrollment protocol: a state, and a result
    that may be missing, in which case the steps after it are not made. [keeps]
    says a step leaves a part of the state alone; [runs] that it succeeds, what it
    reads from its stream and what it writes to it. *)

From S2P Require Import Prelude.

(** A computation over [S]; no result is an early exit. *)
Definition steps (S A : Type) : Type := S → option A * S.
#[export] Instance steps_ret S : MRet (steps S) := λ A a s, (Some a, s).
#[export] Instance steps_bind S : MBind (steps S) := λ A B f m s,
  match m s with
  | (Some a, s) => f a s
  | (None, s) => (None, s)
  end.
Definition efail {S A} : steps S A := λ s, (None, s).
Definition elift {S A} (o : option A) : steps S A := λ s, (o, s).
Definition ecatch {S A} (m : steps S A) : steps S (option A) := λ s, let (r, s) := m s in (Some r, s).

Section runs_of_steps.
Context {S : Type}.
Implicit Types (s : S).

Lemma E_bind_Some {A B} (m : steps S A) (f : A → steps S B) s b s2 :
  (m ≫= f) s = (Some b, s2) → ∃ a s1, m s = (Some a, s1) ∧ f a s1 = (Some b, s2).
Proof. unfold mbind, steps_bind. destruct (m s) as [[a|] s1]; [|done]. intros H. by exists a, s1. Qed.

Lemma E_step {A B} (m : steps S A) (f : A → steps S B) s a s1 r :
  m s = (Some a, s1) → f a s1 = r → (m ≫= f) s = r.
Proof. intros H Hf. unfold mbind, steps_bind. by rewrite H. Qed.
End runs_of_steps.

(** ** A step that leaves a part of the state alone *)

Definition keeps {S X A} (part : S → X) (m : steps S A) : Prop := ∀ s, part (m s).2 = part s.

Section keeping.
Context {S X : Type} (part : S → X).

Lemma keeps_bind {A B} (m : steps S A) (f : A → steps S B) :
  keeps part m → (∀ a, keeps part (f a)) → keeps part (m ≫= f).
Proof.
  intros Hm Hf s. unfold mbind, steps_bind. specialize (Hm s). destruct (m s) as [[a|] s1]; [|done].
  by rewrite Hf.
Qed.
Lemma keeps_ret {A} (a : A) : keeps part (mret a). Proof. done. Qed.
Lemma keeps_fail {A} : keeps part (@efail S A). Proof. done. Qed.
Lemma keeps_lift {A} (o : option A) : keeps part (elift o). Proof. done. Qed.
Lemma keeps_catch {A} (m : steps S A) : keeps part m → keeps part (ecatch m).
Proof. intros Hm s. unfold ecatch. specialize (Hm s). by destruct (m s). Qed.
Lemma keeps_run {A} (m : steps S A) s r s' : keeps part m → m s = (r, s') → part s' = part s.
Proof. intros Hm H. specialize (Hm s). by rewrite H in Hm. Qed.
End keeping.

(** Proves [keeps] along a sequence of steps. *)
Ltac keep :=
  repeat first
    [ apply keeps_ret | apply keeps_fail | apply keeps_lift | apply keeps_catch
    | apply keeps_bind; [|intros ?]
    | (intros ?; reflexivity)
    | progress cbv beta zeta
    | match goal with |- keeps _ (match ?x with _ => _ end) => destruct x end
    | match goal with |- keeps _ (match ?x with _ => _ end _) => destruct x end
    | match goal with |- keeps _ (match ?x with _ => _ end _ _) => destruct x end
    | match goal with |- keeps _ (match ?x with _ => _ end _ _ _) => destruct x end ].

(** ** Steps on a stream *)

(** A state with a stream: the bytes to come, the bytes sent, the room before a
    write fails, and what no step of the exchange touches. *)
Class Stream (S X : Type) := {
  st_in : S → list Z; st_out : S → list Z; st_room : S → nat; st_rest : S → X }.

Section streams.
Context {S X : Type} {St : Stream S X}.

(** [m] succeeds with [a], reading exactly [inb] and writing exactly [outb]. *)
Definition runs {A} (m : steps S A) (a : A) (inb outb : list Z) : Prop := ∀ s rest,
  st_in s = inb ++ rest → (length outb ≤ st_room s)%nat →
  ∃ s', m s = (Some a, s') ∧ st_in s' = rest ∧ st_out s' = st_out s ++ outb ∧
        (st_room s = length outb + st_room s')%nat ∧ st_rest s' = st_rest s.

Lemma runs_bind {A B} (m : steps S A) (f : A → steps S B) a b i1 i2 o1 o2 :
  runs m a i1 o1 → runs (f a) b i2 o2 → runs (m ≫= f) b (i1 ++ i2) (o1 ++ o2).
Proof.
  intros Hm Hf s rest Hin Hu. rewrite <- app_assoc in Hin. rewrite length_app in Hu.
  destruct (Hm s _ Hin ltac:(lia)) as (s1 & H1 & Hi1 & Ho1 & Hr1 & Hf1).
  destruct (Hf s1 rest Hi1 ltac:(lia)) as (s2 & H2 & Hi2 & Ho2 & Hr2 & Hf2).
  exists s2. split; [by apply (E_step _ _ _ a s1)|]. split; [done|].
  split; [by rewrite Ho2, Ho1, <- app_assoc|]. split; [rewrite length_app; lia|congruence].
Qed.

(** A step that touches no stream first, or one that only writes, or only reads. *)
Lemma runs_then {A B} (m : steps S A) (f : A → steps S B) a b i o :
  runs m a [] [] → runs (f a) b i o → runs (m ≫= f) b i o.
Proof. apply (runs_bind m f a b [] i [] o). Qed.

Lemma runs_bind0 {A B} (m : steps S A) (f : A → steps S B) a b i o1 o2 :
  runs m a [] o1 → runs (f a) b i o2 → runs (m ≫= f) b i (o1 ++ o2).
Proof. apply (runs_bind m f a b [] i). Qed.

Lemma runs_reads {A B} (m : steps S A) (f : A → steps S B) a b i1 i2 o :
  runs m a i1 [] → runs (f a) b i2 o → runs (m ≫= f) b (i1 ++ i2) o.
Proof. apply (runs_bind m f a b i1 i2 [] o). Qed.

Lemma runs_silent {A} (m : steps S A) a : (∀ s, m s = (Some a, s)) → runs m a [] [].
Proof. intros Hm s rest Hin _. exists s. rewrite Hm, app_nil_r. done. Qed.

Lemma runs_ret {A} (a : A) : runs (mret a) a [] [].
Proof. by apply runs_silent. Qed.

Lemma runs_lift {A} (o : option A) a : o = Some a → runs (elift o) a [] [].
Proof. intros ->. by apply runs_silent. Qed.

Lemma runs_catch {A} (m : steps S A) a i o : runs m a i o → runs (ecatch m) (Some a) i o.
Proof.
  intros Hm s rest Hin Hu. destruct (Hm s rest Hin Hu) as (s' & H & Hs). exists s'. unfold ecatch. by rewrite H.
Qed.
(** The same, with the rest of the state changed from [x] to [x']. *)
Definition moves {A} (m : steps S A) (a : A) (inb outb : list Z) (x x' : X) : Prop := ∀ s rest,
  st_in s = inb ++ rest → (length outb ≤ st_room s)%nat → st_rest s = x →
  ∃ s', m s = (Some a, s') ∧ st_in s' = rest ∧ st_out s' = st_out s ++ outb ∧
        (st_room s = length outb + st_room s')%nat ∧ st_rest s' = x'.

Lemma runs_moves {A} (m : steps S A) a i o x : runs m a i o → moves m a i o x x.
Proof. intros Hm s rest Hin Hu <-. by apply Hm. Qed.

Lemma moves_bind {A B} (m : steps S A) (f : A → steps S B) a b i1 i2 o1 o2 x x1 x2 :
  moves m a i1 o1 x x1 → moves (f a) b i2 o2 x1 x2 → moves (m ≫= f) b (i1 ++ i2) (o1 ++ o2) x x2.
Proof.
  intros Hm Hf s rest Hin Hu Hx. rewrite <- app_assoc in Hin. rewrite length_app in Hu.
  destruct (Hm s _ Hin ltac:(lia) Hx) as (s1 & H1 & Hi1 & Ho1 & Hr1 & Hx1).
  destruct (Hf s1 rest Hi1 ltac:(lia) Hx1) as (s2 & H2 & Hi2 & Ho2 & Hr2 & Hx2).
  exists s2. split; [by apply (E_step _ _ _ a s1)|]. split; [done|].
  split; [by rewrite Ho2, Ho1, <- app_assoc|]. split; [rewrite length_app; lia|done].
Qed.

(** A first step that touches no stream, that only reads, that only writes. *)
Lemma moves_then {A B} (m : steps S A) (f : A → steps S B) a b i o x x1 x2 :
  moves m a [] [] x x1 → moves (f a) b i o x1 x2 → moves (m ≫= f) b i o x x2.
Proof. apply (moves_bind m f a b [] i [] o). Qed.
Lemma moves_reads {A B} (m : steps S A) (f : A → steps S B) a b i1 i2 o x x1 x2 :
  moves m a i1 [] x x1 → moves (f a) b i2 o x1 x2 → moves (m ≫= f) b (i1 ++ i2) o x x2.
Proof. apply (moves_bind m f a b i1 i2 [] o). Qed.
Lemma moves_writes {A B} (m : steps S A) (f : A → steps S B) a b i o1 o2 x x1 x2 :
  moves m a [] o1 x x1 → moves (f a) b i o2 x1 x2 → moves (m ≫= f) b i (o1 ++ o2) x x2.
Proof. apply (moves_bind m f a b [] i o1 o2). Qed.

Lemma moves_ret {A} (a : A) x : moves (mret a) a [] [] x x.
Proof. apply runs_moves, runs_ret. Qed.

Lemma moves_catch {A} (m : steps S A) a i o x x' : moves m a i o x x' → moves (ecatch m) (Some a) i o x x'.
Proof.
  intros Hm s rest Hin Hu Hx. destruct (Hm s rest Hin Hu Hx) as (s' & H & Hs). exists s'. unfold ecatch. by rewrite H.
Qed.
End streams.
