(* ===== verification/CText.v ===== *)
(** * Text functions of the C library

    What the configuration parser, the /proc parser and the formatters use of
    string.h, stdlib.h and stdio.h: character classes, [strtol] and its
    variants, [%d] and [%llu], [strchr] and [strstr], [fgets]. A string is the
    list of its bytes before the NUL (see Bytes). *)

From S2P Require Import Prelude Bytes.

Local Open Scope Z_scope.

(** ** Scanning *)

Section scanning.
Context {A : Type}.
Implicit Types (f : A → bool) (l k : list A).

Fixpoint drop_while f l : list A :=
  match l with
  | [] => []
  | x :: l => if f x then drop_while f l else x :: l
  end.

Fixpoint take_while f l : list A :=
  match l with
  | [] => []
  | x :: l => if f x then x :: take_while f l else []
  end.

Lemma take_drop_while f l : take_while f l ++ drop_while f l = l.
Proof. induction l as [|x l IH]; [done|]. cbn. destruct (f x); [|done]. cbn. by rewrite IH. Qed.

(** The next element stops the scan. *)
Definition stops f l : Prop := match l with [] => True | x :: _ => f x = false end.

Lemma drop_while_stops f l : stops f (drop_while f l).
Proof. induction l as [|x l IH]; [done|]. cbn. destruct (f x) eqn:E; [done|]. by cbn. Qed.

Lemma drop_while_app f l k : Forall (λ x, f x = true) l → stops f k → drop_while f (l ++ k) = k.
Proof.
  induction 1 as [|x l Hx Hl IH]; cbn [app].
  - destruct k as [|y k]; [done|]. cbn. by intros ->.
  - cbn. rewrite Hx. done.
Qed.

Lemma take_while_app f l k : Forall (λ x, f x = true) l → stops f k → take_while f (l ++ k) = l.
Proof.
  induction 1 as [|x l Hx Hl IH]; cbn [app].
  - destruct k as [|y k]; [done|]. cbn. by intros ->.
  - intros Hk. cbn. by rewrite Hx, IH.
Qed.

Lemma drop_while_id f l : stops f l → drop_while f l = l.
Proof. apply (drop_while_app f [] l). constructor. Qed.

Lemma drop_while_suffix f l : drop_while f l `suffix_of` l.
Proof. exists (take_while f l). by rewrite take_drop_while. Qed.

Lemma Forall_drop_while (P : A → Prop) f l : Forall P l → Forall P (drop_while f l).
Proof. intros H. rewrite <- (take_drop_while f l), Forall_app in H. apply H. Qed.

Lemma drop_while_length f l : (length (drop_while f l) ≤ length l)%nat.
Proof. destruct (drop_while_suffix f l) as [k Hk]. rewrite Hk at 2. rewrite length_app. lia. Qed.

Lemma drop_while_none f l : Forall (λ x, f x = false) l → drop_while f l = l.
Proof. destruct 1; [done|]. cbn. by rewrite H. Qed.

Lemma take_while_all f l : Forall (λ x, f x = true) (take_while f l).
Proof. induction l as [|x l IH]; [constructor|]. cbn. destruct (f x) eqn:E; by constructor. Qed.
End scanning.

(** [strchr(s, c)]: what precedes the first [c] and what follows it. *)
Fixpoint break_at (c : Z) (s : cstring) : option (cstring * cstring) :=
  match s with
  | [] => None
  | x :: s => if x =? c then Some ([], s)
              else '(a, b) ← break_at c s; Some (x :: a, b)
  end.

Lemma break_at_app c s k : Forall (λ x, x ≠ c) s → break_at c (s ++ c :: k) = Some (s, k).
Proof.
  induction 1 as [|x s Hx Hs IH]; cbn [app break_at].
  - by rewrite Z.eqb_refl.
  - destruct (Z.eqb_spec x c); [done|]. by rewrite IH.
Qed.

Lemma break_at_Some c s a b : break_at c s = Some (a, b) → s = a ++ c :: b ∧ Forall (λ x, x ≠ c) a.
Proof.
  revert a. induction s as [|x s IH]; intros a; cbn [break_at]; [done|].
  destruct (Z.eqb_spec x c) as [->|Hx].
  - intros [= <- <-]. by split.
  - destruct (break_at c s) as [[a' b']|]; [|done]. cbn. intros [= <- <-].
    destruct (IH a' eq_refl) as [-> H]. split; [done|]. by constructor.
Qed.

(** [strncmp(s, p, strlen(p)) == 0] *)
Fixpoint is_prefix (p s : cstring) : bool :=
  match p, s with
  | [], _ => true
  | x :: p, y :: s => (x =? y) && is_prefix p s
  | _ :: _, [] => false
  end.

Lemma is_prefix_spec p s : is_prefix p s = true ↔ ∃ k, s = p ++ k.
Proof.
  revert s. induction p as [|x p IH]; intros [|y s]; cbn [is_prefix app].
  - split; eauto.
  - split; eauto.
  - split; [done|]. by intros [k ?].
  - rewrite andb_true_iff, Z.eqb_eq, IH. split.
    + intros [-> [k ->]]. by exists k.
    + intros [k [= -> ->]]. eauto.
Qed.

(** [strstr(s, p)]: the suffix from the first occurrence on. *)
Fixpoint strstr (p s : cstring) : option cstring :=
  if is_prefix p s then Some s else match s with [] => None | _ :: s => strstr p s end.

(** ** Numbers *)

Definition isspace (c : Z) : bool := (c =? 32) || ((9 <=? c) && (c <=? 13)).
Definition isdigit (c : Z) : bool := (48 <=? c) && (c <=? 57).
Definition is_blank (c : Z) : bool := (c =? 32) || (c =? 9).

(** [%llu]; twenty digits are enough for 64 bits. *)
Fixpoint digits (fuel : nat) (z : Z) (acc : cstring) : cstring :=
  match fuel with
  | O => acc
  | S fuel => let acc := (48 + z mod 10) :: acc in
              if z <? 10 then acc else digits fuel (z / 10) acc
  end.
Definition decimal (z : Z) : cstring := digits 20 z [].

(** [%d] *)
Definition decimal_int (z : Z) : cstring := if z <? 0 then 45 :: decimal (- z) else decimal z.

(** The value of a run of digits, unbounded. *)
Definition digits_value (l : cstring) : Z := fold_left (λ acc c, acc * 10 + (c - 48)) l 0.

(** What the [strto*] functions read: white space, a sign, a run of digits; the
    rest is the end pointer. *)
Record scanned := Scanned { sc_neg : bool; sc_value : Z; sc_rest : cstring; sc_any : bool }.

Definition scan_int (s : cstring) : scanned :=
  let s1 := drop_while isspace s in
  let '(neg, s2) := match s1 with
                    | c :: r => if c =? 45 then (true, r) else if c =? 43 then (false, r) else (false, s1)
                    | [] => (false, s1)
                    end in
  let ds := take_while isdigit s2 in
  let any := bool_decide (ds ≠ []) in
  Scanned neg (digits_value ds) (if any then drop_while isdigit s2 else s) any.

Definition signed_value (n : scanned) : Z := if sc_neg n then - sc_value n else sc_value n.

(** The saturating conversions of a 64-bit [long]. *)
Definition strtol (s : cstring) : Z :=
  let v := signed_value (scan_int s) in Z.max (- 2 ^ 63) (Z.min v (2 ^ 63 - 1)).
Definition strtoul (s : cstring) : Z :=
  let n := scan_int s in if 2 ^ 64 <=? sc_value n then 2 ^ 64 - 1 else u64 (signed_value n).
Definition strtoul_end (s : cstring) : cstring := sc_rest (scan_int s).

(** [(int) strtol(s, NULL, 10)], which is what [atoi] does. *)
Definition atoi (s : cstring) : Z := s32 (strtol s).

Lemma isdigit_range c : isdigit c = true ↔ 48 ≤ c ≤ 57.
Proof. unfold isdigit. rewrite andb_true_iff, !Z.leb_le. done. Qed.

Lemma digits_value_snoc l c : digits_value (l ++ [c]) = digits_value l * 10 + (c - 48).
Proof. unfold digits_value. by rewrite fold_left_app. Qed.

(** The digits of a number: a nonempty run whose value is the number. *)
Lemma digits_spec fuel : ∀ z acc, (0 < fuel)%nat → 0 ≤ z < 10 ^ Z.of_nat fuel →
  ∃ ds, digits fuel z acc = ds ++ acc ∧ ds ≠ [] ∧ Forall (λ c, isdigit c = true) ds ∧
        digits_value ds = z ∧ (length ds ≤ fuel)%nat.
Proof.
  induction fuel as [|fuel IH]; intros z acc Hf Hz; [lia|]. cbn [digits].
  pose proof (Z.mod_pos_bound z 10 ltac:(lia)) as Hm.
  destruct (Z.ltb_spec z 10) as [Hs|Hs].
  - exists [48 + z mod 10]. split; [done|]. split; [done|]. rewrite Z.mod_small by lia. split.
    + constructor; [|constructor]. apply isdigit_range. lia.
    + split; [unfold digits_value; cbn; lia|cbn; lia].
  - rewrite Nat2Z.inj_succ, Z.pow_succ_r in Hz by lia.
    destruct (decide (fuel = 0%nat)) as [->|Hfz]; [cbn in Hz; lia|].
    assert (Hq : 0 ≤ z / 10 < 10 ^ Z.of_nat fuel)
      by (split; [apply Z.div_pos; lia|apply Z.div_lt_upper_bound; lia]).
    destruct (IH (z / 10) ((48 + z mod 10) :: acc)) as (ds & -> & Hne & Hd & Hv & Hl); [lia|done|].
    exists (ds ++ [48 + z mod 10]). rewrite <- app_assoc. split; [done|]. split; [by destruct ds|]. split.
    + apply Forall_app. split; [done|]. constructor; [|constructor]. apply isdigit_range. lia.
    + rewrite digits_value_snoc, Hv, length_app. cbn. split; [|lia].
      pose proof (Z.div_mod z 10). lia.
Qed.

Lemma decimal_spec z : in_width 64 z →
  ∃ d ds, decimal z = d :: ds ∧ Forall (λ c, isdigit c = true) (d :: ds) ∧
          digits_value (d :: ds) = z ∧ (length (d :: ds) ≤ 20)%nat.
Proof.
  intros [H0 H1]. destruct (digits_spec 20 z []) as (ds & Heq & Hne & Hd & Hv & Hl); [lia| |].
  { split; [done|]. eapply Z.lt_trans; [exact H1|]. by vm_compute. }
  unfold decimal. rewrite Heq, app_nil_r. destruct ds as [|d ds]; [done|]. by exists d, ds.
Qed.

(** Every byte of a printed integer is a digit or the sign. *)
Lemma decimal_int_chars z : - 2 ^ 63 ≤ z < 2 ^ 64 →
  Forall (λ c, isdigit c = true ∨ c = 45) (decimal_int z) ∧ decimal_int z ≠ [] ∧
  (length (decimal_int z) ≤ 21)%nat.
Proof.
  intros Hz. unfold decimal_int. destruct (Z.ltb_spec z 0).
  - destruct (decimal_spec (- z)) as (d & ds & -> & Hd & _ & Hl); [unfold in_width; lia|].
    split; [|split; [done|cbn in *; lia]]. constructor; [by right|]. eapply Forall_impl; [exact Hd|]. by left.
  - destruct (decimal_spec z) as (d & ds & -> & Hd & _ & Hl); [unfold in_width; lia|].
    split; [|split; [done|cbn in *; lia]]. eapply Forall_impl; [exact Hd|]. by left.
Qed.

Lemma digit_not_space c : isdigit c = true → isspace c = false ∧ c ≠ 45 ∧ c ≠ 43.
Proof. rewrite isdigit_range. unfold isspace. intros. split; [|lia]. ig_bools; lia || done. Qed.

(** Reading back a printed integer, whatever follows it but a digit. *)
Lemma scan_decimal_int z rest : - 2 ^ 63 ≤ z < 2 ^ 64 → stops isdigit rest →
  scan_int (decimal_int z ++ rest) = Scanned (z <? 0) (Z.abs z) rest true.
Proof.
  intros Hz Hr. unfold decimal_int, scan_int. destruct (Z.ltb_spec z 0) as [Hn|Hn].
  - destruct (decimal_spec (- z)) as (d & ds & -> & Hd & Hv & _); [unfold in_width; lia|].
    cbn [app]. rewrite drop_while_id by done. rewrite Z.eqb_refl, app_comm_cons.
    rewrite take_while_app, drop_while_app by done. rewrite bool_decide_eq_true_2 by done.
    f_equal. rewrite Hv. lia.
  - destruct (decimal_spec z) as (d & ds & -> & Hd & Hv & _); [unfold in_width; lia|].
    pose proof (Forall_inv Hd) as (Hs & H45 & H43)%digit_not_space. cbn [app].
    rewrite drop_while_id by done. rewrite (proj2 (Z.eqb_neq _ _) H45), (proj2 (Z.eqb_neq _ _) H43).
    rewrite app_comm_cons, take_while_app, drop_while_app by done. rewrite bool_decide_eq_true_2 by done.
    f_equal. rewrite Hv. lia.
Qed.

Lemma strtol_decimal_int z rest : - 2 ^ 63 ≤ z < 2 ^ 63 → stops isdigit rest →
  strtol (decimal_int z ++ rest) = z.
Proof.
  intros Hz Hr. unfold strtol. rewrite scan_decimal_int by (done || lia). unfold signed_value. cbn.
  destruct (Z.ltb_spec z 0); lia.
Qed.

Lemma strtoul_decimal_int z rest : - 2 ^ 63 ≤ z < 2 ^ 64 → stops isdigit rest →
  strtoul (decimal_int z ++ rest) = u64 z.
Proof.
  intros Hz Hr. unfold strtoul. rewrite scan_decimal_int by done. unfold signed_value. cbn [sc_neg sc_value].
  destruct (Z.leb_spec (2 ^ 64) (Z.abs z)); [lia|]. destruct (Z.ltb_spec z 0); f_equal; lia.
Qed.

Lemma atoi_decimal_int z rest : - 2 ^ 31 ≤ z < 2 ^ 31 → stops isdigit rest →
  atoi (decimal_int z ++ rest) = z.
Proof. intros Hz Hr. unfold atoi. rewrite strtol_decimal_int by (done || lia). by apply s32_small. Qed.

Lemma strtol_range s : - 2 ^ 63 ≤ strtol s < 2 ^ 63.
Proof. unfold strtol. lia. Qed.
Lemma strtoul_range s : in_width 64 (strtoul s).
Proof.
  unfold strtoul. destruct (Z.leb_spec (2 ^ 64) (sc_value (scan_int s))); [unfold in_width; lia|].
  apply wrap_range. lia.
Qed.

(** ** Lines *)

(** One [fgets(line, n + 1, fp)] on what is left of the file: at most [n] bytes,
    up to and including a newline. *)
Fixpoint fgets (n : nat) (l : list Z) : list Z * list Z :=
  match n, l with
  | O, _ => ([], l)
  | _, [] => ([], [])
  | S n, c :: l => if c =? 10 then ([c], l) else let '(a, b) := fgets n l in (c :: a, b)
  end.

(** [while (fgets(...))]: the chunks until the end of the file. *)
Fixpoint read_lines (fuel n : nat) (l : list Z) : list (list Z) :=
  match fuel, l with
  | O, _ | _, [] => []
  | S fuel, _ => let '(a, b) := fgets n l in a :: read_lines fuel n b
  end.

Definition file_lines (n : nat) (l : list Z) : list (list Z) := read_lines (length l) n l.

Lemma fgets_app n l : (fgets n l).1 ++ (fgets n l).2 = l ∧ (length (fgets n l).1 ≤ n)%nat.
Proof.
  revert l. induction n as [|n IH]; intros [|c l]; cbn [fgets]; try done.
  { split; [done|]. cbn. lia. }
  destruct (c =? 10); [split; [done|cbn; lia]|]. specialize (IH l). destruct (fgets n l) as [a b]. cbn in *.
  destruct IH as [-> IH]. split; [done|lia].
Qed.

Lemma fgets_shrinks n l : (0 < n)%nat → l ≠ [] → (length (fgets n l).2 < length l)%nat.
Proof.
  intros Hn Hl. destruct n as [|n]; [lia|]. destruct l as [|c l]; [done|]. cbn [fgets].
  destruct (c =? 10); [cbn; lia|]. destruct (fgets_app n l) as [H _]. destruct (fgets n l) as [a b].
  cbn in *. apply (f_equal length) in H. rewrite length_app in H. lia.
Qed.

(** The fuel is enough: the chunks are the whole file. *)
Lemma read_lines_all fuel n l : (0 < n)%nat → (length l ≤ fuel)%nat → mjoin (read_lines fuel n l) = l.
Proof.
  intros Hn. revert l. induction fuel as [|fuel IH]; intros [|c l] Hf; cbn [read_lines]; try done; [cbn in Hf; lia|].
  destruct (fgets_app n (c :: l)) as [Ha _]. pose proof (fgets_shrinks n (c :: l) Hn ltac:(done)) as Hs.
  destruct (fgets n (c :: l)) as [a b]. cbn [fst snd] in *.
  change (mjoin (a :: ?x)) with (a ++ mjoin x). rewrite IH by lia. done.
Qed.

Lemma read_lines_short fuel n l : Forall (λ s, (length s ≤ n)%nat) (read_lines fuel n l).
Proof.
  revert l. induction fuel as [|fuel IH]; intros [|c l]; cbn [read_lines]; try constructor.
  destruct (fgets_app n (c :: l)) as [_ H]. destruct (fgets n (c :: l)) as [a b]. by constructor.
Qed.

Lemma fgets_line n s l : Forall (λ c, c ≠ 10) s → (length s < n)%nat →
  fgets n (s ++ 10 :: l) = (s ++ [10], l).
Proof.
  intros Hs. revert n. induction Hs as [|c s Hc Hs IH]; intros [|n] Hn; cbn [app fgets length] in *; try lia.
  - done.
  - destruct (Z.eqb_spec c 10); [done|]. by rewrite IH by lia.
Qed.

Lemma read_lines_fuel fuel n l : (0 < n)%nat → (length l ≤ fuel)%nat →
  read_lines fuel n l = file_lines n l.
Proof.
  intros Hn. unfold file_lines. remember (length l) as m eqn:Hm. assert (Hlm : (length l ≤ m)%nat) by lia.
  clear Hm. revert m l Hlm. induction fuel as [|fuel IH]; intros m l Hlm Hf.
  { assert (l = []) as -> by (destruct l; [done|cbn in *; lia]). by destruct m. }
  destruct l as [|c l]; [by destruct m|]. destruct m as [|m]; [cbn in Hlm; lia|]. cbn [read_lines].
  pose proof (fgets_shrinks n (c :: l) Hn ltac:(done)) as Hs.
  destruct (fgets n (c :: l)) as [a b]. cbn [fst snd] in *. f_equal. apply IH; lia.
Qed.

(** A file of short lines is read line by line. *)
Lemma file_lines_lines n ls : Forall (λ s, Forall (λ c, c ≠ 10) s ∧ (length s < n)%nat) ls →
  file_lines n (mjoin ((λ s, s ++ [10]) <$> ls)) = (λ s, s ++ [10]) <$> ls.
Proof.
  induction 1 as [|s ls [Hs Hn] Hls IH]; [done|].
  change (mjoin ((λ s, s ++ [10]) <$> s :: ls)) with ((s ++ [10]) ++ mjoin ((λ s, s ++ [10]) <$> ls)).
  set (k := mjoin _) in *. rewrite <- app_assoc. cbn [app]. unfold file_lines.
  destruct (s ++ 10 :: k) as [|c l] eqn:E; [by destruct s|]. cbn [length read_lines].
  rewrite <- E. rewrite fgets_line by done. cbn [fmap list_fmap]. f_equal.
  rewrite read_lines_fuel; [exact IH|lia|]. apply (f_equal length) in E. rewrite length_app in E. cbn in E. lia.
Qed.
