(* ===== verification/Monitor.v ===== *)
(** * Shared data of the agent

    The types of realtime/monitor.h and scanner/pid_ancestry.h that the queue,
    the transport, the kernel back ends and the main loop exchange. A [char]
    array is the string it holds (see Bytes). *)

From S2P Require Import Prelude Bytes.

Local Open Scope Z_scope.

(** ** Process ancestry (scanner/pid_ancestry.h) *)

Definition IG_PA_COMM_LEN : nat := 16.
Definition IG_PA_EXE_LEN : nat := 256.
Definition IG_PA_CMDLINE_LEN : nat := 512.
Definition IG_PA_TTY_LEN : nat := 32.
Definition IG_PA_MAX_DEPTH : nat := 16.

(* @src scanner/pid_ancestry.h:22-34 ig_proc_info_t *)
Record ig_proc_info := ProcInfo {
  pi_pid : Z; pi_ppid : Z; pi_uid : Z; pi_euid : Z; pi_sid : Z;
  pi_tty : cstring; pi_comm : cstring; pi_exe : cstring; pi_cmdline : cstring;
  pi_start_ticks : Z; pi_start_time_ns : Z }.

#[export] Instance ig_proc_info_eq_dec : EqDecision ig_proc_info.
Proof. solve_decision. Defined.

(** [memset(e, 0, sizeof *e)] *)
Definition proc_info_zero : ig_proc_info := ProcInfo 0 0 0 0 0 [] [] [] [] 0 0.

(* @src scanner/pid_ancestry.h:36-40 ig_pid_chain_t *)
Record ig_pid_chain := PidChain {
  ch_depth : Z; ch_truncated : Z; ch_chain : list ig_proc_info }.

#[export] Instance ig_pid_chain_eq_dec : EqDecision ig_pid_chain.
Proof. solve_decision. Defined.

Definition pid_chain_zero : ig_pid_chain :=
  PidChain 0 0 (replicate IG_PA_MAX_DEPTH proc_info_zero).

(** What the structs hold: strings of bytes, a chain of [IG_PA_MAX_DEPTH] slots. *)
Definition wf_proc_info (e : ig_proc_info) : Prop :=
  in_width 64 (pi_start_time_ns e) ∧ bytes (pi_comm e) ∧ bytes (pi_tty e) ∧
  bytes (pi_exe e) ∧ bytes (pi_cmdline e).

Definition wf_chain (c : ig_pid_chain) : Prop :=
  length (ch_chain c) = IG_PA_MAX_DEPTH ∧ 0 ≤ ch_depth c < 2 ^ 31 ∧ Forall wf_proc_info (ch_chain c).

(** The interface of scanner/pid_ancestry.c for the event handlers: enrichment
    of an entry from [/proc], and the entry of a live process (the head of
    [ig_pa_resolve]'s chain). The module ProcAncestry is its instance. *)
Class ProcSource := {
  pa_enrich : ig_proc_info → ig_proc_info;
  pa_resolve : Z → option ig_proc_info }.

(** Enrichment fills in names and nothing else; what is found is well formed. *)
Class ProcSourceLaws (P : ProcSource) : Prop := {
  pa_enrich_wf e : wf_proc_info e → wf_proc_info (pa_enrich e);
  pa_enrich_pid e : pi_pid (pa_enrich e) = pi_pid e;
  pa_resolve_wf pid e : pa_resolve pid = Some e → wf_proc_info e }.

(** The source that knows no process. *)
Definition no_proc : ProcSource := {| pa_enrich := λ e, e; pa_resolve := λ _, None |}.
Lemma no_proc_laws : ProcSourceLaws no_proc.
Proof. split; [intros e He; exact He|reflexivity|discriminate]. Qed.

(** ** Events (realtime/monitor.h) *)

Definition IG_MAX_PATH : nat := 4096.
Definition IG_EVENT_QUEUE_SIZE : nat := 512.
Definition IG_MAX_WATCHES : nat := 64.

(* @src realtime/monitor.h:33-41 ig_event_type_t *)
Inductive ig_event_type :=
  | IG_EVENT_CREATE | IG_EVENT_MODIFY | IG_EVENT_DELETE | IG_EVENT_ATTRIB
  | IG_EVENT_MOVE | IG_EVENT_ACCESS | IG_EVENT_UNKNOWN.

#[export] Instance ig_event_type_eq_dec : EqDecision ig_event_type.
Proof. solve_decision. Defined.

(* @src realtime/monitor.h:44-49 ig_event_source_t *)
Inductive ig_event_source :=
  | IG_SOURCE_INOTIFY | IG_SOURCE_EBPF | IG_SOURCE_LKM | IG_SOURCE_FANOTIFY.

#[export] Instance ig_event_source_eq_dec : EqDecision ig_event_source.
Proof. solve_decision. Defined.

(* @src realtime/monitor.h:59-76 ig_event_t *)
Record ig_event := Event {
  ev_type : ig_event_type;
  ev_source : ig_event_source;
  ev_path : cstring;
  ev_filename : cstring;
  ev_timestamp : Z;
  ev_dev : Z;
  ev_ino : Z;
  ev_blocked : Z;
  ev_pid : Z;
  ev_uid : Z;
  ev_sid : Z;
  ev_comm : cstring;
  ev_chain : ig_pid_chain }.

#[export] Instance ig_event_eq_dec : EqDecision ig_event.
Proof. solve_decision. Defined.

(** A watched path, with its [recursive] flag. *)
(* @src realtime/monitor.h:97-100 ig_watch_entry_t *)
Definition watch : Type := cstring * bool.

(** The counts are the lengths of the lists. *)
(* @src realtime/monitor.h:103-119 ig_config_t *)
Record ig_config := Config {
  cfg_daemonize : Z; cfg_log_file : cstring; cfg_log_to_syslog : Z; cfg_verbose : Z;
  cfg_ebpf_enabled : Z; cfg_watches : list watch; cfg_protect_paths : list watch }.

(** [memset(&ev, 0, sizeof ev)]: type 0 is [IG_EVENT_UNKNOWN], source 0 is
    [IG_SOURCE_INOTIFY]. *)
Definition event_zero : ig_event :=
  Event IG_EVENT_UNKNOWN IG_SOURCE_INOTIFY [] [] 0 0 0 0 0 0 0 [] pid_chain_zero.

(** What an [ig_event_t] holds: strings inside their arrays, integers in width. *)
Definition wf_event (ev : ig_event) : Prop :=
  (length (ev_path ev) < 4096)%nat ∧ bytes (ev_path ev) ∧
  (length (ev_filename ev) < 256)%nat ∧ bytes (ev_filename ev) ∧
  bytes (ev_comm ev) ∧
  in_width 64 (ev_dev ev) ∧ in_width 64 (ev_ino ev) ∧ wf_chain (ev_chain ev).

Lemma wf_proc_info_zero : wf_proc_info proc_info_zero.
Proof. unfold wf_proc_info. split_and!; try constructor; done. Qed.

Lemma wf_pid_chain_zero : wf_chain pid_chain_zero.
Proof. split_and!; [done..|]. apply Forall_replicate, wf_proc_info_zero. Qed.

(** Bytes of an ASCII literal. *)
From Stdlib Require Ascii String.
Export String.StringSyntax.

Fixpoint lit (s : String.string) : cstring :=
  match s with
  | String.EmptyString => []
  | String.String c s => Z.of_nat (Ascii.nat_of_ascii c) :: lit s
  end.
#[global] Arguments lit s%_string_scope.

Lemma bytes_lit s : bytes (lit s).
Proof.
  induction s as [|c s IH]; [constructor|]. cbn [lit]. constructor; [|done].
  pose proof (Ascii.nat_ascii_bounded c). unfold is_byte. lia.
Qed.
#[export] Hint Resolve bytes_lit : ig.

(** A decidable statement about literals, by evaluation. *)
Ltac by_decide :=
  unfold is_cstring; match goal with |- ?P => refine (bool_decide_unpack P _); vm_compute; exact I end.
