(* ===== verification/ProcAncestry.v ===== *)
(** * Process ancestry from /proc (scanner/pid_ancestry.c)

    The parsers of /proc/<pid>/stat, status, exe and cmdline, the walk from a
    process to its ancestors, and the two text formats of a chain. The /proc
    file system is a parameter; the cache over it is the file PaCache. *)

From S2P Require Import Prelude Bytes CText Monitor.

Local Open Scope Z_scope.

(** ** /proc *)

(** [pf_read path n]: what [open] and one [read] of at most [n] bytes give;
    [pf_readlink path n]: the first [n] bytes of the target. *)
Record procfs := ProcFs {
  pf_read : cstring → nat → option (list Z); pf_readlink : cstring → nat → option (list Z) }.

(** As documented: at most the bytes asked for. *)
Definition procfs_ok (fs : procfs) : Prop :=
  (∀ path n bs, pf_read fs path n = Some bs → bytes bs ∧ (length bs ≤ n)%nat) ∧
  (∀ path n bs, pf_readlink fs path n = Some bs → bytes bs ∧ (length bs ≤ n)%nat).

(** [snprintf(path, sizeof(path), "/proc/%d/<name>", pid)] *)
Definition proc_path (pid : Z) (name : cstring) : cstring :=
  take 63 (lit "/proc/" ++ decimal_int pid ++ 47 :: name).

(** The bytes read; the code puts a NUL behind them. *)
(* @src scanner/pid_ancestry.c:56-66 read_file_buf *)
Definition read_file_buf (fs : procfs) (path : cstring) (buflen : nat) : option (list Z) :=
  pf_read fs path (buflen - 1).

(** [g_boot_epoch_s], 0 until it is known, and [g_clock_tck]. *)
(* @src scanner/pid_ancestry.c:32-33 g_boot_epoch_s *)
Record boot_meta := BootMeta { boot_epoch_s : Z; clock_tck : Z }.

(** [sscanf(line, "btime %llu", &btime) == 1] *)
Definition sscanf_btime (line : cstring) : option Z :=
  if is_prefix (lit "btime") line then
    let n := drop_while isspace (drop 5 line) in
    if sc_any (scan_int n) then Some (strtoul n) else None
  else None.

(** [tck]: what [sysconf(_SC_CLK_TCK)] returns; [stat]: the content of
    /proc/stat, [None] when it cannot be opened. *)
(* @src scanner/pid_ancestry.c:35-52 load_boot_meta *)
Definition load_boot_meta (b : boot_meta) (tck : Z) (stat : option (list Z)) : boot_meta :=
  if negb (boot_epoch_s b =? 0) then b
  else
    let t := if 0 <? tck then tck else clock_tck b in
    match stat with
    | None => BootMeta 0 t
    | Some content =>
        BootMeta (default 0 (head (omap sscanf_btime (cstr <$> file_lines 255 content)))) t
    end.

(** ** Parsers *)

(** The position of the last [c] among the bytes. *)
Fixpoint last_index (c : Z) (l : list Z) : option nat :=
  match l with
  | [] => None
  | x :: l => match last_index c l with
              | Some i => Some (S i)
              | None => if x =? c then Some 0%nat else None
              end
  end.

(* @src scanner/pid_ancestry.c:69-88 format_tty *)
Definition format_tty (tty_nr : Z) : cstring :=
  if tty_nr =? 0 then []
  else
    let major_n := Z.land (Z.shiftr tty_nr 8) 0xFF in
    let minor_n := Z.lor (Z.land tty_nr 0xFF) (Z.land (Z.shiftr tty_nr 12) 0xFFF00) in
    if major_n =? 136 then strncpy (lit "pts/" ++ decimal minor_n) 31
    else if major_n =? 4 then strncpy (lit "tty" ++ decimal minor_n) 31
    else strncpy (lit "tty:" ++ decimal major_n ++ 44 :: decimal minor_n) 31.

(** The fields the loop picks up. *)
Record stat_fields := StatFields { sf_ppid : Z; sf_sid : Z; sf_tty : Z; sf_start : Z }.

Definition take_field (field : nat) (p : cstring) (s : stat_fields) : stat_fields :=
  match field with
  | 4%nat => StatFields (strtol p) (sf_sid s) (sf_tty s) (sf_start s)
  | 6%nat => StatFields (sf_ppid s) (strtol p) (sf_tty s) (sf_start s)
  | 7%nat => StatFields (sf_ppid s) (sf_sid s) (strtoul p) (sf_start s)
  | 22%nat => StatFields (sf_ppid s) (sf_sid s) (sf_tty s) (strtoul p)
  | _ => s
  end.

Definition is_space (c : Z) : bool := c =? 32.
Definition not_space (c : Z) : bool := negb (c =? 32).

(** [n] fields are left up to the 22nd; [next] ends the field read. *)
(* @src scanner/pid_ancestry.c:118-140 parse_stat *)
Fixpoint field_loop (n field : nat) (p : cstring) (s : stat_fields) : stat_fields :=
  match n, p with
  | O, _ | _, [] => s
  | S n, _ =>
      let p := drop_while is_space p in
      field_loop n (S field) (drop_while not_space p) (take_field field (take_while not_space p) s)
  end.

(* @src scanner/pid_ancestry.c:147-154 parse_stat *)
Definition start_time_ns (b : boot_meta) (start_ticks : Z) : Z :=
  if negb (boot_epoch_s b =? 0) && (0 <? clock_tck b)
  then u64 (u64 (boot_epoch_s b * 1000000000) + u64 (start_ticks * (1000000000 / clock_tck b)))
  else 0.

(** The parts of the line: the bytes between the first parenthesis opened and
    the last one closed, and the text after the latter. *)
(* @src scanner/pid_ancestry.c:98-111 parse_stat *)
Definition split_stat (buf : list Z) : option (list Z * cstring) :=
  r ← last_index 41 buf;
  l ← find_index (λ c, c =? 40) (cstr buf);
  if (r <=? l)%nat then None
  else Some (take (r - l - 1) (drop (S l) buf), cstr (drop (S r) buf)).

(* @src scanner/pid_ancestry.c:91-156 parse_stat *)
Definition parse_stat (fs : procfs) (b : boot_meta) (pid : Z) (info : ig_proc_info) : option ig_proc_info :=
  buf ← read_file_buf fs (proc_path pid (lit "stat")) 1024;
  '(comm, rest) ← split_stat buf;
  let p := drop_while not_space (drop_while is_space rest) in
  let s := field_loop 19 4 p (StatFields 0 0 0 0) in
  Some (ProcInfo (pi_pid info) (s32 (sf_ppid s)) (pi_uid info) (pi_euid info) (s32 (sf_sid s))
          (format_tty (sf_tty s)) (strncpy comm (IG_PA_COMM_LEN - 1)) (pi_exe info) (pi_cmdline info)
          (sf_start s) (start_time_ns b (sf_start s))).

Definition set_uids (uid : Z) (euid : option Z) (i : ig_proc_info) : ig_proc_info :=
  ProcInfo (pi_pid i) (pi_ppid i) uid (default (pi_euid i) euid) (pi_sid i) (pi_tty i) (pi_comm i)
    (pi_exe i) (pi_cmdline i) (pi_start_ticks i) (pi_start_time_ns i).

(** The text after the "Uid:" of a line that starts with it. *)
Definition uid_line (buf : cstring) : option cstring :=
  match strstr (10 :: lit "Uid:") buf with
  | Some p => Some (drop 5 p)
  | None => if is_prefix (lit "Uid:") buf then Some (drop 4 buf) else None
  end.

(* @src scanner/pid_ancestry.c:159-182 parse_status_uid *)
Definition parse_status_uid (fs : procfs) (pid : Z) (info : ig_proc_info) : ig_proc_info :=
  match read_file_buf fs (proc_path pid (lit "status")) 2048 with
  | None => info
  | Some buf =>
      match uid_line (cstr buf) with
      | None => info
      | Some p =>
          let p := drop_while is_blank p in
          let e := drop_while is_blank (strtoul_end p) in
          let euid := match e with
                      | [] => None
                      | c :: _ => if c =? 10 then None else Some (u32 (strtoul e))
                      end in
          set_uids (u32 (strtoul p)) euid info
      end
  end.

Definition set_exe (exe : cstring) (i : ig_proc_info) : ig_proc_info :=
  ProcInfo (pi_pid i) (pi_ppid i) (pi_uid i) (pi_euid i) (pi_sid i) (pi_tty i) (pi_comm i)
    exe (pi_cmdline i) (pi_start_ticks i) (pi_start_time_ns i).
Definition set_cmdline (cmdline : cstring) (i : ig_proc_info) : ig_proc_info :=
  ProcInfo (pi_pid i) (pi_ppid i) (pi_uid i) (pi_euid i) (pi_sid i) (pi_tty i) (pi_comm i)
    (pi_exe i) cmdline (pi_start_ticks i) (pi_start_time_ns i).

(* @src scanner/pid_ancestry.c:184-191 parse_exe *)
Definition parse_exe (fs : procfs) (pid : Z) (info : ig_proc_info) : ig_proc_info :=
  match pf_readlink fs (proc_path pid (lit "exe")) (IG_PA_EXE_LEN - 1) with
  | None => set_exe [] info
  | Some bs => set_exe (cstr bs) info
  end.

(** NULs but the last byte become spaces; then trailing spaces go. *)
Definition join_args (bs : list Z) : list Z :=
  let n := (length bs - 1)%nat in
  ((λ c, if c =? 0 then 32 else c) <$> take n bs) ++ drop n bs.
Definition trim_end (s : cstring) : cstring := rev (drop_while is_space (rev s)).

(* @src scanner/pid_ancestry.c:193-210 parse_cmdline *)
Definition parse_cmdline (fs : procfs) (pid : Z) (info : ig_proc_info) : ig_proc_info :=
  match read_file_buf fs (proc_path pid (lit "cmdline")) IG_PA_CMDLINE_LEN with
  | None | Some [] => set_cmdline [] info
  | Some bs => set_cmdline (trim_end (cstr (join_args bs))) info
  end.

Definition proc_info_of_pid (pid : Z) : ig_proc_info := ProcInfo pid 0 0 0 0 [] [] [] [] 0 0.

(* @src scanner/pid_ancestry.c:212-221 load_proc_info *)
Definition load_proc_info (fs : procfs) (b : boot_meta) (pid : Z) : option ig_proc_info :=
  info ← parse_stat fs b pid (proc_info_of_pid pid);
  Some (parse_cmdline fs pid (parse_exe fs pid (parse_status_uid fs pid info))).

(* @src scanner/pid_ancestry.c:224-229 ig_pa_enrich_entry *)
Definition ig_pa_enrich_entry (fs : procfs) (info : ig_proc_info) : ig_proc_info :=
  if pi_pid info <=? 0 then info
  else
    let info := if bool_decide (pi_exe info = []) then parse_exe fs (pi_pid info) info else info in
    if bool_decide (pi_cmdline info = []) then parse_cmdline fs (pi_pid info) info else info.

(** ** The chain *)

(** The entries from [cur] on and the truncation flag; [fs i] is /proc while
    the [i]-th process is read. *)
(* @src scanner/pid_ancestry.c:239-254 ig_pa_resolve *)
Fixpoint resolve_loop (fuel i : nat) (fs : nat → procfs) (b : boot_meta) (cur : Z)
    : list ig_proc_info * bool :=
  match fuel with
  | O => ([], false)
  | S fuel =>
      match load_proc_info (fs i) b cur with
      | None => ([], true)
      | Some e =>
          if (pi_ppid e <=? 1) || (pi_ppid e =? cur) then ([e], false)
          else
            let (es, tr) := resolve_loop fuel (S i) fs b (pi_ppid e) in
            (e :: es, match fuel with O => true | _ => tr end)
      end
  end.

(** [out->chain] past [depth]: a failed read leaves the slot of the missing
    process with its pid and, from a parse that stopped, nothing else. *)
Definition chain_slots (es : list ig_proc_info) (rest : list ig_proc_info) : list ig_proc_info :=
  take IG_PA_MAX_DEPTH (es ++ rest ++ replicate IG_PA_MAX_DEPTH proc_info_zero).

(** The slot written by the failed read, if there was one. *)
Definition failed_slot (pid : Z) (es : list ig_proc_info) (tr : bool) : list ig_proc_info :=
  if tr && (length es <? IG_PA_MAX_DEPTH)%nat
  then [proc_info_of_pid (match last es with Some e => pi_ppid e | None => pid end)] else [].

(* @src scanner/pid_ancestry.c:233-256 ig_pa_resolve *)
Definition ig_pa_resolve (fs : nat → procfs) (b : boot_meta) (pid : Z) : ig_pid_chain :=
  if pid <=? 0 then pid_chain_zero
  else
    let (es, tr) := resolve_loop IG_PA_MAX_DEPTH 0 fs b pid in
    PidChain (Z.of_nat (length es)) (if tr : bool then 1 else 0) (chain_slots es (failed_slot pid es tr)).

(** ** Text formats

    [snprintf] at the end of a text in a buffer of [n] bytes: the text grown by
    the piece, or, when the piece does not fit, the position where it started
    and the text cut at [n - 1] bytes. *)
Fixpoint append_all (n : nat) (pieces : list cstring) (out : cstring) : cstring + nat * cstring :=
  match pieces with
  | [] => inl out
  | p :: pieces =>
      if (n - length out <=? length p)%nat then inr (length out, take (n - 1) (out ++ p))
      else append_all n pieces (out ++ p)
  end.

Definition comm_text (e : ig_proc_info) : cstring :=
  match pi_comm e with [] => lit "?" | c => c end.

(** ["%s%s(%d)"] *)
Definition short_piece (i : nat) (e : ig_proc_info) : cstring :=
  (match i with O => [] | _ => lit "<-" end) ++ comm_text e ++ lit "(" ++ decimal_int (pi_pid e) ++ lit ")".

Definition chain_entries (c : ig_pid_chain) : list ig_proc_info := take (Z.to_nat (ch_depth c)) (ch_chain c).

(** The result code and the string in [buf]. *)
(* @src scanner/pid_ancestry.c:258-285 ig_pa_format *)
Definition ig_pa_format (c : ig_pid_chain) (buflen : nat) : Z * cstring :=
  if (buflen =? 0)%nat then (-1, [])
  else match append_all buflen (imap short_piece (chain_entries c)) [] with
       | inr (off, text) =>
           (-1, if (4 <=? buflen)%nat
                then take (if (off + 3 <? buflen)%nat then off else buflen - 4) text ++ lit "..."
                else text)
       | inl out =>
           (Z.of_nat (length out),
            if negb (ch_truncated c =? 0) && (length out + 4 <? buflen)%nat then out ++ lit "<-?" else out)
       end.

Definition opt_piece (cond : bool) (p : cstring) : list cstring := if cond then [p] else [].

(* @src scanner/pid_ancestry.c:304-317 ig_pa_format_full *)
Definition full_pieces (i : nat) (e : ig_proc_info) : list cstring :=
  [10 :: lit "  [" ++ decimal_int (Z.of_nat i) ++ lit "] " ++ comm_text e ++ lit "(" ++ decimal_int (pi_pid e)
     ++ lit ") ppid=" ++ decimal_int (pi_ppid e) ++ lit " uid=" ++ decimal (pi_uid e) ++ lit "/"
     ++ decimal (pi_euid e) ++ lit " sid=" ++ decimal_int (pi_sid e)]
  ++ opt_piece (bool_decide (pi_tty e ≠ [])) (lit " tty=" ++ pi_tty e)
  ++ opt_piece (bool_decide (pi_exe e ≠ [])) (lit " exe=" ++ pi_exe e)
  ++ opt_piece (negb (pi_start_time_ns e =? 0)) (lit " start=" ++ decimal (pi_start_time_ns e) ++ lit "ns")
  ++ opt_piece (bool_decide (pi_cmdline e ≠ [])) (10 :: lit "      cmdline: " ++ pi_cmdline e).

Definition full_text (c : ig_pid_chain) : list cstring :=
  if ch_depth c =? 0 then [lit "(no chain)"]
  else mjoin (imap full_pieces (chain_entries c))
       ++ opt_piece (negb (ch_truncated c =? 0)) (10 :: lit "  [..] (truncated)").

(* @src scanner/pid_ancestry.c:287-329 ig_pa_format_full *)
Definition ig_pa_format_full (c : ig_pid_chain) (buflen : nat) : Z * cstring :=
  if (buflen =? 0)%nat then (-1, [])
  else match append_all buflen (full_text c) [] with
       | inl out => (Z.of_nat (length out), out)
       | inr (off, text) =>
           (-1, if (5 <=? buflen)%nat
                then take (if (off + 4 <? buflen)%nat then off else buflen - 5) text ++ lit "..."
                else text)
       end.

(** ** Lemmas *)

Lemma last_index_app c l k : Forall (λ x, x ≠ c) k → last_index c (l ++ c :: k) = Some (length l).
Proof.
  intros Hk. assert (Hn : last_index c k = None).
  { induction Hk as [|x k Hx Hk IH]; [done|]. cbn. rewrite IH. by destruct (Z.eqb_spec x c). }
  induction l as [|x l IH]; cbn [app last_index length]; [by rewrite Hn, Z.eqb_refl|]. by rewrite IH.
Qed.

Lemma find_index_app (f : Z → bool) l x k :
  Forall (λ y, f y = false) l → f x = true → find_index f (l ++ x :: k) = Some (length l).
Proof.
  intros Hl Hx. induction Hl as [|y l Hy Hl IH]; cbn [app find_index length]; [by rewrite Hx|].
  by rewrite Hy, IH.
Qed.

Lemma cstr_app_id s k : is_cstring s → cstr (s ++ k) = s ++ cstr k.
Proof. induction 1 as [|c s Hc Hs IH]; [done|]. cbn. destruct (Z.eqb_spec c 0); [done|]. by rewrite IH. Qed.

Lemma is_cstring_app s k : is_cstring (s ++ k) ↔ is_cstring s ∧ is_cstring k.
Proof. apply Forall_app. Qed.

(** The bytes of a printed integer are none of the delimiters. *)
Lemma decimal_int_clear z c : - 2 ^ 63 ≤ z < 2 ^ 64 → isdigit c = false → c ≠ 45 →
  Forall (λ x, x ≠ c) (decimal_int z).
Proof.
  intros Hz Hc H45. destruct (decimal_int_chars z Hz) as [H _]. eapply Forall_impl; [exact H|].
  intros x [Hd|Hx] ->; congruence.
Qed.

Lemma not_space_true s : Forall (λ x, x ≠ 32) s → Forall (λ x, not_space x = true) s.
Proof. intros H. eapply Forall_impl; [exact H|]. intros x Hx. unfold not_space. by destruct (Z.eqb_spec x 32). Qed.

(** *** The stat line *)

(** A field: a space and the number. *)
Definition stat_field (v : Z) : cstring := 32 :: decimal_int v.

Definition starts_space (k : cstring) : Prop := ∃ k', k = 32 :: k'.

(** One field read by the loop. *)
Lemma field_loop_field n f v k s : - 2 ^ 63 ≤ v < 2 ^ 64 → starts_space k →
  field_loop (S n) f (stat_field v ++ k) s = field_loop n (S f) k (take_field f (decimal_int v) s).
Proof.
  intros Hv [k' ->]. destruct (decimal_int_chars v Hv) as (_ & Hne & _).
  pose proof (decimal_int_clear v 32 Hv eq_refl ltac:(lia)) as Hsp.
  unfold stat_field. cbn [app field_loop]. cbn [drop_while is_space Z.eqb Pos.eqb].
  assert (Hd : drop_while is_space (decimal_int v ++ 32 :: k') = decimal_int v ++ 32 :: k').
  { apply drop_while_id. destruct (decimal_int v); [done|]. cbn.
    unfold is_space. apply Z.eqb_neq. by inversion Hsp. }
  rewrite Hd, take_while_app, drop_while_app by (done || by apply not_space_true). done.
Qed.

(** The effect of a run of fields. *)
Fixpoint take_fields (f : nat) (vs : list Z) (s : stat_fields) : stat_fields :=
  match vs with
  | [] => s
  | v :: vs => take_fields (S f) vs (take_field f (decimal_int v) s)
  end.

Lemma starts_space_fields vs k : starts_space k → starts_space (mjoin (stat_field <$> vs) ++ k).
Proof. destruct vs as [|v vs]; [done|]. intros _. by eexists. Qed.

Lemma field_loop_fields vs : ∀ n f k s, Forall (λ v, - 2 ^ 63 ≤ v < 2 ^ 64) vs → starts_space k →
  field_loop (length vs + n) f (mjoin (stat_field <$> vs) ++ k) s =
  field_loop n (length vs + f) k (take_fields f vs s).
Proof.
  induction vs as [|v vs IH]; intros n f k s Hvs Hk; [done|].
  apply Forall_cons in Hvs as [Hv Hvs].
  change (mjoin (stat_field <$> v :: vs)) with (stat_field v ++ mjoin (stat_field <$> vs)).
  rewrite <- app_assoc. cbn [length plus take_fields].
  rewrite field_loop_field by (done || by apply starts_space_fields).
  rewrite IH by done. f_equal. lia.
Qed.

(** Fields 8 to 21 are skipped. *)
Lemma take_fields_skip vs : ∀ f s, (8 ≤ f)%nat → (f + length vs ≤ 22)%nat → take_fields f vs s = s.
Proof.
  induction vs as [|v vs IH]; intros f s Hf Hl; [done|]. cbn [take_fields length] in *.
  do 22 (destruct f as [|f]; [try lia; cbn [take_field]; apply IH; lia|]). lia.
Qed.

Lemma take_fields_app vs ws : ∀ f s, take_fields f (vs ++ ws) s = take_fields (length vs + f) ws (take_fields f vs s).
Proof.
  induction vs as [|v vs IH]; intros f s; [done|]. cbn [app take_fields length plus]. rewrite IH.
  f_equal. lia.
Qed.

(** The line of proc(5): process, name, state, then the numeric fields; [sl_mid]
    are fields 8 to 21 and [sl_tail] whatever follows field 22. *)
Record stat_line := StatLine {
  sl_pid : Z; sl_comm : cstring; sl_state : Z; sl_ppid : Z; sl_pgrp : Z; sl_sid : Z; sl_tty : Z;
  sl_mid : list Z; sl_start : Z; sl_tail : cstring }.

Definition stat_numbers (l : stat_line) : list Z :=
  [sl_ppid l; sl_pgrp l; sl_sid l; sl_tty l] ++ sl_mid l ++ [sl_start l].

Definition render_stat (l : stat_line) : list Z :=
  (decimal_int (sl_pid l) ++ [32]) ++ 40 :: sl_comm l ++ 41 :: 32 :: sl_state l ::
  mjoin (stat_field <$> stat_numbers l) ++ 32 :: sl_tail l.

(** What the kernel prints: any name without a NUL, even with blanks and
    parentheses; no parenthesis after it. *)
Definition stat_line_ok (l : stat_line) : Prop :=
  - 2 ^ 31 ≤ sl_pid l < 2 ^ 31 ∧ is_cstring (sl_comm l) ∧ 65 ≤ sl_state l < 128 ∧
  - 2 ^ 31 ≤ sl_ppid l < 2 ^ 31 ∧ - 2 ^ 31 ≤ sl_sid l < 2 ^ 31 ∧ in_width 64 (sl_start l) ∧
  Forall (λ v, - 2 ^ 63 ≤ v < 2 ^ 64) (stat_numbers l) ∧ length (sl_mid l) = 14%nat ∧
  is_cstring (sl_tail l) ∧ Forall (λ c, c ≠ 41) (sl_tail l).

Lemma fields_clear vs c : Forall (λ v, - 2 ^ 63 ≤ v < 2 ^ 64) vs → isdigit c = false → c ≠ 45 → c ≠ 32 →
  Forall (λ x, x ≠ c) (mjoin (stat_field <$> vs)).
Proof.
  intros Hvs Hd H45 H32. induction Hvs as [|v vs Hv Hvs IH]; [constructor|].
  change (mjoin _) with (stat_field v ++ mjoin (stat_field <$> vs)). apply Forall_app. split; [|done].
  constructor; [lia|]. by apply decimal_int_clear.
Qed.

Lemma split_stat_render l : stat_line_ok l →
  split_stat (render_stat l) =
  Some (sl_comm l, 32 :: sl_state l :: mjoin (stat_field <$> stat_numbers l) ++ 32 :: sl_tail l).
Proof.
  intros (Hp & Hc & Hst & _ & _ & _ & Hn & _ & Ht & Ht').
  set (pre := decimal_int (sl_pid l) ++ [32]).
  set (rest := 32 :: sl_state l :: mjoin (stat_field <$> stat_numbers l) ++ 32 :: sl_tail l).
  assert (Hrest : ∀ c, isdigit c = false → c < 65 → c ≠ 45 → c ≠ 32 → Forall (λ x, x ≠ c) (sl_tail l) →
            Forall (λ x, x ≠ c) rest).
  { intros c H1 H2 H3 H4 H5. constructor; [lia|]. constructor; [lia|]. apply Forall_app.
    split; [by apply fields_clear|]. by constructor; [lia|]. }
  assert (Hpre : ∀ c, isdigit c = false → c ≠ 45 → c ≠ 32 → Forall (λ x, x ≠ c) pre).
  { intros c H1 H2 H3. apply Forall_app. split; [by apply decimal_int_clear; [lia|..]|]. by constructor; [lia|]. }
  assert (Hr : render_stat l = (pre ++ 40 :: sl_comm l) ++ 41 :: rest)
    by (unfold render_stat; fold pre; by rewrite <- !app_assoc, <- app_comm_cons).
  assert (Hz : is_cstring (render_stat l)).
  { rewrite Hr. apply is_cstring_app. split; [apply is_cstring_app; split|].
    - by apply Hpre.
    - by constructor; [lia|].
    - constructor; [lia|]. by apply Hrest; [..|lia|lia|lia|]. }
  unfold split_stat. rewrite (cstr_id _ Hz), Hr, last_index_app by (by apply Hrest; [..|lia|lia|lia|]).
  cbn [mbind option_bind]. rewrite <- app_assoc, <- app_comm_cons, find_index_app.
  - cbn [mbind option_bind]. rewrite length_app. cbn [length].
    destruct (Nat.leb_spec (length pre + S (length (sl_comm l))) (length pre)); [lia|]. f_equal. f_equal.
    + rewrite (drop_app_ge _ _ (S (length pre))) by lia.
      replace (S (length pre) - length pre)%nat with 1%nat by lia. cbn [drop].
      replace (_ - _ - 1)%nat with (length (sl_comm l)) by lia. by rewrite drop_0, take_app_length.
    + rewrite drop_app_ge by lia.
      replace (_ - length pre)%nat with (2 + length (sl_comm l))%nat by lia.
      cbn [drop plus]. rewrite (drop_app_ge _ _ (S (length (sl_comm l)))) by lia.
      replace (S (length (sl_comm l)) - length (sl_comm l))%nat with 1%nat by lia.
      cbn [drop]. apply cstr_id. by apply Hrest; [..|lia|lia|lia|].
  - eapply Forall_impl; [by apply (Hpre 40)|]. intros x Hx. by destruct (Z.eqb_spec x 40).
  - done.
Qed.

Lemma fields_of_numbers l : stat_line_ok l →
  field_loop 19 4 (mjoin (stat_field <$> stat_numbers l) ++ 32 :: sl_tail l) (StatFields 0 0 0 0) =
  StatFields (sl_ppid l) (sl_sid l) (u64 (sl_tty l)) (sl_start l).
Proof.
  intros (_ & _ & _ & Hpp & Hsid & Hstart & Hn & Hmid & _).
  assert (Hlen : length (stat_numbers l) = 19%nat)
    by (unfold stat_numbers; rewrite !length_app; cbn [length]; lia).
  replace 19%nat with (length (stat_numbers l) + 0)%nat by lia.
  rewrite field_loop_fields by (done || by eexists). cbn [field_loop].
  assert (Htty : - 2 ^ 63 ≤ sl_tty l < 2 ^ 64).
  { rewrite Forall_forall in Hn. apply Hn. unfold stat_numbers. cbn [app]. do 3 right. by left. }
  assert (Hnum : ∀ v, - 2 ^ 63 ≤ v < 2 ^ 63 → strtol (decimal_int v) = v)
    by (intros v Hv; rewrite <- (app_nil_r (decimal_int v)); by apply strtol_decimal_int).
  assert (Hun : ∀ v, - 2 ^ 63 ≤ v < 2 ^ 64 → strtoul (decimal_int v) = u64 v)
    by (intros v Hv; rewrite <- (app_nil_r (decimal_int v)); by apply strtoul_decimal_int).
  unfold stat_numbers. rewrite take_fields_app. cbn [take_fields take_field length plus sf_ppid sf_sid sf_tty sf_start].
  rewrite take_fields_app, (take_fields_skip (sl_mid l)) by lia. rewrite Hmid.
  cbn [take_fields take_field plus sf_ppid sf_sid sf_tty sf_start].
  unfold in_width in Hstart. rewrite !Hnum, !Hun by lia. f_equal. by apply wrap_small.
Qed.

(** *** What is read is well formed *)

Lemma bytes_drop_while f l : bytes l → bytes (drop_while f l).
Proof. apply Forall_drop_while. Qed.

Lemma bytes_rev l : bytes l → bytes (rev l).
Proof. apply List.Forall_rev. Qed.

Lemma bytes_decimal z : in_width 64 z → bytes (decimal z).
Proof.
  intros Hz. destruct (decimal_spec z Hz) as (d & ds & -> & Hd & _ & _).
  eapply Forall_impl; [exact Hd|]. intros c Hc%isdigit_range. unfold is_byte. lia.
Qed.

Lemma land_range a n : 0 ≤ n → 0 ≤ Z.land a n ≤ n.
Proof.
  intros Hn. split; [apply Z.land_nonneg; lia|].
  apply Z.ldiff_le; [done|]. apply Z.bits_inj'. intros i Hi.
  rewrite Z.ldiff_spec, Z.land_spec, Z.bits_0. destruct (Z.testbit n i); [|by rewrite andb_false_r].
  by rewrite andb_false_r.
Qed.

Lemma bytes_format_tty t : bytes (format_tty t).
Proof.
  unfold format_tty. destruct (t =? 0); [constructor|].
  set (ma := Z.land (Z.shiftr t 8) 0xFF). set (mi := Z.lor _ _).
  assert (Hma : in_width 64 ma) by (pose proof (land_range (Z.shiftr t 8) 0xFF); unfold in_width; lia).
  assert (Hmi : in_width 64 mi).
  { pose proof (land_range t 0xFF ltac:(lia)) as H1.
    pose proof (land_range (Z.shiftr t 12) 0xFFF00 ltac:(lia)) as H2.
    split; [apply Z.lor_nonneg; lia|]. unfold mi.
    destruct (Z.eq_dec (Z.lor (Z.land t 0xFF) (Z.land (Z.shiftr t 12) 0xFFF00)) 0) as [->|Hn]; [done|].
    apply Z.log2_lt_pow2; [pose proof (proj2 (Z.lor_nonneg (Z.land t 0xFF) (Z.land (Z.shiftr t 12) 0xFFF00))); lia|].
    rewrite Z.log2_lor by lia. apply Z.max_lub_lt.
    - eapply Z.le_lt_trans; [apply Z.log2_le_mono, H1|]. done.
    - eapply Z.le_lt_trans; [apply Z.log2_le_mono, H2|]. done. }
  destruct (ma =? 136); [|destruct (ma =? 4)]; apply Forall_take, bytes_cstr.
  - apply Forall_app. split; [apply bytes_lit|by apply bytes_decimal].
  - apply Forall_app. split; [apply bytes_lit|by apply bytes_decimal].
  - apply Forall_app. split; [apply bytes_lit|]. apply Forall_app. split; [by apply bytes_decimal|].
    constructor; [done|by apply bytes_decimal].
Qed.

Lemma start_time_range b t : in_width 64 (start_time_ns b t).
Proof. unfold start_time_ns. destruct (_ && _); [apply wrap_range; lia|done]. Qed.

Section reading.
Variable b : boot_meta.
Variable fs : procfs.
Hypothesis fs_ok : procfs_ok fs.

Lemma read_bytes path n bs : read_file_buf fs path n = Some bs → bytes bs.
Proof. intros H. by apply (proj1 fs_ok) in H as [? _]. Qed.

Lemma parse_stat_wf pid info info' : wf_proc_info info → parse_stat fs b pid info = Some info' →
  wf_proc_info info' ∧ pi_pid info' = pi_pid info.
Proof.
  intros (_ & _ & _ & He & Hc). unfold parse_stat.
  destruct (read_file_buf _ _ _) as [buf|] eqn:Hr; [|done]. cbn [mbind option_bind].
  apply read_bytes in Hr. unfold split_stat.
  destruct (last_index 41 buf) as [r|]; [|done]. cbn [mbind option_bind].
  destruct (find_index _ _) as [i|]; [|done]. cbn [mbind option_bind].
  destruct (r <=? i)%nat; [done|]. intros Heq.
  apply (inj Some) in Heq. subst info'. split; [|reflexivity]. split_and!; try assumption.
  - apply start_time_range.
  - by apply Forall_take, bytes_cstr, Forall_take, Forall_drop.
  - apply bytes_format_tty.
Qed.

Lemma parse_status_uid_wf pid info : wf_proc_info info →
  wf_proc_info (parse_status_uid fs pid info) ∧ pi_pid (parse_status_uid fs pid info) = pi_pid info.
Proof.
  intros Hw. unfold parse_status_uid. destruct (read_file_buf _ _ _); [|done].
  destruct (uid_line _); [|done]. split; [exact Hw|reflexivity].
Qed.

Lemma parse_exe_wf pid info : wf_proc_info info →
  wf_proc_info (parse_exe fs pid info) ∧ pi_pid (parse_exe fs pid info) = pi_pid info.
Proof.
  intros (Ht & Hc & Hy & _ & Hl). unfold parse_exe. destruct (pf_readlink _ _ _) as [bs|] eqn:Hr.
  - apply (proj2 fs_ok) in Hr as [Hb _]. split; [|done]. split_and!; try done. by apply bytes_cstr.
  - by split; [split_and!|].
Qed.

Lemma join_args_bytes bs : bytes bs → bytes (join_args bs).
Proof.
  intros H. apply Forall_app. split; [|by apply Forall_drop]. apply Forall_fmap, Forall_take.
  eapply Forall_impl; [exact H|]. intros c Hc. cbn. by destruct (c =? 0).
Qed.

Lemma parse_cmdline_wf pid info : wf_proc_info info →
  wf_proc_info (parse_cmdline fs pid info) ∧ pi_pid (parse_cmdline fs pid info) = pi_pid info.
Proof.
  intros (Ht & Hc & Hy & He & _). unfold parse_cmdline.
  destruct (read_file_buf _ _ _) as [[|x bs]|] eqn:Hr;
    (split; [split_and!; try assumption; try apply Forall_nil_2|reflexivity]).
  by apply bytes_rev, bytes_drop_while, bytes_rev, bytes_cstr, join_args_bytes, (read_bytes _ _ _ Hr).
Qed.

Lemma load_proc_info_wf pid e : load_proc_info fs b pid = Some e → wf_proc_info e ∧ pi_pid e = pid.
Proof.
  unfold load_proc_info. destruct (parse_stat _ _ _ _) as [i|] eqn:Hp; [|done]. cbn [mbind option_bind].
  intros [= <-]. apply parse_stat_wf in Hp as [Hw Hpid]; [|by split_and!; try apply Forall_nil_2].
  destruct (parse_status_uid_wf pid i Hw) as [Hw1 Hp1].
  destruct (parse_exe_wf pid _ Hw1) as [Hw2 Hp2]. destruct (parse_cmdline_wf pid _ Hw2) as [Hw3 Hp3].
  split; [done|]. by rewrite Hp3, Hp2, Hp1.
Qed.

Lemma enrich_entry_wf e : wf_proc_info e →
  wf_proc_info (ig_pa_enrich_entry fs e) ∧ pi_pid (ig_pa_enrich_entry fs e) = pi_pid e.
Proof.
  intros Hw. unfold ig_pa_enrich_entry. destruct (pi_pid e <=? 0); [done|]. set (e1 := if bool_decide (pi_exe e = []) then _ else e).
  assert (H1 : wf_proc_info e1 ∧ pi_pid e1 = pi_pid e) by (unfold e1; case_bool_decide; [by apply parse_exe_wf|done]).
  destruct H1 as [Hw1 Hp1]. case_bool_decide; [|done].
  destruct (parse_cmdline_wf (pi_pid e1) e1 Hw1) as [Hw2 Hp2]. split; [done|]. by rewrite Hp2.
Qed.
End reading.

(** The module as the source of process information of the event handlers:
    /proc at the moment of the event. *)
#[global] Instance procfs_source (fs : procfs) (b : boot_meta) : ProcSource := {
  pa_enrich := ig_pa_enrich_entry fs;
  pa_resolve pid := let c := ig_pa_resolve (λ _ : nat, fs) b pid in
                    if 0 <? ch_depth c then head (ch_chain c) else None }.

(** *** The chain *)

(** The processes of a chain: each one read when its turn came, each the parent
    of the one before. *)
Definition read_in_turn (fs : nat → procfs) (b : boot_meta) (i : nat) (pid : Z) (es : list ig_proc_info) : Prop :=
  ∀ k e, es !! k = Some e →
    load_proc_info (fs (i + k)%nat) b (pi_pid e) = Some e ∧
    match k with
    | O => pi_pid e = pid
    | S k => ∃ e', es !! k = Some e' ∧ pi_pid e = pi_ppid e' ∧ 1 < pi_ppid e' ∧ pi_ppid e' ≠ pi_pid e'
    end.

(** What the walk is about to read after [es]. *)
Definition next_pid (pid : Z) (es : list ig_proc_info) : Z :=
  match last es with Some e => pi_ppid e | None => pid end.

(** The walk goes on after [es]. *)
Definition goes_on (es : list ig_proc_info) : Prop :=
  match last es with Some e => 1 < pi_ppid e ∧ pi_ppid e ≠ pi_pid e | None => True end.

Lemma load_pid fs b pid e : load_proc_info fs b pid = Some e → pi_pid e = pid.
Proof.
  unfold load_proc_info. destruct (parse_stat _ _ _ _) as [i|] eqn:Hp; [|done]. cbn [mbind option_bind].
  intros Heq. apply (inj Some) in Heq. subst e.
  assert (Hi : pi_pid i = pid).
  { unfold parse_stat in Hp. destruct (read_file_buf _ _ _) as [buf|]; [|done]. cbn [mbind option_bind] in Hp.
    destruct (split_stat buf) as [[c r]|]; [|done]. cbn [mbind option_bind] in Hp.
    apply (inj Some) in Hp. by subst i. }
  unfold parse_cmdline, parse_exe, parse_status_uid.
  repeat match goal with |- context [match ?x with _ => _ end] =>
    lazymatch x with context [match _ with _ => _ end] => fail | _ => destruct x end end; exact Hi.
Qed.

Lemma resolve_loop_spec fs b fuel : ∀ i pid es tr, resolve_loop fuel i fs b pid = (es, tr) →
  (length es ≤ fuel)%nat ∧ read_in_turn fs b i pid es ∧
  (tr = true → goes_on es ∧ (length es = fuel ∨
     load_proc_info (fs (i + length es)%nat) b (next_pid pid es) = None)) ∧
  (tr = false → (0 < fuel)%nat → es ≠ [] ∧ ¬ goes_on es).
Proof.
  induction fuel as [|fuel IH]; intros i pid es tr; cbn [resolve_loop].
  { intros [= <- <-]. split_and!; [done| |done|intros; lia]. intros k e. by rewrite lookup_nil. }
  destruct (load_proc_info (fs i) b pid) as [e|] eqn:Hl.
  2:{ intros [= <- <-]. split_and!; [cbn; lia| | |done].
      - intros k e. by rewrite lookup_nil.
      - intros _. split; [done|]. right. cbn. by rewrite Nat.add_0_r. }
  pose proof (load_pid _ _ _ _ Hl) as Hpid.
  assert (Hone : read_in_turn fs b i pid [e]).
  { intros [|k] x; [|done]. intros [= <-]. rewrite Nat.add_0_r, Hpid. by rewrite Hl. }
  destruct ((pi_ppid e <=? 1) || (pi_ppid e =? pid)) eqn:Hstop.
  { intros [= <- <-]. split_and!; [cbn; lia|done|done|]. intros _ _. split; [done|]. unfold goes_on. cbn.
    apply orb_true_iff in Hstop as [?%Z.leb_le|?%Z.eqb_eq]; lia. }
  apply orb_false_iff in Hstop as [Hgt%Z.leb_gt Hne%Z.eqb_neq].
  destruct (resolve_loop fuel (S i) fs b (pi_ppid e)) as [es' tr'] eqn:Hr.
  destruct (IH _ _ _ _ Hr) as (Hlen & Hturn & Htr & Hend). intros [= <- <-].
  split_and!; [cbn; lia| | |].
  - intros [|k] x Hx; cbn in Hx; [injection Hx as <-; rewrite Nat.add_0_r, Hpid; by rewrite Hl|].
    destruct (Hturn k x Hx) as [Hx1 Hx2]. rewrite Nat.add_succ_r. split; [exact Hx1|].
    destruct k as [|k]; [exists e; split; [done|]; split; [done|]; lia|].
    destruct Hx2 as (e' & He' & H3). by exists e'.
  - intros Ht. assert (Hlast : goes_on es' → goes_on (e :: es') ∧ next_pid pid (e :: es') = next_pid (pi_ppid e) es').
    { unfold goes_on, next_pid. rewrite last_cons. destruct (last es'); [done|]. intros _. split; [lia|done]. }
    destruct fuel as [|fuel].
    + cbn in Hr. injection Hr as <- <-. split; [cbn; lia|]. by left.
    + destruct (Htr Ht) as [Hg Hor]. destruct (Hlast Hg) as [Hg' Hn]. split; [done|].
      rewrite Hn. cbn [length]. rewrite Nat.add_succ_r. destruct Hor; [left; lia|by right].
  - intros Ht _. split; [done|]. destruct fuel as [|fuel]; [done|]. destruct (Hend Ht ltac:(lia)) as [Hne' Hng].
    unfold goes_on in *. rewrite last_cons. destruct (last es') eqn:E; [done|].
    by apply last_None in E.
Qed.

(** *** The text formats *)

Lemma append_all_spec n ps out : (length out < n)%nat →
  match append_all n ps out with
  | inl t => t = out ++ mjoin ps ∧ (length t < n)%nat
  | inr (off, text) => (n ≤ length (out ++ mjoin ps))%nat ∧ (off < n)%nat ∧
                       text = take (n - 1) (out ++ mjoin ps)
  end.
Proof.
  revert out. induction ps as [|p ps IH]; intros out Hn; cbn [append_all].
  { change (mjoin (M := list) []) with (@nil Z). by rewrite app_nil_r. }
  change (mjoin (p :: ps)) with (p ++ mjoin ps). rewrite app_assoc.
  destruct (Nat.leb_spec (n - length out) (length p)).
  - rewrite !length_app. split_and!; [lia|done|]. rewrite (take_app_le (out ++ p)); [done|].
    rewrite length_app. lia.
  - apply IH. rewrite length_app. lia.
Qed.

Lemma chain_slots_spec es rest : (length es ≤ IG_PA_MAX_DEPTH)%nat →
  length (chain_slots es rest) = IG_PA_MAX_DEPTH ∧ take (length es) (chain_slots es rest) = es.
Proof.
  intros H. unfold chain_slots. split.
  - rewrite length_take, !length_app, length_replicate. unfold IG_PA_MAX_DEPTH in *. lia.
  - rewrite take_take, Nat.min_l by done. apply take_app_length.
Qed.

Lemma resolve_wf fs b : procfs_ok fs → ProcSourceLaws (procfs_source fs b).
Proof.
  intros Hfs. split.
  - intros e He. by apply enrich_entry_wf.
  - intros e. cbn [pa_enrich procfs_source]. unfold ig_pa_enrich_entry, parse_exe, parse_cmdline.
    repeat match goal with |- context [match ?x with _ => _ end] =>
      lazymatch x with context [match _ with _ => _ end] => fail | _ => destruct x end end; reflexivity.
  - intros pid e. cbn [pa_resolve procfs_source]. unfold ig_pa_resolve. destruct (pid <=? 0); [done|].
    destruct (resolve_loop IG_PA_MAX_DEPTH 0 (λ _, fs) b pid) as [es tr] eqn:Hr.
    destruct (resolve_loop_spec _ _ _ _ _ _ _ Hr) as (_ & Hturn & _). cbn [ch_depth ch_chain].
    destruct es as [|e0 es]; [done|]. destruct (Z.ltb_spec 0 (Z.of_nat (length (e0 :: es)))); [|done].
    unfold chain_slots, IG_PA_MAX_DEPTH. cbn [app take head hd_error]. intros [= <-].
    destruct (Hturn 0%nat e0 eq_refl) as [Hl _]. by apply (load_proc_info_wf b fs Hfs) in Hl as [? _].
Qed.

(** *** Identifiers and arguments *)

Lemma strstr_first q pre k : Forall (λ c, c ≠ 10) q → strstr (10 :: q) pre = None →
  strstr (10 :: q) (pre ++ 10 :: q ++ k) = Some (10 :: q ++ k).
Proof.
  intros Hq. induction pre as [|c pre IH]; intros Hn.
  - cbn [app strstr is_prefix]. rewrite Z.eqb_refl. cbn [andb].
    by rewrite (proj2 (is_prefix_spec q (q ++ k))) by eauto.
  - cbn [strstr] in Hn. destruct (is_prefix (10 :: q) (c :: pre)) eqn:Hp; [done|].
    cbn [app strstr]. rewrite IH by done.
    destruct (is_prefix (10 :: q) (c :: pre ++ 10 :: q ++ k)) eqn:Hp'; [|done].
    exfalso. apply is_prefix_spec in Hp' as [k' Heq]. cbn [app] in Heq. injection Heq as Hc Heq.
    destruct (decide (length q ≤ length pre)%nat) as [Hle|Hgt].
    + apply Bool.not_true_iff_false in Hp. apply Hp, is_prefix_spec. exists (drop (length q) pre). subst c.
      cbn [app]. f_equal. apply (f_equal (take (length q))) in Heq.
      rewrite take_app_le, take_app_length in Heq by done.
      rewrite <- (take_drop (length q) pre) at 1. by rewrite Heq.
    + apply (f_equal (lookup (length pre))) in Heq.
      rewrite lookup_app_r, Nat.sub_diag in Heq by lia. cbn in Heq.
      rewrite lookup_app_l in Heq by lia. symmetry in Heq. rewrite Forall_lookup in Hq. by apply (Hq _ _ Heq).
Qed.

(** /proc/<pid>/status around its Uid line: real, effective, saved and file
    system ids separated by tabs. *)
Definition render_status (pre : cstring) (uid euid : Z) (tail : cstring) : list Z :=
  pre ++ 10 :: lit "Uid:" ++ 9 :: decimal_int uid ++ 9 :: decimal_int euid ++ 9 :: tail.

Definition status_ok (pre : cstring) (uid euid : Z) (tail : cstring) : Prop :=
  is_cstring pre ∧ is_cstring tail ∧ in_width 32 uid ∧ in_width 32 euid ∧
  strstr (10 :: lit "Uid:") pre = None.

Lemma decimal_head z rest : in_width 64 z → ∃ d k, decimal_int z ++ rest = d :: k ∧ isdigit d = true.
Proof.
  intros Hz. unfold decimal_int. destruct (Z.ltb_spec z 0); [unfold in_width in Hz; lia|].
  destruct (decimal_spec z Hz) as (d & ds & -> & Hd & _). exists d, (ds ++ rest). split; [done|].
  by apply Forall_inv in Hd.
Qed.

Lemma digit_not_blank d : isdigit d = true → is_blank d = false ∧ d ≠ 10.
Proof. rewrite isdigit_range. unfold is_blank. intros. split; [|lia]. ig_bools; done || lia. Qed.

Lemma drop_blanks_decimal z rest : in_width 64 z →
  drop_while is_blank (9 :: decimal_int z ++ rest) = decimal_int z ++ rest.
Proof.
  intros Hz. cbn [drop_while is_blank Z.eqb Pos.eqb orb]. apply drop_while_id.
  destruct (decimal_head z rest Hz) as (d & k & -> & Hd). cbn. by apply digit_not_blank.
Qed.

Lemma uid_line_render pre uid euid tail : status_ok pre uid euid tail →
  uid_line (cstr (render_status pre uid euid tail)) =
  Some (9 :: decimal_int uid ++ 9 :: decimal_int euid ++ 9 :: tail).
Proof.
  intros (Hpre & Htail & Hu & He & Hnone). unfold in_width in Hu, He.
  rewrite cstr_id.
  - unfold uid_line, render_status. rewrite strstr_first; [done|by_decide|done].
  - apply is_cstring_app. split; [done|]. constructor; [lia|]. apply is_cstring_app.
    split; [by_decide|]. constructor; [lia|]. apply is_cstring_app.
    split; [by apply decimal_int_clear; [lia|..|lia]|]. constructor; [lia|]. apply is_cstring_app.
    split; [by apply decimal_int_clear; [lia|..|lia]|]. by constructor; [lia|].
Qed.

Lemma parse_status_render fs pid pre uid euid tail info : status_ok pre uid euid tail →
  pf_read fs (proc_path pid (lit "status")) 2047 = Some (render_status pre uid euid tail) →
  parse_status_uid fs pid info = set_uids uid (Some euid) info.
Proof.
  intros Hok Hread. unfold parse_status_uid, read_file_buf. change (2048 - 1)%nat with 2047%nat.
  rewrite Hread, uid_line_render by done. destruct Hok as (_ & _ & Hu & He & _).
  assert (Hu' : in_width 64 uid) by (unfold in_width in *; lia).
  assert (He' : in_width 64 euid) by (unfold in_width in *; lia).
  unfold in_width in Hu, He. rewrite drop_blanks_decimal by done.
  unfold strtoul_end. rewrite scan_decimal_int by (done || lia). cbn [sc_rest].
  rewrite drop_blanks_decimal by done. rewrite !strtoul_decimal_int by (done || lia).
  destruct (decimal_head euid (9 :: tail) He') as (d & k & Heq & Hd).
  assert (Hs : ∀ v, 0 ≤ v < 2 ^ 32 → u32 (u64 v) = v)
    by (intros v Hv; unfold u32, u64; rewrite (wrap_small 64 v), (wrap_small 32 v); unfold in_width; lia).
  rewrite Heq. destruct (Z.eqb_spec d 10); [by apply digit_not_blank in Hd as [_ ?]|].
  by rewrite !Hs by lia.
Qed.

(** The arguments as one line. *)
Definition join_line (args : list cstring) : cstring :=
  match args with [] => [] | a :: args => a ++ mjoin ((λ x, 32 :: x) <$> args) end.

(** /proc/<pid>/cmdline *)
Definition render_args (args : list cstring) : list Z := mjoin ((λ a, a ++ [0]) <$> args).

Lemma render_args_cons a args :
  render_args (a :: args) = (a ++ mjoin ((λ x, 0 :: x) <$> args)) ++ [0].
Proof.
  revert a. induction args as [|b args IH]; intros a.
  - unfold render_args. cbn. by rewrite !app_nil_r.
  - change (render_args (a :: b :: args)) with ((a ++ [0]) ++ render_args (b :: args)). rewrite IH.
    change (mjoin ((λ x, 0 :: x) <$> b :: args)) with ((0 :: b) ++ mjoin ((λ x, 0 :: x) <$> args)).
    by rewrite <- !app_assoc.
Qed.

Lemma join_args_render args : args ≠ [] → Forall is_cstring args →
  cstr (join_args (render_args args)) = join_line args.
Proof.
  destruct args as [|a args]; [done|]. intros _ [Ha Hargs]%Forall_cons.
  rewrite render_args_cons. set (body := a ++ _). unfold join_args. rewrite length_app. cbn [length].
  replace (length body + 1 - 1)%nat with (length body) by lia. rewrite take_app_length, drop_app_length.
  assert (Hf : ∀ s : cstring, is_cstring s → ((λ c, if c =? 0 then 32 else c) <$> s) = s).
  { intros s Hs. induction Hs as [|c s Hc Hs IH]; [done|]. cbn. rewrite IH. by destruct (Z.eqb_spec c 0). }
  assert (Hbody : ((λ c, if c =? 0 then 32 else c) <$> body) = join_line (a :: args)).
  { unfold body. rewrite fmap_app, Hf by done. cbn [join_line]. f_equal. clear -Hargs Hf.
    induction Hargs as [|b args Hb Hargs IH]; [done|].
    change (mjoin ((λ x, 0 :: x) <$> b :: args)) with (0 :: b ++ mjoin ((λ x, 0 :: x) <$> args)).
    change (mjoin ((λ x, 32 :: x) <$> b :: args)) with (32 :: b ++ mjoin ((λ x, 32 :: x) <$> args)).
    rewrite fmap_cons, fmap_app, Hf, IH by done. done. }
  rewrite Hbody. rewrite cstr_app_id; [cbn; by rewrite app_nil_r|].
  cbn [join_line]. apply is_cstring_app. split; [done|]. clear -Hargs.
  induction Hargs as [|b args Hb Hargs IH]; [constructor|].
  change (mjoin _) with (32 :: b ++ mjoin ((λ x, 32 :: x) <$> args)). constructor; [lia|].
  by apply is_cstring_app.
Qed.

Lemma parse_cmdline_render fs pid args info : args ≠ [] → Forall is_cstring args →
  pf_read fs (proc_path pid (lit "cmdline")) 511 = Some (render_args args) →
  parse_cmdline fs pid info = set_cmdline (trim_end (join_line args)) info.
Proof.
  intros Hne Hargs Hread. unfold parse_cmdline, read_file_buf.
  change (IG_PA_CMDLINE_LEN - 1)%nat with 511%nat. rewrite Hread, <- join_args_render by done.
  destruct (render_args args) eqn:E; [|done]. destruct args as [|a args]; [done|].
  rewrite render_args_cons in E. by apply app_nil in E as [_ ?].
Qed.

(** ** Properties *)

(** The kernel's line read back: parent, session, terminal and start time are
    those printed, the name is cut to the 15 bytes of its array. *)
Lemma stat_line_roundtrip (fs : procfs) (b : boot_meta) (l : stat_line) (info : ig_proc_info)
    (Hl : stat_line_ok l)
    (Hread : pf_read fs (proc_path (sl_pid l) (lit "stat")) 1023 = Some (render_stat l)) :
  parse_stat fs b (sl_pid l) info =
  Some (ProcInfo (pi_pid info) (sl_ppid l) (pi_uid info) (pi_euid info) (sl_sid l)
          (format_tty (u64 (sl_tty l))) (take 15 (sl_comm l)) (pi_exe info) (pi_cmdline info)
          (sl_start l) (start_time_ns b (sl_start l))).
Proof.
  unfold parse_stat, read_file_buf. change (1024 - 1)%nat with 1023%nat. rewrite Hread.
  cbn [mbind option_bind]. rewrite split_stat_render by done. cbn [mbind option_bind].
  pose proof Hl as (_ & Hc & Hst & Hpp & Hsid & _).
  assert (Hrest : drop_while not_space (drop_while is_space
     (32 :: sl_state l :: mjoin (stat_field <$> stat_numbers l) ++ 32 :: sl_tail l)) =
     mjoin (stat_field <$> stat_numbers l) ++ 32 :: sl_tail l).
  { cbn [drop_while is_space Z.eqb Pos.eqb]. unfold is_space, not_space.
    destruct (Z.eqb_spec (sl_state l) 32); [lia|]. cbn [drop_while].
    destruct (Z.eqb_spec (sl_state l) 32); [lia|]. cbn [negb]. apply drop_while_id.
    destruct (starts_space_fields (stat_numbers l) (32 :: sl_tail l)) as [k' ->]; [by eexists|done]. }
  rewrite Hrest, fields_of_numbers by done. cbn [sf_ppid sf_sid sf_tty sf_start].
  rewrite !s32_small by lia. unfold strncpy. by rewrite cstr_id.
Qed.

(** The four files of a process. *)
Record proc_files (fs : procfs) (l : stat_line) (uid euid : Z) (exe : cstring) (args : list cstring) : Prop := {
  file_stat_read : pf_read fs (proc_path (sl_pid l) (lit "stat")) 1023 = Some (render_stat l);
  file_status_read : ∃ pre tail, status_ok pre uid euid tail ∧
    pf_read fs (proc_path (sl_pid l) (lit "status")) 2047 = Some (render_status pre uid euid tail);
  file_exe_read : pf_readlink fs (proc_path (sl_pid l) (lit "exe")) 255 = Some exe ∧ is_cstring exe;
  file_args_read : args ≠ [] ∧ Forall is_cstring args ∧
    pf_read fs (proc_path (sl_pid l) (lit "cmdline")) 511 = Some (render_args args) }.

(** Reading back what the kernel prints about a process, whatever its name:
    blanks and parentheses in the name do not shift a field. The parent, the
    session, the terminal and the start time are those of the stat line, the
    real and effective user those of the status file, the path that of the exe
    link, and the command line the arguments separated by spaces. *)
Theorem process_entry_roundtrip (fs : procfs) (b : boot_meta) (l : stat_line) (uid euid : Z)
    (exe : cstring) (args : list cstring)
    (Hl : stat_line_ok l) (Hf : proc_files fs l uid euid exe args) :
  load_proc_info fs b (sl_pid l) =
  Some (ProcInfo (sl_pid l) (sl_ppid l) uid euid (sl_sid l) (format_tty (u64 (sl_tty l)))
          (take 15 (sl_comm l)) exe (trim_end (join_line args)) (sl_start l) (start_time_ns b (sl_start l))).
Proof.
  destruct Hf as [Hstat (pre & tail & Hs & Hstatus) [Hexe He] (Hne & Ha & Hargs)].
  unfold load_proc_info. rewrite (stat_line_roundtrip fs b l _ Hl Hstat). cbn [mbind option_bind].
  rewrite (parse_status_render fs _ pre uid euid tail) by done.
  unfold parse_exe. change (IG_PA_EXE_LEN - 1)%nat with 255%nat. rewrite Hexe, (cstr_id exe He).
  by rewrite (parse_cmdline_render fs _ args).
Qed.

(** A resolved chain is the line of ancestors, for any /proc that changes
    while it is read: its first entry is the process asked for, every other one
    is the parent of the entry before, each as /proc showed it when its turn
    came. It is cut, and flagged, only because the next process was gone or
    sixteen were found; otherwise it ends at a child of init or of itself. *)
Theorem resolve_follows_parents (fs : nat → procfs) (b : boot_meta) (pid : Z) (Hpid : 0 < pid) :
  let c := ig_pa_resolve fs b pid in
  let es := chain_entries c in
  length (ch_chain c) = IG_PA_MAX_DEPTH ∧ ch_depth c = Z.of_nat (length es) ∧
  (length es ≤ IG_PA_MAX_DEPTH)%nat ∧ read_in_turn fs b 0 pid es ∧
  (ch_truncated c ≠ 0 → goes_on es ∧ (length es = IG_PA_MAX_DEPTH ∨
     load_proc_info (fs (length es)) b (next_pid pid es) = None)) ∧
  (ch_truncated c = 0 → es ≠ [] ∧ ¬ goes_on es).
Proof.
  cbv zeta. unfold ig_pa_resolve, chain_entries.
  destruct (Z.leb_spec pid 0); [lia|].
  destruct (resolve_loop IG_PA_MAX_DEPTH 0 fs b pid) as [es tr] eqn:Hr.
  destruct (resolve_loop_spec _ _ _ _ _ _ _ Hr) as (Hlen & Hturn & Htr & Hend).
  cbn [ch_chain ch_depth ch_truncated]. rewrite Nat2Z.id.
  destruct (chain_slots_spec es (failed_slot pid es tr) Hlen) as [-> ->].
  split_and!; try done.
  - destruct tr; [intros _|done]. by apply Htr.
  - destruct tr; [done|intros _]. apply Hend; [done|]. unfold IG_PA_MAX_DEPTH. lia.
Qed.

(** The detailed format of a chain fits its buffer and never hides a cut:
    a text that fits is written whole and its length returned; one that does
    not is a prefix followed by three dots, the result is -1, and no byte lies
    past the buffer. *)
Theorem format_full_complete_or_marked (c : ig_pid_chain) (buflen : nat) (Hlen : (5 ≤ buflen)%nat) :
  let text := mjoin (full_text c) in
  let '(rc, out) := ig_pa_format_full c buflen in
  (length out < buflen)%nat ∧
  if (length text <? buflen)%nat then rc = Z.of_nat (length text) ∧ out = text
  else rc = -1 ∧ ∃ k, (k < buflen)%nat ∧ out = take k text ++ lit "...".
Proof.
  intros text. unfold ig_pa_format_full. destruct (Nat.eqb_spec buflen 0); [lia|].
  pose proof (append_all_spec buflen (full_text c) []) as H. cbn [app length] in H. fold text in H.
  destruct (append_all buflen (full_text c) []) as [t|[off t]].
  - destruct H as [-> Hn]; [lia|]. split; [done|]. destruct (Nat.ltb_spec (length text) buflen); [done|lia].
  - destruct H as (Hn & Hoff & ->); [lia|]. destruct (Nat.ltb_spec (length text) buflen); [lia|].
    destruct (Nat.leb_spec 5 buflen); [|lia].
    set (k := if (off + 4 <? buflen)%nat then off else (buflen - 5)%nat).
    assert (Hk : (k + 4 < buflen)%nat \/ (k = buflen - 5)%nat)
      by (unfold k; destruct (Nat.ltb_spec (off + 4) buflen); lia).
    rewrite take_take, Nat.min_l by lia. split; [rewrite length_app, length_take; cbn; lia|].
    split; [done|]. exists k. split; [lia|done].
Qed.

(** *** Witnesses *)

(** A process that chose the name ["a) R (b"]. *)
Definition odd_line : stat_line :=
  StatLine 4242 (lit "a) R (b") 83 900 4242 900 34817 (replicate 14 7) 123456 (lit "4096 100 18446744073709551615").
Definition odd_args : list cstring := [lit "./x y"; lit "-v"; lit "/etc/passwd"].
Definition odd_fs : procfs :=
  ProcFs (λ path n,
      if decide (path = proc_path 4242 (lit "stat")) then Some (take n (render_stat odd_line))
      else if decide (path = proc_path 4242 (lit "status"))
      then Some (render_status (lit "Name: x") 1000 0 (lit "0"))
      else if decide (path = proc_path 4242 (lit "cmdline")) then Some (render_args odd_args)
      else None)
    (λ _ _, Some (lit "/tmp/x")).

Lemma odd_line_ok : stat_line_ok odd_line.
Proof.
  split_and!; try done; try (unfold in_width; cbn; lia); try by_decide.
Qed.

Lemma odd_files : proc_files odd_fs odd_line 1000 0 (lit "/tmp/x") odd_args.
Proof.
  split.
  - reflexivity.
  - exists (lit "Name: x"), (lit "0"). split; [|reflexivity].
    split_and!; [by_decide|by_decide|done|done|reflexivity].
  - split; [reflexivity|by_decide].
  - split_and!; [done|by_decide|reflexivity].
Qed.

Lemma process_entry_roundtrip_witness :
  load_proc_info odd_fs (BootMeta 1700000000 100) 4242 =
  Some (ProcInfo 4242 900 1000 0 900 (lit "pts/1") (lit "a) R (b") (lit "/tmp/x")
          (lit "./x y -v /etc/passwd") 123456 1700001234560000000).
Proof.
  exact (process_entry_roundtrip odd_fs (BootMeta 1700000000 100) odd_line 1000 0 (lit "/tmp/x") odd_args
           odd_line_ok odd_files).
Defined.

Lemma resolve_follows_parents_witness :
  let c := ig_pa_resolve (λ _, odd_fs) (BootMeta 0 100) 4242 in
  ch_depth c = 1 ∧ read_in_turn (λ _, odd_fs) (BootMeta 0 100) 0 4242 (chain_entries c).
Proof.
  split; [by vm_compute|].
  exact (proj1 (proj2 (proj2 (proj2 (resolve_follows_parents (λ _, odd_fs) (BootMeta 0 100) 4242 eq_refl))))).
Defined.

Lemma format_full_complete_or_marked_witness :
  ig_pa_format_full pid_chain_zero 11 = (10, lit "(no chain)") ∧
  (length (ig_pa_format_full pid_chain_zero 6).2 < 6)%nat.
Proof.
  split; [by vm_compute|].
  exact (proj1 (format_full_complete_or_marked pid_chain_zero 6 ltac:(lia))).
Defined.
