(* ===== verification/PaCache.v ===== *)
(** * The cache of process chains (scanner/pid_ancestry.c)

    A fixed array of nodes threaded by a doubly linked list in order of use.
    Pointers are indices of the array; following one outside it, or NULL, is a
    fault ([None]). A lookup that misses is two critical sections with the read
    of /proc between them, so that overlapping lookups can be stated. *)

From S2P Require Import Prelude Bytes Monitor ProcAncestry.

Local Open Scope Z_scope.

(* @src scanner/pid_ancestry.c:338-345 cache_node_t *)
Record cache_node := CacheNode {
  cn_pid : Z; cn_start_ticks : Z; cn_chain : ig_pid_chain;
  cn_prev : option nat; cn_next : option nat; cn_in_use : bool }.

(** [lookups], [hits], [misses], [evictions]. *)
(* @src scanner/pid_ancestry.h:85-90 ig_pa_cache_stats_t *)
Record cache_stats := CacheStats { cs_lookups : Z; cs_hits : Z; cs_misses : Z; cs_evictions : Z }.
Definition cache_stats_zero : cache_stats := CacheStats 0 0 0 0.

(* @src scanner/pid_ancestry.c:347-356 g_pa_cache *)
Record pa_cache := PaCache {
  ca_nodes : list cache_node; ca_capacity : Z; ca_count : Z;
  ca_head : option nat; ca_tail : option nat; ca_stats : cache_stats; ca_initialized : bool }.

(** The zeroed static. *)
Definition pa_cache_zero : pa_cache := PaCache [] 0 0 None None cache_stats_zero false.
Definition cache_node_zero : cache_node := CacheNode 0 0 pid_chain_zero None None false.

Definition set_nodes (ns : list cache_node) (c : pa_cache) : pa_cache :=
  PaCache ns (ca_capacity c) (ca_count c) (ca_head c) (ca_tail c) (ca_stats c) (ca_initialized c).
Definition set_ends (h t : option nat) (c : pa_cache) : pa_cache :=
  PaCache (ca_nodes c) (ca_capacity c) (ca_count c) h t (ca_stats c) (ca_initialized c).
Definition add_count (d : Z) (c : pa_cache) : pa_cache :=
  PaCache (ca_nodes c) (ca_capacity c) (ca_count c + d) (ca_head c) (ca_tail c) (ca_stats c) (ca_initialized c).
Definition set_stats (s : cache_stats) (c : pa_cache) : pa_cache :=
  PaCache (ca_nodes c) (ca_capacity c) (ca_count c) (ca_head c) (ca_tail c) s (ca_initialized c).

Definition set_links (p n : option nat) (x : cache_node) : cache_node :=
  CacheNode (cn_pid x) (cn_start_ticks x) (cn_chain x) p n (cn_in_use x).
Definition set_prev (p : option nat) (x : cache_node) : cache_node := set_links p (cn_next x) x.
Definition set_next (n : option nat) (x : cache_node) : cache_node := set_links (cn_prev x) n x.
Definition set_in_use (u : bool) (x : cache_node) : cache_node :=
  CacheNode (cn_pid x) (cn_start_ticks x) (cn_chain x) (cn_prev x) (cn_next x) u.

(** A store through a pointer. *)
Definition at_node (i : nat) (f : cache_node → cache_node) (c : pa_cache) : option pa_cache :=
  x ← ca_nodes c !! i; Some (set_nodes (<[i := f x]> (ca_nodes c)) c).

(** ** List operations *)

(* @src scanner/pid_ancestry.c:358-365 lru_unlink *)
Definition lru_unlink (i : nat) (c : pa_cache) : option pa_cache :=
  n ← ca_nodes c !! i;
  c ← match cn_prev n with
      | Some p => at_node p (set_next (cn_next n)) c
      | None => Some (set_ends (cn_next n) (ca_tail c) c)
      end;
  c ← match cn_next n with
      | Some q => at_node q (set_prev (cn_prev n)) c
      | None => Some (set_ends (ca_head c) (cn_prev n) c)
      end;
  at_node i (set_links None None) c.

(* @src scanner/pid_ancestry.c:367-374 lru_push_front *)
Definition lru_push_front (i : nat) (c : pa_cache) : option pa_cache :=
  c ← at_node i (set_links None (ca_head c)) c;
  c ← match ca_head c with
      | Some h => at_node h (set_prev (Some i)) c
      | None => Some c
      end;
  let c := set_ends (Some i) (ca_tail c) c in
  match ca_tail c with
  | Some _ => Some c
  | None => Some (set_ends (ca_head c) (Some i) c)
  end.

(* @src scanner/pid_ancestry.c:376-384 cache_find *)
Definition cache_find (pid : Z) (c : pa_cache) : option nat :=
  find_index (λ n, cn_in_use n && (cn_pid n =? pid)) (ca_nodes c).

Definition count_eviction (s : cache_stats) : cache_stats :=
  CacheStats (cs_lookups s) (cs_hits s) (cs_misses s) (u64 (cs_evictions s + 1)).

(** The free slot, or the least recently used node, which is emptied first. *)
(* @src scanner/pid_ancestry.c:386-401 cache_alloc_slot *)
Definition cache_alloc_slot (c : pa_cache) : option (option nat * pa_cache) :=
  match find_index (λ n, negb (cn_in_use n)) (ca_nodes c) with
  | Some i => Some (Some i, c)
  | None =>
      match ca_tail c with
      | None => Some (None, c)
      | Some v =>
          c ← lru_unlink v c;
          c ← at_node v (set_in_use false) c;
          Some (Some v, set_stats (count_eviction (ca_stats c)) (add_count (-1) c))
      end
  end.

(** [alloc_ok]: whether [calloc] succeeds. *)
(* @src scanner/pid_ancestry.c:403-421 ig_pa_cache_init *)
Definition ig_pa_cache_init (capacity : Z) (alloc_ok : bool) (c : pa_cache) : Z * pa_cache :=
  if ca_initialized c then (0, c)
  else if capacity <=? 0 then (0, PaCache [] 0 0 None None cache_stats_zero true)
  else if negb alloc_ok then (-1, c)
  else (0, PaCache (replicate (Z.to_nat capacity) cache_node_zero) capacity 0 None None cache_stats_zero true).

(* @src scanner/pid_ancestry.c:423-432 ig_pa_cache_free *)
Definition ig_pa_cache_free (c : pa_cache) : pa_cache :=
  if ca_initialized c then pa_cache_zero else c.

(* @src scanner/pid_ancestry.c:434-444 ig_pa_cache_get_stats *)
Definition ig_pa_cache_get_stats (c : pa_cache) : cache_stats :=
  if negb (ca_initialized c) || (ca_capacity c <=? 0) then cache_stats_zero else ca_stats c.

(** ** Lookup *)

(** The first critical section: [Some chain] on a hit. *)
(* @src scanner/pid_ancestry.c:459-480 ig_pa_resolve_cached *)
Definition cache_lookup (pid ticks : Z) (c : pa_cache) : option (option ig_pid_chain * pa_cache) :=
  let s := ca_stats c in
  match cache_find pid c with
  | Some i =>
      n ← ca_nodes c !! i;
      if cn_start_ticks n =? ticks then
        c ← lru_unlink i c;
        c ← lru_push_front i c;
        Some (Some (cn_chain n),
              set_stats (CacheStats (u64 (cs_lookups s + 1)) (u64 (cs_hits s + 1)) (cs_misses s) (cs_evictions s)) c)
      else
        c ← lru_unlink i c;
        c ← at_node i (set_in_use false) c;
        Some (None, set_stats (CacheStats (u64 (cs_lookups s + 1)) (cs_hits s) (u64 (cs_misses s + 1))
                                 (cs_evictions s)) (add_count (-1) c))
  | None =>
      Some (None, set_stats (CacheStats (u64 (cs_lookups s + 1)) (cs_hits s) (u64 (cs_misses s + 1))
                               (cs_evictions s)) c)
  end.

(** The second one, after /proc was read. *)
(* @src scanner/pid_ancestry.c:485-495 ig_pa_resolve_cached *)
Definition cache_insert (pid ticks : Z) (chain : ig_pid_chain) (c : pa_cache) : option pa_cache :=
  '(slot, c) ← cache_alloc_slot c;
  match slot with
  | None => Some c
  | Some i =>
      c ← at_node i (λ n, CacheNode pid ticks chain (cn_prev n) (cn_next n) true) c;
      c ← lru_push_front i c;
      Some (add_count 1 c)
  end.

(** A critical section of some thread. *)
Inductive cache_section := SecLookup (pid ticks : Z) | SecInsert (pid ticks : Z) (chain : ig_pid_chain).

Definition run_section (s : cache_section) (c : pa_cache) : option pa_cache :=
  match s with
  | SecLookup pid ticks => snd <$> cache_lookup pid ticks c
  | SecInsert pid ticks chain => cache_insert pid ticks chain c
  end.

Fixpoint run_sections (ss : list cache_section) (c : pa_cache) : option pa_cache :=
  match ss with
  | [] => Some c
  | s :: ss => c ← run_section s c; run_sections ss c
  end.

(** [probe]: /proc when the start time is read, [fs] while the chain is;
    [others]: what other threads do to the cache meanwhile. *)
(* @src scanner/pid_ancestry.c:446-498 ig_pa_resolve_cached *)
Definition ig_pa_resolve_cached (b : boot_meta) (probe : procfs) (fs : nat → procfs)
    (others : list cache_section) (pid : Z) (c : pa_cache) : option (ig_pid_chain * pa_cache) :=
  if negb (ca_initialized c) || (ca_capacity c <=? 0) then Some (ig_pa_resolve fs b pid, c)
  else
    match parse_stat probe b pid (proc_info_of_pid pid) with
    | None => Some (pid_chain_zero, c)
    | Some p =>
        '(hit, c) ← cache_lookup pid (pi_start_ticks p) c;
        match hit with
        | Some chain => Some (chain, c)
        | None =>
            let chain := ig_pa_resolve fs b pid in
            c ← run_sections others c;
            c ← cache_insert pid (pi_start_ticks p) chain c;
            Some (chain, c)
        end
    end.

(** ** The list behind the pointers *)

Definition first (l : list nat) (nn : option nat) : option nat := match l with i :: _ => Some i | [] => nn end.
Definition final (pp : option nat) (l : list nat) : option nat := match last l with Some i => Some i | None => pp end.

(** [l] is the segment of the list after [pp] and before [nn]. *)
Fixpoint dseg (ns : list cache_node) (pp : option nat) (l : list nat) (nn : option nat) : Prop :=
  match l with
  | [] => True
  | i :: l => (∃ n, ns !! i = Some n ∧ cn_prev n = pp ∧ cn_next n = first l nn) ∧ dseg ns (Some i) l nn
  end.

Lemma first_app l1 l2 nn : first (l1 ++ l2) nn = first l1 (first l2 nn).
Proof. by destruct l1. Qed.

Lemma final_snoc pp l i : final pp (l ++ [i]) = Some i.
Proof. unfold final. by rewrite last_snoc. Qed.

Lemma final_cons pp i l : final pp (i :: l) = final (Some i) l.
Proof. unfold final. rewrite last_cons. by destruct (last l). Qed.

Lemma dseg_app ns l1 : ∀ pp l2 nn,
  dseg ns pp (l1 ++ l2) nn ↔ dseg ns pp l1 (first l2 nn) ∧ dseg ns (final pp l1) l2 nn.
Proof.
  induction l1 as [|i l1 IH]; intros pp l2 nn; cbn [app dseg]; [by split; [|intros [_ ?]]|].
  rewrite IH, first_app, final_cons. tauto.
Qed.

(** A segment depends on its own nodes only. *)
Lemma dseg_ext ns ns' l : ∀ pp nn, (∀ k, k ∈ l → ns' !! k = ns !! k) → dseg ns pp l nn → dseg ns' pp l nn.
Proof.
  induction l as [|j l IH]; intros pp nn He; cbn [dseg]; [done|].
  intros [(n & Hn & Hp) Hl]. split; [|apply IH; [|done]; intros k Hk; apply He; by right].
  exists n. by rewrite He by (by left).
Qed.

Lemma dseg_bound ns l : ∀ pp nn i, dseg ns pp l nn → i ∈ l → (i < length ns)%nat.
Proof.
  induction l as [|j l IH]; intros pp nn i; cbn [dseg]; [intros _ H; by apply elem_of_nil in H|].
  intros [(n & Hn & _) Hl] [->|Hi]%elem_of_cons; [by eapply lookup_lt_Some|by eapply IH].
Qed.

(** The pointers of the cache thread the indices [l]. *)
Definition links (c : pa_cache) (l : list nat) : Prop :=
  NoDup l ∧ dseg (ca_nodes c) None l None ∧ ca_head c = head l ∧ ca_tail c = last l.

(** What an entry holds, and the nodes but for their links. *)
Record pa_entry := PaEntry { en_pid : Z; en_ticks : Z; en_chain : ig_pid_chain }.
Definition entry_of (n : cache_node) : pa_entry := PaEntry (cn_pid n) (cn_start_ticks n) (cn_chain n).
Definition payload (ns : list cache_node) : list (pa_entry * bool) := (λ n, (entry_of n, cn_in_use n)) <$> ns.

(** Same nodes, count, statistics and size; only links differ. *)
Definition same_payload (c c' : pa_cache) : Prop :=
  payload (ca_nodes c') = payload (ca_nodes c) ∧ ca_count c' = ca_count c ∧ ca_stats c' = ca_stats c ∧
  ca_capacity c' = ca_capacity c ∧ ca_initialized c' = ca_initialized c.

Lemma payload_set_links ns i x p n : ns !! i = Some x → payload (<[i := set_links p n x]> ns) = payload ns.
Proof.
  intros Hx. unfold payload. rewrite list_fmap_insert. apply list_insert_id. by rewrite list_lookup_fmap, Hx.
Qed.

Lemma payload_length ns ns' : payload ns' = payload ns → length ns' = length ns.
Proof. intros H. apply (f_equal length) in H. unfold payload in H. by rewrite !length_fmap in H. Qed.

Lemma same_payload_refl c : same_payload c c.
Proof. by split_and!. Qed.

Lemma same_payload_trans c1 c2 c3 : same_payload c1 c2 → same_payload c2 c3 → same_payload c1 c3.
Proof. intros (H1 & H2 & H3 & H4 & H5) (G1 & G2 & G3 & G4 & G5). split_and!; congruence. Qed.

(** A store of links through a valid pointer. *)
Lemma at_node_links i x p n c : ca_nodes c !! i = Some x →
  at_node i (set_links p n) c = Some (set_nodes (<[i := set_links p n x]> (ca_nodes c)) c) ∧
  same_payload c (set_nodes (<[i := set_links p n x]> (ca_nodes c)) c).
Proof.
  intros Hx. unfold at_node. rewrite Hx. split; [done|]. split_and!; try done. by apply payload_set_links.
Qed.

Lemma same_payload_ends c h t : same_payload c (set_ends h t c).
Proof. by split_and!. Qed.

(** [set_out]: the store into the pointer that leaves the segment [l1] forwards. *)
Lemma set_out_spec c l1 nn m : NoDup l1 → dseg (ca_nodes c) None l1 nn →
  ∃ c1, match final None l1 with
        | Some p => at_node p (set_next m) c
        | None => Some (set_ends m (ca_tail c) c)
        end = Some c1 ∧ same_payload c c1 ∧ dseg (ca_nodes c1) None l1 m ∧
    (∀ k, k ∉ l1 → ca_nodes c1 !! k = ca_nodes c !! k) ∧ ca_tail c1 = ca_tail c ∧
    ca_head c1 = match l1 with [] => m | _ => ca_head c end.
Proof.
  intros Hnd Hseg. destruct l1 as [|p l _] using rev_ind.
  { exists (set_ends m (ca_tail c) c). split; [done|]. split; [apply same_payload_ends|done]. }
  rewrite final_snoc. apply NoDup_app in Hnd as (_ & Hp & _).
  apply dseg_app in Hseg as [Hl [(n & Hn & Hpp & _) _]].
  destruct (at_node_links p n (cn_prev n) m c Hn) as [_ Hsame].
  assert (Hne : ∀ k, k ∈ l → k ≠ p) by (intros k Hk ->; apply (Hp p Hk); by left).
  eexists. split; [unfold at_node; by rewrite Hn|]. split; [exact Hsame|]. cbn [ca_nodes set_nodes ca_tail ca_head].
  split_and!; [|intros k Hk; apply list_lookup_insert_ne; set_solver|done|by destruct l].
  apply dseg_app. split.
  - eapply dseg_ext; [|exact Hl]. intros k Hk. apply list_lookup_insert_ne. intros ->. by apply (Hne k).
  - split; [|done]. eexists. split; [apply list_lookup_insert_eq; by eapply lookup_lt_Some|done].
Qed.

(** [set_in]: the store into the pointer that leaves [l2] backwards. *)
Lemma set_in_spec c pp l2 m : NoDup l2 → dseg (ca_nodes c) pp l2 None →
  ∃ c1, match first l2 None with
        | Some q => at_node q (set_prev m) c
        | None => Some (set_ends (ca_head c) m c)
        end = Some c1 ∧ same_payload c c1 ∧ dseg (ca_nodes c1) m l2 None ∧
    (∀ k, k ∉ l2 → ca_nodes c1 !! k = ca_nodes c !! k) ∧ ca_head c1 = ca_head c ∧
    ca_tail c1 = match l2 with [] => m | _ => ca_tail c end.
Proof.
  intros Hnd Hseg. destruct l2 as [|q l].
  { exists (set_ends (ca_head c) m c). split; [done|]. split; [apply same_payload_ends|done]. }
  apply NoDup_cons in Hnd as [Hq _]. destruct Hseg as [(n & Hn & Hpp & Hnx) Hl].
  destruct (at_node_links q n m (cn_next n) c Hn) as [_ Hsame].
  cbn [first]. eexists. split; [unfold at_node; by rewrite Hn|]. split; [exact Hsame|].
  cbn [ca_nodes set_nodes ca_tail ca_head]. split_and!; [|intros k Hk; apply list_lookup_insert_ne; set_solver|done|done].
  split.
  - eexists. split; [apply list_lookup_insert_eq; by eapply lookup_lt_Some|done].
  - eapply dseg_ext; [|exact Hl]. intros k Hk. apply list_lookup_insert_ne. by intros ->.
Qed.

Lemma unlink_links c l1 i l2 : links c (l1 ++ i :: l2) →
  ∃ c', lru_unlink i c = Some c' ∧ links c' (l1 ++ l2) ∧ same_payload c c'.
Proof.
  intros (Hnd & Hseg & Hh & Ht).
  apply NoDup_app in Hnd as (Hnd1 & Hdis & [Hi2 Hnd2]%NoDup_cons).
  apply dseg_app in Hseg as [Hs1 [(n & Hn & Hp & Hx) Hs2]].
  assert (Hi1 : i ∉ l1) by (intros H; apply (Hdis i H); by left).
  assert (H21 : ∀ k, k ∈ l2 → k ∉ l1) by (intros k H2 H1; apply (Hdis k H1); by right).
  unfold lru_unlink. rewrite Hn. cbn [mbind option_bind]. rewrite Hp, Hx.
  destruct (set_out_spec c l1 _ (first l2 None) Hnd1 Hs1) as (c1 & -> & Hsame1 & Hd1 & Hk1 & Ht1 & Hh1).
  cbn [mbind option_bind].
  destruct (set_in_spec c1 (Some i) l2 (final None l1) Hnd2) as (c2 & -> & Hsame2 & Hd2 & Hk2 & Hh2 & Ht2).
  { eapply dseg_ext; [|exact Hs2]. intros k Hk. by apply Hk1, H21. }
  cbn [mbind option_bind].
  assert (Hn2 : ca_nodes c2 !! i = Some n) by (rewrite Hk2, Hk1; done).
  destruct (at_node_links i n None None c2 Hn2) as [-> Hsame3].
  eexists. split; [done|]. split; [|by eapply same_payload_trans; [|eapply same_payload_trans]].
  assert (Hfr : ∀ k, k ≠ i → <[i := set_links None None n]> (ca_nodes c2) !! k = ca_nodes c2 !! k)
    by (intros k Hk; by apply list_lookup_insert_ne).
  split; [|split; [|split]]; cbn [ca_nodes set_nodes ca_head ca_tail].
  - apply NoDup_app. split; [done|]. split; [|done]. intros k H1 H2. by apply (H21 k H2).
  - apply dseg_app. split.
    + eapply dseg_ext; [|exact Hd1]. intros k Hk. rewrite Hfr by (intros ->; done).
      apply Hk2. intros H2. by apply (H21 k H2).
    + eapply dseg_ext; [|exact Hd2]. intros k Hk. apply Hfr. by intros ->.
  - rewrite Hh2, Hh1, Hh. by destruct l1, l2.
  - rewrite Ht2, Ht1, Ht. unfold final. destruct l2 as [|q l2]; [rewrite app_nil_r; by destruct (last l1)|].
    by rewrite !last_app_cons, last_cons_cons.
Qed.

Lemma push_front_links c i l : links c l → i ∉ l → (i < length (ca_nodes c))%nat →
  ∃ c', lru_push_front i c = Some c' ∧ links c' (i :: l) ∧ same_payload c c'.
Proof.
  intros (Hnd & Hseg & Hh & Ht) Hi Hlt.
  destruct (lookup_lt_is_Some_2 (ca_nodes c) i Hlt) as [n Hn]. unfold lru_push_front.
  destruct (at_node_links i n None (ca_head c) c Hn) as [-> Hsame1]. cbn [mbind option_bind].
  set (c1 := set_nodes _ c) in *. change (ca_head c1) with (ca_head c).
  assert (Hfr : ∀ k, k ≠ i → ca_nodes c1 !! k = ca_nodes c !! k)
    by (intros k Hk; by apply list_lookup_insert_ne).
  assert (Hi1 : ca_nodes c1 !! i = Some (set_links None (ca_head c) n)) by (by apply list_lookup_insert_eq).
  destruct (set_in_spec c1 None l (Some i) Hnd) as (c2 & Hc2 & Hsame2 & Hd2 & Hk2 & Hh2 & Ht2).
  { eapply dseg_ext; [|exact Hseg]. intros k Hk. apply Hfr. by intros ->. }
  exists (set_ends (Some i) (match l with [] => Some i | _ => ca_tail c end) (if l then c1 else c2)).
  rewrite Hh. destruct l as [|h l].
  - cbn [head hd_error mbind option_bind]. cbv zeta. cbn [ca_tail set_ends].
    change (ca_tail c1) with (ca_tail c). rewrite Ht.
    split; [done|]. split; [|by eapply same_payload_trans; [|apply same_payload_ends]].
    split_and!; try done; [by apply NoDup_singleton|]. cbn [dseg first]. split; [|done].
    exists (set_links None (ca_head c) n). split; [exact Hi1|]. by rewrite Hh.
  - cbn [first head hd_error] in Hc2 |- *. rewrite Hc2. cbn [mbind option_bind].
    destruct (last (h :: l)) as [y|] eqn:Hy; [|by apply last_None in Hy].
    change (ca_tail c1) with (ca_tail c) in Ht2. rewrite Ht in Ht2.
    cbv zeta. cbn [ca_tail set_ends]. rewrite Ht2, Ht.
    split; [done|].
    split; [|eapply same_payload_trans; [exact Hsame1|]; eapply same_payload_trans; [exact Hsame2|apply same_payload_ends]].
    split; [by apply NoDup_cons|]. cbn [ca_nodes set_ends ca_head ca_tail]. split; [|split; [done|]].
    + cbn [dseg first]. split; [|exact Hd2].
      exists (set_links None (ca_head c) n). rewrite Hk2 by done. split; [exact Hi1|]. by rewrite Hh.
    + by rewrite last_cons_cons.
Qed.

(** ** Abstract cache: the entries, most recently used first *)

(** A lookup: a hit moves the entry to the front, an entry of an earlier process
    with the same number is dropped. With several entries of one process (see
    below) it is one of them that is found. *)
Inductive lookup_rel (pid ticks : Z) : list pa_entry → option ig_pid_chain → list pa_entry → Prop :=
  | LookupHit E1 e E2 : en_pid e = pid → en_ticks e = ticks →
      lookup_rel pid ticks (E1 ++ e :: E2) (Some (en_chain e)) (e :: E1 ++ E2)
  | LookupStale E1 e E2 : en_pid e = pid → en_ticks e ≠ ticks →
      lookup_rel pid ticks (E1 ++ e :: E2) None (E1 ++ E2)
  | LookupMiss E : Forall (λ e, en_pid e ≠ pid) E → lookup_rel pid ticks E None E.

(** An insertion evicts the last entry of a full cache. *)
Definition spec_insert (cap : Z) (e : pa_entry) (E : list pa_entry) : list pa_entry :=
  e :: if Z.of_nat (length E) <? cap then E else removelast E.

Definition entries (p : list (pa_entry * bool)) (l : list nat) : list pa_entry :=
  omap (λ i, fst <$> p !! i) l.

(** The list threads exactly the nodes in use, and the counter is their number. *)
Record cache_ok (c : pa_cache) (l : list nat) : Prop := {
  co_links : links c l;
  co_used : ∀ i e u, payload (ca_nodes c) !! i = Some (e, u) → (u = true ↔ i ∈ l);
  co_count : ca_count c = Z.of_nat (length l);
  co_size : Z.of_nat (length (ca_nodes c)) = ca_capacity c ∧ 0 < ca_capacity c;
  co_init : ca_initialized c = true }.

Definition cached (c : pa_cache) (E : list pa_entry) : Prop :=
  ∃ l, cache_ok c l ∧ E = entries (payload (ca_nodes c)) l.

Lemma payload_lookup ns i : payload ns !! i = (λ n, (entry_of n, cn_in_use n)) <$> ns !! i.
Proof. apply list_lookup_fmap. Qed.

Lemma payload_size ns : length (payload ns) = length ns.
Proof. apply length_fmap. Qed.

Lemma entries_app p l1 l2 : entries p (l1 ++ l2) = entries p l1 ++ entries p l2.
Proof. apply omap_app. Qed.

Lemma entries_cons p i l e u : p !! i = Some (e, u) → entries p (i :: l) = e :: entries p l.
Proof. intros H. unfold entries. cbn. by rewrite H. Qed.

Lemma entries_insert p i x l : i ∉ l → entries (<[i := x]> p) l = entries p l.
Proof.
  induction l as [|j l IH]; intros Hi; [done|]. apply not_elem_of_cons in Hi as [Hne Hi].
  unfold entries in *. cbn. rewrite list_lookup_insert_ne by done. by rewrite IH.
Qed.

Lemma index_valid c l i : cache_ok c l → i ∈ l → ∃ e, payload (ca_nodes c) !! i = Some (e, true).
Proof.
  intros [(_ & Hs & _) Hu _ _ _] Hi. pose proof (dseg_bound _ _ _ _ _ Hs Hi) as Hlt.
  rewrite <- payload_size in Hlt. destruct (lookup_lt_is_Some_2 _ _ Hlt) as [[e u] He].
  exists e. rewrite He. by rewrite (proj2 (Hu _ _ _ He) Hi).
Qed.

Lemma entries_length c l : cache_ok c l → length (entries (payload (ca_nodes c)) l) = length l.
Proof.
  intros Hok. assert (H : ∀ i, i ∈ l → ∃ e, payload (ca_nodes c) !! i = Some (e, true))
    by (intros i; by apply index_valid).
  induction l as [|i l IH] in H |- *; [done|]. destruct (H i (list_elem_of_here _ _)) as [e He].
  rewrite (entries_cons _ _ _ _ _ He). cbn. f_equal. apply IH. intros j Hj. apply H. by right.
Qed.

(** A store to a node outside the list. *)
Lemma links_frame c l i x : i ∉ l → links c l → links (set_nodes (<[i := x]> (ca_nodes c)) c) l.
Proof.
  intros Hi (Hnd & Hs & Hh & Ht). split; [done|]. split; [|done]. cbn [ca_nodes set_nodes].
  eapply dseg_ext; [|exact Hs]. intros k Hk. apply list_lookup_insert_ne. by intros ->.
Qed.

(** A node moved to the front. *)
Lemma node_touch_ok c l1 i l2 : cache_ok c (l1 ++ i :: l2) →
  ∃ c1 c2, lru_unlink i c = Some c1 ∧ lru_push_front i c1 = Some c2 ∧ cache_ok c2 (i :: l1 ++ l2) ∧
    payload (ca_nodes c2) = payload (ca_nodes c) ∧ ca_capacity c2 = ca_capacity c.
Proof.
  intros [Hl Hu Hc [Hs Hp] Hi].
  destruct (unlink_links c l1 i l2 Hl) as (c1 & H1 & Hl1 & Hp1).
  pose proof Hl as (Hnd & Hseg & _).
  assert (Hni : i ∉ l1 ++ l2).
  { apply NoDup_app in Hnd as (_ & Hd & [Hi2 _]%NoDup_cons). intros [H|H]%elem_of_app; [|done].
    apply (Hd i H). by left. }
  assert (Hlt : (i < length (ca_nodes c1))%nat).
  { rewrite (payload_length _ _ (proj1 Hp1)). eapply dseg_bound; [exact Hseg|]. set_solver. }
  destruct (push_front_links c1 i _ Hl1 Hni Hlt) as (c2 & H2 & Hl2 & Hp2).
  destruct (same_payload_trans _ _ _ Hp1 Hp2) as (Hpay & Hcnt & _ & Hcap & Hini).
  exists c1, c2. split; [done|]. split; [done|]. split; [|done]. split.
  - done.
  - intros j e u. rewrite Hpay. intros Hj. rewrite (Hu j e u Hj), !elem_of_app, !elem_of_cons, elem_of_app. tauto.
  - rewrite Hcnt, Hc. rewrite !length_app. cbn. rewrite length_app. lia.
  - by rewrite (payload_length _ _ Hpay), Hcap.
  - by rewrite Hini.
Qed.

(** A node taken out and marked free. *)
Lemma drop_ok c l1 i l2 : cache_ok c (l1 ++ i :: l2) →
  ∃ c1 c2, lru_unlink i c = Some c1 ∧ at_node i (set_in_use false) c1 = Some c2 ∧
    (∀ s, cache_ok (set_stats s (add_count (-1) c2)) (l1 ++ l2)) ∧ ca_capacity c2 = ca_capacity c ∧
    entries (payload (ca_nodes c2)) (l1 ++ l2) = entries (payload (ca_nodes c)) (l1 ++ l2) ∧
    (∃ e, payload (ca_nodes c2) !! i = Some (e, false)).
Proof.
  intros Hok. pose proof Hok as [Hl Hu Hc [Hs Hp] Hi].
  destruct (unlink_links c l1 i l2 Hl) as (c1 & H1 & Hl1 & Hpay & Hcnt & _ & Hcap & Hini).
  destruct Hl as (Hnd & Hseg & _).
  assert (Hni : i ∉ l1 ++ l2).
  { apply NoDup_app in Hnd as (_ & Hd & [Hi2 _]%NoDup_cons). intros [H|H]%elem_of_app; [|done].
    apply (Hd i H). by left. }
  destruct (index_valid c _ i Hok ltac:(set_solver)) as [e He]. rewrite <- Hpay, payload_lookup in He.
  destruct (ca_nodes c1 !! i) as [n|] eqn:Hn; [|done]. injection He as He Hun.
  assert (Hpay2 : payload (<[i := set_in_use false n]> (ca_nodes c1)) = <[i := (e, false)]> (payload (ca_nodes c)))
    by (unfold payload; rewrite list_fmap_insert; fold (payload (ca_nodes c1)); rewrite Hpay; by subst e).
  exists c1, (set_nodes (<[i := set_in_use false n]> (ca_nodes c1)) c1).
  split; [done|]. split; [unfold at_node; by rewrite Hn|].
  assert (Hlt : (i < length (payload (ca_nodes c)))%nat).
  { rewrite payload_size. eapply dseg_bound; [exact Hseg|]. set_solver. }
  cbn [ca_nodes set_nodes ca_capacity]. rewrite Hpay2. split; [intros s|split; [done|split]].
  - split; cbn [ca_nodes set_nodes set_stats add_count ca_count ca_capacity ca_initialized].
    + by apply (links_frame c1).
    + rewrite Hpay2. intros j x u Hj. destruct (decide (j = i)) as [->|Hne].
      * rewrite list_lookup_insert_eq in Hj by done. injection Hj as <- <-. by split.
      * rewrite list_lookup_insert_ne in Hj by done.
        rewrite (Hu j x u Hj), !elem_of_app, elem_of_cons. naive_solver.
    + rewrite Hcnt, Hc, !length_app. cbn. lia.
    + by rewrite length_insert, (payload_length _ _ Hpay), Hcap.
    + by rewrite Hini.
  - by apply entries_insert.
  - exists e. by apply list_lookup_insert_eq.
Qed.

(** A free node filled and put in front. *)
Lemma fill_ok c l i pid ticks chain : cache_ok c l → i ∉ l → (i < length (ca_nodes c))%nat →
  ∃ c1 c2, at_node i (λ n, CacheNode pid ticks chain (cn_prev n) (cn_next n) true) c = Some c1 ∧
    lru_push_front i c1 = Some c2 ∧ cache_ok (add_count 1 c2) (i :: l) ∧ ca_capacity c2 = ca_capacity c ∧
    entries (payload (ca_nodes c2)) (i :: l) = PaEntry pid ticks chain :: entries (payload (ca_nodes c)) l.
Proof.
  intros [Hl Hu Hc [Hs Hp] Hi] Hni Hlt. destruct (lookup_lt_is_Some_2 (ca_nodes c) i Hlt) as [n Hn].
  set (x := CacheNode pid ticks chain (cn_prev n) (cn_next n) true).
  set (c1 := set_nodes (<[i := x]> (ca_nodes c)) c).
  assert (Hl1 : links c1 l) by (by apply links_frame).
  assert (Hlt1 : (i < length (ca_nodes c1))%nat) by (cbn; by rewrite length_insert).
  destruct (push_front_links c1 i l Hl1 Hni Hlt1) as (c2 & H2 & Hl2 & Hpay & Hcnt & _ & Hcap & Hini).
  set (e := PaEntry pid ticks chain).
  assert (Hpay1 : payload (ca_nodes c1) = <[i := (e, true)]> (payload (ca_nodes c)))
    by (unfold payload, c1; cbn [ca_nodes set_nodes]; by rewrite list_fmap_insert).
  rewrite Hpay1 in Hpay. assert (Hlt2 : (i < length (payload (ca_nodes c)))%nat) by (by rewrite payload_size).
  exists c1, c2. split; [unfold at_node; by rewrite Hn|]. split; [done|]. split; [|split; [done|]].
  - split; cbn [ca_nodes add_count ca_count ca_capacity ca_initialized].
    + done.
    + rewrite Hpay. intros j y u Hj. destruct (decide (j = i)) as [->|Hne].
      * rewrite list_lookup_insert_eq in Hj by done. injection Hj as <- <-. split; [by left|done].
      * rewrite list_lookup_insert_ne in Hj by done. rewrite (Hu j y u Hj), elem_of_cons. naive_solver.
    + rewrite Hcnt. change (ca_count c1) with (ca_count c). rewrite Hc. cbn [length]. lia.
    + rewrite Hcap. split; [|exact Hp]. rewrite <- payload_size, Hpay, length_insert, payload_size. exact Hs.
    + by rewrite Hini.
  - rewrite Hpay. rewrite (entries_cons _ _ _ e true) by (by apply list_lookup_insert_eq).
    by rewrite entries_insert.
Qed.

(** ** The critical sections *)

Lemma lookup_section c E pid ticks : cached c E → ∃ r c' E',
  cache_lookup pid ticks c = Some (r, c') ∧ cached c' E' ∧ ca_capacity c' = ca_capacity c ∧
  lookup_rel pid ticks E r E'.
Proof.
  intros (l & Hok & ->). unfold cache_lookup. destruct (cache_find pid c) as [i|] eqn:Hf.
  - apply find_index_Some in Hf as [(n & Hn & [Hu Hpid%Z.eqb_eq]%andb_true_iff) _]. rewrite Hn. cbn [mbind option_bind].
    assert (He : payload (ca_nodes c) !! i = Some (entry_of n, true)) by (rewrite payload_lookup, Hn; cbn; by rewrite Hu).
    assert (Hi : i ∈ l) by (by apply (co_used _ _ Hok i (entry_of n) true)).
    apply list_elem_of_split in Hi as (l1 & l2 & ->). rewrite entries_app, (entries_cons _ i l2 _ _ He).
    destruct (Z.eqb_spec (cn_start_ticks n) ticks) as [Ht|Ht].
    + destruct (node_touch_ok c l1 i l2 Hok) as (c1 & c2 & -> & H2 & Hok2 & Hpay & Hcap). cbn [mbind option_bind].
      rewrite H2. cbn [mbind option_bind]. eexists _, _, _. split; [reflexivity|].
      split; [|split; [exact Hcap|by apply (LookupHit pid ticks _ (entry_of n))]].
      exists (i :: l1 ++ l2). cbn [ca_nodes set_stats]. split; [by destruct Hok2|].
      by rewrite Hpay, (entries_cons _ i _ _ _ He), entries_app.
    + destruct (drop_ok c l1 i l2 Hok) as (c1 & c2 & -> & H2 & Hok2 & Hcap & Hent & _). cbn [mbind option_bind].
      rewrite H2. cbn [mbind option_bind]. eexists _, _, _. split; [reflexivity|].
      split; [|split; [exact Hcap|by apply (LookupStale pid ticks _ (entry_of n))]].
      exists (l1 ++ l2). cbn [ca_nodes set_stats add_count]. split; [apply Hok2|].
      by rewrite Hent, entries_app.
  - eexists _, _, _. split; [reflexivity|]. split; [exists l; split; [by destruct Hok|done]|].
    split; [done|]. cbn [ca_nodes set_stats]. apply LookupMiss. apply Forall_forall. intros e He.
    unfold entries in He. apply list_elem_of_omap in He as (i & Hi & Hei).
    destruct (index_valid c l i Hok Hi) as [e' He']. rewrite He' in Hei. injection Hei as ->.
    rewrite payload_lookup in He'. destruct (ca_nodes c !! i) as [n|] eqn:Hn; [|done]. injection He' as <- Hu.
    pose proof (proj1 (find_index_None _ _) Hf n (list_elem_of_lookup_2 _ _ _ Hn)) as Hfalse. cbn in Hfalse.
    rewrite Hu in Hfalse. cbn in Hfalse. by apply Z.eqb_neq in Hfalse.
Qed.

Lemma removelast_entries p l i e u : p !! i = Some (e, u) → removelast (entries p (l ++ [i])) = entries p l.
Proof. intros H. rewrite entries_app, (entries_cons _ _ _ _ _ H). apply removelast_last. Qed.

(** A list of valid indices without duplicates is no longer than the array; it
    is as long exactly when every node is in use. *)
Lemma free_slot c l : cache_ok c l →
  match find_index (λ n, negb (cn_in_use n)) (ca_nodes c) with
  | Some i => i ∉ l ∧ (i < length (ca_nodes c))%nat ∧ Z.of_nat (length l) < ca_capacity c
  | None => Z.of_nat (length l) = ca_capacity c
  end.
Proof.
  intros Hok. pose proof Hok as [(Hnd & Hseg & _) Hu _ [Hs Hp] _].
  assert (Hsub : l ⊆ seq 0 (length (ca_nodes c))).
  { intros j Hj. apply elem_of_seq. pose proof (dseg_bound _ _ _ _ j Hseg Hj). lia. }
  destruct (find_index _ _) as [i|] eqn:Hf.
  - apply find_index_Some in Hf as [(n & Hn & Hun%negb_true_iff) _].
    assert (Hni : i ∉ l).
    { intros Hi. assert (Hpl : payload (ca_nodes c) !! i = Some (entry_of n, cn_in_use n)) by (by rewrite payload_lookup, Hn).
      apply (Hu _ _ _ Hpl) in Hi. congruence. }
    pose proof (lookup_lt_Some _ _ _ Hn) as Hlt. split; [done|]. split; [done|].
    assert (Hnd' : NoDup (i :: l)) by (by apply NoDup_cons).
    assert (Hsub' : i :: l ⊆ seq 0 (length (ca_nodes c))).
    { intros j [->|Hj]%elem_of_cons; [apply elem_of_seq; lia|by apply Hsub]. }
    pose proof (submseteq_length _ _ (NoDup_submseteq _ _ Hnd' Hsub')) as Hlen.
    rewrite length_seq in Hlen. cbn in Hlen. lia.
  - assert (Hall : seq 0 (length (ca_nodes c)) ⊆ l).
    { intros j [_ Hj]%elem_of_seq. destruct (lookup_lt_is_Some_2 (ca_nodes c) j ltac:(lia)) as [n Hn].
      pose proof (proj1 (find_index_None _ _) Hf n (list_elem_of_lookup_2 _ _ _ Hn)) as Hun. cbn in Hun.
      apply negb_false_iff in Hun. apply (Hu j (entry_of n) true); [|done].
      rewrite payload_lookup, Hn. cbn. by rewrite Hun. }
    pose proof (submseteq_length _ _ (NoDup_submseteq _ _ Hnd Hsub)) as H1.
    pose proof (submseteq_length _ _ (NoDup_submseteq _ _ (NoDup_seq 0 _) Hall)) as H2.
    rewrite length_seq in H1, H2. lia.
Qed.

Lemma insert_section c E pid ticks chain : cached c E → ∃ c',
  cache_insert pid ticks chain c = Some c' ∧ ca_capacity c' = ca_capacity c ∧
  cached c' (spec_insert (ca_capacity c) (PaEntry pid ticks chain) E).
Proof.
  intros (l & Hok & ->). unfold cache_insert, cache_alloc_slot, spec_insert.
  pose proof (free_slot c l Hok) as Hfree. rewrite (entries_length c l Hok).
  destruct (find_index _ _) as [i|].
  - destruct Hfree as (Hni & Hlt & Hlen). cbn [mbind option_bind].
    destruct (fill_ok c l i pid ticks chain Hok Hni Hlt) as (c1 & c2 & -> & H2 & Hok2 & Hcap & Hent).
    cbn [mbind option_bind]. rewrite H2. cbn [mbind option_bind]. eexists. split; [reflexivity|].
    split; [exact Hcap|]. destruct (Z.ltb_spec (Z.of_nat (length l)) (ca_capacity c)); [|lia].
    exists (i :: l). split; [exact Hok2|]. by rewrite <- Hent.
  - pose proof Hok as [(_ & _ & _ & Ht) _ _ [Hs Hp] _].
    destruct (Z.ltb_spec (Z.of_nat (length l)) (ca_capacity c)); [lia|].
    destruct l as [|v l' _] using rev_ind; [cbn in *; lia|]. rewrite Ht, last_snoc.
    assert (Hnd : NoDup (l' ++ [v])) by apply Hok.
    destruct (index_valid c _ v Hok ltac:(set_solver)) as [ev Hev].
    destruct (drop_ok c l' v [] Hok) as (c1 & c2 & -> & H2 & Hok2' & Hcap & Hent & _). cbn [mbind option_bind].
    rewrite H2. cbn [mbind option_bind]. rewrite app_nil_r in Hok2', Hent.
    pose proof (Hok2' (count_eviction (ca_stats c2))) as Hok2.
    assert (Hni : v ∉ l') by (intros Hv; apply NoDup_app in Hnd as (_ & Hd & _); apply (Hd v Hv); by left).
    edestruct (fill_ok _ l' v pid ticks chain Hok2 Hni) as (c3 & c4 & H3 & H4 & Hok4 & Hcap4 & Hent4).
    { cbn [ca_nodes set_stats add_count]. pose proof (index_valid c _ v Hok ltac:(set_solver)) as [x Hx].
      apply lookup_lt_Some in Hx. rewrite payload_size in Hx. pose proof (co_size _ _ Hok2) as [Hs2 _].
      cbn [ca_nodes set_stats add_count ca_capacity] in Hs2. lia. }
    rewrite H3. cbn [mbind option_bind]. rewrite H4. cbn [mbind option_bind]. eexists. split; [reflexivity|].
    split; [rewrite <- Hcap; exact Hcap4|]. exists (v :: l'). split; [exact Hok4|].
    cbn [ca_nodes add_count set_stats] in Hent4 |- *. by rewrite Hent4, Hent, (removelast_entries _ l' v ev true).
Qed.

(** ** Properties *)

(** What the critical sections do to an abstract cache with one entry per process. *)
Definition spec_lookup (pid ticks : Z) (E : list pa_entry) : option ig_pid_chain * list pa_entry :=
  let rest := filter (λ e, en_pid e ≠ pid) E in
  match head (filter (λ e, en_pid e = pid) E) with
  | Some e => if en_ticks e =? ticks then (Some (en_chain e), e :: rest) else (None, rest)
  | None => (None, rest)
  end.

Definition spec_section (cap : Z) (E : list pa_entry) (s : cache_section) : list pa_entry :=
  match s with
  | SecLookup pid ticks => (spec_lookup pid ticks E).2
  | SecInsert pid ticks chain => spec_insert cap (PaEntry pid ticks chain) E
  end.

(** A cached resolution: [fresh] is the chain /proc shows, [others] what other threads
    do to the cache while it is read. *)
Definition spec_resolve (cap pid ticks : Z) (fresh : ig_pid_chain) (others : list cache_section)
    (E : list pa_entry) : ig_pid_chain * list pa_entry :=
  match spec_lookup pid ticks E with
  | (Some chain, E) => (chain, E)
  | (None, E) => (fresh, spec_insert cap (PaEntry pid ticks fresh) (fold_left (spec_section cap) others E))
  end.

(** No process is inserted that is there already: what happens when two threads look
    up the same process at once and both miss it. *)
Fixpoint apart (cap : Z) (ss : list cache_section) (E : list pa_entry) : Prop :=
  match ss with
  | [] => True
  | s :: ss => match s with SecInsert pid _ _ => Forall (λ e, en_pid e ≠ pid) E | _ => True end ∧
               apart cap ss (spec_section cap E s)
  end.

Definition one_per_pid (E : list pa_entry) : Prop := NoDup (en_pid <$> E).

Lemma filter_split E1 e E2 : one_per_pid (E1 ++ e :: E2) →
  filter (λ x, en_pid x ≠ en_pid e) (E1 ++ e :: E2) = E1 ++ E2 ∧
  head (filter (λ x, en_pid x = en_pid e) (E1 ++ e :: E2)) = Some e.
Proof.
  unfold one_per_pid. rewrite fmap_app, fmap_cons. intros (_ & Hd & [Hn _]%NoDup_cons)%NoDup_app.
  assert (H1 : ∀ x, x ∈ E1 → en_pid x ≠ en_pid e).
  { intros x Hx Heq. apply (Hd (en_pid e)); [|by left]. rewrite <- Heq. by apply list_elem_of_fmap_2. }
  assert (H2 : ∀ x, x ∈ E2 → en_pid x ≠ en_pid e).
  { intros x Hx Heq. apply Hn. rewrite <- Heq. by apply list_elem_of_fmap_2. }
  rewrite !filter_app, !filter_cons. destruct (decide (en_pid e ≠ en_pid e)); [done|].
  destruct (decide (en_pid e = en_pid e)); [|done]. rewrite !(filter_all _ _ H1), !(filter_all _ _ H2). split; [done|].
  assert (Hnil : filter (λ x, en_pid x = en_pid e) E1 = []).
  { clear -H1. induction E1 as [|x E1 IH]; [done|]. rewrite filter_cons, decide_False by (apply H1; by left).
    apply IH. intros y Hy. apply H1. by right. }
  by rewrite Hnil.
Qed.

Lemma sublist_one_per_pid E E' : E' `sublist_of` E → one_per_pid E → one_per_pid E'.
Proof. intros Hs Hd. unfold one_per_pid. eapply sublist_NoDup; [exact Hd|]. by apply fmap_sublist. Qed.

Lemma removelast_sublist {A} (l : list A) : removelast l `sublist_of` l.
Proof.
  destruct l as [|x l _] using rev_ind; [done|]. rewrite removelast_last. by apply sublist_inserts_r.
Qed.

Lemma one_per_pid_insert cap e E : Forall (λ x, en_pid x ≠ en_pid e) E → one_per_pid E →
  one_per_pid (spec_insert cap e E).
Proof.
  intros Hn Hd. unfold spec_insert. set (E' := if Z.of_nat (length E) <? cap then E else removelast E).
  assert (Hs : E' `sublist_of` E) by (unfold E'; destruct (_ <? cap); [done|apply removelast_sublist]).
  apply NoDup_cons. split; [|by eapply sublist_one_per_pid].
  intros (x & Heq & Hx)%list_elem_of_fmap. rewrite Forall_forall in Hn.
  apply (Hn x); [|done]. by eapply elem_of_sublist.
Qed.

Lemma one_per_pid_touch E1 e E2 : one_per_pid (E1 ++ e :: E2) → one_per_pid (e :: E1 ++ E2).
Proof. unfold one_per_pid. intros H. eapply NoDup_Permutation_proper; [|exact H]. by rewrite Permutation_middle. Qed.

(** The relation of a lookup is the function, when there is one entry per process. *)
Lemma lookup_rel_spec pid ticks E r E' : one_per_pid E → lookup_rel pid ticks E r E' →
  spec_lookup pid ticks E = (r, E') ∧ one_per_pid E' ∧ (r = None → Forall (λ e, en_pid e ≠ pid) E').
Proof.
  intros Huniq Hrel. unfold spec_lookup. destruct Hrel as [E1 e E2 <- Ht|E1 e E2 <- Ht|E Hmiss].
  - destruct (filter_split _ _ _ Huniq) as [-> ->]. rewrite Ht, Z.eqb_refl. split; [done|].
    split; [by apply one_per_pid_touch|done].
  - destruct (filter_split _ _ _ Huniq) as [-> ->]. rewrite (proj2 (Z.eqb_neq _ _) Ht). split; [done|].
    apply one_per_pid_touch, NoDup_cons in Huniq as [Hn Hd]. split; [exact Hd|]. intros _.
    apply Forall_forall. intros x Hx Heq. apply Hn. rewrite <- Heq. by apply list_elem_of_fmap_2.
  - pose proof Hmiss as Hall. rewrite Forall_forall in Hmiss. rewrite (filter_all _ E Hmiss).
    assert (Hnil : filter (λ e, en_pid e = pid) E = []).
    { clear -Hmiss. induction E as [|x E IH]; [done|]. rewrite filter_cons, decide_False by (apply Hmiss; by left).
      apply IH. intros y Hy. apply Hmiss. by right. }
    by rewrite Hnil.
Qed.

(** A critical section, and any number of them. *)
Lemma section_refines s c E : cached c E → one_per_pid E → apart (ca_capacity c) [s] E → ∃ c',
  run_section s c = Some c' ∧ ca_capacity c' = ca_capacity c ∧ cached c' (spec_section (ca_capacity c) E s) ∧
  one_per_pid (spec_section (ca_capacity c) E s).
Proof.
  intros Hc Huniq [Hap _]. destruct s as [pid ticks|pid ticks chain]; cbn [run_section spec_section].
  - destruct (lookup_section c E pid ticks Hc) as (r & c1 & E1 & -> & Hc1 & Hcap1 & Hrel).
    destruct (lookup_rel_spec _ _ _ _ _ Huniq Hrel) as (-> & H1 & _). by exists c1.
  - destruct (insert_section c E pid ticks chain Hc) as (c' & Hi & Hcap & Hc'). exists c'. split; [exact Hi|].
    split; [exact Hcap|]. split; [exact Hc'|]. by apply one_per_pid_insert.
Qed.

Lemma sections_refine ss : ∀ c E, cached c E → one_per_pid E → apart (ca_capacity c) ss E → ∃ c',
  run_sections ss c = Some c' ∧ ca_capacity c' = ca_capacity c ∧
  cached c' (fold_left (spec_section (ca_capacity c)) ss E) ∧
  one_per_pid (fold_left (spec_section (ca_capacity c)) ss E).
Proof.
  induction ss as [|s ss IH]; intros c E Hc Huniq Hap; [by exists c|]. destruct Hap as [Hs Hss].
  destruct (section_refines s c E Hc Huniq) as (c1 & Hr & Hcap & Hc1 & Hu1); [by split|]. rewrite <- Hcap in Hss.
  destruct (IH c1 (spec_section (ca_capacity c) E s) Hc1 Hu1) as (c2 & Hr2 & Hcap2 & H2);
    [by rewrite Hcap in Hss |- *|]. exists c2. cbn [run_sections fold_left]. rewrite Hr. cbn [mbind option_bind].
  rewrite Hcap in H2, Hcap2. done.
Qed.

Lemma apart_snoc cap s ss : ∀ E, apart cap (ss ++ [s]) E ↔ apart cap ss E ∧ apart cap [s] (fold_left (spec_section cap) ss E).
Proof. induction ss as [|x ss IH]; intros E; cbn [app apart fold_left]; [tauto|]. rewrite IH. cbn [apart]. tauto. Qed.

(** [C22] The cache is a least-recently-used map from processes to chains, keyed
    by process number and start time. For a process that /proc shows when it is looked up, a hit returns the stored chain and moves
    the entry to the front; an entry of an earlier process with the same number
    is replaced by what /proc shows, as is a missing one, and a full cache
    evicts its oldest entry. No pointer is followed outside the list. While /proc is
    read other threads may enter the cache, for any number of lookups and insertions;
    there stays one entry per process as long as no two threads miss the same process
    at once, so that none inserts a process that is there. (Two that do add an entry each.) *)
Theorem pa_cache_refines_lru (b : boot_meta) (probe : procfs) (fs : nat → procfs) (others : list cache_section)
    (pid : Z) (c : pa_cache) (E : list pa_entry) (p : ig_proc_info)
    (Hc : cached c E) (Huniq : one_per_pid E)
    (Hprobe : parse_stat probe b pid (proc_info_of_pid pid) = Some p)
    (Hothers : let '(hit, E') := spec_lookup pid (pi_start_ticks p) E in
       hit = None → apart (ca_capacity c) (others ++ [SecInsert pid (pi_start_ticks p) (ig_pa_resolve fs b pid)]) E') :
  let '(chain, E') := spec_resolve (ca_capacity c) pid (pi_start_ticks p) (ig_pa_resolve fs b pid) others E in
  ∃ c', ig_pa_resolve_cached b probe fs others pid c = Some (chain, c') ∧ cached c' E' ∧ one_per_pid E'.
Proof.
  pose proof Hc as (l & [_ _ _ [_ Hcap] Hinit] & _). unfold ig_pa_resolve_cached, spec_resolve.
  rewrite Hinit, Hprobe. cbn [negb orb]. destruct (Z.leb_spec (ca_capacity c) 0); [lia|].
  destruct (lookup_section c E pid (pi_start_ticks p) Hc) as (r & c1 & E1 & -> & Hc1 & Hcap1 & Hrel).
  destruct (lookup_rel_spec _ _ _ _ _ Huniq Hrel) as (Hspec & Hu1 & _). rewrite Hspec in *.
  cbn [mbind option_bind]. destruct r as [chain|]; [by exists c1|].
  specialize (Hothers eq_refl). rewrite <- Hcap1 in *. apply apart_snoc in Hothers as [Hap Hlast].
  destruct (sections_refine others c1 E1 Hc1 Hu1 Hap) as (c2 & -> & Hcap2 & Hc2 & Hu2).
  cbn [mbind option_bind]. rewrite <- Hcap2 in *.
  destruct (section_refines _ c2 _ Hc2 Hu2 Hlast) as (c3 & Hi & _ & Hc3 & Hu3). cbn [run_section spec_section] in *.
  rewrite Hi. by exists c3.
Qed.

Lemma cached_init cap : 0 < cap → cached (ig_pa_cache_init cap true pa_cache_zero).2 [].
Proof.
  intros Hcap. unfold ig_pa_cache_init. cbn [ca_initialized pa_cache_zero negb].
  destruct (Z.leb_spec cap 0); [lia|]. exists []. split; [|done]. cbn [snd]. split; try done.
  - split; [constructor|done].
  - intros i e u He. unfold payload in He. cbn [ca_nodes] in He. rewrite fmap_replicate in He.
    apply lookup_replicate in He as [[= -> ->] _]. split; [done|]. by intros ?%elem_of_nil.
  - cbn [ca_nodes ca_capacity]. rewrite length_replicate. lia.
Qed.

(** Whatever the order in which threads enter the critical sections, no pointer
    is followed outside the array, and the cache holds at most [cap] entries,
    as many as its counter says. *)
Theorem pa_cache_sections_safe (cap : Z) (ss : list cache_section) (Hcap : 0 < cap) :
  ∃ c E, run_sections ss (ig_pa_cache_init cap true pa_cache_zero).2 = Some c ∧ cached c E ∧
    ca_count c = Z.of_nat (length E) ∧ ca_count c ≤ cap.
Proof.
  assert (Hgen : ∀ c E, cached c E → ca_capacity c = cap → ∃ c' E', run_sections ss c = Some c' ∧
            cached c' E' ∧ ca_capacity c' = cap).
  { induction ss as [|s ss IH]; intros c E Hc Hcp; [by exists c, E|]. cbn [run_sections].
    destruct s as [pid ticks|pid ticks chain]; cbn [run_section].
    - destruct (lookup_section c E pid ticks Hc) as (r & c' & E' & -> & Hc' & Hcp' & _).
      apply (IH c' E'); [done|congruence].
    - destruct (insert_section c E pid ticks chain Hc) as (c' & -> & Hcp' & Hc').
      apply (IH c' _ Hc'). congruence. }
  destruct (Hgen _ _ (cached_init cap Hcap)) as (c & E & Hr & Hc & Hcp).
  { unfold ig_pa_cache_init. cbn. by destruct (Z.leb_spec cap 0); [lia|]. }
  exists c, E. split; [done|]. split; [done|]. destruct Hc as (l & Hok & ->).
  rewrite (entries_length c l Hok), (co_count _ _ Hok). split; [done|].
  pose proof (free_slot c l Hok) as Hf. rewrite Hcp in Hf. by destruct (find_index _ _); lia.
Qed.

(** *** Witnesses *)

Definition two_slots : pa_cache := (ig_pa_cache_init 2 true pa_cache_zero).2.

(** Another thread looks up and inserts process 7 meanwhile. *)
Lemma pa_cache_refines_lru_witness :
  ∃ c', ig_pa_resolve_cached (BootMeta 0 100) odd_fs (λ _, odd_fs) [SecLookup 7 1; SecInsert 7 1 pid_chain_zero]
          4242 two_slots = Some (ig_pa_resolve (λ _, odd_fs) (BootMeta 0 100) 4242, c') ∧
    cached c' [PaEntry 4242 123456 (ig_pa_resolve (λ _, odd_fs) (BootMeta 0 100) 4242); PaEntry 7 1 pid_chain_zero].
Proof.
  destruct (pa_cache_refines_lru (BootMeta 0 100) odd_fs (λ _, odd_fs) [SecLookup 7 1; SecInsert 7 1 pid_chain_zero]
    4242 two_slots []
    (ProcInfo 4242 900 0 0 900 (lit "pts/1") (lit "a) R (b") [] [] 123456 0)
    (cached_init 2 eq_refl) (NoDup_nil_2) (stat_line_roundtrip odd_fs (BootMeta 0 100) odd_line
       (proc_info_of_pid 4242) odd_line_ok eq_refl)) as (c' & H1 & H2 & _).
  - intros _. cbn. repeat constructor. done.
  - exists c'. split; [exact H1|exact H2].
Defined.

(** Two threads that miss the same process fill two slots with it. *)
Example overlapping_misses_duplicate (chain : ig_pid_chain) :
  (ca_count <$> run_sections [SecLookup 7 1; SecLookup 7 1; SecInsert 7 1 chain; SecInsert 7 1 chain]
                  (ig_pa_cache_init 2 true pa_cache_zero).2) = Some 2.
Proof. reflexivity. Qed.
