(* ===== verification/Config.v ===== *)
(** * Configuration parser (ig_config.c)

    The line syntax of ig.conf, its sections, defaults and limits. The file is
    its bytes; [fgets] cuts lines of more than 1023 bytes, as the code's buffer
    does. *)

From S2P Require Import Prelude Bytes CText Monitor.

Local Open Scope Z_scope.

(** Leading blanks and trailing white space. *)
Definition is_trail (c : Z) : bool := (c =? 32) || (c =? 9) || (c =? 10) || (c =? 13).

(* @src ig_config.c:27-36 trim *)
Definition trim (s : cstring) : cstring := rev (drop_while is_trail (rev (drop_while is_blank s))).

(* @src ig_config.c:38-42 config_section_t *)
Inductive config_section := SECTION_GLOBAL | SECTION_WATCH | SECTION_PROTECT.

Definition MAX_PROTECT : nat := 32.
#[global] Arguments MAX_PROTECT : simpl never.

(** The defaults, over zeroed memory. *)
(* @src ig_config.c:45-52 ig_config_load *)
Definition config_default : ig_config := Config 1 (lit "/var/log/ig_monitor.log") 0 0 1 [] [].

(* @src ig_config.c:71-79 ig_config_load *)
Definition section_of (line : cstring) : config_section :=
  if is_prefix (lit "[watch]") line || is_prefix (lit "[watch_inotify]") line then SECTION_WATCH
  else if is_prefix (lit "[protect]") line then SECTION_PROTECT
  else SECTION_GLOBAL.

(* @src ig_config.c:90-121 ig_config_load *)
Definition apply_entry (section : config_section) (key val : cstring) (c : ig_config) : ig_config :=
  match section with
  | SECTION_GLOBAL =>
      if bool_decide (key = lit "log_file") then
        Config (cfg_daemonize c) (strncpy val (IG_MAX_PATH - 1)) (cfg_log_to_syslog c) (cfg_verbose c)
          (cfg_ebpf_enabled c) (cfg_watches c) (cfg_protect_paths c)
      else if bool_decide (key = lit "syslog") then
        Config (cfg_daemonize c) (cfg_log_file c) (atoi val) (cfg_verbose c)
          (cfg_ebpf_enabled c) (cfg_watches c) (cfg_protect_paths c)
      else if bool_decide (key = lit "verbose") then
        Config (cfg_daemonize c) (cfg_log_file c) (cfg_log_to_syslog c) (atoi val)
          (cfg_ebpf_enabled c) (cfg_watches c) (cfg_protect_paths c)
      else if bool_decide (key = lit "daemonize") then
        Config (atoi val) (cfg_log_file c) (cfg_log_to_syslog c) (cfg_verbose c)
          (cfg_ebpf_enabled c) (cfg_watches c) (cfg_protect_paths c)
      else if bool_decide (key = lit "ebpf") then
        Config (cfg_daemonize c) (cfg_log_file c) (cfg_log_to_syslog c) (cfg_verbose c)
          (atoi val) (cfg_watches c) (cfg_protect_paths c)
      else c
  | SECTION_WATCH =>
      if (length (cfg_watches c) <? IG_MAX_WATCHES)%nat then
        Config (cfg_daemonize c) (cfg_log_file c) (cfg_log_to_syslog c) (cfg_verbose c) (cfg_ebpf_enabled c)
          (cfg_watches c ++ [(strncpy key (IG_MAX_PATH - 1), bool_decide (val = lit "recursive"))])
          (cfg_protect_paths c)
      else c
  | SECTION_PROTECT =>
      if (length (cfg_protect_paths c) <? MAX_PROTECT)%nat then
        Config (cfg_daemonize c) (cfg_log_file c) (cfg_log_to_syslog c) (cfg_verbose c) (cfg_ebpf_enabled c)
          (cfg_watches c) (cfg_protect_paths c ++ [(strncpy key (IG_MAX_PATH - 1), false)])
      else c
  end.

(** One turn of the loop, on what [fgets] put into [line]. *)
(* @src ig_config.c:64-122 ig_config_load *)
Definition config_line (st : config_section * ig_config) (chunk : list Z) : config_section * ig_config :=
  let (section, c) := st in
  let line := trim (cstr chunk) in
  match line with
  | [] => st
  | x :: _ =>
      if (x =? 35) || (x =? 59) then st
      else if x =? 91 then (section_of line, c)
      else
        match break_at 61 line with
        | None => st
        | Some (key, val) => (section, apply_entry section (trim key) (trim val) c)
        end
  end.

(** [file]: the content, [None] when the file cannot be opened; the result code
    and the configuration filled in. *)
(* @src ig_config.c:44-126 ig_config_load *)
Definition ig_config_load (file : option (list Z)) : Z * ig_config :=
  match file with
  | None => (-1, config_default)
  | Some content =>
      (0, (fold_left config_line (file_lines 1023 content) (SECTION_GLOBAL, config_default)).2)
  end.

(** ** Lemmas *)

(** A text that [trim] leaves alone. *)
Definition trimmed (s : cstring) : Prop := stops is_blank s ∧ stops is_trail (rev s).

Lemma trim_id s : trimmed s → trim s = s.
Proof. intros [H1 H2]. unfold trim. by rewrite (drop_while_id _ s H1), (drop_while_id _ _ H2), rev_involutive. Qed.

Lemma stops_app (f : Z → bool) s k : s ≠ [] → stops f s → stops f (s ++ k).
Proof. by destruct s. Qed.

(** Blanks in front and white space behind are removed. *)
Lemma trim_pad a s b : Forall (λ c, is_blank c = true) a → Forall (λ c, is_trail c = true) b →
  s ≠ [] → trimmed s → trim (a ++ s ++ b) = s.
Proof.
  intros Ha Hb Hne [H1 H2]. unfold trim.
  rewrite drop_while_app by (done || by apply stops_app). rewrite rev_app_distr, drop_while_app.
  - apply rev_involutive.
  - by apply List.Forall_rev.
  - done.
Qed.

Lemma trim_behind s b : Forall (λ c, is_trail c = true) b → s ≠ [] → trimmed s → trim (s ++ b) = s.
Proof. intros. by apply (trim_pad [] s b). Qed.

Lemma trim_before a s : Forall (λ c, is_blank c = true) a → s ≠ [] → trimmed s → trim (a ++ s) = s.
Proof. intros. rewrite <- (app_nil_r s) at 1. by apply trim_pad. Qed.

Lemma trimmed_app s m k : s ≠ [] → k ≠ [] → trimmed s → trimmed k → trimmed (s ++ m ++ k).
Proof.
  intros Hs Hk [H1 _] [_ H2]. split; [by apply stops_app|].
  rewrite app_assoc, rev_app_distr. apply stops_app; [|done].
  intros E. apply (f_equal length) in E. rewrite length_rev in E. by destruct k.
Qed.

(** A setting: what may stand on either side of the equals sign. *)
Definition setting_ok (key val : cstring) : Prop :=
  trimmed key ∧ trimmed val ∧ key ≠ [] ∧ val ≠ [] ∧ is_cstring key ∧ is_cstring val ∧
  Forall (λ c, c ≠ 61) key ∧ match key with [] => False | x :: _ => x ≠ 35 ∧ x ≠ 59 ∧ x ≠ 91 end.

Definition render_setting (key val : cstring) : cstring := key ++ lit " = " ++ val.

(** A setting line is read as that setting. *)
Lemma config_line_setting section c key val : setting_ok key val →
  config_line (section, c) (render_setting key val ++ [10]) = (section, apply_entry section key val c).
Proof.
  intros (Hk & Hv & Hkn & Hvn & Hkz & Hvz & Heq & Hhd). unfold config_line.
  set (s := render_setting key val).
  assert (Hs : trimmed s) by (by apply trimmed_app).
  assert (Hsn : s ≠ []) by (unfold s, render_setting; by destruct key).
  assert (Hsz : is_cstring (s ++ [10])).
  { unfold s, render_setting. repeat (apply Forall_app; split); try done; by_decide. }
  rewrite (cstr_id _ Hsz), (trim_behind s [10]) by (done || by_decide).
  assert (Hshd : ∃ x k, s = x :: k ∧ x ≠ 35 ∧ x ≠ 59 ∧ x ≠ 91)
    by (unfold s, render_setting; destruct key as [|x k]; [done|]; eexists x, _; done).
  destruct Hshd as (x & k & Es & H35 & H59 & H91). rewrite Es.
  rewrite (proj2 (Z.eqb_neq x 35)), (proj2 (Z.eqb_neq x 59)), (proj2 (Z.eqb_neq x 91)) by done. cbn [orb].
  rewrite <- Es. unfold s, render_setting. change (lit " = ") with ([32] ++ 61 :: [32]). rewrite <- app_assoc, app_assoc.
  cbn [app]. rewrite break_at_app by (apply Forall_app; split; [done|by_decide]).
  rewrite (trim_behind key [32]) by (done || by_decide).
  change (trim (32 :: val)) with (trim ([32] ++ val)).
  by rewrite trim_before by (done || by_decide).
Qed.

(** A section header switches the section. *)
Lemma config_line_header st h : trimmed (91 :: h) → is_cstring h →
  config_line st (91 :: h ++ [10]) = (section_of (91 :: h), st.2).
Proof.
  intros Ht Hz. destruct st as [section c]. unfold config_line.
  assert (Hc : is_cstring (91 :: h ++ [10])).
  { constructor; [lia|]. apply Forall_app. split; [done|by_decide]. }
  rewrite (cstr_id _ Hc). change (91 :: h ++ [10]) with ((91 :: h) ++ [10]).
  rewrite trim_behind by (done || by_decide). done.
Qed.

(** Comments and empty lines change nothing. *)
Lemma config_line_skip st chunk :
  match trim (cstr chunk) with [] => True | x :: _ => x = 35 ∨ x = 59 end → config_line st chunk = st.
Proof.
  destruct st as [section c]. unfold config_line. destruct (trim (cstr chunk)) as [|x k]; [done|].
  by intros [->| ->].
Qed.

(** ** Round trip *)

Definition render_watch (w : watch) : cstring :=
  render_setting w.1 (if w.2 then lit "recursive" else lit "single").
Definition render_protect (w : watch) : cstring := render_setting w.1 (lit "file").

Definition config_lines (c : ig_config) : list cstring :=
  [render_setting (lit "daemonize") (decimal_int (cfg_daemonize c));
   render_setting (lit "log_file") (cfg_log_file c);
   render_setting (lit "syslog") (decimal_int (cfg_log_to_syslog c));
   render_setting (lit "verbose") (decimal_int (cfg_verbose c));
   render_setting (lit "ebpf") (decimal_int (cfg_ebpf_enabled c)); lit "[watch]"]
  ++ (render_watch <$> cfg_watches c) ++ [lit "[protect]"] ++ (render_protect <$> cfg_protect_paths c).

(** The file that says what [c] says. *)
Definition render_config (c : ig_config) : list Z := mjoin ((λ s, s ++ [10]) <$> config_lines c).

Definition one_line (s : cstring) : Prop := Forall (λ c, c ≠ 10) s ∧ (length s ≤ 1000)%nat.

Definition path_ok (p : cstring) : Prop := setting_ok p (lit "file") ∧ one_line p.
Definition int_ok (z : Z) : Prop := - 2 ^ 31 ≤ z < 2 ^ 31.

(** What the syntax can express: paths without an equals sign, blanks at the
    ends or a comment or section character in front. *)
Definition config_ok (c : ig_config) : Prop :=
  int_ok (cfg_daemonize c) ∧ int_ok (cfg_log_to_syslog c) ∧ int_ok (cfg_verbose c) ∧ int_ok (cfg_ebpf_enabled c) ∧
  setting_ok (lit "log_file") (cfg_log_file c) ∧ one_line (cfg_log_file c) ∧
  (length (cfg_watches c) ≤ IG_MAX_WATCHES)%nat ∧ Forall (λ w : watch, path_ok w.1) (cfg_watches c) ∧
  (length (cfg_protect_paths c) ≤ MAX_PROTECT)%nat ∧
  Forall (λ w : watch, path_ok w.1 ∧ w.2 = false) (cfg_protect_paths c).

Lemma setting_ok_val key v w : setting_ok key v → trimmed w → w ≠ [] → is_cstring w → setting_ok key w.
Proof. intros (H1 & _ & H3 & _ & H5 & _ & H7 & H8) Hw Hn Hz. by split_and!. Qed.

Lemma trimmed_decimal_int z : int_ok z → trimmed (decimal_int z) ∧ is_cstring (decimal_int z) ∧ decimal_int z ≠ [].
Proof.
  intros Hz. unfold int_ok in Hz. destruct (decimal_int_chars z) as (Hc & Hne & _); [lia|].
  assert (Hall : Forall (λ c, is_blank c = false ∧ is_trail c = false ∧ c ≠ 0) (decimal_int z)).
  { eapply Forall_impl; [exact Hc|]. intros c [H%isdigit_range| ->]; [|done].
    unfold is_blank, is_trail. split_and!; [ig_bools; done || lia..|lia]. }
  split; [|split; [eapply Forall_impl; [exact Hall|]; by intros c (_ & _ & ?)|done]]. split.
  - destruct Hall; [done|]. cbn. naive_solver.
  - apply List.Forall_rev in Hall. destruct Hall; [done|]. cbn. naive_solver.
Qed.

Lemma int_setting key z : setting_ok key (lit "file") → int_ok z → setting_ok key (decimal_int z).
Proof.
  intros Hk Hz. destruct (trimmed_decimal_int z Hz) as (H1 & H2 & H3). by apply (setting_ok_val key (lit "file")).
Qed.

Lemma one_line_decimal_int z : int_ok z → one_line (decimal_int z).
Proof.
  intros Hz. unfold int_ok in Hz. destruct (decimal_int_chars z) as (Hc & _ & Hl); [lia|]. split; [|lia].
  eapply Forall_impl; [exact Hc|]. intros c [H%isdigit_range| ->]; lia.
Qed.

Lemma setting_line key val : one_line key → (length val ≤ 1000)%nat → Forall (λ c, c ≠ 10) val →
  (length key ≤ 1000)%nat → (length key + length val ≤ 1010)%nat →
  Forall (λ c, c ≠ 10) (render_setting key val) ∧ (length (render_setting key val) < 1023)%nat.
Proof.
  intros [Hk _] _ Hv _ Hlen. unfold render_setting. split.
  - repeat (apply Forall_app; split); try done. by_decide.
  - rewrite !length_app. cbn. lia.
Qed.

Lemma path_kept p : setting_ok p (lit "file") → (length p ≤ 1000)%nat → strncpy p (IG_MAX_PATH - 1) = p.
Proof. intros Hp Hl. apply strncpy_id; [apply Hp|]. unfold IG_MAX_PATH. lia. Qed.

Lemma fold_watches ws : ∀ c, Forall (λ w : watch, path_ok w.1) ws →
  (length (cfg_watches c) + length ws ≤ IG_MAX_WATCHES)%nat →
  fold_left config_line ((λ s, s ++ [10]) <$> (render_watch <$> ws)) (SECTION_WATCH, c) =
  (SECTION_WATCH, Config (cfg_daemonize c) (cfg_log_file c) (cfg_log_to_syslog c) (cfg_verbose c)
                    (cfg_ebpf_enabled c) (cfg_watches c ++ ws) (cfg_protect_paths c)).
Proof.
  induction ws as [|[p r] ws IH]; intros c Hws Hlen; [by destruct c; cbn; rewrite app_nil_r|].
  apply Forall_cons in Hws as [[Hp [_ Hl]] Hws]. cbn [fmap list_fmap fold_left length] in *.
  cbn [fst snd] in *. change (render_watch (p, r)) with (render_setting p (if r then lit "recursive" else lit "single")).
  rewrite config_line_setting by (destruct r; (eapply setting_ok_val; [exact Hp| |done|]); [split|..]; by_decide || done).
  cbn [apply_entry]. destruct (Nat.ltb_spec (length (cfg_watches c)) IG_MAX_WATCHES); [|lia].
  rewrite (path_kept p Hp Hl).
  replace (bool_decide _) with r by (by destruct r).
  rewrite IH by (done || cbn; rewrite ?length_app; cbn; lia). cbn [cfg_watches]. by rewrite <- app_assoc.
Qed.

Lemma fold_protects ws : ∀ c, Forall (λ w : watch, path_ok w.1 ∧ w.2 = false) ws →
  (length (cfg_protect_paths c) + length ws ≤ MAX_PROTECT)%nat →
  fold_left config_line ((λ s, s ++ [10]) <$> (render_protect <$> ws)) (SECTION_PROTECT, c) =
  (SECTION_PROTECT, Config (cfg_daemonize c) (cfg_log_file c) (cfg_log_to_syslog c) (cfg_verbose c)
                    (cfg_ebpf_enabled c) (cfg_watches c) (cfg_protect_paths c ++ ws)).
Proof.
  induction ws as [|[p r] ws IH]; intros c Hws Hlen; [by destruct c; cbn; rewrite app_nil_r|].
  apply Forall_cons in Hws as [[[Hp [_ Hl]] Hr] Hws]. cbn [fmap list_fmap fold_left length] in *.
  cbn [fst snd] in *. change (render_protect (p, r)) with (render_setting p (lit "file")). subst r. rewrite config_line_setting by done.
  cbn [apply_entry]. destruct (Nat.ltb_spec (length (cfg_protect_paths c)) MAX_PROTECT); [|lia].
  rewrite (path_kept p Hp Hl).
  rewrite IH by (done || cbn; rewrite ?length_app; cbn; lia). cbn [cfg_protect_paths]. by rewrite <- app_assoc.
Qed.

(** The five global settings, in the order they are written. *)
Lemma apply_globals d lf sl v e :
  apply_entry SECTION_GLOBAL (lit "ebpf") e (apply_entry SECTION_GLOBAL (lit "verbose") v
    (apply_entry SECTION_GLOBAL (lit "syslog") sl (apply_entry SECTION_GLOBAL (lit "log_file") lf
      (apply_entry SECTION_GLOBAL (lit "daemonize") d config_default)))) =
  Config (atoi d) (strncpy lf (IG_MAX_PATH - 1)) (atoi sl) (atoi v) (atoi e) [] [].
Proof. reflexivity. Qed.

Lemma config_lines_short c : config_ok c →
  Forall (λ s, Forall (λ c, c ≠ 10) s ∧ (length s < 1023)%nat) (config_lines c).
Proof.
  intros (Hd & Hs & Hv & He & Hlf & [Hl1 Hl2] & _ & Hw & _ & Hp).
  assert (Hint : ∀ key z, one_line key → (length key ≤ 10)%nat → int_ok z →
            Forall (λ c, c ≠ 10) (render_setting key (decimal_int z)) ∧
            (length (render_setting key (decimal_int z)) < 1023)%nat).
  { intros key z Hk Hkl Hz. destruct (decimal_int_chars z) as (_ & _ & Hdl); [unfold int_ok in Hz; lia|].
    apply setting_line; try done; try lia. by apply one_line_decimal_int. }
  unfold config_lines. apply Forall_app. split.
  - repeat (constructor; [first [apply Hint; [split; [by_decide|cbn; lia]|cbn; lia|done]
      | apply setting_line; [split; [by_decide|cbn; lia]|done..|cbn; lia|cbn; lia]
      | split; [by_decide|cbn; lia]]|]). constructor.
  - apply Forall_app. split; [|apply Forall_cons; split; [split; [by_decide|cbn; lia]|]].
    + apply Forall_fmap. eapply Forall_impl; [exact Hw|]. intros [p r] [_ [Hp1 Hp2]]. cbn in *.
      apply setting_line; try done; destruct r; try by_decide; cbn; lia.
    + apply Forall_fmap. eapply Forall_impl; [exact Hp|]. intros [p r] [[_ [Hp1 Hp2]] _]. cbn in *.
      apply setting_line; try done; try by_decide; cbn; lia.
Qed.

(** *** Limits *)

(** What a loaded configuration satisfies whatever the file. *)
Definition config_bounded (c : ig_config) : Prop :=
  (length (cfg_log_file c) < IG_MAX_PATH)%nat ∧
  (length (cfg_watches c) ≤ IG_MAX_WATCHES)%nat ∧ (length (cfg_protect_paths c) ≤ MAX_PROTECT)%nat ∧
  Forall (λ w : watch, (length w.1 < IG_MAX_PATH)%nat ∧ is_cstring w.1) (cfg_watches c ++ cfg_protect_paths c).

Lemma strncpy_path key : (length (strncpy key (IG_MAX_PATH - 1)) < IG_MAX_PATH)%nat ∧
  is_cstring (strncpy key (IG_MAX_PATH - 1)).
Proof.
  split; [|apply strncpy_is_cstring]. pose proof (strncpy_length key (IG_MAX_PATH - 1)). unfold IG_MAX_PATH in *. lia.
Qed.

Lemma apply_entry_bounded s key val c : config_bounded c → config_bounded (apply_entry s key val c).
Proof.
  intros (Hl & Hw & Hp & Hall). unfold apply_entry. destruct s.
  - repeat case_bool_decide; (split_and!; try assumption). by apply strncpy_path.
  - destruct (Nat.ltb_spec (length (cfg_watches c)) IG_MAX_WATCHES); [|by split_and!].
    split_and!; cbn [cfg_log_file cfg_watches cfg_protect_paths]; try assumption.
    + rewrite length_app. cbn. lia.
    + rewrite !Forall_app in *. destruct Hall as [H1 H2]. split; [|done]. split; [done|].
      constructor; [apply strncpy_path|constructor].
  - destruct (Nat.ltb_spec (length (cfg_protect_paths c)) MAX_PROTECT); [|by split_and!].
    split_and!; cbn [cfg_log_file cfg_watches cfg_protect_paths]; try assumption.
    + rewrite length_app. cbn. lia.
    + rewrite !Forall_app in *. destruct Hall as [H1 H2]. split; [done|]. split; [done|].
      constructor; [apply strncpy_path|constructor].
Qed.

Lemma config_line_bounded st chunk : config_bounded st.2 → config_bounded (config_line st chunk).2.
Proof.
  destruct st as [s c]. cbn [snd]. intros Hc. unfold config_line. destruct (trim (cstr chunk)) as [|x k]; [done|].
  destruct (_ || _); [done|]. destruct (x =? 91); [done|].
  destruct (break_at 61 (x :: k)) as [[key val]|]; [|done]. by apply apply_entry_bounded.
Qed.

(** ** Properties *)

(** [C30] A configuration survives being written and read: for every
    configuration the syntax can express, the file with its settings, its
    [watch] section and its [protect] section loads into that configuration. *)
Theorem config_roundtrip (c : ig_config) (Hc : config_ok c) :
  ig_config_load (Some (render_config c)) = (0, c).
Proof.
  unfold ig_config_load, render_config. rewrite file_lines_lines by (by apply config_lines_short).
  destruct Hc as (Hd & Hs & Hv & He & Hlf & [_ Hl] & Hnw & Hw & Hnp & Hp).
  assert (Hkey : ∀ key, one_line key → is_cstring key → trimmed key → Forall (λ c, c ≠ 61) key →
            match key with [] => False | x :: _ => x ≠ 35 ∧ x ≠ 59 ∧ x ≠ 91 end → setting_ok key (lit "file")).
  { intros key _ Hz Ht Hne Hh. split_and!; try done; try by_decide. by intros ->. }
  assert (Hset : ∀ key z, setting_ok key (lit "file") → int_ok z → setting_ok key (decimal_int z))
    by (intros; by apply int_setting).
  assert (Hat : ∀ z, int_ok z → atoi (decimal_int z) = z)
    by (intros z Hz; rewrite <- (app_nil_r (decimal_int z)); by apply atoi_decimal_int).
  unfold config_lines. rewrite !fmap_app, !fold_left_app. cbn [fmap list_fmap fold_left].
  rewrite config_line_setting by (apply Hset; [split_and!; try done; by_decide|done]).
  rewrite config_line_setting by done.
  rewrite !config_line_setting by (apply Hset; [split_and!; try done; by_decide|done]).
  change (lit "[watch]") with (91 :: lit "watch]"). cbn [app].
  rewrite config_line_header by (by_decide || done). cbn [snd].
  change (section_of (91 :: lit "watch]")) with SECTION_WATCH.
  rewrite fold_watches by (done || cbn; lia).
  change (lit "[protect]") with (91 :: lit "protect]"). cbn [app].
  rewrite config_line_header by (by_decide || done). cbn [snd].
  change (section_of (91 :: lit "protect]")) with SECTION_PROTECT.
  rewrite fold_protects by (done || cbn; lia).
  destruct c as [d lf sl v e w p]. cbn [cfg_daemonize cfg_log_file cfg_log_to_syslog cfg_verbose cfg_ebpf_enabled
    cfg_watches cfg_protect_paths] in *.
  rewrite apply_globals. cbn [cfg_daemonize cfg_log_file cfg_log_to_syslog cfg_verbose cfg_ebpf_enabled
    cfg_watches cfg_protect_paths app]. rewrite !Hat by done.
  rewrite strncpy_id; [done|apply Hlf|unfold IG_MAX_PATH; lia].
Qed.

(** [C31] Any file, even one of another program, loads within the arrays: at most
    64 watches and 32 protected paths, every path a terminated string inside
    its 4096 bytes. *)
Theorem config_load_bounded (file : option (list Z)) : config_bounded (ig_config_load file).2.
Proof.
  assert (Hd : config_bounded config_default).
  { split_and!; cbn [cfg_log_file cfg_watches cfg_protect_paths config_default app].
    - unfold IG_MAX_PATH. cbn. lia.
    - cbn. unfold IG_MAX_WATCHES. lia.
    - cbn. unfold MAX_PROTECT. lia.
    - constructor. }
  destruct file as [content|]; [|exact Hd]. unfold ig_config_load. cbn [snd].
  assert (Hgen : ∀ ls st, config_bounded st.2 → config_bounded (fold_left config_line ls st).2).
  { induction ls as [|l ls IH]; intros st Hst; [done|]. cbn. by apply IH, config_line_bounded. }
  by apply Hgen.
Qed.

(** *** Witnesses *)

Definition sample_config : ig_config :=
  Config 1 (lit "/var/log/ig.log") 0 1 1 [(lit "/etc/passwd", false); (lit "/etc/ssh", true)]
    [(lit "/usr/local/bin/agent", false)].

Lemma sample_config_ok : config_ok sample_config.
Proof.
  assert (Hp : ∀ p, bool_decide (Forall (λ c, c ≠ 0) p ∧ Forall (λ c, c ≠ 61) p ∧ Forall (λ c, c ≠ 10) p) = true →
    trimmed p → (length p ≤ 1000)%nat → match p with [] => False | x :: _ => x ≠ 35 ∧ x ≠ 59 ∧ x ≠ 91 end → path_ok p).
  { intros p (H0 & H61 & H10)%bool_decide_eq_true Ht Hl Hh. split; [|by split].
    split_and!; try done; try by_decide. by intros ->. }
  do 4 (split; [unfold int_ok; cbn; lia|]).
  split; [split_and!; try by_decide; done|]. split; [split; [by_decide|cbn; lia]|].
  split; [cbn; unfold IG_MAX_WATCHES; lia|]. split; [|split; [cbn; unfold MAX_PROTECT; lia|]].
  - do 2 (constructor; [apply Hp; [reflexivity|done|cbn; lia|done]|]). constructor.
  - constructor; [|constructor]. split; [apply Hp; [reflexivity|done|cbn; lia|done]|done].
Qed.

Lemma config_roundtrip_witness :
  ig_config_load (Some (render_config sample_config)) = (0, sample_config).
Proof. exact (config_roundtrip sample_config sample_config_ok). Defined.

(** The rest of a comment longer than the line buffer is read as a setting. *)
Example long_comment_tail_is_read :
  cfg_ebpf_enabled (ig_config_load (Some (35 :: replicate 1022 120 ++ lit "ebpf = 0"))).2 = 0.
Proof. vm_compute. reflexivity. Qed.

(** A comment after the value changes it. *)
Example comment_after_recursive :
  cfg_watches (ig_config_load (Some (lit "[watch]" ++ 10 :: lit "/etc = recursive # all of it"))).2 =
  [(lit "/etc", false)].
Proof. vm_compute. reflexivity. Qed.
