(* ===== verification/PidLock.v ===== *)
(** * The pid file lock (core/pid_lock.c)

    Agents that start on one machine share the directory entry of the pid file,
    the inodes behind it and the kernel's record locks. A call is a sequence of
    system calls; each of them is an action of its process, so that calls of
    several processes can overlap. *)

From S2P Require Import Prelude Bytes CText Monitor.

Local Open Scope Z_scope.

(** ** The file system and the lock table *)

(** Directory entries, contents, the process that holds the write lock of
    an inode, and the directories there are. *)
Record lock_world := LockWorld {
  lw_dir : gmap (list Z) nat; lw_content : gmap nat (list Z); lw_lock : gmap nat Z; lw_next : nat;
  lw_dirs : gset (list Z) }.

Definition set_dir (d : gmap (list Z) nat) (w : lock_world) : lock_world :=
  LockWorld d (lw_content w) (lw_lock w) (lw_next w) (lw_dirs w).
Definition set_content (c : gmap nat (list Z)) (w : lock_world) : lock_world :=
  LockWorld (lw_dir w) c (lw_lock w) (lw_next w) (lw_dirs w).
Definition set_lock (l : gmap nat Z) (w : lock_world) : lock_world :=
  LockWorld (lw_dir w) (lw_content w) l (lw_next w) (lw_dirs w).
Definition set_dirs (d : gset (list Z)) (w : lock_world) : lock_world :=
  LockWorld (lw_dir w) (lw_content w) (lw_lock w) (lw_next w) d.

(** How the system calls of one acquisition end when nothing in the world decides:
    whether [mkdir] may create, [open] may open, [fcntl] may lock (no [ENOLCK]) and
    [ftruncate] may cut, and how many bytes [write] writes (0 on an error). *)
Record lock_env := LockEnv {
  le_mkdir : bool; le_open : bool; le_setlk : bool; le_trunc : bool; le_write : nat }.
Definition env_ok : lock_env := LockEnv true true true true 16.

(** [g_lock_fd] (the inode its descriptor is open on), [g_lock_path] and
    [g_released]. *)
(* @src core/pid_lock.c:12-14 g_lock_fd *)
Record lock_state := LockState { ls_fd : option nat; ls_path : cstring; ls_released : bool }.
Definition lock_state_zero : lock_state := LockState None [] false.

(** The world and every process's statics. *)
Record lock_sys := LockSys { sy_world : lock_world; sy_procs : gmap Z lock_state }.

Definition statics (s : lock_sys) (p : Z) : lock_state := default lock_state_zero (sy_procs s !! p).

(** What precedes the last slash, [strrchr] and the cut; [None] without a slash. *)
Fixpoint cut_last (r : cstring) : option cstring :=
  match r with [] => None | c :: r => if c =? 47 then Some (rev r) else cut_last r end.
Definition parent_dir (path : cstring) : option cstring := cut_last (rev path).

(** [mkdir(dir, 0750)], whose result is not looked at; the root is always there. *)
Definition sys_mkdir (e : lock_env) (dir : cstring) (w : lock_world) : lock_world :=
  if le_mkdir e && negb (bool_decide (dir = [])) then set_dirs ({[dir]} ∪ lw_dirs w) w else w.
Definition dir_there (path : cstring) (w : lock_world) : bool :=
  match parent_dir path with None | Some [] => true | Some dir => bool_decide (dir ∈ lw_dirs w) end.

(** [open(path, O_RDWR | O_CREAT)]: [None] on an error, a missing directory included. *)
Definition sys_open (e : lock_env) (path : cstring) (w : lock_world) : option (nat * lock_world) :=
  if le_open e && dir_there path w then
    Some match lw_dir w !! path with
         | Some i => (i, w)
         | None => (lw_next w, LockWorld (<[path := lw_next w]> (lw_dir w)) (<[lw_next w := []]> (lw_content w))
                                 (lw_lock w) (S (lw_next w)) (lw_dirs w))
         end
  else None.

(** [fcntl(F_SETLK, F_WRLCK)]: fails when another process holds the lock, or for
    another reason. *)
Definition sys_setlk (e : lock_env) (p : Z) (i : nat) (w : lock_world) : option lock_world :=
  match lw_lock w !! i with
  | Some q => if (q =? p) && le_setlk e then Some w else None
  | None => if le_setlk e then Some (set_lock (<[i := p]> (lw_lock w)) w) else None
  end.

(** [close] drops the locks of its process on the inode. *)
Definition sys_close (p : Z) (i : nat) (w : lock_world) : lock_world :=
  match lw_lock w !! i with
  | Some q => if q =? p then set_lock (delete i (lw_lock w)) w else w
  | None => w
  end.

(** What [ftruncate] to nothing and then [write] at the start leave of a file. *)
Definition rewritten (e : lock_env) (bs old : list Z) : list Z :=
  let n := Nat.min (le_write e) (length bs) in take n bs ++ drop n (if le_trunc e then [] else old).
Definition sys_rewrite (e : lock_env) (i : nat) (bs : list Z) (w : lock_world) : lock_world :=
  set_content (<[i := rewritten e bs (default [] (lw_content w !! i))]> (lw_content w)) w.

Definition sys_unlink (path : cstring) (w : lock_world) : lock_world := set_dir (delete path (lw_dir w)) w.

(** [snprintf(buf, 16, "%d\n", getpid())] *)
Definition pid_text (p : Z) : list Z := take 15 (decimal_int p ++ [10]).

(** ** The calls, step by step *)

(** [IG_PID_FILE] (realtime/monitor.h) *)
Definition IG_PID_FILE : cstring := lit "/tmp/ig_monitor.pid".

Section lock.
Variable path : cstring.

(** Up to the descriptor; -1 in [g_lock_fd] when it cannot be had. *)
(* @src core/pid_lock.c:18-30 pid_lock_acquire *)
Definition acquire_open (e : lock_env) (p : Z) (s : lock_sys) : lock_sys :=
  let w := match parent_dir path with Some dir => sys_mkdir e dir (sy_world s) | None => sy_world s end in
  let st fd := LockState fd (strncpy path 4095) (ls_released (statics s p)) in
  match sys_open e path w with
  | Some (i, w) => LockSys w (<[p := st (Some i)]> (sy_procs s))
  | None => LockSys w (<[p := st None]> (sy_procs s))
  end.

(** The result code: -1 when the descriptor is not open or the lock not granted; a
    failing [ftruncate] or [write] is only logged. *)
(* @src core/pid_lock.c:27-64 pid_lock_acquire *)
Definition acquire_lock (e : lock_env) (p : Z) (s : lock_sys) : Z * lock_sys :=
  let st := statics s p in
  match ls_fd st with
  | None => (-1, s)
  | Some i =>
      match sys_setlk e p i (sy_world s) with
      | None => (-1, LockSys (sys_close p i (sy_world s))
                       (<[p := LockState None (ls_path st) (ls_released st)]> (sy_procs s)))
      | Some w => (0, LockSys (sys_rewrite e i (pid_text p) w)
                        (<[p := LockState (Some i) (ls_path st) false]> (sy_procs s)))
      end
  end.

(* @src core/pid_lock.c:16-65 pid_lock_acquire *)
Definition pid_lock_acquire (e : lock_env) (p : Z) (s : lock_sys) : Z * lock_sys :=
  acquire_lock e p (acquire_open e p s).

(* @src core/pid_lock.c:70-76 pid_lock_release *)
Definition release_close (p : Z) (s : lock_sys) : lock_sys :=
  let st := statics s p in
  LockSys (match ls_fd st with Some i => sys_close p i (sy_world s) | None => sy_world s end)
    (<[p := LockState None (ls_path st) true]> (sy_procs s)).

(* @src core/pid_lock.c:77-78 pid_lock_release *)
Definition release_unlink (p : Z) (s : lock_sys) : lock_sys :=
  match ls_path (statics s p) with
  | [] => s
  | file => LockSys (sys_unlink file (sy_world s)) (sy_procs s)
  end.

(* @src core/pid_lock.c:67-81 pid_lock_release *)
Definition pid_lock_release (p : Z) (s : lock_sys) : lock_sys :=
  if ls_released (statics s p) then s else release_unlink p (release_close p s).

(** The end of a process without a release: the kernel closes its descriptor. *)
Definition process_dies (p : Z) (s : lock_sys) : lock_sys :=
  LockSys (match ls_fd (statics s p) with Some i => sys_close p i (sy_world s) | None => sy_world s end)
    (delete p (sy_procs s)).

(** ** Whole calls, one after the other *)

(** [p] has acquired the lock and not released it. *)
Definition holds (s : lock_sys) (p : Z) : Prop := is_Some (ls_fd (statics s p)).

(** The states calls lead to when nobody interrupts one, only a holder releases and a
    holder does not acquire again, as main.c does. *)
Inductive calls : lock_sys → Prop :=
  | calls_start w : lw_lock w = ∅ → (∀ file i, lw_dir w !! file = Some i → (i < lw_next w)%nat) →
      calls (LockSys w ∅)
  | calls_acquire s e p : calls s → ¬ holds s p → calls (pid_lock_acquire e p s).2
  | calls_release s p : calls s → holds s p → calls (pid_lock_release p s)
  | calls_dies s p : calls s → calls (process_dies p s).

(** A holder's descriptor is the file the path names, and it has the lock. *)
Record lock_ok (s : lock_sys) : Prop := {
  lo_fd p i : ls_fd (statics s p) = Some i →
    lw_dir (sy_world s) !! path = Some i ∧ lw_lock (sy_world s) !! i = Some p ∧
    ls_released (statics s p) = false ∧ ls_path (statics s p) = path;
  lo_fresh file i : lw_dir (sy_world s) !! file = Some i → (i < lw_next (sy_world s))%nat;
  lo_lock i p : lw_lock (sy_world s) !! i = Some p → ls_fd (statics s p) = Some i }.

Lemma statics_insert s w p st q :
  statics (LockSys w (<[p := st]> (sy_procs s))) q = if decide (q = p) then st else statics s q.
Proof.
  unfold statics. cbn. case_decide as Hq; [subst; by rewrite lookup_insert_eq|].
  by rewrite lookup_insert_ne.
Qed.

Lemma statics_same s w q : statics (LockSys w (sy_procs s)) q = statics s q.
Proof. done. Qed.

Hypothesis path_good : is_cstring path ∧ (length path < 4095)%nat ∧ path ≠ [].

Lemma path_stored : strncpy path 4095 = path.
Proof. apply strncpy_id; [apply path_good|]. destruct path_good as (_ & ? & _). lia. Qed.

(** At most one process has its descriptor open between calls. *)
Lemma one_holder s p q i j : lock_ok s → ls_fd (statics s p) = Some i → ls_fd (statics s q) = Some j → p = q ∧ i = j.
Proof.
  intros [Hfd _ _] Hp Hq. destruct (Hfd p i Hp) as (Hdp & Hlp & _). destruct (Hfd q j Hq) as (Hdq & Hlq & _).
  assert (i = j) as -> by congruence. split; congruence.
Qed.

Lemma lock_ok_start w : lw_lock w = ∅ → (∀ file i, lw_dir w !! file = Some i → (i < lw_next w)%nat) →
  lock_ok (LockSys w ∅).
Proof.
  intros Hl Hf. split; [|done|].
  - intros p i. unfold statics. cbn. by rewrite lookup_empty.
  - intros i p. cbn. by rewrite Hl, lookup_empty.
Qed.

(** The file the path names, and what is in it. *)
Definition file_content (s : lock_sys) : option (list Z) :=
  lw_dir (sy_world s) !! path ≫= λ i, lw_content (sy_world s) !! i.

(** The world after [mkdir], and whether the file can be opened in it. *)
Definition mkdir_world (e : lock_env) (s : lock_sys) : lock_world :=
  match parent_dir path with Some dir => sys_mkdir e dir (sy_world s) | None => sy_world s end.
Definition can_open (e : lock_env) (s : lock_sys) : bool := le_open e && dir_there path (mkdir_world e s).

Lemma mkdir_world_same e s : let w := mkdir_world e s in
  lw_dir w = lw_dir (sy_world s) ∧ lw_content w = lw_content (sy_world s) ∧ lw_lock w = lw_lock (sy_world s) ∧
  lw_next w = lw_next (sy_world s).
Proof. unfold mkdir_world. destruct (parent_dir path); [|done]. unfold sys_mkdir. by destruct (_ && _). Qed.

(** What an acquisition finds: the inode of the path, or a fresh one. *)
Lemma sys_open_ok e s : lock_ok s → can_open e s = true → ∃ i w, sys_open e path (mkdir_world e s) = Some (i, w) ∧
  lw_dir w !! path = Some i ∧ lw_lock w = lw_lock (sy_world s) ∧
  (∀ file j, lw_dir w !! file = Some j → (j < lw_next w)%nat) ∧
  default [] (lw_content w !! i) = default [] (file_content s) ∧
  (∀ q j, ls_fd (statics s q) = Some j → j = i ∧ lw_content w = lw_content (sy_world s) ∧
     lw_dir w = lw_dir (sy_world s)).
Proof.
  intros [Hfd Hfr Hlk] Hcan. unfold sys_open. fold (can_open e s). rewrite Hcan. unfold file_content.
  destruct (mkdir_world_same e s) as (Ed & Ec & El & En). rewrite Ed.
  destruct (lw_dir (sy_world s) !! path) as [i|] eqn:Hd.
  - exists i, (mkdir_world e s). rewrite Ed, Ec, El, En. split_and!; try done.
    intros q j Hq. destruct (Hfd q j Hq) as (Hdq & _). split; [congruence|done].
  - eexists _, _. split; [done|]. cbn [lw_dir lw_lock lw_next lw_content]. rewrite Ec, El, En. split_and!.
    + by rewrite lookup_insert_eq.
    + done.
    + intros file j [[_ <-]|[_ Hj]]%lookup_insert_Some; [lia|]. specialize (Hfr _ _ Hj). lia.
    + by rewrite lookup_insert_eq.
    + intros q j Hq. destruct (Hfd q j Hq) as (Hdq & _). congruence.
Qed.

(** A process that gains and loses nothing but its path. *)
Lemma idle_ok s p w st : lock_ok s → ls_fd (statics s p) = None → ls_fd st = None →
  lw_lock w = lw_lock (sy_world s) → (∀ file i, lw_dir w !! file = Some i → (i < lw_next w)%nat) →
  (∀ q, holds s q → lw_dir w !! path = lw_dir (sy_world s) !! path) →
  lock_ok (LockSys w (<[p := st]> (sy_procs s))).
Proof.
  intros [Hfd Hfr Hlk] Hp Hst Hl Hf Hd. split; cbn [sy_world].
  - intros q i. rewrite statics_insert. case_decide as Hq; [by rewrite Hst|]. intros Hi.
    destruct (Hfd q i Hi) as (Hdq & Hlq & Hrest). rewrite Hl, (Hd q) by by eexists. done.
  - exact Hf.
  - intros i q Hi. rewrite Hl in Hi. pose proof (Hlk i q Hi) as Hq. rewrite statics_insert.
    case_decide; [subst q; congruence|done].
Qed.

(** How the acquisition by a process that holds nothing ends. *)
Definition acquired (e : lock_env) (p : Z) (s : lock_sys) (r : Z * lock_sys) : Prop :=
  (r.1 = 0 ∧ can_open e s = true ∧ le_setlk e = true ∧ (∀ q, ¬ holds s q) ∧
     (∀ q, holds r.2 q ↔ q = p) ∧
     file_content r.2 = Some (rewritten e (pid_text p) (default [] (file_content s)))) ∨
  (r.1 = -1 ∧ (can_open e s = false ∨ le_setlk e = false ∨ ∃ q, holds s q) ∧
     (∀ q, holds r.2 q ↔ holds s q) ∧ ((∃ q, holds s q) → file_content r.2 = file_content s)).

Lemma holds_locked s w p st q : holds (LockSys w (<[p := st]> (sy_procs s))) q ↔
  if decide (q = p) then is_Some (ls_fd st) else holds s q.
Proof. unfold holds. rewrite statics_insert. by case_decide. Qed.

(** A failure once the descriptor is open. *)
Lemma acquire_fails e s p w i st : lock_ok s → ls_fd (statics s p) = None → ls_fd st = None →
  lw_dir w !! path = Some i → lw_lock w = lw_lock (sy_world s) →
  (∀ file j, lw_dir w !! file = Some j → (j < lw_next w)%nat) →
  (∀ q j, ls_fd (statics s q) = Some j → j = i ∧ lw_content w = lw_content (sy_world s) ∧
     lw_dir w = lw_dir (sy_world s)) →
  can_open e s = false ∨ le_setlk e = false ∨ (∃ q, holds s q) →
  let r := (-1, LockSys (sys_close p i w) (<[p := st]> (sy_procs s))) in lock_ok r.2 ∧ acquired e p s r.
Proof.
  intros Hok Hp Hst Hd Hl Hf Hc Hwhy r.
  assert (Hclose : sys_close p i w = w).
  { unfold sys_close. rewrite Hl. destruct (lw_lock (sy_world s) !! i) as [q|] eqn:Hli; [|done].
    destruct (Z.eqb_spec q p) as [->|]; [|done]. apply (lo_lock s Hok) in Hli. congruence. }
  unfold r. rewrite Hclose. split.
  - apply (idle_ok s p w st); try done. intros q [j Hj]. by destruct (Hc q j Hj) as (_ & _ & ->).
  - right. split; [done|]. split; [done|]. split.
    + intros q. cbn [snd]. rewrite holds_locked. case_decide as Hq; [subst q|done]. unfold holds. by rewrite Hst, Hp.
    + intros (q & j & Hj). unfold file_content. cbn [snd sy_world]. by destruct (Hc q j Hj) as (_ & -> & ->).
Qed.

(** A success. *)
Lemma acquire_succeeds e s p w i : lock_ok s → (∀ q, ¬ holds s q) → can_open e s = true → le_setlk e = true →
  lw_dir w !! path = Some i → lw_lock w = lw_lock (sy_world s) →
  (∀ file j, lw_dir w !! file = Some j → (j < lw_next w)%nat) →
  default [] (lw_content w !! i) = default [] (file_content s) →
  let r := (0, LockSys (sys_rewrite e i (pid_text p) (set_lock (<[i := p]> (lw_lock w)) w))
                 (<[p := LockState (Some i) (strncpy path 4095) false]> (sy_procs s))) in
  lock_ok r.2 ∧ acquired e p s r.
Proof.
  intros Hok Hnone Hcan Hset Hd Hl Hf Hold r.
  assert (Hno : ∀ q j, ls_fd (statics s q) = Some j → False) by (intros q j Hj; apply (Hnone q); by eexists).
  split; [split|left]; cbn [r snd sy_world sys_rewrite set_content set_lock lw_dir lw_lock lw_next lw_content].
  - intros q j. rewrite statics_insert. case_decide as Hq; [subst q|by intros ?%Hno].
    cbn [ls_fd ls_released ls_path]. intros [= <-]. rewrite lookup_insert_eq. split_and!; try done. apply path_stored.
  - exact Hf.
  - intros j q Hj. rewrite Hl in Hj. apply lookup_insert_Some in Hj as [[<- <-]|[_ Hj]].
    + by rewrite statics_insert, decide_True.
    + apply (lo_lock s Hok) in Hj. by apply Hno in Hj.
  - split; [done|]. split; [done|]. split; [done|]. split; [done|]. split.
    + intros q. rewrite holds_locked. case_decide as Hq; [split; [done|by eexists]|]. split; [by intros ?%Hnone|done].
    + unfold file_content at 1. cbn [snd sy_world sys_rewrite set_content set_lock lw_dir lw_content].
      rewrite Hd. cbn [mbind option_bind]. by rewrite lookup_insert_eq, Hold.
Qed.

Lemma acquire_ok e s p : lock_ok s → ¬ holds s p →
  lock_ok (pid_lock_acquire e p s).2 ∧ acquired e p s (pid_lock_acquire e p s).
Proof.
  intros Hok Hp. assert (Hpn : ls_fd (statics s p) = None) by by apply eq_None_not_Some.
  unfold pid_lock_acquire, acquire_open. fold (mkdir_world e s). destruct (can_open e s) eqn:Hcan.
  2:{ unfold sys_open. fold (can_open e s). rewrite Hcan. unfold acquire_lock. rewrite statics_insert, decide_True by done.
      cbn [ls_fd]. destruct (mkdir_world_same e s) as (Ed & Ec & El & En). split.
      - apply (idle_ok s p); try done; [|by intros; rewrite Ed]. rewrite Ed, En. apply (lo_fresh s Hok).
      - right. split; [done|]. split; [by left|]. split.
        + intros q. cbn [snd]. rewrite holds_locked. case_decide as Hq; [subst q|done]. split; [by intros [??]|done].
        + intros _. unfold file_content. cbn [snd sy_world]. by rewrite Ed, Ec. }
  destruct (sys_open_ok e s Hok Hcan) as (i & w & -> & Hd & Hl & Hf & Hold & Hc).
  unfold acquire_lock. rewrite statics_insert, decide_True by done.
  cbn [ls_fd sy_world ls_path ls_released sy_procs]. rewrite !insert_insert_eq.
  assert (Hheld : ∀ q, holds s q → lw_lock (sy_world s) !! i = Some q).
  { intros q [j Hj]. destruct (Hc q j Hj) as [-> _]. by apply (lo_fd s Hok q i Hj). }
  unfold sys_setlk. rewrite Hl. destruct (lw_lock (sy_world s) !! i) as [q|] eqn:Hli.
  - pose proof (lo_lock s Hok i q Hli) as Hq. destruct (Z.eqb_spec q p) as [->|Hne]; [congruence|]. cbn [andb].
    apply (acquire_fails e s p w i); try done. right. right. exists q. by eexists.
  - destruct (le_setlk e) eqn:Hset.
    + rewrite <- Hl. apply acquire_succeeds; try done. intros q Hq%Hheld. congruence.
    + apply (acquire_fails e s p w i); try done. right. by left.
Qed.

(** Taking [p]'s lock away leaves a state in which [p] holds nothing. *)
Lemma drop_lock_ok s p i st : lock_ok s → ls_fd (statics s p) = Some i → ls_fd st = None →
  ∀ dir, (∀ file j, dir !! file = Some j → lw_dir (sy_world s) !! file = Some j) →
  let s' := LockSys (set_dir dir (sys_close p i (sy_world s))) (<[p := st]> (sy_procs s)) in
  lock_ok s' ∧ ∀ q, ¬ holds s' q.
Proof.
  intros Hok Hp Hst dir Hdir s'. pose proof Hok as [Hfd Hfr Hlk]. destruct (Hfd p i Hp) as (Hd & Hl & _).
  assert (Hw : sys_close p i (sy_world s) = set_lock (delete i (lw_lock (sy_world s))) (sy_world s))
    by (unfold sys_close; by rewrite Hl, Z.eqb_refl).
  assert (Hno : ∀ q j, ls_fd (if decide (q = p) then st else statics s q) = Some j → False).
  { intros q j. case_decide as Hq; [by rewrite Hst|]. intros Hj. by destruct (one_holder s p q i j Hok Hp Hj). }
  unfold s'. rewrite Hw. split; [split; cbn [sy_world set_dir set_lock lw_dir lw_lock lw_content lw_next]|].
  - intros q j. rewrite statics_insert. intros Hj. by apply Hno in Hj.
  - intros file j Hj. by apply Hfr with file, Hdir.
  - intros j q [Hne Hj]%lookup_delete_Some. apply Hlk in Hj as Hq. destruct (one_holder s p q i j Hok Hp Hq) as [_ <-]. done.
  - intros q [j Hj]. rewrite statics_insert in Hj. by apply Hno in Hj.
Qed.

Lemma sys_close_dir p i w : lw_dir (sys_close p i w) = lw_dir w.
Proof. unfold sys_close. destruct (lw_lock w !! i) as [q|]; [|done]. by destruct (q =? p). Qed.

Lemma release_ok s p : lock_ok s → holds s p →
  lock_ok (pid_lock_release p s) ∧ (∀ q, ¬ holds (pid_lock_release p s) q) ∧
  lw_dir (sy_world (pid_lock_release p s)) !! path = None.
Proof.
  intros Hok [i Hp]. pose proof Hok as [Hfd _ _]. destruct (Hfd p i Hp) as (Hd & Hl & Hrel & Hpa).
  unfold pid_lock_release. rewrite Hrel. unfold release_close. rewrite Hp. unfold release_unlink.
  rewrite statics_insert, decide_True by done. cbn [ls_path]. rewrite Hpa.
  destruct path as [|c k] eqn:Epath; [by destruct path_good as (_ & _ & ?)|]. rewrite <- Epath in *.
  destruct (drop_lock_ok s p i (LockState None path true) Hok Hp eq_refl (delete path (lw_dir (sy_world s)))) as [H1 H2].
  { intros file j [_ Hj]%lookup_delete_Some. done. }
  unfold sys_unlink. cbn [sy_world sy_procs]. rewrite sys_close_dir.
  split; [done|]. split; [done|]. cbn. apply lookup_delete_eq.
Qed.

Lemma dies_ok s p : lock_ok s → lock_ok (process_dies p s).
Proof.
  intros Hok. unfold process_dies.
  assert (Hst : ∀ w q, statics (LockSys w (delete p (sy_procs s))) q =
                  if decide (q = p) then lock_state_zero else statics s q).
  { intros w q. unfold statics. cbn. case_decide as Hq; [subst; by rewrite lookup_delete_eq|].
    by rewrite lookup_delete_ne. }
  destruct (ls_fd (statics s p)) as [i|] eqn:Hp.
  - destruct (drop_lock_ok s p i lock_state_zero Hok Hp eq_refl (lw_dir (sy_world s)) ltac:(done)) as [[H1 H2 H3] _].
    assert (Hw : set_dir (lw_dir (sy_world s)) (sys_close p i (sy_world s)) = sys_close p i (sy_world s)).
    { rewrite <- (sys_close_dir p i (sy_world s)). by destruct (sys_close p i (sy_world s)). }
    rewrite Hw in *. split; cbn [sy_world] in *.
    + intros q j. rewrite Hst. rewrite <- (statics_insert s (sys_close p i (sy_world s)) p lock_state_zero). apply H1.
    + exact H2.
    + intros j q Hj. rewrite Hst. rewrite <- (statics_insert s (sys_close p i (sy_world s)) p lock_state_zero). by apply H3.
  - destruct Hok as [Hfd Hfr Hlk]. split; cbn [sy_world].
    + intros q j. rewrite Hst. case_decide; [done|]. apply Hfd.
    + exact Hfr.
    + intros j q Hj. rewrite Hst. apply Hlk in Hj as Hq. case_decide; [subst q; congruence|done].
Qed.

Lemma calls_ok s : calls s → lock_ok s.
Proof.
  induction 1 as [w Hl Hf|s e p _ IH Hn|s p _ IH Hh|s p _ IH].
  - by apply lock_ok_start.
  - by apply acquire_ok.
  - by apply release_ok.
  - by apply dies_ok.
Qed.

(** ** Properties *)

(** What a whole write over a truncated file leaves. *)
Lemma rewritten_whole e bs old : le_trunc e = true → (length bs ≤ le_write e)%nat → rewritten e bs old = bs.
Proof.
  intros Ht Hn. unfold rewritten. rewrite Ht, Nat.min_r by done. rewrite take_ge by done. by rewrite drop_nil, app_nil_r.
Qed.

End lock.

(** ** Overlapping calls *)

(** The system calls of a process, in the order of its program. *)
Inductive lock_action := ActOpen (p : Z) | ActLock (p : Z) | ActClose (p : Z) | ActUnlink (p : Z).

Definition actor (a : lock_action) : Z :=
  match a with ActOpen p | ActLock p | ActClose p | ActUnlink p => p end.

Definition act (path : cstring) (s : lock_sys) (a : lock_action) : lock_sys :=
  match a with
  | ActOpen p => acquire_open path env_ok p s
  | ActLock p => (acquire_lock env_ok p s).2
  | ActClose p => release_close p s
  | ActUnlink p => release_unlink p s
  end.

(** Each process runs [pid_lock_acquire] and then, perhaps, [pid_lock_release]. *)
Definition lock_program (p : Z) : list lock_action := [ActOpen p; ActLock p; ActClose p; ActUnlink p].
Definition overlapped (acts : list lock_action) : Prop :=
  ∀ p, filter (λ a, actor a = p) acts `prefix_of` lock_program p.

Definition empty_sys : lock_sys := LockSys (LockWorld ∅ ∅ ∅ 0 ∅) ∅.

(** The release is not atomic: it closes the descriptor, which frees the
    lock, before it removes the file. An agent that starts in between locks the
    file about to be removed, the next one creates another, and both run. *)
Theorem overlapped_release_admits_two :
  ∃ acts, overlapped acts ∧
    holds (fold_left (act IG_PID_FILE) acts empty_sys) 2 ∧ holds (fold_left (act IG_PID_FILE) acts empty_sys) 3.
Proof.
  exists [ActOpen 1; ActLock 1; ActClose 1; ActOpen 2; ActLock 2; ActUnlink 1; ActOpen 3; ActLock 3]. split.
  - intros p. unfold lock_program. rewrite !filter_cons, filter_nil. cbn [actor].
    repeat (case_decide; subst; try lia); first [apply prefix_nil|by eexists].
  - split; eexists; vm_compute; reflexivity.
Qed.

(** A release after a failed acquisition removes the holder's file, and with it
    the exclusion. *)
Example release_after_failure_admits_two :
  let s1 := (pid_lock_acquire IG_PID_FILE env_ok 2 (pid_lock_acquire IG_PID_FILE env_ok 1 empty_sys).2).2 in
  let s2 := (pid_lock_acquire IG_PID_FILE env_ok 3 (pid_lock_release 2 s1)).2 in
  ls_fd (statics s2 1) = Some 0%nat ∧ ls_fd (statics s2 3) = Some 1%nat.
Proof. vm_compute. done. Qed.

(** *** Witness: 41 locks, its [write] failing; 42 does not get the lock *)

Definition no_write : lock_env := LockEnv true true true true 0.

