(* ===== verification/Daemon.v ===== *)
(** * Daemonising (core/daemon.c)

    The two forks, the session, the descriptors and the signal flags. A call of
    [daemon_start] leaves a list of processes, each with what becomes of it;
    the outcomes of the system calls are an argument. *)

From S2P Require Import Prelude Bytes CText Monitor.

Local Open Scope Z_scope.

(** ** Processes *)

(** What a descriptor refers to. *)
Inductive fd_object := FdDevNull | FdSyslog | FdFile (path : cstring) | FdDir (path : cstring) | FdInherited (n : Z).

#[export] Instance fd_object_eq_dec : EqDecision fd_object.
Proof. solve_decision. Defined.

(** [pr_syslog] is the descriptor number the C library keeps for syslog(3). *)
Record process := Process {
  pr_pid : Z; pr_sid : Z; pr_tty : bool; pr_umask : Z; pr_cwd : cstring;
  pr_fds : gmap Z fd_object; pr_syslog : option Z }.

Definition set_fds (m : gmap Z fd_object) (p : process) : process :=
  Process (pr_pid p) (pr_sid p) (pr_tty p) (pr_umask p) (pr_cwd p) m (pr_syslog p).
Definition set_syslog (o : option Z) (p : process) : process :=
  Process (pr_pid p) (pr_sid p) (pr_tty p) (pr_umask p) (pr_cwd p) (pr_fds p) o.

(** A new descriptor gets the lowest free number. *)
Fixpoint lowest_from (fuel : nat) (n : Z) (m : gmap Z fd_object) : Z :=
  match fuel with
  | O => n
  | S fuel => match m !! n with None => n | Some _ => lowest_from fuel (n + 1) m end
  end.
Definition lowest (m : gmap Z fd_object) : Z := lowest_from (size m) 0 m.

Definition sys_open (o : fd_object) (p : process) : Z * process :=
  (lowest (pr_fds p), set_fds (<[lowest (pr_fds p) := o]> (pr_fds p)) p).
Definition sys_close (n : Z) (p : process) : process := set_fds (delete n (pr_fds p)) p.
Definition sys_dup2 (n k : Z) (p : process) : process :=
  match pr_fds p !! n with Some o => set_fds (<[k := o]> (pr_fds p)) p | None => p end.

(** [openlog]: with LOG_NDELAY the socket is connected at once, unless the
    library believes it has one. [connects]: [/dev/log] answers. *)
Definition openlog (ndelay connects : bool) (p : process) : process :=
  match pr_syslog p with
  | Some _ => p
  | None => if ndelay && connects then let '(n, p) := sys_open FdSyslog p in set_syslog (Some n) p else p
  end.
Definition closelog (p : process) : process :=
  match pr_syslog p with Some n => set_syslog None (sys_close n p) | None => p end.

(** The process goes on after the call, or is gone. *)
Inductive fate := Returns (rc : Z) | Exits (code : Z).

(** What the system calls answer: the child's pid or failure of the two forks,
    setsid, chdir, the names [/proc/self/fd] lists or [sysconf(_SC_OPEN_MAX)]
    when it does not open, [/dev/null], and [/dev/log]. *)
Record daemon_env := DaemonEnv {
  de_fork1 : option Z; de_setsid : bool; de_fork2 : option Z; de_chdir : bool;
  de_proc_fds : option (list cstring); de_open_max : Z; de_devnull : bool; de_syslog : bool }.

Definition forked (pid : Z) (p : process) : process :=
  Process pid (pr_sid p) (pr_tty p) (pr_umask p) (pr_cwd p) (pr_fds p) (pr_syslog p).
(** [setsid]: the caller leads a new session, without a terminal. *)
Definition setsid (p : process) : process :=
  Process (pr_pid p) (pr_pid p) false (pr_umask p) (pr_cwd p) (pr_fds p) (pr_syslog p).
Definition sys_umask (m : Z) (p : process) : process :=
  Process (pr_pid p) (pr_sid p) (pr_tty p) m (pr_cwd p) (pr_fds p) (pr_syslog p).
Definition sys_chdir (d : cstring) (p : process) : process :=
  Process (pr_pid p) (pr_sid p) (pr_tty p) (pr_umask p) d (pr_fds p) (pr_syslog p).

(** ** daemon_start *)

(** The descriptor a name stands for, when it is to be closed. *)
Definition inherited (dfd : Z) (name : cstring) : option Z :=
  let fd := atoi name in if (3 <=? fd) && negb (fd =? dfd) then Some fd else None.

(** Close the descriptors [f] gives for the elements of a list. *)
Definition close_each {A} (f : A → option Z) (l : list A) (p : process) : process :=
  fold_left (λ p x, match f x with Some n => sys_close n p | None => p end) l p.

(** The names read while [/proc/self/fd] itself is open as [dfd]. *)
(* @src core/daemon.c:108-121 daemon_start *)
Definition close_inherited (e : daemon_env) (p : process) : process :=
  match de_proc_fds e with
  | Some names =>
      let '(dfd, p) := sys_open (FdDir (lit "/proc/self/fd")) p in
      sys_close dfd (close_each (inherited dfd) names p)
  | None => close_each (λ fd, Some (Z.of_nat fd)) (seq 3 (Z.to_nat (de_open_max e) - 3)) p
  end.

(* @src core/daemon.c:125-130 daemon_start *)
Definition null_streams (e : daemon_env) (p : process) : option process :=
  if de_devnull e then
    let '(devnull, p) := sys_open FdDevNull p in
    let p := sys_dup2 devnull 2 (sys_dup2 devnull 1 (sys_dup2 devnull 0 p)) in
    Some (if 2 <? devnull then sys_close devnull p else p)
  else None.

(** The second child, after both forks. *)
(* @src core/daemon.c:103-134 daemon_start *)
Definition daemon_child (e : daemon_env) (p : process) : process * fate :=
  if de_chdir e then
    let p := close_inherited e (sys_chdir (lit "/") p) in
    match null_streams e p with
    | Some p => (openlog true (de_syslog e) p, Returns 0)
    | None => (p, Exits 1)
    end
  else (p, Exits 1).

(* @src core/daemon.c:77-135 daemon_start *)
Definition daemon_start (e : daemon_env) (foreground : bool) (p : process) : list (process * fate) :=
  let p := sys_umask 23 (* 0027 *) p in
  if foreground then [(openlog false (de_syslog e) p, Returns 0)]
  else match de_fork1 e with
  | None => [(p, Returns (-1))]
  | Some pid1 =>
      let child := forked pid1 p in
      if de_setsid e then
        let child := setsid child in
        match de_fork2 e with
        | None => [(p, Exits 0); (child, Exits 1)]
        | Some pid2 => [(p, Exits 0); (child, Exits 0); daemon_child e (forked pid2 child)]
        end
      else [(p, Exits 0); (child, Returns (-1))]
  end.

(** ** Signal flags and the rest *)

(* @src core/daemon.c:25-26 g_running *)
Record daemon_flags := DaemonFlags { df_running : Z; df_reload : Z }.

Inductive daemon_signal := SigTerm | SigHup | SigChld | SigPipe.

(** SIGINT is handled as SIGTERM; SIGCHLD reaps and SIGPIPE is ignored. *)
(* @src core/daemon.c:31-49 handle_sigterm *)
Definition handle_signal (s : daemon_signal) (f : daemon_flags) : daemon_flags :=
  match s with
  | SigTerm => DaemonFlags 0 (df_reload f)
  | SigHup => DaemonFlags (df_running f) 1
  | SigChld | SigPipe => f
  end.

(* @src core/daemon.c:138-138 daemon_is_running *)
Definition daemon_is_running (f : daemon_flags) : Z := df_running f.

(** Compare and swap: reading and clearing are one step. *)
(* @src core/daemon.c:140-145 daemon_need_reload *)
Definition daemon_need_reload (f : daemon_flags) : Z * daemon_flags :=
  (df_reload f, if df_reload f =? 1 then DaemonFlags (df_running f) 0 else f).

(* @src core/daemon.c:148-152 daemon_cleanup *)
Definition daemon_cleanup (p : process) : process := closelog p.

(** ** What survives *)

Lemma lowest_from_ge fuel n m : n ≤ lowest_from fuel n m.
Proof.
  revert n. induction fuel as [|fuel IH]; intros n; cbn; [lia|].
  destruct (m !! n); [|lia]. specialize (IH (n + 1)). lia.
Qed.

Lemma lowest_nonneg m : 0 ≤ lowest m.
Proof. apply lowest_from_ge. Qed.

(** As many tries as there are descriptors are enough: the number is free. *)
Lemma lowest_from_free fuel n (m : gmap Z fd_object) : 0 ≤ n →
  (∀ k, 0 ≤ k < n → is_Some (m !! k)) → (size m ≤ fuel + Z.to_nat n)%nat → m !! lowest_from fuel n m = None.
Proof.
  revert n. induction fuel as [|fuel IH]; intros n Hn Hused Hsize; cbn [lowest_from].
  - apply eq_None_not_Some. intros Hm.
    assert (Hsub : list_to_set (seqZ 0 (n + 1)) ⊆ dom m).
    { intros k Hk. apply elem_of_list_to_set, elem_of_seqZ in Hk. apply elem_of_dom.
      destruct (decide (k = n)) as [->|]; [done|]. apply Hused. lia. }
    apply subseteq_size in Hsub. rewrite size_dom, size_list_to_set, length_seqZ in Hsub by apply NoDup_seqZ. lia.
  - destruct (m !! n) as [o|] eqn:Hm; [|done]. apply IH; [lia| |lia].
    intros k Hk. destruct (decide (k = n)) as [->|]; [by eexists|]. apply Hused. lia.
Qed.

Lemma lowest_free m : m !! lowest m = None.
Proof. apply lowest_from_free; [done|lia|lia]. Qed.

(** Closing a list of descriptors leaves the others as they were. *)
Lemma close_each_lookup {A} (f : A → option Z) l : ∀ p fd,
  pr_fds (close_each f l p) !! fd =
  if bool_decide (Some fd ∈ f <$> l) then None else pr_fds p !! fd.
Proof.
  unfold close_each. induction l as [|x l IH]; intros p fd; cbn [fold_left fmap list_fmap]; [done|]. rewrite IH.
  destruct (decide (Some fd ∈ f <$> l)) as [Hin|Hin].
  - rewrite !bool_decide_eq_true_2; [done|by right|done].
  - rewrite (bool_decide_eq_false_2 (_ ∈ f <$> l)) by done. destruct (f x) as [n|] eqn:E.
    + destruct (decide (n = fd)) as [->|Hne].
      * rewrite bool_decide_eq_true_2 by left. cbn. apply lookup_delete_eq.
      * rewrite bool_decide_eq_false_2 by (intros [?|?]%elem_of_cons; congruence).
        cbn. by apply lookup_delete_ne.
    + rewrite bool_decide_eq_false_2 by (intros [?|?]%elem_of_cons; congruence). done.
Qed.

(** What closing descriptors leaves alone. *)
Definition same_but_fds (p q : process) : Prop :=
  pr_pid q = pr_pid p ∧ pr_sid q = pr_sid p ∧ pr_tty q = pr_tty p ∧ pr_umask q = pr_umask p ∧
  pr_cwd q = pr_cwd p ∧ pr_syslog q = pr_syslog p.

Lemma close_each_same {A} (f : A → option Z) l : ∀ p,
  same_but_fds p (close_each f l p).
Proof.
  unfold close_each. induction l as [|x l IH]; intros p; cbn [fold_left]; [done|].
  destruct (f x) as [n|]; [|apply IH].
  exact (IH (sys_close n p)).
Qed.

(** The descriptors are numbers the closing loop reaches. *)
Definition fds_listed (e : daemon_env) (m : gmap Z fd_object) : Prop :=
  ∀ fd o, m !! fd = Some o → 0 ≤ fd < 2 ^ 31 ∧
    (3 ≤ fd → match de_proc_fds e with Some names => decimal_int fd ∈ names | None => fd < de_open_max e end).

Lemma close_inherited_spec e p : fds_listed e (pr_fds p) →
  same_but_fds p (close_inherited e p) ∧
  ∀ fd o, pr_fds (close_inherited e p) !! fd = Some o → 0 ≤ fd < 3.
Proof.
  intros Hf. unfold close_inherited. destruct (de_proc_fds e) as [names|] eqn:En.
  - cbn [sys_open]. set (dfd := lowest _). set (p1 := set_fds _ p).
    split; [exact (close_each_same (inherited dfd) names p1)|].
    intros fd o H. cbn [sys_close set_fds pr_fds] in H. apply lookup_delete_Some in H as [Hne H].
    rewrite close_each_lookup in H. case_bool_decide as Hin; [done|].
    cbn in H. rewrite lookup_insert_ne in H by done.
    destruct (Hf fd o H) as [Hr Hn]. rewrite En in Hn.
    split; [lia|]. destruct (Z.lt_ge_cases fd 3) as [|H3]; [done|]. destruct Hin.
    apply list_elem_of_fmap. exists (decimal_int fd). split; [|by apply Hn].
    unfold inherited. rewrite <- (app_nil_r (decimal_int fd)), atoi_decimal_int by (done || lia).
    rewrite (proj2 (Z.leb_le 3 fd) H3), (proj2 (Z.eqb_neq fd dfd)) by done. done.
  - split; [apply close_each_same|].
    intros fd o H. rewrite close_each_lookup in H. case_bool_decide as Hin; [done|].
    destruct (Hf fd o H) as [Hr Hn]. rewrite En in Hn.
    split; [lia|]. destruct (Z.lt_ge_cases fd 3) as [|H3]; [done|]. destruct Hin.
    apply list_elem_of_fmap. exists (Z.to_nat fd). rewrite Z2Nat.id by lia. split; [done|].
    specialize (Hn H3). apply elem_of_seq. lia.
Qed.

(** The three standard streams on [/dev/null]. *)
Definition null3 (m : gmap Z fd_object) : gmap Z fd_object :=
  <[2 := FdDevNull]> (<[1 := FdDevNull]> (<[0 := FdDevNull]> m)).
Definition null_fds : gmap Z fd_object := null3 ∅.

Lemma null3_lookup m fd : null3 m !! fd = if bool_decide (0 ≤ fd < 3) then Some FdDevNull else m !! fd.
Proof.
  unfold null3. destruct (decide (fd = 2)) as [->|]; [by rewrite lookup_insert_eq|].
  rewrite lookup_insert_ne by done. destruct (decide (fd = 1)) as [->|]; [by rewrite lookup_insert_eq|].
  rewrite lookup_insert_ne by done. destruct (decide (fd = 0)) as [->|]; [by rewrite lookup_insert_eq|].
  rewrite lookup_insert_ne by done. by rewrite bool_decide_eq_false_2 by lia.
Qed.

Lemma null_streams_spec e p q : (∀ fd o, pr_fds p !! fd = Some o → 0 ≤ fd < 3) →
  null_streams e p = Some q → same_but_fds p q ∧ pr_fds q = null_fds.
Proof.
  intros Hf. unfold null_streams. destruct (de_devnull e); [|done]. cbn [sys_open]. intros [= <-].
  set (n := lowest _). pose proof (lowest_nonneg (pr_fds p)) as Hn. fold n in Hn.
  set (p1 := set_fds _ p).
  assert (H : ∀ k q, pr_fds q !! n = Some FdDevNull →
            sys_dup2 n k q = set_fds (<[k := FdDevNull]> (pr_fds q)) q).
  { intros k q Hq. unfold sys_dup2. by rewrite Hq. }
  assert (Hi : ∀ k (m : gmap Z fd_object), m !! n = Some FdDevNull → <[k := FdDevNull]> m !! n = Some FdDevNull).
  { intros k m Hm. destruct (decide (k = n)) as [->|]; [apply lookup_insert_eq|by rewrite lookup_insert_ne]. }
  assert (H1 : pr_fds p1 !! n = Some FdDevNull) by apply lookup_insert_eq.
  rewrite (H 0 p1 H1), (H 1), (H 2) by (cbn; auto).
  split; [by destruct (2 <? n)|]. apply map_eq. intros fd. unfold null_fds.
  assert (Hp : ¬ 0 ≤ fd < 3 → pr_fds p !! fd = None).
  { intros Hr. apply eq_None_not_Some. by intros [o Ho%Hf]. }
  rewrite null3_lookup, lookup_empty. destruct (Z.ltb_spec 2 n) as [Hlt|Hge].
  - cbn [sys_close set_fds pr_fds]. destruct (decide (fd = n)) as [->|Hk].
    + rewrite lookup_delete_eq. by rewrite bool_decide_eq_false_2 by lia.
    + rewrite lookup_delete_ne by done. change (<[2 := FdDevNull]> _) with (null3 (<[n := FdDevNull]> (pr_fds p))).
      rewrite null3_lookup, lookup_insert_ne by done. case_bool_decide; auto.
  - cbn [set_fds pr_fds]. change (<[2 := FdDevNull]> _) with (null3 (<[n := FdDevNull]> (pr_fds p))).
    rewrite null3_lookup. case_bool_decide; [done|]. rewrite lookup_insert_ne by lia. auto.
Qed.

(** What a daemon has to be: no session leader, no terminal, root directory,
    restricted umask, and no descriptor but the three null streams and the
    connection to syslog. *)
Definition detached (e : daemon_env) (p q : process) : Prop :=
  pr_sid q ≠ pr_pid q ∧ pr_tty q = false ∧ pr_umask q = 23 ∧ pr_cwd q = lit "/" ∧
  match pr_syslog p with
  | None => if de_syslog e then pr_fds q = <[3 := FdSyslog]> null_fds ∧ pr_syslog q = Some 3
            else pr_fds q = null_fds ∧ pr_syslog q = None
  | Some n => pr_fds q = null_fds ∧ pr_syslog q = Some n
  end.

Definition goes_on (r : process * fate) : bool := match r.2 with Returns _ => true | Exits _ => false end.

Lemma daemon_child_spec e p q : fds_listed e (pr_fds p) → daemon_child e p = (q, Returns 0) →
  pr_pid q = pr_pid p ∧ pr_sid q = pr_sid p ∧ pr_tty q = pr_tty p ∧ pr_umask q = pr_umask p ∧
  pr_cwd q = lit "/" ∧
  match pr_syslog p with
  | None => if de_syslog e then pr_fds q = <[3 := FdSyslog]> null_fds ∧ pr_syslog q = Some 3
            else pr_fds q = null_fds ∧ pr_syslog q = None
  | Some n => pr_fds q = null_fds ∧ pr_syslog q = Some n
  end.
Proof.
  intros Hf. unfold daemon_child. destruct (de_chdir e); [|done].
  destruct (close_inherited_spec e (sys_chdir (lit "/") p) Hf) as [(E1 & E2 & E3 & E4 & E5 & E6) Hfds].
  destruct (null_streams _ _) as [r|] eqn:En; [|done]. intros [= <-].
  destruct (null_streams_spec _ _ _ Hfds En) as [(F1 & F2 & F3 & F4 & F5 & F6) Hnull].
  cbn [sys_chdir pr_pid pr_sid pr_tty pr_umask pr_cwd pr_syslog] in *. unfold openlog. rewrite F6, E6. destruct (pr_syslog p) as [n|] eqn:Es.
  - rewrite F1, F2, F3, F4, F5, E1, E2, E3, E4, E5, F6, E6. done.
  - cbn [andb]. destruct (de_syslog e).
    + unfold sys_open. rewrite Hnull. cbn [set_syslog set_fds pr_pid pr_sid pr_tty pr_umask pr_cwd pr_fds pr_syslog].
      rewrite F1, F2, F3, F4, F5, E1, E2, E3, E4, E5. done.
    + rewrite F1, F2, F3, F4, F5, E1, E2, E3, E4, E5, F6, E6. done.
Qed.

(** Whatever the system calls answer, daemonising lets at most one process
    go on; and one that returns success is detached: neither session leader nor
    attached to a terminal, in the root directory, with the restricted umask, and
    with no inherited descriptor left - only the three null streams and, when it
    answers, the connection to syslog. *)
Theorem daemon_survivor_detached (e : daemon_env) (p : process) (Hfds : fds_listed e (pr_fds p))
    (Hpids : ∀ a b, de_fork1 e = Some a → de_fork2 e = Some b → a ≠ b) :
  (length (List.filter goes_on (daemon_start e false p)) ≤ 1)%nat ∧
  ∀ q, (q, Returns 0) ∈ daemon_start e false p → detached e p q.
Proof.
  unfold daemon_start. destruct (de_fork1 e) as [a|] eqn:E1.
  2:{ split; [cbn; lia|]. by intros q [[=]|[]%elem_of_nil]%elem_of_cons. }
  destruct (de_setsid e).
  2:{ split; [cbn; lia|]. by intros q [[=]|[[=]|[]%elem_of_nil]%elem_of_cons]%elem_of_cons. }
  destruct (de_fork2 e) as [b|] eqn:E2.
  2:{ split; [cbn; lia|]. by intros q [[=]|[[=]|[]%elem_of_nil]%elem_of_cons]%elem_of_cons. }
  set (c := forked b (setsid (forked a (sys_umask 23 p)))). split.
  { cbn [List.filter goes_on snd]. case_match; cbn; lia. }
  intros q [[=]|[[=]|[Hq|[]%elem_of_nil]%elem_of_cons]%elem_of_cons]%elem_of_cons. symmetry in Hq.
  destruct (daemon_child_spec e c q Hfds Hq) as (H1 & H2 & H3 & H4 & H5 & H6).
  split_and!; try done. rewrite H1, H2. cbn. by apply Hpids.
Qed.

(** A login shell's process with a stray descriptor. *)
Definition shell_process : process :=
  Process 100 90 true 18 (lit "/root")
    {[0 := FdInherited 0; 1 := FdInherited 1; 2 := FdInherited 2; 3 := FdFile (lit "/var/log/ig_monitor.log"); 9 := FdInherited 9]}
    None.
Definition plain_env : daemon_env :=
  DaemonEnv (Some 101) true (Some 102) true
    (Some [lit "."; lit ".."; lit "0"; lit "1"; lit "2"; lit "3"; lit "4"; lit "9"]) 1024 true true.

Lemma shell_fds_listed : fds_listed plain_env (pr_fds shell_process).
Proof.
  intros fd o H. apply elem_of_map_to_list in H.
  assert (A : Forall (λ x : Z * fd_object, 0 ≤ x.1 < 2 ^ 31 ∧
            (3 ≤ x.1 → decimal_int x.1 ∈ default [] (de_proc_fds plain_env))) (map_to_list (pr_fds shell_process)))
    by by_decide.
  by apply (proj1 (Forall_forall _ _) A (fd, o)).
Qed.

Lemma daemon_survivor_detached_witness :
  ∃ q, daemon_start plain_env false shell_process !! 2%nat = Some (q, Returns 0) ∧ detached plain_env shell_process q.
Proof.
  exists (daemon_child plain_env (forked 102 (setsid (forked 101 (sys_umask 23 shell_process))))).1.
  split; [reflexivity|].
  apply (proj2 (daemon_survivor_detached plain_env shell_process shell_fds_listed
    ltac:(intros a b E1 E2; injection E1 as <-; injection E2 as <-; lia))).
  do 2 right. left.
Defined.

(** A SIGHUP after the flag was read is seen by the next read. *)
Lemma reload_seen_once f : df_reload f = 0 ∨ df_reload f = 1 →
  df_reload (daemon_need_reload f).2 = 0 ∧
  (daemon_need_reload (handle_signal SigHup (daemon_need_reload f).2)).1 = 1 ∧
  daemon_is_running (daemon_need_reload f).2 = daemon_is_running f.
Proof. unfold daemon_need_reload, daemon_is_running. intros [H|H]; rewrite H; cbn; rewrite ?H; done. Qed.

(** ** The log file across daemonising (main.c) *)

(** [fclose] of the log opened as [old] before the forks, and [fopen] of it again:
    [close_logging] and [init_logging] after [daemon_start]. *)
(* @src main.c:740-741 main *)
Definition reopen_log (old : Z) (path : cstring) (p : process) : Z * process :=
  sys_open (FdFile path) (sys_close old p).

(** The process before it opens its log: the three streams and nothing else. *)
Definition plain_process (p : process) : Prop :=
  pr_syslog p = None ∧ lowest (pr_fds p) = 3.

(** The log and syslog end up on one descriptor: the log was opened as number
    3, the daemon closed that number and connected to syslog, which took it; what
    [main] closes as its old log is the syslog connection, and the log file
    opened next gets the number the C library still uses for syslog. At exit
    [daemon_cleanup] closes the log file under the last log message. *)
Theorem log_shares_syslog_descriptor (e : daemon_env) (p q : process) (path : cstring)
    (Hplain : plain_process p) (Hsyslog : de_syslog e = true)
    (Hfds : fds_listed e (pr_fds (sys_open (FdFile path) p).2))
    (Hpids : ∀ a b, de_fork1 e = Some a → de_fork2 e = Some b → a ≠ b)
    (Hq : (q, Returns 0) ∈ daemon_start e false (sys_open (FdFile path) p).2) :
  (sys_open (FdFile path) p).1 = 3 ∧ pr_fds q !! 3 = Some FdSyslog ∧
  let '(n, q') := reopen_log 3 path q in
  n = 3 ∧ pr_syslog q' = Some 3 ∧ pr_fds q' !! 3 = Some (FdFile path) ∧
  pr_fds (daemon_cleanup q') !! 3 = None.
Proof.
  destruct Hplain as [Hs Hl]. unfold sys_open at 1. cbn [fst]. split; [done|].
  assert (Hd : pr_fds q = <[3 := FdSyslog]> null_fds ∧ pr_syslog q = Some 3).
  { unfold daemon_start in Hq. destruct (de_fork1 e) as [a|] eqn:E1.
    2:{ by apply elem_of_cons in Hq as [[=]|[]%elem_of_nil]. }
    destruct (de_setsid e).
    2:{ by apply elem_of_cons in Hq as [[=]|[[=]|[]%elem_of_nil]%elem_of_cons]. }
    destruct (de_fork2 e) as [b|] eqn:E2.
    2:{ by apply elem_of_cons in Hq as [[=]|[[=]|[]%elem_of_nil]%elem_of_cons]. }
    apply elem_of_cons in Hq as [[=]|[[=]|[Hq|[]%elem_of_nil]%elem_of_cons]%elem_of_cons]. symmetry in Hq.
    set (c := forked b _) in Hq.
    destruct (daemon_child_spec e c q Hfds Hq) as (_ & _ & _ & _ & _ & H6).
    change (pr_syslog c) with (pr_syslog p) in H6. by rewrite Hs, Hsyslog in H6. }
  destruct Hd as [Hd Hsys]. unfold reopen_log. rewrite Hd. split; [apply lookup_insert_eq|].
  unfold sys_close, sys_open. cbn [set_fds pr_fds]. rewrite Hd.
  rewrite delete_insert_id by (unfold null_fds; by rewrite null3_lookup).
  change (lowest null_fds) with 3. split; [done|]. cbn [set_fds pr_syslog pr_fds]. split; [done|].
  split; [apply lookup_insert_eq|]. unfold daemon_cleanup, closelog. cbn [set_fds pr_syslog pr_fds].
  rewrite Hsys. cbn. apply lookup_delete_eq.
Qed.

Definition quiet_process : process :=
  Process 100 90 true 18 (lit "/root") {[0 := FdInherited 0; 1 := FdInherited 1; 2 := FdInherited 2]} None.

Definition log_path : cstring := lit "/var/log/ig_monitor.log".

Lemma quiet_fds_listed : fds_listed plain_env (pr_fds (sys_open (FdFile log_path) quiet_process).2).
Proof.
  intros fd o H. apply elem_of_map_to_list in H.
  assert (A : Forall (λ x : Z * fd_object, 0 ≤ x.1 < 2 ^ 31 ∧
            (3 ≤ x.1 → decimal_int x.1 ∈ default [] (de_proc_fds plain_env)))
            (map_to_list (pr_fds (sys_open (FdFile log_path) quiet_process).2))) by by_decide.
  by apply (proj1 (Forall_forall _ _) A (fd, o)).
Qed.

(** What is left of it once daemonised. *)
Definition quiet_daemon : process :=
  (daemon_child plain_env (forked 102 (setsid (forked 101 (sys_umask 23 (sys_open (FdFile log_path) quiet_process).2))))).1.

Lemma log_shares_syslog_descriptor_witness :
  pr_fds quiet_daemon !! 3 = Some FdSyslog ∧ pr_syslog (reopen_log 3 log_path quiet_daemon).2 = Some 3 ∧
  pr_fds (reopen_log 3 log_path quiet_daemon).2 !! 3 = Some (FdFile log_path).
Proof.
  destruct (log_shares_syslog_descriptor plain_env quiet_process quiet_daemon log_path) as (_ & H1 & H2).
  - by split.
  - reflexivity.
  - exact quiet_fds_listed.
  - intros a b E1 E2. injection E1 as <-. injection E2 as <-. lia.
  - right. right. left.
  - destruct (reopen_log 3 log_path quiet_daemon) as [n q']. destruct H2 as (_ & H2 & H3 & _).
    exact (conj H1 (conj H2 H3)).
Defined.
