(* ===== verification/EventLoop.v ===== *)
(** * The epoll loop (core/event_loop.c)

    A table of handlers indexed by descriptor, the kernel's interest list behind
    it, and the loop that dispatches what [epoll_wait] reports. Handlers are the
    program's: they may change anything, the loop's own state included. *)

From S2P Require Import Prelude Bytes.

Local Open Scope Z_scope.

Definition EL_MAX_FDS : nat := 64.
Definition EL_MAX_EVENTS : nat := 32.
Definition EPOLLIN : Z := 1.
Definition SIGHUP : Z := 1.
Definition SIGINT : Z := 2.
Definition SIGTERM : Z := 15.
#[global] Arguments EL_MAX_FDS : simpl never.

(** A registered handler: the loop's own for the signal descriptor, or one of
    the program's with its context. *)
(* @src core/event_loop.c:19-22 el_slot_t *)
Inductive el_handler (H : Type) := OnSignal | UserHandler (h : H).
Arguments OnSignal {H}.
Arguments UserHandler {H}.

(** The statics; [None] is -1 or NULL. [el_interest] is the kernel's list of
    descriptors with the events asked for, [el_world] everything else. *)
(* @src core/event_loop.c:25-29 g_slots *)
Record event_loop (H W : Type) := EventLoop {
  el_epoll_fd : option Z; el_signal_fd : option Z; el_running : bool;
  el_slots : list (option (el_handler H)); el_reload_cb : option H;
  el_interest : gmap Z Z; el_pings : nat; el_world : W }.
Arguments EventLoop {H W}.
Arguments el_epoll_fd {H W}.
Arguments el_signal_fd {H W}.
Arguments el_running {H W}.
Arguments el_slots {H W}.
Arguments el_reload_cb {H W}.
Arguments el_interest {H W}.
Arguments el_pings {H W}.
Arguments el_world {H W}.

Section loop.
Context {H W : Type}.
Abbreviation loop := (event_loop H W).

(** [run_handler h fd events]: a handler of the program; [run_reload]: its reload
    callback; [read_siginfo fd]: the signal a read of the signal descriptor
    returns; [ctl_ok fd]: the descriptor can be polled. *)
Variable run_handler : H → Z → Z → loop → loop.
Variable run_reload : H → loop → loop.
Variable read_siginfo : Z → W → option Z * W.
Variable ctl_ok : Z → bool.

Definition set_slot (fd : Z) (s : option (el_handler H)) (l : loop) : loop :=
  EventLoop (el_epoll_fd l) (el_signal_fd l) (el_running l) (<[Z.to_nat fd := s]> (el_slots l))
    (el_reload_cb l) (el_interest l) (el_pings l) (el_world l).
Definition set_interest (m : gmap Z Z) (l : loop) : loop :=
  EventLoop (el_epoll_fd l) (el_signal_fd l) (el_running l) (el_slots l) (el_reload_cb l) m
    (el_pings l) (el_world l).
Definition set_running (r : bool) (l : loop) : loop :=
  EventLoop (el_epoll_fd l) (el_signal_fd l) r (el_slots l) (el_reload_cb l) (el_interest l)
    (el_pings l) (el_world l).
Definition set_world (w : W) (l : loop) : loop :=
  EventLoop (el_epoll_fd l) (el_signal_fd l) (el_running l) (el_slots l) (el_reload_cb l) (el_interest l)
    (el_pings l) w.
Definition set_fds (e s : option Z) (l : loop) : loop :=
  EventLoop e s (el_running l) (el_slots l) (el_reload_cb l) (el_interest l) (el_pings l) (el_world l).

(** [daemon_watchdog_ping] *)
Definition ping (l : loop) : loop :=
  EventLoop (el_epoll_fd l) (el_signal_fd l) (el_running l) (el_slots l) (el_reload_cb l) (el_interest l)
    (S (el_pings l)) (el_world l).

Definition fd_in_range (fd : Z) : bool := (0 <=? fd) && (fd <? Z.of_nat EL_MAX_FDS).

(** [epoll_ctl(ADD)] fails without an epoll descriptor, on a descriptor already
    in the list and on one that cannot be polled. *)
Definition epoll_add (fd events : Z) (l : loop) : option loop :=
  match el_epoll_fd l, el_interest l !! fd with
  | Some _, None => if ctl_ok fd then Some (set_interest (<[fd := events]> (el_interest l)) l) else None
  | _, _ => None
  end.

(* @src core/event_loop.c:112-136 event_loop_add *)
Definition event_loop_add (fd events : Z) (handler : el_handler H) (l : loop) : Z * loop :=
  if negb (fd_in_range fd) then (-1, l)
  else
    let l := set_slot fd (Some handler) l in
    match epoll_add fd events l with
    | Some l => (0, l)
    | None => (-1, set_slot fd None l)
    end.

(* @src core/event_loop.c:139-152 event_loop_remove *)
Definition event_loop_remove (fd : Z) (l : loop) : Z * loop :=
  if negb (fd_in_range fd) then (-1, l)
  else
    match el_epoll_fd l, el_interest l !! fd with
    | Some _, Some _ => (0, set_slot fd None (set_interest (delete fd (el_interest l)) l))
    | _, _ => (-1, l)
    end.

(* @src core/event_loop.c:104-107 event_loop_set_reload_cb *)
Definition event_loop_set_reload_cb (fn : option H) (l : loop) : loop :=
  EventLoop (el_epoll_fd l) (el_signal_fd l) (el_running l) (el_slots l) fn (el_interest l)
    (el_pings l) (el_world l).

(** [epoll], [mask_ok], [signal]: what [epoll_create1], [sigprocmask] and
    [signalfd] return. *)
(* @src core/event_loop.c:64-102 event_loop_init *)
Definition event_loop_init (epoll : option Z) (mask_ok : bool) (signal : option Z) (l : loop) : Z * loop :=
  let l := EventLoop (el_epoll_fd l) (el_signal_fd l) true (replicate EL_MAX_FDS None) (el_reload_cb l)
             ∅ (el_pings l) (el_world l) in
  match epoll with
  | None => (-1, set_fds None (el_signal_fd l) l)
  | Some e =>
      let l := set_fds (Some e) (el_signal_fd l) l in
      if negb mask_ok then (-1, l)
      else match signal with
           | None => (-1, set_fds (Some e) None l)
           | Some s => event_loop_add s EPOLLIN OnSignal (set_fds (Some e) (Some s) l)
           end
  end.

(* @src core/event_loop.c:34-58 on_signal *)
Definition on_signal (fd : Z) (l : loop) : loop :=
  let (sig, w) := read_siginfo fd (el_world l) in
  let l := set_world w l in
  match sig with
  | None => l
  | Some s =>
      if (s =? SIGTERM) || (s =? SIGINT) then set_running false l
      else if s =? SIGHUP then match el_reload_cb l with Some f => run_reload f l | None => l end
      else l
  end.

Definition call_handler (h : el_handler H) (fd events : Z) (l : loop) : loop :=
  match h with
  | OnSignal => on_signal fd l
  | UserHandler h => run_handler h fd events l
  end.

(* @src core/event_loop.c:181-185 event_loop_run *)
Fixpoint dispatch (evs : list (Z * Z)) (l : loop) : loop :=
  match evs with
  | [] => l
  | (fd, events) :: evs =>
      if el_running l then
        dispatch evs
          (if fd_in_range fd then
             match el_slots l !! Z.to_nat fd with
             | Some (Some h) => call_handler h fd events l
             | _ => l
             end
           else l)
      else l
  end.

(** One call of [epoll_wait]. *)
Inductive wait_result := WaitIntr | WaitError | WaitTimeout | WaitReady (evs : list (Z * Z)).

Inductive loop_end := LoopStopped | LoopFailed | LoopWaiting.

(** The loop over the given waits, what is left of them when it ends;
    [LoopWaiting] when they do not end it. *)
(* @src core/event_loop.c:158-191 event_loop_run *)
Fixpoint event_loop_run (waits : list wait_result) (l : loop) : loop_end * list wait_result * loop :=
  if el_running l then
    match waits with
    | [] => (LoopWaiting, [], l)
    | WaitIntr :: waits => event_loop_run waits l
    | WaitError :: waits => (LoopFailed, waits, l)
    | WaitTimeout :: waits => event_loop_run waits (ping l)
    | WaitReady evs :: waits => event_loop_run waits (ping (dispatch evs l))
    end
  else (LoopStopped, waits, l).

(** [close] takes both descriptors, and with the first the interest list. *)
(* @src core/event_loop.c:194-199 event_loop_cleanup *)
Definition event_loop_cleanup (l : loop) : loop :=
  EventLoop None None true (el_slots l) (el_reload_cb l)
    (match el_epoll_fd l with Some _ => ∅ | None => el_interest l end) (el_pings l) (el_world l).

(** ** Lemmas *)

(** Every descriptor the kernel watches has a handler. *)
Definition loop_ok (l : loop) : Prop :=
  length (el_slots l) = EL_MAX_FDS ∧
  ∀ fd events, el_interest l !! fd = Some events →
    fd_in_range fd = true ∧ ∃ h, el_slots l !! Z.to_nat fd = Some (Some h).

Lemma fd_in_range_spec fd : fd_in_range fd = true ↔ 0 ≤ fd < Z.of_nat EL_MAX_FDS.
Proof. unfold fd_in_range. rewrite andb_true_iff, Z.leb_le, Z.ltb_lt. done. Qed.

Lemma set_slot_lookup fd s l : length (el_slots l) = EL_MAX_FDS → fd_in_range fd = true →
  el_slots (set_slot fd s l) !! Z.to_nat fd = Some s.
Proof.
  intros Hl Hr%fd_in_range_spec. cbn. apply list_lookup_insert_eq. rewrite Hl. lia.
Qed.

Lemma set_slot_other fd fd' s l : fd_in_range fd = true → fd_in_range fd' = true → fd ≠ fd' →
  el_slots (set_slot fd s l) !! Z.to_nat fd' = el_slots l !! Z.to_nat fd'.
Proof.
  intros H1%fd_in_range_spec H2%fd_in_range_spec Hne. cbn. apply list_lookup_insert_ne. lia.
Qed.

(** A first registration keeps the table and the kernel's list in step. *)
Lemma add_ok fd events h l : loop_ok l → el_interest l !! fd = None →
  loop_ok (event_loop_add fd events h l).2.
Proof.
  intros [Hl Hok] Hfree. unfold event_loop_add. destruct (fd_in_range fd) eqn:Hr; [|done]. cbn [negb].
  unfold epoll_add. change (el_interest (set_slot fd (Some h) l)) with (el_interest l). rewrite Hfree.
  assert (Hother : ∀ s k e, el_interest l !! k = Some e →
            fd_in_range k = true ∧ ∃ h', el_slots (set_slot fd s l) !! Z.to_nat k = Some (Some h')).
  { intros s k e Hk. destruct (Hok k e Hk) as [Hkr Hh]. split; [done|].
    rewrite set_slot_other by (done || congruence). done. }
  assert (Hfail : loop_ok (set_slot fd None (set_slot fd (Some h) l))).
  { split; [cbn; by rewrite !length_insert|]. intros k e Hk. cbn in Hk. destruct (Hok k e Hk) as [Hkr Hh].
    split; [done|]. rewrite !set_slot_other by (done || congruence). done. }
  destruct (el_epoll_fd (set_slot fd (Some h) l)); [|exact Hfail]. destruct (ctl_ok fd); [|exact Hfail].
  split; [cbn; by rewrite length_insert|]. cbn [snd el_interest set_interest el_slots].
  intros k e [[-> _]|[Hne Hk]]%lookup_insert_Some.
  - split; [done|]. exists h. by apply set_slot_lookup.
  - by apply (Hother (Some h) k e).
Qed.

Lemma remove_ok fd l : loop_ok l → loop_ok (event_loop_remove fd l).2.
Proof.
  intros [Hl Hok]. unfold event_loop_remove. destruct (fd_in_range fd) eqn:Hr; [|done]. cbn [negb].
  destruct (el_epoll_fd l); [|done]. destruct (el_interest l !! fd) eqn:Hi; [|done].
  split; [cbn; by rewrite length_insert|]. cbn [snd]. intros k e Hk. cbn in Hk.
  apply lookup_delete_Some in Hk as [Hne Hk]. destruct (Hok k e Hk) as [Hkr Hh]. split; [done|].
  by rewrite (set_slot_other fd k None (set_interest _ l)).
Qed.

(** What a turn does to an event: the handler in the table at that moment. *)
Definition handle (ev : Z * Z) (l : loop) : loop :=
  match fd_in_range ev.1, el_slots l !! Z.to_nat ev.1 with
  | true, Some (Some h) => call_handler h ev.1 ev.2 l
  | _, _ => l
  end.

Lemma dispatch_cons ev evs l : dispatch (ev :: evs) l = if el_running l then dispatch evs (handle ev l) else l.
Proof. destruct ev as [fd events]. cbn. destruct (el_running l); [|done]. unfold handle. cbn. by destruct (fd_in_range fd). Qed.

Lemma dispatch_stopped evs l : el_running l = false → dispatch evs l = l.
Proof. intros Hr. destruct evs as [|ev evs]; [done|]. by rewrite dispatch_cons, Hr. Qed.

Lemma dispatch_app pre post l : dispatch (pre ++ post) l = dispatch post (dispatch pre l).
Proof.
  revert l. induction pre as [|ev pre IH]; intros l; [done|]. cbn [app]. rewrite !dispatch_cons.
  destruct (el_running l) eqn:Hr; [apply IH|]. by rewrite dispatch_stopped.
Qed.

Lemma run_stopped waits l : el_running l = false → event_loop_run waits l = (LoopStopped, waits, l).
Proof. intros Hr. destruct waits; cbn; by rewrite Hr. Qed.

(** ** Properties *)

(** A termination signal ends the loop: as soon as the batch reaches the
    signal descriptor and the signal read there is SIGTERM or SIGINT, no later
    handler of the batch runs, [epoll_wait] is not called again and the loop
    returns; the handlers before it have run. *)
Theorem sigterm_ends_loop (l : loop) (pre post : list (Z * Z)) (sfd events sig : Z) (w : W)
    (waits : list wait_result)
    (Hrun : el_running (dispatch pre l) = true) (Hfd : fd_in_range sfd = true)
    (Hslot : el_slots (dispatch pre l) !! Z.to_nat sfd = Some (Some OnSignal))
    (Hread : read_siginfo sfd (el_world (dispatch pre l)) = (Some sig, w))
    (Hsig : sig = SIGTERM ∨ sig = SIGINT) :
  event_loop_run (WaitReady (pre ++ (sfd, events) :: post) :: waits) l =
  (LoopStopped, waits, ping (set_running false (set_world w (dispatch pre l)))).
Proof.
  assert (Hl : el_running l = true).
  { destruct (el_running l) eqn:Hl; [done|]. rewrite dispatch_stopped in Hrun by done; congruence. }
  cbn [event_loop_run]. rewrite Hl, dispatch_app, dispatch_cons, Hrun. unfold handle. cbn [fst snd].
  rewrite Hfd, Hslot. cbn [call_handler]. unfold on_signal. rewrite Hread.
  replace ((sig =? SIGTERM) || (sig =? SIGINT)) with true by (destruct Hsig as [-> | ->]; done).
  rewrite dispatch_stopped by done. by rewrite run_stopped.
Qed.

(** Registering a descriptor twice silences it: the second call fails, but
    it has already emptied the handler's slot while the kernel goes on watching
    the descriptor, so every later readiness of it is dropped. *)
Theorem reregistration_silences_fd (l : loop) (fd events events' : Z) (h : el_handler H)
    (Hlen : length (el_slots l) = EL_MAX_FDS) (Hfd : fd_in_range fd = true)
    (Hreg : el_interest l !! fd = Some events') :
  ∃ l', event_loop_add fd events h l = (-1, l') ∧ el_interest l' !! fd = Some events' ∧
    el_slots l' !! Z.to_nat fd = Some None ∧
    ∀ evs waits, Forall (λ ev, ev.1 = fd) evs → el_running l = true →
      event_loop_run (WaitReady evs :: waits) l' = event_loop_run waits (ping l').
Proof.
  unfold event_loop_add. rewrite Hfd. cbn [negb]. unfold epoll_add.
  change (el_interest (set_slot fd (Some h) l)) with (el_interest l). rewrite Hreg.
  assert (Hnone : el_slots (set_slot fd None (set_slot fd (Some h) l)) !! Z.to_nat fd = Some None).
  { apply (set_slot_lookup fd None (set_slot fd (Some h) l)); [cbn; by rewrite length_insert|done]. }
  exists (set_slot fd None (set_slot fd (Some h) l)).
  split; [by destruct (el_epoll_fd _)|]. split; [done|]. split; [done|].
  intros evs waits Hevs Hrun. set (l' := set_slot fd None _) in *.
  assert (Hd : dispatch evs l' = l').
  { induction Hevs as [|[k e] evs Hk Hevs IH]; [done|]. rewrite dispatch_cons.
    change (el_running l') with (el_running l). rewrite Hrun. cbn in Hk. subst k. unfold handle. cbn [fst].
    by rewrite Hfd, Hnone. }
  cbn [event_loop_run]. change (el_running l') with (el_running l). by rewrite Hrun, Hd.
Qed.
End loop.

(** *** Witnesses: a loop whose handlers count the events they see. *)

Definition counting_handler (h : nat) (fd events : Z) (l : event_loop nat nat) : event_loop nat nat :=
  set_world (el_world l + h)%nat l.
Definition demo_loop : event_loop nat nat :=
  (event_loop_add (λ _, true) 5 EPOLLIN (UserHandler 10%nat)
     (event_loop_init (λ _, true) (Some 3) true (Some 4)
        (EventLoop None None true [] None ∅ 0%nat 0%nat)).2).2.

Lemma sigterm_ends_loop_witness :
  event_loop_run counting_handler (λ _ l, l) (λ _ w, (Some SIGTERM, w))
    [WaitReady [(5, 1); (4, 1); (5, 1)]; WaitTimeout] demo_loop =
  (LoopStopped, [WaitTimeout], ping (set_running false (set_world 10%nat demo_loop))).
Proof.
  exact (sigterm_ends_loop counting_handler (λ _ l, l) (λ _ w, (Some SIGTERM, w)) demo_loop [(5, 1)] [(5, 1)]
           4 1 SIGTERM 10%nat [WaitTimeout] eq_refl eq_refl eq_refl eq_refl (or_introl eq_refl)).
Defined.

Lemma reregistration_silences_fd_witness :
  ∃ l', event_loop_add (λ _, true) 5 EPOLLIN (UserHandler 20%nat) demo_loop = (-1, l') ∧
    el_interest l' !! 5 = Some EPOLLIN ∧ el_slots l' !! 5%nat = Some None.
Proof.
  destruct (reregistration_silences_fd counting_handler (λ _ l, l) (λ _ w, (None, w)) (λ _, true) demo_loop
    5 EPOLLIN EPOLLIN (UserHandler 20%nat) eq_refl eq_refl eq_refl) as (l' & H1 & H2 & H3 & _).
  exists l'. split; [exact H1|]. split; [exact H2|exact H3].
Defined.
