(* ===== verification/Walker.v ===== *)
(** * Directory walker (scanner/walker.c)

    The recursive walk under the scanner: what it visits, with its depth limit,
    path length limit and table of visited directories. The file system is
    [lstat] and the entries [readdir] lists; the callback and its data are
    arguments, as in the code. *)

From S2P Require Import Prelude Bytes Monitor.

Local Open Scope Z_scope.

(** [struct stat]: the fields the agent reads. *)
Record file_stat := FileStat { fst_mode : Z; fst_dev : Z; fst_ino : Z; fst_size : Z; fst_mtime : Z }.

Definition S_ISREG (mode : Z) : bool := Z.land mode 0xF000 =? 0x8000.
Definition S_ISDIR (mode : Z) : bool := Z.land mode 0xF000 =? 0x4000.

Lemma S_ISREG_not_dir m : S_ISREG m = true → S_ISDIR m = false.
Proof. unfold S_ISREG, S_ISDIR. rewrite Z.eqb_eq, Z.eqb_neq. lia. Qed.

Definition WALK_MAX_DEPTH : nat := 64.
Definition WALK_VISITED_MAX : nat := 4096.
#[global] Arguments WALK_MAX_DEPTH : simpl never.
#[global] Arguments WALK_VISITED_MAX : simpl never.

(** Already visited, and the table afterwards; a full table takes no more. *)
(* @src scanner/walker.c:17-28 visited_check_add *)
Definition visited_check_add (vs : list Z) (ino : Z) : bool * list Z :=
  if bool_decide (ino ∈ vs) then (true, vs)
  else (false, if (length vs <? WALK_VISITED_MAX)%nat then vs ++ [ino] else vs).

(** "." and ".." *)
Definition dot_entry (name : cstring) : bool :=
  bool_decide (name = [46]) || bool_decide (name = [46; 46]).

(** [snprintf(sub, sizeof(sub), "%s/%s", path, name)] *)
Definition sub_path (path name : cstring) : cstring := path ++ 47 :: name.

Section walk.
Variable lstat : cstring → option file_stat.
Variable readdir : cstring → option (list cstring).

Section callback.
Context {U : Type}.
Variable cb : cstring → file_stat → U → Z * U.
Variable recursive : bool.

(** The body of the [readdir] loop, [walk] being the recursive call. *)
(* @src scanner/walker.c:57-77 walk_impl *)
Definition walk_entry (walk : cstring → list Z → U → Z * list Z * U) (path : cstring)
    (acc : Z * list Z * U) (name : cstring) : Z * list Z * U :=
  let '(count, vs, u) := acc in
  if dot_entry name then acc
  else
    let sub := sub_path path name in
    if (IG_MAX_PATH <=? length sub)%nat then acc
    else
      match lstat sub with
      | None => acc
      | Some sub_st =>
          if S_ISREG (fst_mode sub_st) then
            let (rc, u) := cb sub sub_st u in (if rc =? 0 then count + 1 else count, vs, u)
          else if S_ISDIR (fst_mode sub_st) && recursive then
            let '(n, vs, u) := walk sub vs u in (count + n, vs, u)
          else acc
      end.

(** [fuel] is the number of levels the depth limit leaves: 65 minus [depth]. *)
(* @src scanner/walker.c:30-81 walk_impl *)
Fixpoint walk_impl (fuel : nat) (path : cstring) (vs : list Z) (u : U) : Z * list Z * U :=
  match fuel with
  | O => (0, vs, u)
  | S fuel =>
      match lstat path with
      | None => (0, vs, u)
      | Some st =>
          if S_ISREG (fst_mode st) then
            let (rc, u) := cb path st u in (if rc =? 0 then 1 else 0, vs, u)
          else if negb (S_ISDIR (fst_mode st)) then (0, vs, u)
          else
            let (seen, vs) := visited_check_add vs (fst_ino st) in
            if seen then (0, vs, u)
            else
              match readdir path with
              | None => (0, vs, u)
              | Some names => fold_left (walk_entry (walk_impl fuel) path) names (0, vs, u)
              end
      end
  end.

(** [while (plen > 1 && nbase[plen - 1] == '/') nbase[--plen] = '\0';] on the
    reversed string. *)
Fixpoint strip_slashes (r : cstring) : cstring :=
  match r with
  | c :: ((_ :: _) as r') => if c =? 47 then strip_slashes r' else r
  | _ => r
  end.
Definition nbase (base : cstring) : cstring :=
  rev (strip_slashes (rev (strncpy base (IG_MAX_PATH - 1)))).

(* @src scanner/walker.c:83-93 ig_walk *)
Definition ig_walk (base : cstring) (u : U) : Z * U :=
  let '(n, _, u) := walk_impl (S WALK_MAX_DEPTH) (nbase base) [] u in (n, u).
End callback.

(** ** What a walk should visit *)

Definition dir_at (p : cstring) (st : file_stat) : Prop := lstat p = Some st ∧ S_ISDIR (fst_mode st) = true.
Definition file_at (p : cstring) (st : file_stat) : Prop := lstat p = Some st ∧ S_ISREG (fst_mode st) = true.

(** An entry a walk of directory [p] considers. *)
Definition child (p name : cstring) : Prop :=
  ∃ names, readdir p = Some names ∧ name ∈ names ∧ dot_entry name = false ∧
           (length (sub_path p name) < IG_MAX_PATH)%nat.

(** [found n p f st]: within [n] levels from [p] there is the regular file [f]. *)
Inductive found (recursive : bool) : nat → cstring → cstring → file_stat → Prop :=
  | found_self n p st : file_at p st → found recursive (S n) p p st
  | found_entry n p dst name st :
      dir_at p dst → child p name → file_at (sub_path p name) st →
      found recursive (S n) p (sub_path p name) st
  | found_below n p dst name sst f st :
      dir_at p dst → child p name → recursive = true → dir_at (sub_path p name) sst →
      found recursive n (sub_path p name) f st → found recursive (S n) p f st.

(** [dir_below n p q st]: within [n] levels from [p] there is the directory [q]. *)
Inductive dir_below (recursive : bool) : nat → cstring → cstring → file_stat → Prop :=
  | below_self n p st : dir_at p st → dir_below recursive (S n) p p st
  | below_sub n p dst name sst q st :
      dir_at p dst → child p name → recursive = true → dir_at (sub_path p name) sst →
      dir_below recursive n (sub_path p name) q st → dir_below recursive (S n) p q st.

(** ** Paths *)

(** [x] is [p] or lies under it. *)
Definition ext (p x : cstring) : Prop := ∃ t, x = p ++ t ∧ (t = [] ∨ ∃ t', t = 47 :: t').

(** A name as [readdir] gives it: a C string without a slash. *)
Definition plain_name (name : cstring) : Prop := 47 ∉ name ∧ is_cstring name.

Lemma ext_refl p : ext p p.
Proof. exists []. rewrite app_nil_r. auto. Qed.

Lemma ext_sub p name x : ext (sub_path p name) x → ext p x.
Proof.
  intros (t & -> & _). exists (47 :: name ++ t). unfold sub_path. rewrite <- app_assoc. eauto.
Qed.

Lemma ext_sub_ne p name x : ext (sub_path p name) x → x ≠ p.
Proof.
  intros (t & -> & _) H. apply (f_equal length) in H. unfold sub_path in H.
  rewrite !length_app in H. cbn in H. lia.
Qed.

Lemma name_unique n1 n2 t1 t2 : 47 ∉ n1 → 47 ∉ n2 →
  (t1 = [] ∨ ∃ t', t1 = 47 :: t') → (t2 = [] ∨ ∃ t', t2 = 47 :: t') →
  n1 ++ t1 = n2 ++ t2 → n1 = n2.
Proof.
  revert n2. induction n1 as [|c n1 IH]; intros [|d n2] H1 H2 Ht1 Ht2 H; cbn in H; [done| | |].
  - subst t1. destruct Ht1 as [?|[t' ?]]; simplify_eq. set_solver.
  - subst t2. destruct Ht2 as [?|[t' ?]]; simplify_eq. set_solver.
  - simplify_eq. f_equal. apply IH; set_solver.
Qed.

Lemma ext_disjoint p n1 n2 x : plain_name n1 → plain_name n2 →
  ext (sub_path p n1) x → ext (sub_path p n2) x → n1 = n2.
Proof.
  intros [H1 _] [H2 _] (t1 & -> & Ht1) (t2 & H & Ht2). unfold sub_path in H. rewrite <- !app_assoc in H.
  apply app_inv_head in H. injection H as H. exact (name_unique n1 n2 t1 t2 H1 H2 Ht1 Ht2 H).
Qed.

Lemma found_ext r n p f st : found r n p f st → ext p f.
Proof. induction 1; [apply ext_refl|eapply ext_sub, ext_refl|by eapply ext_sub]. Qed.

Lemma below_ext r n p q st : dir_below r n p q st → ext p q.
Proof. induction 1; [apply ext_refl|by eapply ext_sub]. Qed.

Lemma below_dir r n p q st : dir_below r n p q st → dir_at q st.
Proof. by induction 1. Qed.

(** What is found has a path that fits, when the root's does. *)
Lemma found_fits r n p f st : (∀ q names, readdir q = Some names → Forall plain_name names) →
  found r n p f st → is_cstring p → (length p < IG_MAX_PATH)%nat → is_cstring f ∧ (length f < IG_MAX_PATH)%nat.
Proof.
  intros Hn. assert (Hc : ∀ q name, child q name → is_cstring q →
    is_cstring (sub_path q name) ∧ (length (sub_path q name) < IG_MAX_PATH)%nat).
  { intros q name (names & Hr & Hin & _ & Hl) Hq. split; [|exact Hl]. apply Hn in Hr.
    rewrite Forall_forall in Hr. apply Forall_app. split; [exact Hq|]. constructor; [done|]. by apply Hr. }
  induction 1 as [n p st|n p dst name st Hd Hch Hf|n p dst name sst f st Hd Hch Hr Hs Hf IH]; intros Hp Hl;
    [done|by apply Hc|]. destruct (Hc p name Hch Hp). by apply IH.
Qed.

Lemma found_root r n p f st : found r n p f st → ∃ st', file_at p st' ∨ dir_at p st'.
Proof. induction 1; eauto. Qed.

(** ** The walk against its specification *)

Section specification.
Context {U : Type}.
Variable cb : cstring → file_stat → U → Z * U.
Variable recursive : bool.

(** The callback on a list of files, in order: how many it accepted, and the data. *)
Fixpoint run_cb (log : list (cstring * file_stat)) (u : U) : Z * U :=
  match log with
  | [] => (0, u)
  | (p, st) :: log =>
      let (rc, u) := cb p st u in
      let (n, u) := run_cb log u in ((if rc =? 0 then 1 else 0) + n, u)
  end.

Lemma run_cb_app l k u :
  run_cb (l ++ k) u = ((run_cb l u).1 + (run_cb k (run_cb l u).2).1, (run_cb k (run_cb l u).2).2).
Proof.
  revert u. induction l as [|[p st] l IH]; intros u; cbn; [by destruct (run_cb k u)|].
  destruct (cb p st u) as [rc u1]. rewrite IH. destruct (run_cb l u1) as [n u2]. cbn. f_equal. lia.
Qed.

(** Whatever the tree is like, the callback runs on files within reach only. *)
Definition logs (P : cstring → file_stat → Prop) (u : U) (out : Z * list Z * U) : Prop :=
  ∃ log c vs, out = (c, vs, (run_cb log u).2) ∧ ∀ f st, (f, st) ∈ log → P f st.

Lemma logs_nothing P (c : Z) (vs : list Z) (u : U) : logs P u (c, vs, u).
Proof. exists [], c, vs. split; [done|]. by intros f st ?%elem_of_nil. Qed.
Lemma logs_one (P : cstring → file_stat → Prop) p st (c : Z) (vs : list Z) (u : U) : P p st →
  logs P u (let (rc, u) := cb p st u in (if rc =? 0 then c + 1 else c, vs, u)).
Proof.
  intros HP. destruct (cb p st u) as [rc u'] eqn:Hcb. exists [(p, st)]. eexists _, vs. cbn [run_cb]. rewrite Hcb.
  split; [reflexivity|]. by intros f st' [= -> ->]%list_elem_of_singleton.
Qed.

Lemma entry_logs n p st names c vs u name : dir_at p st → readdir p = Some names → name ∈ names →
  (∀ q vs u, logs (found recursive n q) u (walk_impl cb recursive n q vs u)) →
  logs (found recursive (S n) p) u (walk_entry cb recursive (walk_impl cb recursive n) p (c, vs, u) name).
Proof.
  intros Hd Hn Hin IH. unfold walk_entry. destruct (dot_entry name) eqn:Hdot; [apply logs_nothing|].
  destruct (Nat.leb_spec IG_MAX_PATH (length (sub_path p name))) as [|Hlen]; [apply logs_nothing|].
  assert (Hch : child p name) by by exists names.
  destruct (lstat (sub_path p name)) as [sst|] eqn:Hs; [|apply logs_nothing].
  destruct (S_ISREG (fst_mode sst)) eqn:Hsr; [apply logs_one; by apply (found_entry recursive n p st name)|].
  destruct (S_ISDIR (fst_mode sst) && recursive) eqn:Hand; [|apply logs_nothing].
  apply andb_true_iff in Hand as [Hsd Hrec]. destruct (IH (sub_path p name) vs u) as (log & c' & vs' & -> & Hlog).
  exists log. eexists _, vs'. split; [reflexivity|]. intros f st' Hf.
  apply (found_below recursive n p st name sst); try done. by apply Hlog.
Qed.

Lemma walk_sound n : ∀ p vs u, logs (found recursive n p) u (walk_impl cb recursive n p vs u).
Proof.
  induction n as [|n IH]; intros p vs u; cbn [walk_impl]; [apply logs_nothing|].
  destruct (lstat p) as [st|] eqn:Hst; [|apply logs_nothing].
  destruct (S_ISREG (fst_mode st)) eqn:Hreg; [apply (logs_one _ p st 0); by constructor|].
  destruct (S_ISDIR (fst_mode st)) eqn:Hdir; cbn [negb]; [|apply logs_nothing].
  destruct (visited_check_add vs (fst_ino st)) as [[] vs1]; [apply logs_nothing|].
  destruct (readdir p) as [names|] eqn:Hn; [|apply logs_nothing].
  assert (Hgen : ∀ l c vs u, (∀ x, x ∈ l → x ∈ names) → logs (found recursive (S n) p) u
    (fold_left (walk_entry cb recursive (walk_impl cb recursive n) p) l (c, vs, u))); [|by apply Hgen].
  clear vs vs1 u. induction l as [|x l IHl]; intros c vs u Hl; [apply logs_nothing|]. cbn [fold_left].
  destruct (entry_logs n p st names c vs u x) as (log1 & c1 & vs1 & -> & H1); [done|done|apply Hl; by left|exact IH|].
  destruct (IHl c1 vs1 (run_cb log1 u).2) as (log2 & c2 & vs2 & -> & H2); [intros y Hy; apply Hl; by right|].
  exists (log1 ++ log2), c2, vs2. rewrite run_cb_app. split; [done|]. intros f st' [Hf|Hf]%elem_of_app; eauto.
Qed.

(** The directories of the walk have distinct inode numbers. *)
Variable D : cstring → Prop.
Hypothesis D_inj : ∀ q q' st st', D q → D q' → dir_at q st → dir_at q' st' →
  fst_ino st = fst_ino st' → q = q'.
Hypothesis readdir_ok : ∀ p names, readdir p = Some names → NoDup names ∧ Forall plain_name names.

(** The outcome of a walk that logged [log] and reached the table [vs']. *)
Definition walked (inside : cstring → file_stat → Prop) (dirs : cstring → file_stat → Prop)
    (c : Z) (vs : list Z) (u : U) (out : Z * list Z * U) : Prop :=
  ∃ log vs', out = (c + (run_cb log u).1, vs', (run_cb log u).2) ∧
    NoDup log.*1 ∧ (∀ f st, (f, st) ∈ log ↔ inside f st) ∧
    (∀ i, i ∈ vs' → i ∈ vs ∨ ∃ q st, dirs q st ∧ fst_ino st = i).

Lemma walked_nothing (dirs : cstring → file_stat → Prop) inside c vs u :
  (∀ f st, ¬ inside f st) → walked inside dirs c vs u (c, vs, u).
Proof.
  intros H. exists [], vs. cbn. split; [by rewrite Z.add_0_r|]. split; [constructor|].
  split; [|by left]. intros f st. split; [by intros ?%elem_of_nil|by intros ?%H].
Qed.

(** What one entry of directory [p] contributes. *)
Definition entry_found (n : nat) (p name f : cstring) (st : file_stat) : Prop :=
  dot_entry name = false ∧ (length (sub_path p name) < IG_MAX_PATH)%nat ∧
  ((f = sub_path p name ∧ file_at f st) ∨
   (recursive = true ∧ (∃ sst, dir_at (sub_path p name) sst) ∧ found recursive n (sub_path p name) f st)).

Definition entry_dir (n : nat) (p name q : cstring) (st : file_stat) : Prop :=
  dot_entry name = false ∧ (length (sub_path p name) < IG_MAX_PATH)%nat ∧
  recursive = true ∧ (∃ sst, dir_at (sub_path p name) sst) ∧ dir_below recursive n (sub_path p name) q st.

Lemma entry_found_ext n p name f st : entry_found n p name f st → ext (sub_path p name) f.
Proof. intros (_ & _ & [[-> _]|(_ & _ & H)]); [apply ext_refl|by eapply found_ext]. Qed.

Lemma entry_dir_ext n p name q st : entry_dir n p name q st → ext (sub_path p name) q.
Proof. intros (_ & _ & _ & _ & H). by eapply below_ext. Qed.

Definition walk_spec (n : nat) : Prop := ∀ p vs u,
  (∀ q st, dir_below recursive n p q st → D q ∧ fst_ino st ∉ vs) →
  walked (found recursive n p) (dir_below recursive n p) 0 vs u (walk_impl cb recursive n p vs u).

Lemma dir_not_file p st st' : dir_at p st → file_at p st' → False.
Proof.
  intros [H1 H2] [H3 H4]. simplify_eq. apply S_ISREG_not_dir in H4. congruence.
Qed.

Lemma walk_entry_spec n p name c vs u : walk_spec n →
  (∀ q st, entry_dir n p name q st → D q ∧ fst_ino st ∉ vs) →
  walked (entry_found n p name) (entry_dir n p name) c vs u
    (walk_entry cb recursive (walk_impl cb recursive n) p (c, vs, u) name).
Proof.
  intros IH Hpre. unfold walk_entry. destruct (dot_entry name) eqn:Hdot.
  { apply walked_nothing. intros f st (H & _). congruence. }
  destruct (Nat.leb_spec IG_MAX_PATH (length (sub_path p name))) as [Hl|Hl].
  { apply walked_nothing. intros f st (_ & H & _). lia. }
  destruct (lstat (sub_path p name)) as [sst|] eqn:Hst.
  2: { apply walked_nothing. intros f st (_ & _ & [[-> [H _]]|(_ & [? [H _]] & _)]); congruence. }
  destruct (S_ISREG (fst_mode sst)) eqn:Hreg.
  { destruct (cb (sub_path p name) sst u) as [rc u'] eqn:Hcb.
    exists [(sub_path p name, sst)], vs. cbn. rewrite Hcb. split_and!.
    - by destruct (rc =? 0); rewrite ?Z.add_0_r.
    - apply NoDup_singleton.
    - intros f st. rewrite list_elem_of_singleton. split.
      + intros [= -> ->]. split; [done|]. split; [done|]. by left.
      + intros (_ & _ & [[-> [H _]]|(_ & [? [H Hd]] & _)]); [congruence|].
        simplify_eq. apply S_ISREG_not_dir in Hreg. congruence.
    - by left. }
  assert (Hnf : ∀ st, ¬ file_at (sub_path p name) st) by (intros st [H1 H2]; congruence).
  destruct (S_ISDIR (fst_mode sst) && recursive) eqn:Hand.
  - apply andb_true_iff in Hand as [Hdir Hrec].
    assert (Hd : ∃ sst, dir_at (sub_path p name) sst) by by exists sst.
    destruct (IH (sub_path p name) vs u) as (log & vs' & Hw & Hnd & Hin & Hvs).
    { intros q st Hq. apply Hpre. by split_and!. }
    rewrite Hw. exists log, vs'. split; [done|]. split; [done|]. split.
    + intros f st. rewrite Hin. split.
      * intros Hf. split; [done|]. split; [done|]. right. done.
      * intros (_ & _ & [[-> Hf]|(_ & _ & Hf)]); [by destruct (Hnf st)|done].
    + intros i [Hi|(q & st & Hq & Hi)]%Hvs; [by left|]. right. exists q, st. split; [|done]. by split_and!.
  - apply walked_nothing. intros f st (_ & _ & [[-> H]|(Hrec & [? [H1 H2]] & _)]); [by destruct (Hnf st)|].
    simplify_eq. rewrite H2, Hrec in Hand. done.
Qed.

Lemma walk_names_spec n p names c vs u : walk_spec n → NoDup names → Forall plain_name names →
  (∀ name q st, name ∈ names → entry_dir n p name q st → D q ∧ fst_ino st ∉ vs) →
  walked (λ f st, ∃ name, name ∈ names ∧ entry_found n p name f st)
         (λ q st, ∃ name, name ∈ names ∧ entry_dir n p name q st) c vs u
    (fold_left (walk_entry cb recursive (walk_impl cb recursive n) p) names (c, vs, u)).
Proof.
  intros IHw Hnd Hpl. revert c vs u. induction Hpl as [|name names Hname Hpl IH]; intros c vs u Hpre.
  { apply walked_nothing. intros f st (nm & H & _). by apply elem_of_nil in H. }
  apply NoDup_cons in Hnd as [Hnew Hnd]. rewrite Forall_forall in Hpl.
  destruct (walk_entry_spec n p name c vs u IHw) as (log1 & vs1 & Hw1 & Hnd1 & Hin1 & Hvs1).
  { intros q st Hq. apply (Hpre name); [by left|done]. }
  cbn [fold_left]. rewrite Hw1.
  destruct (IH Hnd (c + (run_cb log1 u).1) vs1 (run_cb log1 u).2) as (log2 & vs2 & Hw2 & Hnd2 & Hin2 & Hvs2).
  { intros nm q st Hnm Hq. destruct (Hpre nm q st ltac:(by right) Hq) as [HDq Hq0]. split; [done|].
    intros [Hi|(q' & st' & Hq' & Hi)]%Hvs1; [done|].
    destruct (Hpre name q' st' ltac:(by left) Hq') as [HDq' _].
    assert (q' = q) as ->.
    { apply (D_inj q' q st' st); try done; eapply below_dir; [apply Hq'|apply Hq]. }
    apply entry_dir_ext in Hq. apply entry_dir_ext in Hq'.
    assert (name = nm) as -> by (eapply ext_disjoint; eauto). done. }
  exists (log1 ++ log2), vs2. split; [|split; [|split]].
  - rewrite Hw2, run_cb_app. cbn. f_equal. f_equal. lia.
  - rewrite fmap_app. apply NoDup_app. split; [done|]. split; [|done].
    intros x ([x1 st1] & -> & H1)%list_elem_of_fmap ([x2 st2] & Hx & H2)%list_elem_of_fmap.
    cbn in Hx. subst x2. apply Hin1 in H1. apply Hin2 in H2 as (nm & Hnm & H2).
    apply entry_found_ext in H1. apply entry_found_ext in H2.
    assert (name = nm) as -> by (eapply ext_disjoint; eauto). done.
  - intros f st. rewrite elem_of_app, Hin1, Hin2. split.
    + intros [H|(nm & Hnm & H)]; [exists name; split; [by left|done]|exists nm; split; [by right|done]].
    + intros (nm & [->|Hnm]%elem_of_cons & H); [by left|right; by exists nm].
  - intros i [[Hi|(q & st & Hq & Hi)]%Hvs1|(q & st & (nm & Hnm & Hq) & Hi)]%Hvs2.
    + by left.
    + right. exists q, st. split; [|done]. exists name. split; [by left|done].
    + right. exists q, st. split; [|done]. exists nm. split; [by right|done].
Qed.

Lemma found_dir n p dst names f st : dir_at p dst → readdir p = Some names →
  found recursive (S n) p f st ↔ ∃ name, name ∈ names ∧ entry_found n p name f st.
Proof.
  intros Hd Hn. split.
  - intros H. inversion H as [? ? ? Hf|? ? dst' name ? Hd' Hc Hf|? ? dst' name sst ? ? Hd' Hc Hr Hs Hf]; subst.
    + exfalso. by eapply dir_not_file.
    + destruct Hc as (ns & Hns & Hin & Hdot & Hl). simplify_eq. exists name. split; [done|].
      split; [done|]. split; [done|]. by left.
    + destruct Hc as (ns & Hns & Hin & Hdot & Hl). simplify_eq. exists name. split; [done|].
      split; [done|]. split; [done|]. right. split; [done|]. split; [by exists sst|done].
  - intros (name & Hin & Hdot & Hl & [[-> Hf]|(Hr & [sst Hs] & Hf)]).
    + apply (found_entry recursive n p dst name); [done| |done]. by exists names.
    + apply (found_below recursive n p dst name sst); try done. by exists names.
Qed.

Lemma walk_impl_spec n : walk_spec n.
Proof.
  induction n as [|n IH]; intros p vs u Hpre; cbn [walk_impl].
  { apply walked_nothing. intros f st H. inversion H. }
  destruct (lstat p) as [st|] eqn:Hst.
  2: { apply walked_nothing. intros f fs Hf. apply found_root in Hf as [? [[? ?]|[? ?]]]; congruence. }
  destruct (S_ISREG (fst_mode st)) eqn:Hreg.
  { assert (Hp : file_at p st) by done. destruct (cb p st u) as [rc u'] eqn:Hcb.
    exists [(p, st)], vs. cbn. rewrite Hcb. split_and!.
    - by rewrite Z.add_0_r.
    - apply NoDup_singleton.
    - intros f st'. rewrite list_elem_of_singleton. split; [intros [= -> ->]; by constructor|].
      intros H. inversion H as [? ? ? [Hf _]|? ? dst ? ? Hd|? ? dst ? ? ? ? Hd]; subst; [congruence|exfalso..];
        exact (dir_not_file _ _ _ Hd Hp).
    - by left. }
  destruct (S_ISDIR (fst_mode st)) eqn:Hdir; cbn [negb].
  2: { apply walked_nothing. intros f fs Hf. apply found_root in Hf as [? [[? ?]|[? ?]]]; congruence. }
  assert (Hd : dir_at p st) by done.
  destruct (Hpre p st ltac:(by constructor)) as [HDp Hp]. unfold visited_check_add.
  rewrite bool_decide_eq_false_2 by done.
  set (vs1 := if (length vs <? WALK_VISITED_MAX)%nat then vs ++ [fst_ino st] else vs).
  assert (Hvs1 : ∀ i, i ∈ vs1 → i ∈ vs ∨ i = fst_ino st) by (intros i; subst vs1; case_match; set_solver).
  destruct (readdir p) as [names|] eqn:Hn.
  2: { exists [], vs1. cbn. split; [done|]. split; [constructor|]. split.
       - intros f st'. split; [by intros ?%elem_of_nil|]. intros H.
         inversion H as [? ? ? Hf|? ? ? ? ? ? (? & ? & _)|? ? ? ? ? ? ? ? (? & ? & _)]; subst;
           [exfalso; by eapply dir_not_file|congruence..].
       - intros i [Hi| ->]%Hvs1; [by left|]. right. exists p, st. split; [by constructor|done]. }
  destruct (readdir_ok p names Hn) as [Hnd Hpl].
  destruct (walk_names_spec n p names 0 vs1 u IH Hnd Hpl) as (log & vs' & Hw & Hndl & Hin & Hvs).
  { intros name q qst Hname (Hdot & Hl & Hr & [sst Hs] & Hq).
    assert (Hbelow : dir_below recursive (S n) p q qst) by (eapply below_sub; eauto; by exists names).
    destruct (Hpre q qst Hbelow) as [HDq Hqv]. split; [done|]. intros [Hi|Hi]%Hvs1; [done|].
    eapply (ext_sub_ne p name q); [by eapply below_ext|].
    eapply (D_inj q p qst st); try done. by eapply below_dir. }
  exists log, vs'. split; [done|]. split; [done|]. split.
  - intros f fs. by rewrite (found_dir n p st names f fs Hd Hn).
  - intros i [[Hi| ->]%Hvs1|(q & qst & (name & Hname & Hdot & Hl & Hr & [sst Hs] & Hq) & Hi)]%Hvs.
    + by left.
    + right. exists p, st. split; [by constructor|done].
    + right. exists q, qst. split; [|done]. eapply below_sub; eauto. by exists names.
Qed.
End specification.

(** ** Properties *)

(** A walk visits every file exactly once: when no two directories of the
    tree share an inode number, [ig_walk] runs the callback on exactly the
    regular files that lie within 64 levels under the base along paths that
    fit, each one once, whatever the callback returns (a result of -1 does not
    stop it); the count returned is that of the calls that returned 0. *)
Theorem walk_visits_every_file_once {U} (cb : cstring → file_stat → U → Z * U) (recursive : bool)
    (base : cstring) (u : U)
    (Hreaddir : ∀ p names, readdir p = Some names → NoDup names ∧ Forall plain_name names)
    (Hinj : ∀ q q' st st', dir_below recursive 65 (nbase base) q st → dir_below recursive 65 (nbase base) q' st' →
              fst_ino st = fst_ino st' → q = q') :
  ∃ log, ig_walk cb recursive base u = run_cb cb log u ∧ NoDup log.*1 ∧
    ∀ f st, (f, st) ∈ log ↔ found recursive 65 (nbase base) f st.
Proof.
  destruct (walk_impl_spec cb recursive (λ q, ∃ st, dir_below recursive 65 (nbase base) q st)) with
    (n := 65%nat) (p := nbase base) (vs := @nil Z) (u := u) as (log & vs' & Hw & Hnd & Hin & _).
  - intros q q' st st' [s1 H1] [s2 H2] [Hq _] [Hq' _]. apply Hinj.
    + pose proof (below_dir _ _ _ _ _ H1) as [? _]. by simplify_eq.
    + pose proof (below_dir _ _ _ _ _ H2) as [? _]. by simplify_eq.
  - done.
  - intros q st Hq. split; [by exists st|by intros ?%elem_of_nil].
  - exists log. split; [|done]. unfold ig_walk. change (S WALK_MAX_DEPTH) with 65%nat. rewrite Hw. cbn.
    by destruct (run_cb cb log u).
Qed.

(** The table of visited directories knows inode numbers only, not
    devices: a directory on another file system whose inode number is that of
    the directory above it is taken for a loop and nothing below it is visited. *)
Theorem mount_point_with_parent_inode_skipped {U} (cb : cstring → file_stat → U → Z * U)
    (base name : cstring) (st sst : file_stat) (u : U)
    (Hbase : dir_at (nbase base) st) (Hlist : readdir (nbase base) = Some [name])
    (Hsub : dir_at (sub_path (nbase base) name) sst) (Hino : fst_ino sst = fst_ino st) :
  ig_walk cb true base u = (0, u).
Proof.
  destruct Hbase as [Hb Hbd], Hsub as [Hs Hsd].
  assert (Hnr : ∀ m, S_ISDIR m = true → S_ISREG m = false).
  { intros m Hm. destruct (S_ISREG m) eqn:E; [|done]. apply S_ISREG_not_dir in E. congruence. }
  unfold ig_walk, WALK_MAX_DEPTH. cbn [walk_impl]. rewrite Hb, (Hnr _ Hbd), Hbd. cbn [negb].
  unfold visited_check_add at 1. rewrite bool_decide_eq_false_2 by (by intros ?%elem_of_nil).
  change (if (length [] <? WALK_VISITED_MAX)%nat then [] ++ [fst_ino st] else []) with [fst_ino st].
  rewrite Hlist. cbn [fold_left]. unfold walk_entry.
  destruct (dot_entry name); [done|]. destruct (_ <=? _)%nat; [done|].
  rewrite Hs, (Hnr _ Hsd), Hsd. cbn [andb negb]. unfold visited_check_add.
  rewrite bool_decide_eq_true_2; [done|]. rewrite Hino. by left.
Qed.
End walk.

(** ** A sample file system *)

Definition table_find {A} (t : list (cstring * A)) (p : cstring) : option A :=
  snd <$> List.find (λ e, bool_decide (e.1 = p)) t.

Lemma table_find_in {A} (t : list (cstring * A)) p a : table_find t p = Some a → (p, a) ∈ t.
Proof.
  unfold table_find. destruct (List.find _ t) as [[q b]|] eqn:H; [|done]. intros [= <-].
  apply find_some in H as [H Hq]. apply bool_decide_eq_true in Hq. cbn in Hq. subst q.
  by apply list_elem_of_In.
Qed.

Definition reg (ino : Z) : file_stat := FileStat 0x81A4 8388609 ino 10 1700000000.
Definition dir (dev ino : Z) : file_stat := FileStat 0x41ED dev ino 4096 1700000000.
Definition dot : cstring := [46].
Definition dots : cstring := [46; 46].

Definition srv_stats : list (cstring * file_stat) :=
  [(lit "/srv", dir 8388609 2); (lit "/srv/a.conf", reg 3); (lit "/srv/data", dir 8388609 5);
   (lit "/srv/data/b.db", reg 6)].
Definition srv_dirs : list (cstring * list cstring) :=
  [(lit "/srv", [dot; dots; lit "a.conf"; lit "data"]); (lit "/srv/data", [dot; dots; lit "b.db"])].

(** The callback that records the path. *)
Definition record_cb (p : cstring) (_ : file_stat) (l : list cstring) : Z * list cstring := (0, l ++ [p]).

Lemma srv_readdir_ok p names : table_find srv_dirs p = Some names → NoDup names ∧ Forall plain_name names.
Proof.
  intros H%table_find_in. unfold srv_dirs in H.
  repeat (apply elem_of_cons in H as [H|H]); [..|by apply elem_of_nil in H]; injection H as -> ->;
    (split; [apply (bool_decide_unpack _); vm_compute; exact I|
             repeat constructor; apply (bool_decide_unpack _); vm_compute; exact I]).
Qed.

Lemma srv_inode_inj n p q q' st st' :
  dir_below (table_find srv_stats) (table_find srv_dirs) true n p q st →
  dir_below (table_find srv_stats) (table_find srv_dirs) true n p q' st' →
  fst_ino st = fst_ino st' → q = q'.
Proof.
  intros Hq Hq' Hino.
  apply below_dir in Hq as [Hq Hqd]. apply below_dir in Hq' as [Hq' Hqd'].
  apply table_find_in in Hq, Hq'. unfold srv_stats in Hq, Hq'.
  repeat (apply elem_of_cons in Hq as [Hq|Hq]); [..|by apply elem_of_nil in Hq]; injection Hq as -> ->;
    try discriminate Hqd;
    (repeat (apply elem_of_cons in Hq' as [Hq'|Hq']); [..|by apply elem_of_nil in Hq']; injection Hq' as -> ->;
     try discriminate Hqd'; try discriminate Hino; done).
Qed.

Lemma walk_visits_every_file_once_witness :
  ig_walk (table_find srv_stats) (table_find srv_dirs) record_cb true (lit "/srv/") [] =
    (2, [lit "/srv/a.conf"; lit "/srv/data/b.db"]) ∧
  ∃ log, ig_walk (table_find srv_stats) (table_find srv_dirs) record_cb true (lit "/srv/") [] =
           run_cb record_cb log [] ∧ NoDup log.*1 ∧
    ∀ f st, (f, st) ∈ log ↔
      found (table_find srv_stats) (table_find srv_dirs) true 65 (nbase (lit "/srv/")) f st.
Proof.
  split; [vm_compute; reflexivity|].
  apply (walk_visits_every_file_once (table_find srv_stats) (table_find srv_dirs) record_cb true).
  - exact srv_readdir_ok.
  - exact (srv_inode_inj 65 _).
Defined.

(** [/srv/vol] is the root of another file system, with the same inode number. *)
Definition mnt_stats : list (cstring * file_stat) :=
  [(lit "/srv", dir 8388609 2); (lit "/srv/vol", dir 8388625 2); (lit "/srv/vol/b.db", reg 6)].
Definition mnt_dirs : list (cstring * list cstring) :=
  [(lit "/srv", [lit "vol"]); (lit "/srv/vol", [lit "b.db"])].

Lemma mount_point_with_parent_inode_skipped_witness :
  found (table_find mnt_stats) (table_find mnt_dirs) true 65 (lit "/srv") (lit "/srv/vol/b.db") (reg 6) ∧
  ig_walk (table_find mnt_stats) (table_find mnt_dirs) record_cb true (lit "/srv") [] = (0, []).
Proof.
  split.
  - apply (found_below _ _ _ 64 (lit "/srv") (dir 8388609 2) (lit "vol") (dir 8388625 2)); [done| |done|done|].
    { exists [lit "vol"]. split; [done|]. split; [by left|]. split; [done|]. by apply (bool_decide_unpack _). }
    apply (found_entry _ _ _ 63 (lit "/srv/vol") (dir 8388625 2) (lit "b.db")); [done| |done].
    exists [lit "b.db"]. split; [done|]. split; [by left|]. split; [done|]. by apply (bool_decide_unpack _).
  - by apply (mount_point_with_parent_inode_skipped (table_find mnt_stats) (table_find mnt_dirs) record_cb
      (lit "/srv") (lit "vol") (dir 8388609 2) (dir 8388625 2)).
Defined.
