(* ===== verification/Protocol.v ===== *)
(** * Wire protocol (transport/protocol.c, transport/protocol.h)

    Frame header, REGISTER, HEARTBEAT and FILE_EVENT codecs over the cursor
    monad of Bytes. The specification [wire_*] gives the bytes of a message;
    the encoders are shown to write exactly them, the decoders to read them
    back and to be memory safe on every input. *)

From S2P Require Import Prelude Bytes Monitor.

Local Open Scope Z_scope.

(* @src transport/protocol.h:17-19 IG_MAX_FRAME_SIZE *)
Definition IG_FRAME_HEADER_SIZE : nat := 9.
Definition IG_MAX_FRAME_SIZE : Z := 65535.
Definition IG_MAX_PAYLOAD : Z := 65526.

(* @src transport/protocol.h:21-25 ig_msg_type_t *)
Definition IG_MSG_REGISTER : Z := 1.
Definition IG_MSG_HEARTBEAT : Z := 2.
Definition IG_MSG_FILE_EVENT : Z := 3.

(* @src transport/protocol.h:27-33 ig_evt_type_t *)
Definition IG_EVT_CREATE : Z := 1.
Definition IG_EVT_MODIFY : Z := 2.
Definition IG_EVT_DELETE : Z := 3.
Definition IG_EVT_ATTRIB : Z := 4.
Definition IG_EVT_MOVE : Z := 5.

(* @src transport/protocol.h:35-39 ig_mon_type_t *)
Definition IG_MON_LKM : Z := 2.
Definition IG_MON_EBPF : Z := 3.
Definition IG_MON_FANOTIFY : Z := 4.

(* @src transport/protocol.h:44-44 IG_STATUS_HEALTHY *)
Definition IG_STATUS_HEALTHY : Z := 3.

(** ** Messages *)

(* @src transport/protocol.h:49-53 ig_frame_header_t *)
Record ig_frame_header := FrameHeader { fh_length : Z; fh_type : Z; fh_seq_num : Z }.

(** A [char *] field is [None] for NULL and otherwise the bytes it points to. *)
(* @src transport/protocol.h:55-62 ig_msg_register_t *)
Record ig_msg_register := MsgRegister {
  mr_hostname_len : Z; mr_hostname : option (list Z);
  mr_ip : Z; mr_monitor_type : Z;
  mr_os_len : Z; mr_os : option (list Z) }.

(* @src transport/protocol.h:68-72 ig_msg_heartbeat_t *)
Record ig_msg_heartbeat := MsgHeartbeat {
  mh_agent_id : Z; mh_status : Z; mh_timestamp : Z }.

(* @src transport/protocol.h:74-94 ig_msg_file_event_t *)
Record ig_msg_file_event := MsgFileEvent {
  me_agent_id : Z; me_event_type : Z;
  me_file_path_len : Z; me_file_path : option (list Z);
  me_file_name_len : Z; me_file_name : option (list Z);
  me_file_permission : Z; me_detected_by : Z; me_pid : Z; me_timestamp : Z;
  me_target_dev : Z; me_target_ino : Z; me_blocked : Z; me_uid : Z; me_sid : Z;
  me_comm_len : Z; me_comm : option (list Z);
  me_chain : option ig_pid_chain }.

(** ** Cursor primitives *)

(* @src transport/protocol.c:5-9 write_u8 *)
Definition write_u8 (v : Z) : writer unit := put_bytes (be_bytes 1 v).

(* @src transport/protocol.c:11-16 write_u16 *)
Definition write_u16 (v : Z) : writer unit := put_bytes (be_bytes 2 v).

(* @src transport/protocol.c:18-23 write_u32 *)
Definition write_u32 (v : Z) : writer unit := put_bytes (be_bytes 4 v).

(* @src transport/protocol.c:25-32 write_u64 *)
Definition write_u64 (v : Z) : writer unit :=
  put_bytes (be_bytes 4 (Z.shiftr v 32)) ;; put_bytes (be_bytes 4 (Z.land v 0xFFFFFFFF)).

(* @src transport/protocol.c:34-41 write_str *)
Definition write_str (s : option (list Z)) (len : Z) : writer unit :=
  write_u16 len ;;
  if 0 <? len then copy_from s (Z.to_nat len) else mret tt.

(* @src transport/protocol.c:49-54 read_u8 *)
Definition read_u8 : reader Z := bs ← take_bytes 1; mret (be_val bs).

(* @src transport/protocol.c:56-62 read_u16 *)
Definition read_u16 : reader Z := bs ← take_bytes 2; mret (be_val bs).

(* @src transport/protocol.c:64-70 read_u32 *)
Definition read_u32 : reader Z := bs ← take_bytes 4; mret (be_val bs).

(* @src transport/protocol.c:72-81 read_u64 *)
Definition read_u64 : reader Z :=
  hi ← take_bytes 4; lo ← take_bytes 4;
  mret (Z.lor (Z.shiftl (be_val hi) 32) (be_val lo)).

Section decoders.
(** Which calls of [malloc] succeed. *)
Variable malloc_ok : nat → bool.

(* @src transport/protocol.c:83-108 read_str *)
Definition read_str : reader (Z * option (list Z)) :=
  n ← remaining;
  _ ← require (bool_decide (2 ≤ n)%nat);
  len ← read_u16;
  if len =? 0 then mret (0, None) else
  n ← remaining;
  _ ← require (bool_decide (Z.to_nat len ≤ n)%nat);
  _ ← malloc malloc_ok;
  bs ← take_bytes (Z.to_nat len);
  mret (len, Some (bs ++ [0])).

(* @src transport/protocol.c:169-175 ig_register_free *)
Definition ig_register_free (hostname os : option (list Z)) : reader unit :=
  free_ptr hostname ;; free_ptr os.

(* @src transport/protocol.c:147-167 ig_register_decode *)
Definition ig_register_decode : reader ig_msg_register :=
  '(hostname_len, hostname) ← read_str;
  n ← remaining;
  _ ← on_fail (require (bool_decide (5 ≤ n)%nat)) (ig_register_free hostname None);
  ip ← read_u32;
  monitor_type ← read_u8;
  '(os_len, os) ← on_fail read_str (ig_register_free hostname None);
  mret (MsgRegister hostname_len hostname ip monitor_type os_len os).

(* @src transport/protocol.c:188-197 ig_heartbeat_decode *)
Definition ig_heartbeat_decode : reader ig_msg_heartbeat :=
  n ← remaining;
  _ ← require (bool_decide (13 ≤ n)%nat);
  agent_id ← read_u64;
  status ← read_u8;
  timestamp ← read_u32;
  mret (MsgHeartbeat agent_id status timestamp).

(* @src transport/protocol.c:317-325 ig_file_event_free *)
Definition ig_file_event_free (file_path file_name comm : option (list Z)) : reader unit :=
  free_ptr file_path ;; free_ptr file_name ;; free_ptr comm.

(* @src transport/protocol.c:274-315 ig_file_event_decode *)
Definition ig_file_event_decode : reader ig_msg_file_event :=
  n ← remaining;
  _ ← require (bool_decide (24 ≤ n)%nat);
  agent_id ← read_u64;
  event_type ← read_u8;
  '(path_len, path) ← on_fail read_str (ig_file_event_free None None None);
  '(name_len, name) ← on_fail read_str (ig_file_event_free path None None);
  n ← remaining;
  _ ← on_fail (require (bool_decide (11 ≤ n)%nat)) (ig_file_event_free path name None);
  permission ← read_u16;
  detected_by ← read_u8;
  pid ← read_u32;
  timestamp ← read_u32;
  n ← remaining;
  _ ← on_fail (require (bool_decide (25 ≤ n)%nat)) (ig_file_event_free path name None);
  dev ← read_u64;
  ino ← read_u64;
  blocked ← read_u8;
  uid ← read_u32;
  sid ← read_u32;
  '(comm_len, comm) ← on_fail read_str (ig_file_event_free path name None);
  mret (MsgFileEvent agent_id event_type path_len path name_len name permission
          detected_by pid timestamp dev ino blocked uid sid comm_len comm None).
End decoders.

(* @src transport/protocol.c:125-132 ig_frame_header_decode *)
Definition ig_frame_header_decode : reader ig_frame_header :=
  length ← read_u32;
  type ← read_u8;
  seq_num ← read_u32;
  mret (FrameHeader length type seq_num).

(** ** Encoders *)

(* @src transport/protocol.c:116-123 ig_frame_header_encode *)
Definition ig_frame_header_encode (h : ig_frame_header) : writer unit :=
  write_u32 (fh_length h) ;;
  write_u8 (fh_type h) ;;
  write_u32 (fh_seq_num h).

(* @src transport/protocol.c:134-145 ig_register_encode *)
Definition ig_register_encode (msg : ig_msg_register) : writer unit :=
  buf_size ← room;
  _ ← require (2 + mr_hostname_len msg + 4 + 1 + 2 + mr_os_len msg <=? Z.of_nat buf_size);
  write_str (mr_hostname msg) (mr_hostname_len msg) ;;
  write_u32 (mr_ip msg) ;;
  write_u8 (mr_monitor_type msg) ;;
  write_str (mr_os msg) (mr_os_len msg).

(* @src transport/protocol.c:177-186 ig_heartbeat_encode *)
Definition ig_heartbeat_encode (msg : ig_msg_heartbeat) : writer unit :=
  buf_size ← room;
  _ ← require (bool_decide (13 ≤ buf_size)%nat);
  write_u64 (mh_agent_id msg) ;;
  write_u8 (mh_status msg) ;;
  write_u32 (mh_timestamp msg).

(* @src transport/protocol.c:200-223 chain_entry_encode *)
Definition chain_entry_encode (e : ig_proc_info) : writer unit :=
  let comm_l := strnlen (pi_comm e) IG_PA_COMM_LEN in
  let tty_l := strnlen (pi_tty e) IG_PA_TTY_LEN in
  let exe_l := strnlen (pi_exe e) IG_PA_EXE_LEN in
  let cmd_l := strnlen (pi_cmdline e) IG_PA_CMDLINE_LEN in
  n ← room;
  _ ← require (bool_decide (28 + 8 + comm_l + tty_l + exe_l + cmd_l ≤ n)%nat);
  write_u32 (u32 (pi_pid e)) ;;
  write_u32 (u32 (pi_ppid e)) ;;
  write_u32 (u32 (pi_uid e)) ;;
  write_u32 (u32 (pi_euid e)) ;;
  write_u32 (u32 (pi_sid e)) ;;
  write_u64 (pi_start_time_ns e) ;;
  write_str (Some (pi_comm e)) (u16 (Z.of_nat comm_l)) ;;
  write_str (Some (pi_tty e)) (u16 (Z.of_nat tty_l)) ;;
  write_str (Some (pi_exe e)) (u16 (Z.of_nat exe_l)) ;;
  write_str (Some (pi_cmdline e)) (u16 (Z.of_nat cmd_l)).

(** The loop over [chain[0..n-1]]; running off the array is a fault. *)
Fixpoint chain_entries_encode (n : nat) (l : list ig_proc_info) : writer unit :=
  match n, l with
  | O, _ => mret tt
  | S n, e :: l => chain_entry_encode e ;; chain_entries_encode n l
  | S _, [] => λ _, Fault
  end.

(** The [depth] and [truncated] bytes. *)
Definition chain_depth (c : option ig_pid_chain) : Z :=
  match c with
  | None => 0
  | Some c => u8 (if Z.of_nat IG_PA_MAX_DEPTH <? ch_depth c then Z.of_nat IG_PA_MAX_DEPTH
                  else ch_depth c)
  end.
Definition chain_trunc (c : option ig_pid_chain) : Z :=
  match c with
  | None => 0
  | Some c => if ch_truncated c =? 0 then 0 else 1
  end.

(* @src transport/protocol.c:225-272 ig_file_event_encode *)
Definition ig_file_event_encode (msg : ig_msg_file_event) : writer unit :=
  let need_base := 8 + 1 + 2 + me_file_path_len msg + 2 + me_file_name_len msg + 2 + 1 + 4 + 4 in
  let need_actor := 8 + 8 + 1 + 4 + 4 + 2 + me_comm_len msg in
  let need_chain_meta := 1 + 1 in
  buf_size ← room;
  _ ← require (need_base + need_actor + need_chain_meta <=? Z.of_nat buf_size);
  write_u64 (me_agent_id msg) ;;
  write_u8 (me_event_type msg) ;;
  write_str (me_file_path msg) (me_file_path_len msg) ;;
  write_str (me_file_name msg) (me_file_name_len msg) ;;
  write_u16 (me_file_permission msg) ;;
  write_u8 (me_detected_by msg) ;;
  write_u32 (me_pid msg) ;;
  write_u32 (me_timestamp msg) ;;
  write_u64 (me_target_dev msg) ;;
  write_u64 (me_target_ino msg) ;;
  write_u8 (me_blocked msg) ;;
  write_u32 (me_uid msg) ;;
  write_u32 (me_sid msg) ;;
  write_str (me_comm msg) (me_comm_len msg) ;;
  let depth := chain_depth (me_chain msg) in
  write_u8 depth ;;
  write_u8 (chain_trunc (me_chain msg)) ;;
  match me_chain msg with
  | None => mret tt
  | Some c => chain_entries_encode (Nat.min (Z.to_nat depth) IG_PA_MAX_DEPTH) (ch_chain c)
  end.

(** ** The wire format *)

(** The bytes a [char *] field contributes. *)
Definition src_bytes (p : option (list Z)) (len : Z) : list Z := take (Z.to_nat len) (default [] p).

Definition wire_str (p : option (list Z)) (len : Z) : list Z := be_bytes 2 len ++ src_bytes p len.

Definition wire_frame_header (h : ig_frame_header) : list Z :=
  be_bytes 4 (fh_length h) ++ be_bytes 1 (fh_type h) ++ be_bytes 4 (fh_seq_num h).

Definition wire_register (m : ig_msg_register) : list Z :=
  wire_str (mr_hostname m) (mr_hostname_len m) ++ be_bytes 4 (mr_ip m) ++
  be_bytes 1 (mr_monitor_type m) ++ wire_str (mr_os m) (mr_os_len m).

Definition wire_heartbeat (m : ig_msg_heartbeat) : list Z :=
  be_bytes 8 (mh_agent_id m) ++ be_bytes 1 (mh_status m) ++ be_bytes 4 (mh_timestamp m).

Definition wire_cstr (s : list Z) (n : nat) : list Z :=
  wire_str (Some s) (Z.of_nat (strnlen s n)).

Definition wire_chain_entry (e : ig_proc_info) : list Z :=
  be_bytes 4 (u32 (pi_pid e)) ++ be_bytes 4 (u32 (pi_ppid e)) ++ be_bytes 4 (u32 (pi_uid e)) ++
  be_bytes 4 (u32 (pi_euid e)) ++ be_bytes 4 (u32 (pi_sid e)) ++
  be_bytes 8 (pi_start_time_ns e) ++
  wire_cstr (pi_comm e) IG_PA_COMM_LEN ++ wire_cstr (pi_tty e) IG_PA_TTY_LEN ++
  wire_cstr (pi_exe e) IG_PA_EXE_LEN ++ wire_cstr (pi_cmdline e) IG_PA_CMDLINE_LEN.

(** The entries that go on the wire. *)
Definition chain_sent (c : option ig_pid_chain) : list ig_proc_info :=
  match c with
  | None => []
  | Some p => take (Nat.min (Z.to_nat (chain_depth c)) IG_PA_MAX_DEPTH) (ch_chain p)
  end.

Definition wire_event_base (m : ig_msg_file_event) : list Z :=
  be_bytes 8 (me_agent_id m) ++ be_bytes 1 (me_event_type m) ++
  wire_str (me_file_path m) (me_file_path_len m) ++
  wire_str (me_file_name m) (me_file_name_len m) ++
  be_bytes 2 (me_file_permission m) ++ be_bytes 1 (me_detected_by m) ++
  be_bytes 4 (me_pid m) ++ be_bytes 4 (me_timestamp m) ++
  be_bytes 8 (me_target_dev m) ++ be_bytes 8 (me_target_ino m) ++ be_bytes 1 (me_blocked m) ++
  be_bytes 4 (me_uid m) ++ be_bytes 4 (me_sid m) ++ wire_str (me_comm m) (me_comm_len m).

Definition wire_chain_meta (c : option ig_pid_chain) : list Z :=
  be_bytes 1 (chain_depth c) ++ be_bytes 1 (chain_trunc c).

Definition wire_chain (c : option ig_pid_chain) : list Z :=
  wire_chain_meta c ++ mjoin (wire_chain_entry <$> chain_sent c).

Definition wire_file_event (m : ig_msg_file_event) : list Z :=
  wire_event_base m ++ wire_chain (me_chain m).

(** ** Well-formed messages

    The integer fields have the width of their C type; a [char *] with a
    non-zero length points to at least that many bytes; a chain has its
    sixteen slots and a depth an [int] counter of slots can have. *)

Definition ok_str (p : option (list Z)) (len : Z) : Prop :=
  in_width 16 len ∧ (0 < len → len ≤ Z.of_nat (length (default [] p))) ∧ bytes (default [] p).

Definition wf_frame_header (h : ig_frame_header) : Prop :=
  in_width 32 (fh_length h) ∧ in_width 8 (fh_type h) ∧ in_width 32 (fh_seq_num h).

Definition wf_register (m : ig_msg_register) : Prop :=
  ok_str (mr_hostname m) (mr_hostname_len m) ∧ in_width 32 (mr_ip m) ∧
  in_width 8 (mr_monitor_type m) ∧ ok_str (mr_os m) (mr_os_len m).

Definition wf_heartbeat (m : ig_msg_heartbeat) : Prop :=
  in_width 64 (mh_agent_id m) ∧ in_width 8 (mh_status m) ∧ in_width 32 (mh_timestamp m).

Definition wf_file_event (m : ig_msg_file_event) : Prop :=
  in_width 64 (me_agent_id m) ∧ in_width 8 (me_event_type m) ∧
  ok_str (me_file_path m) (me_file_path_len m) ∧ ok_str (me_file_name m) (me_file_name_len m) ∧
  in_width 16 (me_file_permission m) ∧ in_width 8 (me_detected_by m) ∧
  in_width 32 (me_pid m) ∧ in_width 32 (me_timestamp m) ∧
  in_width 64 (me_target_dev m) ∧ in_width 64 (me_target_ino m) ∧ in_width 8 (me_blocked m) ∧
  in_width 32 (me_uid m) ∧ in_width 32 (me_sid m) ∧ ok_str (me_comm m) (me_comm_len m) ∧
  match me_chain m with Some c => wf_chain c | None => True end.

(** ** The primitives against the wire format *)

Lemma write_u64_emits v : emits (write_u64 v) (be_bytes 8 v).
Proof.
  replace (be_bytes 8 v) with (be_bytes 4 (Z.shiftr v 32) ++ be_bytes 4 (Z.land v 0xFFFFFFFF)).
  { apply emits_seq; apply emits_put. }
  rewrite (be_bytes_app 4 4). f_equal. by apply (be_bytes_land 4 v 32).
Qed.

Lemma copy_from_emits p n : (n ≤ length (default [] p))%nat → p ≠ None →
  emits (copy_from p n) (take n (default [] p)).
Proof.
  intros Hn Hp r out Hr. destruct p as [d|]; [|done]. cbn in *.
  rewrite bool_decide_eq_true_2 by done. by apply put_bytes_ok.
Qed.

Lemma write_str_emits p len : ok_str p len → emits (write_str p len) (wire_str p len).
Proof.
  intros (Hw & Hl & _). unfold write_str, wire_str. apply emits_seq; [apply emits_put|].
  unfold in_width in Hw. unfold src_bytes. destruct (Z.ltb_spec 0 len) as [H|H].
  - specialize (Hl H). apply copy_from_emits; [lia|]. intros ->. simpl in Hl. lia.
  - replace (Z.to_nat len) with 0%nat by lia. apply emits_ret.
Qed.

Lemma strnlen_le s n : (strnlen s n ≤ length s)%nat.
Proof. unfold strnlen. pose proof (cstr_length_le s). lia. Qed.

Lemma write_cstr_emits s n : Z.of_nat n < 65536 →
  emits (write_str (Some s) (u16 (Z.of_nat (strnlen s n)))) (wire_cstr s n).
Proof.
  intros Hn. unfold wire_cstr. pose proof (strnlen_le_l s n). pose proof (strnlen_le s n).
  unfold u16. rewrite wrap_small by (unfold in_width; lia).
  unfold write_str, wire_str. apply emits_seq; [apply emits_put|]. unfold src_bytes. cbn.
  rewrite Nat2Z.id. case_match eqn:E; [apply (copy_from_emits (Some s)); [done..]|].
  apply Z.ltb_ge in E. replace (strnlen s n) with 0%nat by lia. apply emits_ret.
Qed.

Lemma wire_str_length p len : ok_str p len → Z.of_nat (length (wire_str p len)) = 2 + len.
Proof.
  intros (Hw & Hl & _). unfold wire_str, src_bytes, in_width in *.
  rewrite length_app, be_bytes_length, length_take.
  destruct (decide (0 < len)); [specialize (Hl ltac:(done))|]; lia.
Qed.

Lemma wire_cstr_length s n : length (wire_cstr s n) = (2 + strnlen s n)%nat.
Proof.
  unfold wire_cstr, wire_str, src_bytes. pose proof (strnlen_le s n). cbn [default].
  rewrite length_app, be_bytes_length, Nat2Z.id, length_take. cbn. lia.
Qed.

(** Composes the writers of a straight-line encoder. *)
Ltac emit :=
  repeat lazymatch goal with
    | |- emits (mbind _ _) _ => apply emits_seq
    | |- emits (write_u64 _) _ => apply write_u64_emits
    | |- emits (write_str (Some _) _) _ => apply write_cstr_emits; vm_compute; reflexivity
    | |- emits (write_str _ _) _ => apply write_str_emits; assumption
    | |- emits _ _ => apply emits_put
    end.

Lemma chain_entry_encodes e : encodes (chain_entry_encode e) (wire_chain_entry e).
Proof.
  unfold chain_entry_encode, wire_chain_entry. apply encodes_guard; [emit|].
  intros n. rewrite bool_decide_eq_true, !length_app, !be_bytes_length, !wire_cstr_length. lia.
Qed.

Lemma chain_entries_encodes n l : (n ≤ length l)%nat →
  encodes (chain_entries_encode n l) (mjoin (wire_chain_entry <$> take n l)).
Proof.
  revert l. induction n as [|n IH]; intros [|e l] Hl; cbn [length] in *; try lia;
    [apply encodes_ret..|].
  change (mjoin (wire_chain_entry <$> take (S n) (e :: l)))
    with (wire_chain_entry e ++ mjoin (wire_chain_entry <$> take n l)).
  cbn [chain_entries_encode]. apply encodes_seq; [apply chain_entry_encodes|]. apply IH. lia.
Qed.

Lemma frame_header_emits h : emits (ig_frame_header_encode h) (wire_frame_header h).
Proof. unfold ig_frame_header_encode, wire_frame_header. emit. Qed.

Lemma register_encodes m : wf_register m → encodes (ig_register_encode m) (wire_register m).
Proof.
  intros (Hh & Hi & Ht & Ho). unfold ig_register_encode, wire_register.
  apply encodes_guard; [emit|]. intros n.
  pose proof (wire_str_length _ _ Hh). pose proof (wire_str_length _ _ Ho).
  rewrite Z.leb_le, !length_app, !be_bytes_length. lia.
Qed.

Lemma heartbeat_encodes m : encodes (ig_heartbeat_encode m) (wire_heartbeat m).
Proof.
  unfold ig_heartbeat_encode, wire_heartbeat. apply encodes_guard; [emit|]. intros n.
  rewrite bool_decide_eq_true, !length_app, !be_bytes_length. lia.
Qed.

Lemma chain_sent_length_ok c : wf_chain c →
  (Nat.min (Z.to_nat (chain_depth (Some c))) IG_PA_MAX_DEPTH ≤ length (ch_chain c))%nat.
Proof. intros (Hl & _). rewrite Hl. lia. Qed.

Lemma chain_part_encodes c : match c with Some c => wf_chain c | None => True end →
  encodes (match c with
           | None => mret tt
           | Some p => chain_entries_encode (Nat.min (Z.to_nat (chain_depth c)) IG_PA_MAX_DEPTH) (ch_chain p)
           end) (mjoin (wire_chain_entry <$> chain_sent c)).
Proof.
  intros H. destruct c as [c|]; [|apply encodes_ret].
  apply chain_entries_encodes, chain_sent_length_ok, H.
Qed.

Lemma file_event_encodes m : wf_file_event m → encodes (ig_file_event_encode m) (wire_file_event m).
Proof.
  intros (Hid & Ht & Hp & Hn & Hperm & Hd & Hpid & Hts & Hdev & Hino & Hb & Hu & Hs & Hc & Hch).
  unfold ig_file_event_encode, wire_file_event, wire_event_base, wire_chain, wire_chain_meta.
  rewrite <- !app_assoc. cbv zeta.
  pose proof (chain_part_encodes _ Hch) as Hcp.
  eapply encodes_guard_from.
  - do 16 (apply encodes_from_seq; [by emit|]). by apply encodes_encodes_from.
  - rewrite !length_app, !be_bytes_length. lia.
  - intros n. rewrite Z.leb_le, !be_bytes_length.
    pose proof (wire_str_length _ _ Hp). pose proof (wire_str_length _ _ Hn).
    pose proof (wire_str_length _ _ Hc). lia.
Qed.

(** ** The decoders read the wire format back *)

(** What [read_str] makes of a [char *] field: NULL for an empty string and
    otherwise a fresh NUL-terminated copy. *)
Definition copied (p : option (list Z)) (len : Z) : option (list Z) :=
  if len =? 0 then None else Some (src_bytes p len ++ [0]).

Definition nalloc_of (len : Z) : nat := if len =? 0 then 0 else 1.

Lemma read_be n v : in_width (8 * Z.of_nat n) v → be_val (be_bytes n v) = v.
Proof.
  intros H. apply be_val_be_bytes. unfold in_width in H.
  replace (256 ^ Z.of_nat n) with (2 ^ (8 * Z.of_nat n)); [done|]. by rewrite Z.pow_mul_r by lia.
Qed.

Lemma parses_uint n v : in_width (8 * Z.of_nat n) v →
  parses (bs ← take_bytes n; mret (be_val bs)) (be_bytes n v) v 0.
Proof.
  intros H rest live na.
  rewrite (bind_Ok _ _ _ (be_bytes n v) (RState rest live na))
    by (apply take_bytes_app; by rewrite be_bytes_length).
  by rewrite read_be.
Qed.

Lemma parses_u8 v : in_width 8 v → parses read_u8 (be_bytes 1 v) v 0.
Proof. apply (parses_uint 1). Qed.
Lemma parses_u16 v : in_width 16 v → parses read_u16 (be_bytes 2 v) v 0.
Proof. apply (parses_uint 2). Qed.
Lemma parses_u32 v : in_width 32 v → parses read_u32 (be_bytes 4 v) v 0.
Proof. apply (parses_uint 4). Qed.

Lemma u64_halves v : in_width 64 v →
  Z.lor (Z.shiftl (Z.shiftr v 32) 32) (Z.land v (Z.ones 32)) = v.
Proof.
  intros _. apply Z.bits_inj'. intros i Hi. rewrite Z.lor_spec, Z.land_spec.
  destruct (Z.ltb_spec i 32).
  - rewrite Z.shiftl_spec_low, Z.ones_spec_low by lia. by rewrite andb_true_r.
  - rewrite Z.shiftl_spec, Z.shiftr_spec, Z.ones_spec_high by lia.
    rewrite andb_false_r, orb_false_r. f_equal. lia.
Qed.

Lemma parses_u64 v : in_width 64 v → parses read_u64 (be_bytes 8 v) v 0.
Proof.
  intros H rest live na. change (be_bytes 8 v) with (be_bytes (4 + 4) v).
  rewrite be_bytes_app, <- app_assoc. unfold read_u64.
  rewrite (bind_Ok _ _ _ _ _ (take_bytes_app 4 (be_bytes 4 _) _ _ _ eq_refl)).
  rewrite (bind_Ok _ _ _ _ _ (take_bytes_app 4 (be_bytes 4 _) _ _ _ eq_refl)).
  rewrite <- (be_bytes_land 4 v 32) by lia.
  change (8 * Z.of_nat 4) with 32. unfold in_width in H.
  rewrite !read_be.
  - by rewrite u64_halves.
  - unfold in_width. rewrite Z.land_ones by lia. apply Z.mod_pos_bound. lia.
  - unfold in_width. rewrite Z.shiftr_div_pow2 by lia. split; [apply Z.div_pos; lia|].
    apply Z.div_lt_upper_bound; lia.
Qed.

Lemma parses_str p len : ok_str p len →
  parses (read_str (λ _, true)) (wire_str p len) (len, copied p len) (nalloc_of len).
Proof.
  intros (Hw & Hl & _). unfold read_str, wire_str.
  replace (nalloc_of len) with (0 + nalloc_of len)%nat by done.
  apply parses_require; [rewrite length_app, be_bytes_length; lia|].
  eapply parses_bind; [by apply parses_u16|]. unfold in_width in Hw.
  unfold copied, nalloc_of, src_bytes. destruct (Z.eqb_spec len 0) as [->|Hlen].
  { intros rest live na. done. }
  specialize (Hl ltac:(lia)).
  assert (Hn : length (take (Z.to_nat len) (default [] p)) = Z.to_nat len)
    by (rewrite length_take; lia).
  apply parses_require; [lia|].
  intros rest live na. unfold malloc. cbn.
  change ((bs ← take_bytes (Z.to_nat len); mret (len, Some (bs ++ [0])))
    (RState (take (Z.to_nat len) (default [] p) ++ rest) (S live) (S na)) = 
    Ok (len, Some (take (Z.to_nat len) (default [] p) ++ [0])) (RState rest (S live) (S na))).
  by rewrite (bind_Ok _ _ _ _ _ (take_bytes_app _ _ rest (S live) (S na) (eq_sym Hn))).
Qed.

(** Reads a straight-line decoder off a concatenation of wire fields. *)
Ltac parse_field :=
  lazymatch goal with
  | |- parses (on_fail _ _) _ _ _ => apply parses_on_fail; parse_field
  | |- parses read_u8 _ _ _ => apply parses_u8; assumption
  | |- parses read_u16 _ _ _ => apply parses_u16; assumption
  | |- parses read_u32 _ _ _ => apply parses_u32; assumption
  | |- parses read_u64 _ _ _ => apply parses_u64; assumption
  | |- parses (read_str _) _ _ _ => apply parses_str; assumption
  end.

Lemma parses_eq {A} (m : reader A) bs bs' a a' k k' :
  parses m bs a k → bs = bs' → a = a' → k = k' → parses m bs' a' k'.
Proof. by intros ? -> -> ->. Qed.

Definition register_decoded (m : ig_msg_register) : ig_msg_register :=
  MsgRegister (mr_hostname_len m) (copied (mr_hostname m) (mr_hostname_len m)) (mr_ip m)
    (mr_monitor_type m) (mr_os_len m) (copied (mr_os m) (mr_os_len m)).

Definition register_nalloc (m : ig_msg_register) : nat :=
  nalloc_of (mr_hostname_len m) + nalloc_of (mr_os_len m).

(** Drives [parse_field] along the binds of a decoder. *)
Ltac parse_prepare w :=
  eapply (parses_eq _ (w ++ [])); [|apply app_nil_r|reflexivity|];
  [rewrite <- ?app_assoc|].
Ltac parse :=
  repeat lazymatch goal with
  | |- parses (mret _) _ _ _ => apply parses_ret
  | |- parses (remaining ≫= (λ n, on_fail _ _ ≫= _)) _ _ _ =>
      eapply parses_check; [rewrite !length_app, ?be_bytes_length; lia|]
  | |- parses (remaining ≫= (λ n, require _ ≫= _)) _ _ _ =>
      eapply parses_require; [rewrite !length_app, ?be_bytes_length; lia|]
  | |- parses (_ ≫= _) _ _ _ => eapply parses_bind; [parse_field|]; cbv beta iota
  end.

Lemma parses_register m : wf_register m →
  parses (ig_register_decode (λ _, true)) (wire_register m) (register_decoded m) (register_nalloc m).
Proof.
  intros (Hh & Hi & Ht & Ho). unfold ig_register_decode, wire_register, register_nalloc.
  parse_prepare (wire_register m); [unfold wire_register; rewrite <- !app_assoc; parse|lia].
Qed.

Lemma parses_heartbeat m : wf_heartbeat m → parses ig_heartbeat_decode (wire_heartbeat m) m 0.
Proof.
  intros (Hi & Hs & Ht). unfold ig_heartbeat_decode.
  parse_prepare (wire_heartbeat m); [unfold wire_heartbeat; rewrite <- !app_assoc|].
  - destruct m. cbn in *. parse.
  - lia.
Qed.

Lemma parses_frame_header h : wf_frame_header h →
  parses ig_frame_header_decode (wire_frame_header h) h 0.
Proof.
  intros (Hl & Ht & Hs). unfold ig_frame_header_decode.
  parse_prepare (wire_frame_header h); [unfold wire_frame_header; rewrite <- !app_assoc|].
  - destruct h. cbn in *. parse.
  - lia.
Qed.

Definition event_decoded (m : ig_msg_file_event) : ig_msg_file_event :=
  MsgFileEvent (me_agent_id m) (me_event_type m)
    (me_file_path_len m) (copied (me_file_path m) (me_file_path_len m))
    (me_file_name_len m) (copied (me_file_name m) (me_file_name_len m))
    (me_file_permission m) (me_detected_by m) (me_pid m) (me_timestamp m)
    (me_target_dev m) (me_target_ino m) (me_blocked m) (me_uid m) (me_sid m)
    (me_comm_len m) (copied (me_comm m) (me_comm_len m)) None.

Definition event_nalloc (m : ig_msg_file_event) : nat :=
  nalloc_of (me_file_path_len m) + (nalloc_of (me_file_name_len m) + nalloc_of (me_comm_len m)).

Lemma parses_event_base m : wf_file_event m →
  parses (ig_file_event_decode (λ _, true)) (wire_event_base m) (event_decoded m) (event_nalloc m).
Proof.
  intros (Hid & Ht & Hp & Hn & Hperm & Hd & Hpid & Hts & Hdev & Hino & Hb & Hu & Hs & Hc & _).
  unfold ig_file_event_decode, event_nalloc.
  pose proof (wire_str_length _ _ Hp) as Lp. pose proof (wire_str_length _ _ Hn) as Ln.
  pose proof (wire_str_length _ _ Hc) as Lc. unfold ok_str, in_width in *.
  parse_prepare (wire_event_base m); [unfold wire_event_base; rewrite <- !app_assoc; parse|lia].
Qed.

(** ** Memory safety of the decoders

    [reads k live] before a field, [reads (k - n) live] after [n] bytes of it. *)

Lemma triple_uint n k live E : (n ≤ k)%nat →
  triple (reads k live) (bs ← take_bytes n; mret (be_val bs)) (λ _, reads (k - n) live) E.
Proof.
  intros Hn. eapply triple_bind; [by apply triple_take_bytes|]. cbn. intros bs.
  intros s Hs. done.
Qed.

Lemma triple_u64 k live E : (8 ≤ k)%nat →
  triple (reads k live) read_u64 (λ _, reads (k - 8) live) E.
Proof.
  intros Hk. unfold read_u64. eapply triple_bind; [apply (triple_take_bytes 4); lia|]. cbn. intros hi.
  eapply triple_bind; [apply (triple_take_bytes 4); lia|]. cbn. intros lo.
  replace (k - 4 - 4)%nat with (k - 8)%nat by lia.
  intros s Hs. done.
Qed.

Lemma triple_read_str mok k live :
  triple (reads k live) (read_str mok) (λ r, reads 0 (live_of r.2 + live)) (owns live).
Proof.
  unfold read_str. apply triple_check_plain; [done|].
  eapply triple_bind; [apply (triple_uint 2); lia|]. cbn. intros len.
  destruct (len =? 0).
  { intros s Hs. done. }
  apply triple_check_plain; [done|].
  eapply triple_bind; [apply triple_malloc|]. cbn. intros _.
  eapply triple_bind; [by apply triple_take_bytes|]. cbn. intros bs.
  eapply triple_conseq; [apply (triple_ret _ (owns live))| | |done]; [done|].
  intros r s [-> Hs]. cbn. by rewrite Nat.sub_diag in Hs.
Qed.

Lemma triple_frees p q r E :
  triple (owns (live_of p + (live_of q + live_of r))) (ig_file_event_free p q r) (λ _, owns 0) E.
Proof.
  unfold ig_file_event_free.
  eapply triple_bind; [apply triple_free|]; cbn; intros _.
  eapply triple_bind; [apply triple_free|]; cbn; intros _.
  replace (live_of r) with (live_of r + 0)%nat by lia. apply triple_free.
Qed.

Lemma triple_register_free p q E :
  triple (owns (live_of p + live_of q)) (ig_register_free p q) (λ _, owns 0) E.
Proof.
  unfold ig_register_free. eapply triple_bind; [apply triple_free|]; cbn; intros _.
  replace (live_of q) with (live_of q + 0)%nat by lia. apply triple_free.
Qed.

(** One step of a safety proof. *)
Ltac safe_uint :=
  eapply triple_bind; [first [apply triple_u64; lia | apply triple_uint; lia]|]; cbn; intros ?.
Ltac safe_str :=
  eapply triple_bind;
  [eapply triple_on_fail;
     [apply triple_read_str
     |eapply triple_conseq; [apply triple_frees| | |done];
        [intros ? Hown; unfold owns in *; cbn in *; lia|done]]|];
  cbn; intros [? ?]; cbn.

Lemma register_decode_triple mok k :
  triple (reads k 0) (ig_register_decode mok)
    (λ m, reads 0 (live_of (mr_hostname m) + live_of (mr_os m))) (owns 0).
Proof.
  unfold ig_register_decode. eapply triple_bind; [apply triple_read_str|].
  cbn. intros [hl h]. cbn. apply triple_check.
  { eapply triple_conseq; [apply triple_register_free| | |done]; [|done].
    intros s Hs. unfold owns in *. cbn. lia. }
  do 2 safe_uint.
  eapply triple_bind; [eapply triple_on_fail; [apply triple_read_str|]|].
  { eapply triple_conseq; [apply triple_register_free| | |done]; [|done].
    intros s Hs. unfold owns in *. cbn. lia. }
  cbn. intros [ol o] s [_ Hs]. cbn in *. split; cbn in *; lia.
Qed.

Lemma file_event_decode_triple mok k :
  triple (reads k 0) (ig_file_event_decode mok)
    (λ m, reads 0 (live_of (me_file_path m) + live_of (me_file_name m) + live_of (me_comm m)))
    (owns 0).
Proof.
  unfold ig_file_event_decode. apply triple_check_plain; [done|].
  do 2 safe_uint. do 2 safe_str.
  apply triple_check.
  { eapply triple_conseq; [apply triple_frees| | |done]; [|done].
    intros s Hs. unfold owns in *. cbn. lia. }
  do 4 safe_uint.
  apply triple_check.
  { eapply triple_conseq; [apply triple_frees| | |done]; [|done].
    intros s Hs. unfold owns in *. cbn. lia. }
  do 5 safe_uint. safe_str.
  intros s [_ Hs]. cbn in *. split; cbn in *; lia.
Qed.

Lemma heartbeat_decode_triple k live :
  triple (reads k live) ig_heartbeat_decode (λ _, reads 0 live) (owns live).
Proof.
  unfold ig_heartbeat_decode. apply triple_check_plain; [done|].
  do 3 safe_uint. intros s Hs. done.
Qed.

(** ** Sample messages for the witnesses *)
Definition sample_register : ig_msg_register :=
  MsgRegister 3 (Some [118; 109; 49]) 3232235777 IG_MON_LKM 5 (Some (lit "Linux")).
Definition sample_proc : ig_proc_info :=
  ProcInfo 4242 1 0 0 4242 (lit "pts/1") (lit "vi") (lit "/usr/bin/vi") (lit "vi /etc/passwd") 77 1700000000.
Definition sample_chain : ig_pid_chain := PidChain 1 0 (sample_proc :: replicate 15 proc_info_zero).
Definition sample_event : ig_msg_file_event :=
  MsgFileEvent 7 IG_EVT_MODIFY 11 (Some (lit "/etc/passwd")) 6 (Some (lit "passwd")) 0 IG_MON_LKM
    4242 1700000000 8388609 131 1 0 4242 2 (Some (lit "vi")) (Some sample_chain).

Lemma fits_in_width w z : fits w z = true → in_width w z.
Proof. apply fits_spec. Qed.

Definition bytesb (l : list Z) : bool := forallb (fits 8) l.
Lemma bytesb_spec l : bytesb l = true → bytes l.
Proof.
  unfold bytesb. rewrite forallb_forall. intros H. apply Forall_forall. intros x Hx.
  apply (fits_in_width 8), H, list_elem_of_In, Hx.
Qed.

(** Discharges well-formedness of a closed message. *)
Ltac wf_closed :=
  repeat match goal with
    | |- _ ∧ _ => split
    | |- Forall wf_proc_info _ => repeat constructor
    | |- in_width _ _ => apply fits_in_width; vm_compute; reflexivity
    | |- Forall is_byte _ => apply bytesb_spec; vm_compute; reflexivity
    | |- True => exact I
    | |- (_ < _ → _) => intros _; vm_compute; discriminate
    | |- (_ < _)%Z => vm_compute; reflexivity
    | |- (_ ≤ _)%Z => vm_compute; discriminate
    | |- @eq nat _ _ => vm_compute; reflexivity
    end.

Lemma sample_register_wf : wf_register sample_register.
Proof. unfold wf_register, ok_str. wf_closed. Qed.
Lemma sample_event_wf : wf_file_event sample_event.
Proof. unfold wf_file_event, ok_str. cbn [me_chain sample_event]. unfold wf_chain. wf_closed. Qed.

(** ** Properties *)

(** [C20] FILE_EVENT encoding is exact and bounded: into a buffer of [n] bytes
    the encoder writes precisely the wire format of the message when it fits,
    reports an error when it does not, and never touches a byte outside. *)
Theorem file_event_encode_spec (m : ig_msg_file_event) (n : nat) (Hwf : wf_file_event m) :
  if bool_decide (length (wire_file_event m) ≤ n)%nat
  then ig_file_event_encode m (WState n []) =
       Ok tt (WState (n - length (wire_file_event m)) (wire_file_event m))
  else ∃ s, ig_file_event_encode m (WState n []) = Fail s.
Proof.
  destruct (file_event_encodes m Hwf) as [He Hf]. case_bool_decide as H.
  - by rewrite He.
  - apply Hf. lia.
Qed.

Lemma file_event_encode_spec_witness :
  ∃ w, length w = 140%nat ∧ ig_file_event_encode sample_event (WState 200 []) = Ok tt (WState 60 w) ∧
       ∃ s, ig_file_event_encode sample_event (WState 139 []) = Fail s.
Proof.
  exists (wire_file_event sample_event). split; [vm_compute; reflexivity|]. split.
  - exact (file_event_encode_spec sample_event 200 sample_event_wf).
  - exact (file_event_encode_spec sample_event 139 sample_event_wf).
Defined.

(** FILE_EVENT round trip inside the agent: decoding what the encoder
    wrote gives back every base and actor field (strings as fresh
    NUL-terminated copies) and stops exactly before the process chain. *)
Theorem file_event_roundtrip (m : ig_msg_file_event) (n : nat) (s : wstate) (trailing : list Z)
    (Hwf : wf_file_event m) (Henc : ig_file_event_encode m (WState n []) = Ok tt s) :
  ig_file_event_decode (λ _, true) (RState (w_out s ++ trailing) 0 0) =
  Ok (event_decoded m) (RState (wire_chain (me_chain m) ++ trailing) (event_nalloc m) (event_nalloc m)).
Proof.
  destruct (file_event_encodes m Hwf) as [He Hf].
  destruct (decide (length (wire_file_event m) ≤ n)%nat) as [H|H].
  - rewrite He in Henc by done. injection Henc as <-. cbn [w_out app].
    unfold wire_file_event. rewrite <- app_assoc.
    rewrite (parses_event_base m Hwf). by rewrite Nat.add_0_r.
  - destruct (Hf n [] ltac:(lia)) as [s' Hs']. congruence.
Qed.

Lemma file_event_roundtrip_witness :
  ∃ s, ig_file_event_encode sample_event (WState 200 []) = Ok tt s ∧
    ig_file_event_decode (λ _, true) (RState (w_out s ++ [1; 2]) 0 0) =
    Ok (event_decoded sample_event) (RState (wire_chain (Some sample_chain) ++ [1; 2]) 3 3).
Proof.
  eexists. split; [vm_compute; reflexivity|].
  apply (file_event_roundtrip sample_event 200 _ [1; 2] sample_event_wf). vm_compute. reflexivity.
Defined.

(** REGISTER round trip: decoding what the encoder wrote gives back the
    registration (strings as fresh NUL-terminated copies) and consumes
    exactly the bytes written. *)
Theorem register_roundtrip (m : ig_msg_register) (n : nat) (s : wstate) (trailing : list Z)
    (Hwf : wf_register m) (Henc : ig_register_encode m (WState n []) = Ok tt s) :
  ig_register_decode (λ _, true) (RState (w_out s ++ trailing) 0 0) =
  Ok (register_decoded m) (RState trailing (register_nalloc m) (register_nalloc m)).
Proof.
  destruct (register_encodes m Hwf) as [He Hf].
  destruct (decide (length (wire_register m) ≤ n)%nat) as [H|H].
  - rewrite He in Henc by done. injection Henc as <-. cbn [w_out app].
    rewrite (parses_register m Hwf). by rewrite Nat.add_0_r.
  - destruct (Hf n [] ltac:(lia)) as [s' Hs']. congruence.
Qed.

Lemma register_roundtrip_witness :
  ∃ s, ig_register_encode sample_register (WState 1024 []) = Ok tt s ∧
    ig_register_decode (λ _, true) (RState (w_out s ++ []) 0 0) =
    Ok (register_decoded sample_register) (RState [] 2 2).
Proof.
  eexists. split; [vm_compute; reflexivity|].
  apply (register_roundtrip sample_register 1024 _ [] sample_register_wf). vm_compute. reflexivity.
Defined.

(** [C35] The decoders are memory safe on every input: whatever the bytes and
    whichever [malloc] calls fail, REGISTER and FILE_EVENT decoding never read
    outside the buffer and never free a block they do not own; on an error
    path every allocated string has been freed, on success exactly the
    strings of the message are live. *)
Theorem decoders_memory_safe (mok : nat → bool) (buf : list Z) :
  match ig_register_decode mok (RState buf 0 0) with
  | Ok m s => r_live s = (live_of (mr_hostname m) + live_of (mr_os m))%nat
  | Fail s => r_live s = 0%nat
  | Fault => False
  end ∧
  match ig_file_event_decode mok (RState buf 0 0) with
  | Ok m s => r_live s =
      (live_of (me_file_path m) + live_of (me_file_name m) + live_of (me_comm m))%nat
  | Fail s => r_live s = 0%nat
  | Fault => False
  end.
Proof.
  split.
  - pose proof (register_decode_triple mok (length buf) (RState buf 0 0) (conj (Nat.le_refl _) eq_refl)) as H.
    destruct (ig_register_decode mok _); [apply H|apply H|done].
  - pose proof (file_event_decode_triple mok (length buf) (RState buf 0 0) (conj (Nat.le_refl _) eq_refl)) as H.
    destruct (ig_file_event_decode mok _); [apply H|apply H|done].
Qed.
