(* ===== verification/Collector.v ===== *)
(** * The collector's decoders (Backend/internal/collector/protocol.go)

    The server side of the wire format, so that the agent's encoders can be
    stated against the program that actually reads them. A Go [error] is the
    [Fail] outcome, a slice bounds panic would be [Fault]. *)

From S2P Require Import Prelude Bytes Monitor Protocol.

Local Open Scope Z_scope.

Definition MaxProcessChainDepth : Z := 16.

(* @go Backend/internal/collector/protocol.go:66-71 RegisterMsg *)
Record RegisterMsg := { rm_hostname : list Z; rm_ip : list Z; rm_monitor_type : Z; rm_os : list Z }.

(* @go Backend/internal/collector/protocol.go:105-116 ProcessInfoMsg *)
Record ProcessInfoMsg := {
  gp_pid : Z; gp_ppid : Z; gp_uid : Z; gp_euid : Z; gp_sid : Z; gp_start_time_ns : Z;
  gp_comm : list Z; gp_tty : list Z; gp_exe : list Z; gp_cmdline : list Z }.

(* @go Backend/internal/collector/protocol.go:118-122 ProcessChainMsg *)
Record ProcessChainMsg := { gc_depth : Z; gc_truncated : bool; gc_entries : list ProcessInfoMsg }.

(* @go Backend/internal/collector/protocol.go:87-103 FileEventMsg *)
Record FileEventMsg := {
  ge_agent_id : Z; ge_event_type : Z; ge_file_path : list Z; ge_file_name : list Z;
  ge_file_permission : Z; ge_detected_by : Z; ge_pid : Z; ge_timestamp : Z;
  ge_target_dev : Z; ge_target_ino : Z; ge_blocked : bool; ge_uid : Z; ge_sid : Z;
  ge_comm : list Z; ge_chain : ProcessChainMsg }.

(** [if r.remaining() < n { return error }; read n bytes] *)
Definition readN (n : nat) : reader (list Z) :=
  k ← remaining; _ ← require (bool_decide (n ≤ k)%nat); take_bytes n.

(* @go Backend/internal/collector/protocol.go:138-145 readU8 *)
Definition readU8 : reader Z := bs ← readN 1; mret (be_val bs).
(* @go Backend/internal/collector/protocol.go:147-154 readU16 *)
Definition readU16 : reader Z := bs ← readN 2; mret (be_val bs).
(* @go Backend/internal/collector/protocol.go:156-163 readU32 *)
Definition readU32 : reader Z := bs ← readN 4; mret (be_val bs).
(* @go Backend/internal/collector/protocol.go:165-173 readU64 *)
Definition readU64 : reader Z :=
  bs ← readN 8;
  mret (Z.lor (Z.shiftl (be_val (take 4 bs)) 32) (be_val (take 4 (drop 4 bs)))).
(* @go Backend/internal/collector/protocol.go:175-186 readStr *)
Definition readStr : reader (list Z) := len ← readU16; readN (Z.to_nat len).

(* @go Backend/internal/collector/protocol.go:294-324 DecodeRegister *)
Definition DecodeRegister : reader RegisterMsg :=
  hostname ← readStr;
  ipRaw ← readU32;
  monType ← readU8;
  osName ← readStr;
  mret {| rm_hostname := hostname; rm_ip := be_bytes 4 ipRaw;
          rm_monitor_type := monType; rm_os := osName |}.

(* @go Backend/internal/collector/protocol.go:454-507 decodeProcessInfo *)
Definition decodeProcessInfo : reader ProcessInfoMsg :=
  pid ← readU32; ppid ← readU32; uid ← readU32; euid ← readU32; sid ← readU32;
  startTimeNS ← readU64;
  comm ← readStr; tty ← readStr; exe ← readStr; cmdline ← readStr;
  mret {| gp_pid := pid; gp_ppid := ppid; gp_uid := uid; gp_euid := euid; gp_sid := sid;
          gp_start_time_ns := startTimeNS; gp_comm := comm; gp_tty := tty;
          gp_exe := exe; gp_cmdline := cmdline |}.

Fixpoint decodeEntries (n : nat) : reader (list ProcessInfoMsg) :=
  match n with
  | O => mret []
  | S n => e ← decodeProcessInfo; es ← decodeEntries n; mret (e :: es)
  end.

(* @go Backend/internal/collector/protocol.go:343-452 DecodeFileEvent *)
Definition DecodeFileEvent : reader FileEventMsg :=
  n ← remaining;
  _ ← require (bool_decide (24 ≤ n)%nat);
  agentID ← readU64;
  evtType ← readU8;
  filePath ← readStr;
  fileName ← readStr;
  perm ← readU16;
  detectedBy ← readU8;
  pid ← readU32;
  timestamp ← readU32;
  targetDev ← readU64;
  targetIno ← readU64;
  blocked ← readU8;
  uid ← readU32;
  sid ← readU32;
  comm ← readStr;
  chainDepth ← readU8;
  _ ← require (chainDepth <=? MaxProcessChainDepth);
  chainTruncated ← readU8;
  entries ← decodeEntries (Z.to_nat chainDepth);
  left ← remaining;
  _ ← require (bool_decide (left = 0)%nat);
  mret {| ge_agent_id := agentID; ge_event_type := evtType; ge_file_path := filePath;
          ge_file_name := fileName; ge_file_permission := perm; ge_detected_by := detectedBy;
          ge_pid := pid; ge_timestamp := timestamp; ge_target_dev := targetDev;
          ge_target_ino := targetIno; ge_blocked := negb (blocked =? 0); ge_uid := uid;
          ge_sid := sid; ge_comm := comm;
          ge_chain := {| gc_depth := chainDepth; gc_truncated := negb (chainTruncated =? 0);
                         gc_entries := entries |} |}.

(** ** What the server should see of a message *)

Definition sent_str (p : option (list Z)) (len : Z) : list Z := src_bytes p len.

Definition register_seen (m : ig_msg_register) : RegisterMsg :=
  {| rm_hostname := sent_str (mr_hostname m) (mr_hostname_len m);
     rm_ip := be_bytes 4 (mr_ip m); rm_monitor_type := mr_monitor_type m;
     rm_os := sent_str (mr_os m) (mr_os_len m) |}.

Definition proc_seen (e : ig_proc_info) : ProcessInfoMsg :=
  {| gp_pid := u32 (pi_pid e); gp_ppid := u32 (pi_ppid e); gp_uid := u32 (pi_uid e);
     gp_euid := u32 (pi_euid e); gp_sid := u32 (pi_sid e);
     gp_start_time_ns := pi_start_time_ns e;
     gp_comm := strncpy (pi_comm e) IG_PA_COMM_LEN; gp_tty := strncpy (pi_tty e) IG_PA_TTY_LEN;
     gp_exe := strncpy (pi_exe e) IG_PA_EXE_LEN;
     gp_cmdline := strncpy (pi_cmdline e) IG_PA_CMDLINE_LEN |}.

Definition event_seen (m : ig_msg_file_event) : FileEventMsg :=
  {| ge_agent_id := me_agent_id m; ge_event_type := me_event_type m;
     ge_file_path := sent_str (me_file_path m) (me_file_path_len m);
     ge_file_name := sent_str (me_file_name m) (me_file_name_len m);
     ge_file_permission := me_file_permission m; ge_detected_by := me_detected_by m;
     ge_pid := me_pid m; ge_timestamp := me_timestamp m; ge_target_dev := me_target_dev m;
     ge_target_ino := me_target_ino m; ge_blocked := negb (me_blocked m =? 0);
     ge_uid := me_uid m; ge_sid := me_sid m; ge_comm := sent_str (me_comm m) (me_comm_len m);
     ge_chain := {| gc_depth := chain_depth (me_chain m);
                    gc_truncated := negb (chain_trunc (me_chain m) =? 0);
                    gc_entries := proc_seen <$> chain_sent (me_chain m) |} |}.

(** ** The Go readers against the wire format *)

Lemma parses_readN bs n : n = length bs → parses (readN n) bs bs 0.
Proof.
  intros ->. unfold readN. apply parses_require; [lia|]. by apply parses_take.
Qed.

Lemma parses_go_uint n v : in_width (8 * Z.of_nat n) v →
  parses (bs ← readN n; mret (be_val bs)) (be_bytes n v) v 0.
Proof.
  intros H. eapply (parses_eq _ (be_bytes n v ++ [])); [|apply app_nil_r|by apply read_be|done].
  eapply (parses_bind _ _ _ _ _ _ 0 0); [apply parses_readN; by rewrite be_bytes_length|].
  apply parses_ret.
Qed.

Lemma parses_go_u8 v : in_width 8 v → parses readU8 (be_bytes 1 v) v 0.
Proof. apply (parses_go_uint 1). Qed.
Lemma parses_go_u16 v : in_width 16 v → parses readU16 (be_bytes 2 v) v 0.
Proof. apply (parses_go_uint 2). Qed.
Lemma parses_go_u32 v : in_width 32 v → parses readU32 (be_bytes 4 v) v 0.
Proof. apply (parses_go_uint 4). Qed.

Lemma parses_go_u64 v : in_width 64 v → parses readU64 (be_bytes 8 v) v 0.
Proof.
  intros H. unfold readU64.
  eapply (parses_eq _ (be_bytes 8 v ++ [])); [|apply app_nil_r|reflexivity|].
  - intros rest live na.
    rewrite app_nil_r.
    rewrite (bind_Ok _ _ _ _ _ (parses_readN (be_bytes 8 v) 8 eq_refl rest live na)).
    pose proof (parses_u64 v H rest live na) as Hu.
    change (be_bytes 8 v) with (be_bytes (4 + 4) v) in *. rewrite be_bytes_app in *.
    rewrite take_app_length', drop_app_length' by done. rewrite take_ge by done.
    rewrite <- app_assoc in Hu. unfold read_u64 in Hu.
    rewrite (bind_Ok _ _ _ _ _ (take_bytes_app 4 (be_bytes 4 _) _ _ _ eq_refl)) in Hu.
    rewrite (bind_Ok _ _ _ _ _ (take_bytes_app 4 (be_bytes 4 _) _ _ _ eq_refl)) in Hu.
    exact Hu.
  - done.
Qed.

Lemma parses_go_str p len : ok_str p len → parses readStr (wire_str p len) (src_bytes p len) 0.
Proof.
  intros (Hw & Hl & _). unfold readStr, wire_str. unfold in_width in Hw.
  eapply (parses_bind _ _ _ _ _ _ 0 0); [by apply parses_go_u16|]. apply parses_readN.
  unfold src_bytes. rewrite length_take.
  destruct (decide (0 < len)); [specialize (Hl ltac:(done))|]; lia.
Qed.

Lemma src_bytes_strnlen s n : src_bytes (Some s) (Z.of_nat (strnlen s n)) = strncpy s n.
Proof.
  unfold src_bytes, strncpy. rewrite Nat2Z.id. cbn [default]. unfold strnlen. revert n.
  induction s as [|c s IH]; intros n; cbn [cstr]; [cbn; by rewrite !take_nil|].
  destruct (Z.eqb_spec c 0); cbn [length]; [cbn; by rewrite take_nil|].
  destruct n as [|n]; [done|]. cbn. f_equal. apply IH.
Qed.

Lemma parses_go_cstr s n : Z.of_nat n < 65536 → bytes s →
  parses readStr (wire_cstr s n) (strncpy s n) 0.
Proof.
  intros Hn Hs. rewrite <- src_bytes_strnlen. apply parses_go_str.
  pose proof (strnlen_le_l s n). pose proof (strnlen_le s n).
  split_and!; [unfold in_width; lia|cbn; lia|done].
Qed.

Lemma u32_in_width z : in_width 32 (u32 z).
Proof. apply u32_range. Qed.

Ltac go_field :=
  lazymatch goal with
  | |- parses readU8 _ _ _ => apply parses_go_u8; assumption
  | |- parses readU16 _ _ _ => apply parses_go_u16; assumption
  | |- parses readU32 _ _ _ => apply parses_go_u32; first [assumption|apply u32_in_width]
  | |- parses readU64 _ _ _ => apply parses_go_u64; assumption
  | |- parses readStr (wire_cstr _ _) _ _ => apply parses_go_cstr; [vm_compute; reflexivity|assumption]
  | |- parses readStr _ _ _ => apply parses_go_str; assumption
  end.
Ltac go_parse :=
  repeat lazymatch goal with
  | |- parses (mret _) _ _ _ => apply parses_ret
  | |- parses (_ ≫= _) _ _ _ => eapply parses_bind; [go_field|]
  end.

Lemma parses_proc_info e : wf_proc_info e →
  parses decodeProcessInfo (wire_chain_entry e) (proc_seen e) 0.
Proof.
  intros (Hst & Hc & Ht & He & Hl). unfold decodeProcessInfo.
  parse_prepare (wire_chain_entry e); [unfold wire_chain_entry; rewrite <- !app_assoc; go_parse|done].
Qed.

Lemma parses_entries es : Forall wf_proc_info es →
  parses (decodeEntries (length es)) (mjoin (wire_chain_entry <$> es)) (proc_seen <$> es) 0.
Proof.
  induction 1 as [|e es He Hes IH]; [apply parses_ret|].
  change (mjoin (wire_chain_entry <$> (e :: es)))
    with (wire_chain_entry e ++ mjoin (wire_chain_entry <$> es)).
  cbn [length decodeEntries].
  eapply (parses_bind _ _ _ _ _ _ 0 0); [by apply parses_proc_info|].
  eapply (parses_eq _ (mjoin (wire_chain_entry <$> es) ++ [])); [|apply app_nil_r|reflexivity|done].
  eapply (parses_bind _ _ _ _ _ _ 0 0); [apply IH|]. apply parses_ret.
Qed.

Lemma chain_depth_range c : match c with Some c => wf_chain c | None => True end →
  0 ≤ chain_depth c ≤ 16.
Proof.
  destruct c as [c|]; [|simpl; lia]. intros (_ & Hd & _). unfold chain_depth.
  change (Z.of_nat IG_PA_MAX_DEPTH) with 16. unfold u8.
  destruct (Z.ltb_spec 16 (ch_depth c)); rewrite wrap_small; unfold in_width; lia.
Qed.

Lemma chain_trunc_range c : 0 ≤ chain_trunc c ≤ 1.
Proof. destruct c as [c|]; simpl; [destruct (_ =? 0)|]; lia. Qed.

Lemma chain_sent_length c : match c with Some c => wf_chain c | None => True end →
  length (chain_sent c) = Z.to_nat (chain_depth c).
Proof.
  intros H. pose proof (chain_depth_range c H). destruct c as [c|]; [|done].
  destruct H as (Hl & _). unfold chain_sent. rewrite length_take, Hl.
  change IG_PA_MAX_DEPTH with 16%nat. lia.
Qed.

Lemma chain_sent_wf c : match c with Some c => wf_chain c | None => True end →
  Forall wf_proc_info (chain_sent c).
Proof. destruct c as [c|]; [|constructor]. intros (_ & _ & H). by apply Forall_take. Qed.

(** Running a decoder at the very end of its input. *)
Lemma parses_end {A} (m : reader A) bs a : parses m bs a 0 → m (RState bs 0 0) = Ok a (RState [] 0 0).
Proof. intros H. specialize (H [] 0%nat 0%nat). by rewrite app_nil_r in H. Qed.

Lemma parses_bind_end {A B} (m : reader A) (f : A → reader B) b1 b2 a o :
  parses m b1 a 0 → f a (RState b2 0 0) = o → (m ≫= f) (RState (b1 ++ b2) 0 0) = o.
Proof. intros H1 H2. by rewrite (bind_Ok _ _ _ _ _ (H1 b2 0%nat 0%nat)). Qed.

Lemma check_end {A} c (f : reader A) bs o :
  (c ≤ length bs)%nat → f (RState bs 0 0) = o →
  (n ← remaining; _ ← require (bool_decide (c ≤ n)%nat); f) (RState bs 0 0) = o.
Proof.
  intros Hc Hf. unfold mbind, cursor_bind, remaining, require. cbn [r_rest].
  by rewrite bool_decide_eq_true_2.
Qed.

Lemma require_end {A} (c : bool) (f : reader A) s o :
  c = true → f s = o → (_ ← require c; f) s = o.
Proof. by intros -> Hf. Qed.

Lemma DecodeFileEvent_wire m : wf_file_event m →
  DecodeFileEvent (RState (wire_file_event m) 0 0) = Ok (event_seen m) (RState [] 0 0).
Proof.
  intros (Hid & Ht & Hp & Hn & Hperm & Hd & Hpid & Hts & Hdev & Hino & Hb & Hu & Hs & Hc & Hch).
  pose proof (chain_depth_range _ Hch) as Hdr. pose proof (chain_trunc_range (me_chain m)) as Htr.
  unfold DecodeFileEvent, wire_file_event, wire_event_base, wire_chain, wire_chain_meta.
  rewrite <- !app_assoc.
  apply check_end; [rewrite !length_app, !be_bytes_length; lia|].
  do 14 (eapply parses_bind_end; [go_field|]).
  eapply parses_bind_end; [apply parses_go_u8; unfold in_width; lia|].
  apply require_end; [apply Z.leb_le; unfold MaxProcessChainDepth; lia|].
  eapply parses_bind_end; [apply parses_go_u8; unfold in_width; lia|].
  rewrite <- (app_nil_r (mjoin _)).
  eapply parses_bind_end.
  { rewrite <- chain_sent_length by done. by apply parses_entries, chain_sent_wf. }
  done.
Qed.

Lemma DecodeRegister_wire m : wf_register m →
  DecodeRegister (RState (wire_register m) 0 0) = Ok (register_seen m) (RState [] 0 0).
Proof.
  intros (Hh & Hi & Ht & Ho). apply parses_end. unfold DecodeRegister.
  parse_prepare (wire_register m); [unfold wire_register; rewrite <- !app_assoc; go_parse|done].
Qed.

(** ** Properties *)

(** Interoperability: every FILE_EVENT payload the agent's encoder
    produces is accepted by the collector, which recovers every field, the
    process chain included (ids as unsigned 32-bit numbers, strings cut at
    their first NUL and array bound), and finds no trailing byte. *)
Theorem collector_reads_agent_event (m : ig_msg_file_event) (n : nat) (s : wstate)
    (Hwf : wf_file_event m) (Henc : ig_file_event_encode m (WState n []) = Ok tt s) :
  DecodeFileEvent (RState (w_out s) 0 0) = Ok (event_seen m) (RState [] 0 0).
Proof.
  destruct (file_event_encodes m Hwf) as [He Hf].
  destruct (decide (length (wire_file_event m) ≤ n)%nat) as [H|H].
  - rewrite He in Henc by done. injection Henc as <-. by apply DecodeFileEvent_wire.
  - destruct (Hf n [] ltac:(lia)) as [s' Hs']. congruence.
Qed.

Lemma collector_reads_agent_event_witness :
  ∃ s, ig_file_event_encode sample_event (WState 400 []) = Ok tt s ∧
       DecodeFileEvent (RState (w_out s) 0 0) = Ok (event_seen sample_event) (RState [] 0 0).
Proof.
  eexists. split; [vm_compute; reflexivity|].
  apply (collector_reads_agent_event sample_event 400 _ sample_event_wf). vm_compute. reflexivity.
Defined.

(** Interoperability of registration: the collector reads back exactly
    the host name, address bytes, monitor type and OS name the agent sent. *)
Theorem collector_reads_agent_register (m : ig_msg_register) (n : nat) (s : wstate)
    (Hwf : wf_register m) (Henc : ig_register_encode m (WState n []) = Ok tt s) :
  DecodeRegister (RState (w_out s) 0 0) = Ok (register_seen m) (RState [] 0 0).
Proof.
  destruct (register_encodes m Hwf) as [He Hf].
  destruct (decide (length (wire_register m) ≤ n)%nat) as [H|H].
  - rewrite He in Henc by done. injection Henc as <-. by apply DecodeRegister_wire.
  - destruct (Hf n [] ltac:(lia)) as [s' Hs']. congruence.
Qed.

Lemma collector_reads_agent_register_witness :
  ∃ s, ig_register_encode sample_register (WState 1024 []) = Ok tt s ∧
       DecodeRegister (RState (w_out s) 0 0) = Ok (register_seen sample_register) (RState [] 0 0).
Proof.
  eexists. split; [vm_compute; reflexivity|].
  apply (collector_reads_agent_register sample_register 1024 _ sample_register_wf).
  vm_compute. reflexivity.
Defined.
