(* ===== verification/EventQueue.v ===== *)
(** * The user-space event queue (ig_queue.c)

    A ring of [IG_EVENT_QUEUE_SIZE] slots under one mutex; a push into a full
    ring drops the oldest event and counts it. The abstract state is the list
    of queued events, oldest first. [ig_queue_pop] releases the mutex while it
    waits: what the other threads push meanwhile is an explicit argument. *)

From S2P Require Import Prelude Bytes Monitor.

(* @src realtime/monitor.h:79-87 ig_event_queue_t *)
Record ig_event_queue := EventQueue {
  q_events : list ig_event;   (** the [IG_EVENT_QUEUE_SIZE] slots *)
  q_head : nat;
  q_tail : nat;
  q_count : nat;
  q_dropped : Z }.            (** a [uint64_t] counter *)

#[local] Abbreviation SIZE := IG_EVENT_QUEUE_SIZE.
#[local] Arguments Nat.modulo : simpl never.
#[local] Arguments IG_EVENT_QUEUE_SIZE : simpl never.

(* @src ig_queue.c:16-26 ig_queue_init *)
Definition ig_queue_init : ig_event_queue := EventQueue (replicate SIZE event_zero) 0 0 0 0.

(* @src ig_queue.c:33-50 ig_queue_push *)
Definition ig_queue_push (q : ig_event_queue) (ev : ig_event) : ig_event_queue :=
  let q := if SIZE <=? q_count q
           then EventQueue (q_events q) ((q_head q + 1) mod SIZE) (q_tail q)
                           (q_count q - 1) (u64 (q_dropped q + 1)%Z)
           else q in
  EventQueue (<[q_tail q := ev]> (q_events q)) (q_head q) ((q_tail q + 1) mod SIZE)
             (q_count q + 1) (q_dropped q).

(* @src ig_queue.c:52-57 ig_queue_dropped *)
Definition ig_queue_dropped (q : ig_event_queue) : Z := q_dropped q.

(** The absolute deadline given to [pthread_cond_timedwait]: seconds and
    nanoseconds, from [gettimeofday] and the timeout. *)
(* @src ig_queue.c:68-76 ig_queue_pop *)
Definition pop_deadline (tv_sec tv_usec timeout_ms : Z) : Z * Z :=
  let sec := (tv_sec + Z.quot timeout_ms 1000)%Z in
  let nsec := (tv_usec * 1000 + Z.rem timeout_ms 1000 * 1000000)%Z in
  if (1000000000 <=? nsec)%Z then ((sec + 1)%Z, (nsec - 1000000000)%Z) else (sec, nsec).

(** One call of [pthread_cond_timedwait]: what other threads pushed while the
    mutex was released, and whether the call returned 0. *)
Inductive cond_wait := Signalled (pushed : list ig_event) | TimedOut (pushed : list ig_event).

Inductive pop_result :=
  | PopBlocked               (** still waiting at the end of the given waits *)
  | PopTimeout               (** returns -1 *)
  | PopEvent (ev : ig_event) (** returns 0, the event in the out parameter *).

(** The code after the waiting loop. *)
Definition pop_front (q : ig_event_queue) : ig_event_queue * pop_result :=
  (EventQueue (q_events q) ((q_head q + 1) mod SIZE) (q_tail q) (q_count q - 1) (q_dropped q),
   match q_events q !! q_head q with Some ev => PopEvent ev | None => PopBlocked end).

(* @src ig_queue.c:59-91 ig_queue_pop *)
Fixpoint ig_queue_pop (q : ig_event_queue) (timeout_ms : Z) (waits : list cond_wait)
    : ig_event_queue * pop_result :=
  if q_count q =? 0 then
    if (timeout_ms <=? 0)%Z then (q, PopTimeout)
    else match waits with
         | [] => (q, PopBlocked)
         | TimedOut evs :: _ => (fold_left ig_queue_push evs q, PopTimeout)
         | Signalled evs :: waits => ig_queue_pop (fold_left ig_queue_push evs q) timeout_ms waits
         end
  else pop_front q.

(** ** Abstraction and invariant *)

(** The queued events, oldest first. *)
Definition contents (q : ig_event_queue) : list ig_event :=
  take (q_count q) (rotate (q_head q) (q_events q)).

Definition queue_ok (q : ig_event_queue) : Prop :=
  length (q_events q) = SIZE ∧ q_head q < SIZE ∧ q_count q ≤ SIZE ∧
  q_tail q = (q_head q + q_count q) mod SIZE.

Lemma size_pos : 0 < SIZE.
Proof. unfold IG_EVENT_QUEUE_SIZE. lia. Qed.

Lemma queue_init_ok : queue_ok ig_queue_init ∧ contents ig_queue_init = [].
Proof.
  unfold queue_ok. cbn [ig_queue_init q_events q_head q_count q_tail]. split; [|done].
  pose proof size_pos. rewrite length_replicate, Nat.add_0_r, Nat.mod_small by lia. lia.
Qed.

(** Index arithmetic of the ring. *)
Lemma ring_index b i n : b < n → i ≤ n →
  (b + i) mod n = if decide (b + i < n) then b + i else b + i - n.
Proof.
  intros Hb Hi. case_decide; [by apply Nat.mod_small|].
  symmetry. apply (Nat.mod_unique _ _ 1); lia.
Qed.

Lemma lookup_ring (l : list ig_event) b i : b < length l → i < length l →
  rotate b l !! i = l !! ((b + i) mod length l).
Proof.
  intros Hb Hi. rewrite lookup_rotate_r by done. rewrite rotate_nat_add_alt by done.
  rewrite ring_index by lia. done.
Qed.

Lemma contents_lookup q i : queue_ok q → i < q_count q →
  contents q !! i = q_events q !! ((q_head q + i) mod SIZE).
Proof.
  intros (Hl & Hh & Hc & Ht) Hi. unfold contents. rewrite lookup_take_lt by lia.
  rewrite lookup_ring by lia. by rewrite Hl.
Qed.

Lemma contents_length q : queue_ok q → length (contents q) = q_count q.
Proof.
  intros (Hl & Hh & Hc & Ht). unfold contents. rewrite length_take, length_rotate. lia.
Qed.

Lemma contents_ext q l : queue_ok q → length l = q_count q →
  (∀ i, i < q_count q → l !! i = q_events q !! ((q_head q + i) mod SIZE)) → contents q = l.
Proof.
  intros Hq Hl H. apply list_eq_same_length with (q_count q); [done|by apply contents_length|].
  intros i x y Hi Hx Hy. rewrite contents_lookup in Hx by done. rewrite H in Hy by done. congruence.
Qed.

(** The first half of a push: make room. *)
Definition make_room (q : ig_event_queue) : ig_event_queue :=
  if SIZE <=? q_count q
  then EventQueue (q_events q) ((q_head q + 1) mod SIZE) (q_tail q)
                  (q_count q - 1) (u64 (q_dropped q + 1)%Z)
  else q.

Lemma drop_head_ok q : queue_ok q → 0 < q_count q → ∀ d,
  let q' := EventQueue (q_events q) ((q_head q + 1) mod SIZE) (q_tail q) (q_count q - 1) d in
  queue_ok q' ∧ contents q' = tail (contents q).
Proof.
  intros Hq Hpos d q'. pose proof Hq as (Hl & Hh & Hc & Ht). pose proof size_pos.
  assert (Hq' : queue_ok q').
  { unfold queue_ok, q'; cbn. split_and!; [done|apply Nat.mod_upper_bound; lia|lia|].
    rewrite Ht, Nat.Div0.add_mod_idemp_l. f_equal. lia. }
  split; [done|]. apply contents_ext; [done| |].
  { pose proof (contents_length q Hq). destruct (contents q); simpl in *; lia. }
  intros i Hi. rewrite lookup_tail, contents_lookup by (cbn in Hi; done || lia).
  cbn. rewrite Nat.Div0.add_mod_idemp_l. do 2 f_equal. lia.
Qed.

Lemma make_room_ok q : queue_ok q →
  queue_ok (make_room q) ∧ q_count (make_room q) < SIZE ∧
  contents (make_room q) = if SIZE <=? length (contents q) then tail (contents q) else contents q.
Proof.
  intros Hq. rewrite contents_length by done. unfold make_room.
  pose proof size_pos. pose proof Hq as (Hl & Hh & Hc & Ht).
  destruct (Nat.leb_spec SIZE (q_count q)); [|done].
  destruct (drop_head_ok q Hq ltac:(lia) (u64 (q_dropped q + 1)%Z)) as [Hok Hcont].
  split_and!; [done|cbn; lia|done].
Qed.

Lemma append_ok q ev : queue_ok q → q_count q < SIZE →
  let q' := EventQueue (<[q_tail q := ev]> (q_events q)) (q_head q) ((q_tail q + 1) mod SIZE)
                       (q_count q + 1) (q_dropped q) in
  queue_ok q' ∧ contents q' = contents q ++ [ev].
Proof.
  intros Hq Hlt q'. pose proof Hq as (Hl & Hh & Hc & Ht). pose proof size_pos.
  assert (Hq' : queue_ok q').
  { unfold queue_ok, q'; cbn. rewrite length_insert. split_and!; [done..|lia|].
    rewrite Ht, Nat.Div0.add_mod_idemp_l. f_equal. lia. }
  split; [done|]. apply contents_ext; [done| |].
  { rewrite length_app, contents_length by done. cbn. lia. }
  intros i Hi. cbn [q' q_events q_head q_count] in *. rewrite Ht.
  pose proof (contents_length q Hq) as Hcl.
  destruct (decide (i = q_count q)) as [->|Hne].
  - rewrite lookup_app_r by lia.
    rewrite Hcl, Nat.sub_diag. rewrite list_lookup_insert_eq; [done|].
    rewrite Hl. apply Nat.mod_upper_bound. lia.
  - rewrite lookup_app_l by lia.
    rewrite contents_lookup by (done || lia). rewrite list_lookup_insert_ne; [done|].
    rewrite !ring_index by lia. repeat case_decide; lia.
Qed.

(** The abstract queue: a bounded list that drops its oldest element. *)
Definition spec_push (l : list ig_event) (ev : ig_event) : list ig_event :=
  (if SIZE <=? length l then tail l else l) ++ [ev].

Lemma push_refines q ev : queue_ok q →
  queue_ok (ig_queue_push q ev) ∧ contents (ig_queue_push q ev) = spec_push (contents q) ev.
Proof.
  intros Hq. destruct (make_room_ok q Hq) as (Hok & Hlt & Hc).
  destruct (append_ok (make_room q) ev Hok Hlt) as [Hok' Hc'].
  unfold spec_push. by rewrite <- Hc.
Qed.

Lemma pushes_refine evs q : queue_ok q →
  queue_ok (fold_left ig_queue_push evs q) ∧
  contents (fold_left ig_queue_push evs q) = fold_left spec_push evs (contents q).
Proof.
  revert q. induction evs as [|e evs IH]; intros q Hq; [done|].
  destruct (push_refines q e Hq) as [Hok Hc]. cbn. rewrite <- Hc. by apply IH.
Qed.

(** Every event the ring holds is well typed. *)
Definition queue_wf (q : ig_event_queue) : Prop := queue_ok q ∧ Forall wf_event (contents q).

Lemma spec_push_Forall (P : ig_event → Prop) l ev : Forall P l → P ev → Forall P (spec_push l ev).
Proof.
  intros Hl He. apply Forall_app. split; [|by constructor].
  case_match; [|done]. destruct l; [done|by inversion_clear Hl].
Qed.

Lemma queue_init_wf : queue_wf ig_queue_init.
Proof. destruct queue_init_ok as [H Hc]. split; [done|]. rewrite Hc. constructor. Qed.

Lemma queue_push_wf q ev : queue_wf q → wf_event ev → queue_wf (ig_queue_push q ev).
Proof.
  intros [Hq Hw] He. destruct (push_refines q ev Hq) as [H Hc]. split; [done|].
  rewrite Hc. by apply spec_push_Forall.
Qed.

Lemma pop_front_refines q : queue_ok q → 0 < q_count q →
  ∃ ev, contents q = ev :: tail (contents q) ∧ (pop_front q).2 = PopEvent ev ∧
  queue_ok (pop_front q).1 ∧ contents (pop_front q).1 = tail (contents q) ∧
  q_dropped (pop_front q).1 = q_dropped q.
Proof.
  intros Hq Hpos. destruct (drop_head_ok q Hq Hpos (q_dropped q)) as [Hok Hc].
  pose proof (contents_lookup q 0 Hq Hpos) as H0. pose proof (contents_length q Hq) as Hlen.
  rewrite Nat.add_0_r, Nat.mod_small in H0 by apply Hq.
  destruct (contents q) as [|ev l] eqn:E; [simpl in Hlen; lia|]. cbn in H0.
  exists ev. unfold pop_front. rewrite <- H0. done.
Qed.

(** The specification of [ig_queue_pop] over the abstract list. *)
Fixpoint spec_pop (l : list ig_event) (timeout_ms : Z) (waits : list cond_wait)
    : list ig_event * pop_result :=
  match l with
  | ev :: l => (l, PopEvent ev)
  | [] =>
    if (timeout_ms <=? 0)%Z then ([], PopTimeout)
    else match waits with
         | [] => ([], PopBlocked)
         | TimedOut evs :: _ => (fold_left spec_push evs [], PopTimeout)
         | Signalled evs :: waits => spec_pop (fold_left spec_push evs []) timeout_ms waits
         end
  end.

Lemma pop_refines waits q t : queue_ok q →
  queue_ok (ig_queue_pop q t waits).1 ∧
  contents (ig_queue_pop q t waits).1 = (spec_pop (contents q) t waits).1 ∧
  (ig_queue_pop q t waits).2 = (spec_pop (contents q) t waits).2.
Proof.
  revert q. induction waits as [|w waits IH]; intros q Hq;
    pose proof (contents_length q Hq) as Hlen; cbn [ig_queue_pop spec_pop].
  all: destruct (Nat.eqb_spec (q_count q) 0) as [H0|H0];
    [rewrite H0 in Hlen; apply nil_length_inv in Hlen; rewrite Hlen
    |destruct (pop_front_refines q Hq ltac:(lia)) as (ev & Hev & Hr & Hok & Hc & _);
     rewrite Hev, <- Hc, Hr; done].
  all: destruct (t <=? 0)%Z; [by rewrite <- Hlen|].
  - by rewrite <- Hlen.
  - destruct w as [evs|evs]; destruct (pushes_refine evs q Hq) as [Hok Hc]; rewrite Hlen in Hc;
      rewrite <- Hc; [by apply IH|done].
Qed.

(** ** Histories

    Every operation runs under the mutex, so a concurrent execution is a
    sequence of pushes and (non-waiting) pops. *)
Inductive queue_op := OpPush (ev : ig_event) | OpPop.

Record history := History {
  h_queue : ig_event_queue; h_pushed : list ig_event; h_popped : list ig_event }.

Definition history_step (h : history) (o : queue_op) : history :=
  match o with
  | OpPush ev => History (ig_queue_push (h_queue h) ev) (h_pushed h ++ [ev]) (h_popped h)
  | OpPop =>
    match ig_queue_pop (h_queue h) 0 [] with
    | (q, PopEvent ev) => History q (h_pushed h) (h_popped h ++ [ev])
    | (q, _) => History q (h_pushed h) (h_popped h)
    end
  end.

Definition run_history (ops : list queue_op) : history :=
  fold_left history_step ops (History ig_queue_init [] []).

Record history_ok (h : history) : Prop := {
  ho_queue : queue_ok (h_queue h);
  ho_order : h_popped h ++ contents (h_queue h) `sublist_of` h_pushed h;
  ho_count : ∃ lost, q_dropped (h_queue h) = u64 (Z.of_nat lost) ∧
    length (h_pushed h) = length (h_popped h) + length (contents (h_queue h)) + lost }.

Lemma push_dropped q ev :
  q_dropped (ig_queue_push q ev) =
  if SIZE <=? q_count q then u64 (q_dropped q + 1)%Z else q_dropped q.
Proof. unfold ig_queue_push. by destruct (SIZE <=? q_count q). Qed.

Lemma history_step_ok h o : history_ok h → history_ok (history_step h o).
Proof.
  intros [Hq Hord (lost & Hd & Hcnt)]. destruct o as [ev|]; cbn [history_step].
  - destruct (push_refines _ ev Hq) as [Hok Hc]. pose proof (contents_length _ Hq) as Hlen.
    split; cbn [h_queue h_pushed h_popped]; [done| |]; rewrite Hc.
    + unfold spec_push. rewrite app_assoc. apply sublist_app; [|done].
      destruct (SIZE <=? _); [|done]. etrans; [|exact Hord].
      apply sublist_app; [done|]. destruct (contents _); [done|]. simpl. by constructor.
    + rewrite push_dropped, !length_app. cbn [length]. unfold spec_push.
      rewrite length_app. cbn [length]. rewrite <- Hlen.
      destruct (Nat.leb_spec SIZE (length (contents (h_queue h)))) as [Hf|Hf].
      * exists (S lost). split.
        { rewrite Hd. unfold u64, wrap. rewrite Zplus_mod_idemp_l. f_equal. lia. }
        pose proof size_pos. destruct (contents (h_queue h)); cbn [tail length] in *; lia.
      * exists lost. split; [done|]. lia.
  - pose proof (contents_length _ Hq) as Hlen.
    cbn [ig_queue_pop]. destruct (Nat.eqb_spec (q_count (h_queue h)) 0) as [H0|H0].
    + split; cbn; eauto.
    + destruct (pop_front_refines _ Hq ltac:(lia)) as (ev & Hev & Hr & Hok & Hc & Hdr).
      rewrite (surjective_pairing (pop_front (h_queue h))), Hr.
      split; cbn [h_queue h_pushed h_popped]; [done| |]; rewrite Hc.
      * rewrite <- app_assoc. cbn [app]. by rewrite <- Hev.
      * exists lost. rewrite Hdr. split; [done|]. rewrite Hev in Hcnt. cbn [length] in Hcnt.
        rewrite length_app. cbn [length]. lia.
Qed.

Lemma run_history_ok ops : history_ok (run_history ops).
Proof.
  unfold run_history. rewrite <- (rev_involutive ops). induction (rev ops) as [|o l IH].
  - destruct queue_init_ok as [Hok Hc].
    split; cbn [rev fold_left h_queue h_pushed h_popped]; [done|by rewrite Hc|].
    exists 0. by rewrite Hc.
  - cbn [rev]. rewrite fold_left_app. by apply history_step_ok.
Qed.

(** ** Properties *)

(** [C19] The ring refines a bounded list: a push appends, dropping the oldest
    event of a full queue; a pop takes the oldest event, times out on an empty
    queue, or waits and retries with what other threads pushed meanwhile. *)
Theorem queue_refines_bounded_list (q : ig_event_queue) (Hq : queue_ok q) :
  (∀ ev, queue_ok (ig_queue_push q ev) ∧
         contents (ig_queue_push q ev) = spec_push (contents q) ev) ∧
  (∀ t waits, queue_ok (ig_queue_pop q t waits).1 ∧
         contents (ig_queue_pop q t waits).1 = (spec_pop (contents q) t waits).1 ∧
         (ig_queue_pop q t waits).2 = (spec_pop (contents q) t waits).2).
Proof.
  split; [intros ev; by apply push_refines|intros t waits; by apply pop_refines].
Qed.

Lemma queue_refines_bounded_list_witness :
  contents (ig_queue_push ig_queue_init event_zero) = [event_zero].
Proof.
  destruct (queue_refines_bounded_list ig_queue_init (proj1 queue_init_ok)) as [H _].
  rewrite (proj2 (H event_zero)). rewrite (proj2 queue_init_ok). reflexivity.
Defined.

(** Accounting over any interleaving of producers and the consumer: the
    events delivered and still queued are, in order, a subsequence of those
    pushed, and the ones missing are exactly as many as the [dropped] counter
    says (modulo 2^64). *)
Theorem queue_accounts_for_every_event (ops : list queue_op) :
  let h := run_history ops in
  h_popped h ++ contents (h_queue h) `sublist_of` h_pushed h ∧
  ∃ lost, ig_queue_dropped (h_queue h) = u64 (Z.of_nat lost) ∧
    length (h_pushed h) = length (h_popped h) + q_count (h_queue h) + lost.
Proof.
  intros h. destruct (run_history_ok ops) as [Hq Hord (lost & Hd & Hc)]. split; [done|].
  exists lost. rewrite (contents_length _ Hq) in Hc. done.
Qed.

(** The deadline handed to [pthread_cond_timedwait] is a valid
    [timespec] (nanoseconds below one second) and lies exactly [timeout_ms]
    milliseconds after the time of day read. *)
Theorem pop_deadline_exact (tv_sec tv_usec timeout_ms : Z)
    (Hus : (0 ≤ tv_usec < 1000000)%Z) (Ht : (0 < timeout_ms)%Z) :
  let '(s, ns) := pop_deadline tv_sec tv_usec timeout_ms in
  (0 ≤ ns < 1000000000)%Z ∧
  (s * 1000000000 + ns =
   (tv_sec * 1000000 + tv_usec) * 1000 + timeout_ms * 1000000)%Z.
Proof.
  unfold pop_deadline. pose proof (Z.quot_rem' timeout_ms 1000).
  pose proof (Z.rem_bound_pos timeout_ms 1000 ltac:(lia) ltac:(lia)).
  set (r := Z.rem timeout_ms 1000) in *. set (d := Z.quot timeout_ms 1000) in *.
  destruct (Z.leb_spec 1000000000 (tv_usec * 1000 + r * 1000000)); lia.
Qed.

Lemma pop_deadline_exact_witness :
  pop_deadline 100 999999 500 = (101, 499999000)%Z ∧
  (0 ≤ 499999000 < 1000000000)%Z.
Proof.
  split; [reflexivity|].
  exact (proj1 (pop_deadline_exact 100 999999 500 ltac:(lia) ltac:(lia))).
Defined.
