(* ===== verification/InotifyMon.v ===== *)
(** * The inotify backend (realtime/inotify_mon.c)

    The table of watched directories, the kernel's watches behind it, and the
    translation of kernel events into queue events. The file system is a
    parameter; one [read] of the descriptor gives whole events, as inotify(7)
    says. *)

From Stdlib Require Import Sorting.Permutation.
From S2P Require Import Prelude Bytes CText Monitor EventQueue Walker.

Local Open Scope Z_scope.

(** ** Event masks *)

Definition IN_ACCESS : Z := 0x1.
Definition IN_MODIFY : Z := 0x2.
Definition IN_ATTRIB : Z := 0x4.
Definition IN_MOVED_FROM : Z := 0x40.
Definition IN_MOVED_TO : Z := 0x80.
Definition IN_CREATE : Z := 0x100.
Definition IN_DELETE : Z := 0x200.
Definition IN_DELETE_SELF : Z := 0x400.
Definition IN_ISDIR : Z := 0x40000000.

(* @src realtime/inotify_mon.c:36-45 inotify_mask_to_ig *)
Definition inotify_mask_to_ig (mask : Z) : ig_event_type :=
  if has_bits mask IN_CREATE then IG_EVENT_CREATE
  else if has_bits mask IN_MODIFY then IG_EVENT_MODIFY
  else if has_bits mask IN_DELETE then IG_EVENT_DELETE
  else if has_bits mask IN_DELETE_SELF then IG_EVENT_DELETE
  else if has_bits mask IN_ATTRIB then IG_EVENT_ATTRIB
  else if has_bits mask (Z.lor IN_MOVED_FROM IN_MOVED_TO) then IG_EVENT_MOVE
  else if has_bits mask IN_ACCESS then IG_EVENT_ACCESS
  else IG_EVENT_UNKNOWN.

(** ** State *)

(** The kernel's side of the descriptor: watch numbers and the inodes they are
    on, and the next number. *)
Record in_kernel := InKernel { ik_watches : gmap Z Z; ik_next : Z }.

(** A struct inotify_event: [ie_name] is empty when its [len] is 0. *)
Record in_event := InEvent { ie_wd : Z; ie_mask : Z; ie_name : cstring }.

(** [wd_map] up to [wd_count], the protected paths of the configuration, and the
    queue of the backend. *)
(* @src realtime/inotify_mon.c:25-33 inotify_priv_t *)
Record inotify_priv := InotifyPriv {
  ip_map : list (Z * cstring); ip_protect : option (list cstring); ip_kernel : in_kernel;
  ip_queue : ig_event_queue; ip_alerts : list cstring }.

Definition set_map (m : list (Z * cstring)) (k : in_kernel) (s : inotify_priv) : inotify_priv :=
  InotifyPriv m (ip_protect s) k (ip_queue s) (ip_alerts s).

Section inotify.
(** The inode behind a path, and the entries of a directory with their
    [d_type == DT_DIR]. *)
Variable inode_of : cstring → option Z.
Variable readdir : cstring → option (list (cstring * bool)).

(** [inotify_add_watch]: an inode already watched keeps its number. *)
Definition inotify_add_watch (path : cstring) (k : in_kernel) : option (Z * in_kernel) :=
  ino ← inode_of path;
  match filter (λ p : Z * Z, p.2 = ino) (map_to_list (ik_watches k)) with
  | (wd, _) :: _ => Some (wd, k)
  | [] => Some (ik_next k, InKernel (<[ik_next k := ino]> (ik_watches k)) (ik_next k + 1))
  end.
Definition inotify_rm_watch (wd : Z) (k : in_kernel) : in_kernel :=
  InKernel (delete wd (ik_watches k)) (ik_next k).

(* @src realtime/inotify_mon.c:47-53 wd_to_path *)
Definition wd_to_path (s : inotify_priv) (wd : Z) : cstring :=
  match find_index (λ e : Z * cstring, e.1 =? wd) (ip_map s) with
  | Some i => match ip_map s !! i with Some (_, p) => p | None => lit "?" end
  | None => lit "?"
  end.

(* @src realtime/inotify_mon.c:55-62 is_protected_path *)
Definition is_protected_path (s : inotify_priv) (path : cstring) : bool :=
  match ip_protect s with
  | None => false
  | Some ps => existsb (λ p, bool_decide (p = path)) ps
  end.

(** Trailing slashes go, but for the root. *)
(* @src realtime/inotify_mon.c:70-75 add_single_watch *)
Definition normalise (path : cstring) : cstring := rev (strip_slashes (rev (strncpy path (IG_MAX_PATH - 1)))).

(** The result code. *)
(* @src realtime/inotify_mon.c:64-101 add_single_watch *)
Definition add_single_watch (s : inotify_priv) (path : cstring) : Z * inotify_priv :=
  if (IG_MAX_WATCHES <=? length (ip_map s))%nat then (-1, s)
  else
    let npath := normalise path in
    if existsb (λ e : Z * cstring, bool_decide (e.2 = npath)) (ip_map s) then (0, s)
    else
      match inotify_add_watch npath (ip_kernel s) with
      | None => (-1, s)
      | Some (wd, k) => (0, set_map (ip_map s ++ [(wd, strncpy npath (IG_MAX_PATH - 1))]) k s)
      end.

(** [snprintf(sub, sizeof(sub), "%s/%s", base, name)] *)
Definition join_path (base name : cstring) : cstring := take (IG_MAX_PATH - 1) (base ++ 47 :: name).

(** [fuel] bounds the depth; [None] when it runs out. *)
(* @src realtime/inotify_mon.c:103-121 add_recursive_watch *)
Fixpoint add_recursive_watch (fuel : nat) (s : inotify_priv) (base : cstring) : option (Z * inotify_priv) :=
  let s := (add_single_watch s base).2 in
  match readdir base, fuel with
  | None, _ => Some (-1, s)
  | Some _, O => None
  | Some entries, S fuel =>
      s ← fold_left (λ acc (e : cstring * bool), s ← acc;
            if negb e.2 || dot_entry e.1 then Some s
            else '(_, s) ← add_recursive_watch fuel s (join_path base e.1); Some s)
          entries (Some s);
      Some (0, s)
  end.

(* @src realtime/inotify_mon.c:145-158 inotify_add_watch_be *)
Definition inotify_add_watch_be (fuel : nat) (s : inotify_priv) (path : cstring) (recursive : bool)
    : option (Z * inotify_priv) :=
  let npath := normalise path in
  if recursive then add_recursive_watch fuel s npath else Some (add_single_watch s npath).

(** One pass over the table; the last entry takes the place of a removed one,
    which is then looked at again. The fuel is the number of entries left. *)
(* @src realtime/inotify_mon.c:163-175 inotify_remove_watch_be *)
Fixpoint remove_loop (fuel i : nat) (path : cstring) (ws : list (Z * cstring)) (k : in_kernel)
    : list (Z * cstring) * in_kernel :=
  match fuel, ws !! i with
  | S fuel, Some (wd, p) =>
      if is_prefix path p then
        let n := length ws in
        let ws := match ws !! (n - 1)%nat with Some e => <[i := e]> ws | None => ws end in
        remove_loop fuel i path (take (n - 1) ws) (inotify_rm_watch wd k)
      else remove_loop fuel (S i) path ws k
  | _, _ => (ws, k)
  end.

(* @src realtime/inotify_mon.c:160-177 inotify_remove_watch_be *)
Definition inotify_remove_watch_be (s : inotify_priv) (path : cstring) : Z * inotify_priv :=
  let '(ws, k) := remove_loop (length (ip_map s)) 0 path (ip_map s) (ip_kernel s) in
  (0, set_map ws k s).

(** The queue event of a kernel event; [now] is [time(NULL)]. *)
(* @src realtime/inotify_mon.c:200-213 inotify_poll_events_be *)
Definition event_of_inotify (s : inotify_priv) (now : Z) (ev : in_event) : ig_event :=
  Event (inotify_mask_to_ig (ie_mask ev)) IG_SOURCE_INOTIFY (join_path (wd_to_path s (ie_wd ev)) (ie_name ev))
    (strncpy (ie_name ev) 255) now 0 0 0 0 0 0 [] pid_chain_zero.

(** One kernel event: nothing without a name; else one queue event, and a new
    directory is watched. *)
(* @src realtime/inotify_mon.c:196-241 inotify_poll_events_be *)
Definition handle_in_event (fuel : nat) (now : Z) (s : inotify_priv) (ev : in_event) : option (Z * inotify_priv) :=
  match ie_name ev with
  | [] => Some (0, s)
  | _ =>
      let fe := event_of_inotify s now ev in
      let dir := wd_to_path s (ie_wd ev) in
      let alerts := if is_protected_path s (ev_path fe) then ip_alerts s ++ [ev_path fe] else ip_alerts s in
      let s := InotifyPriv (ip_map s) (ip_protect s) (ip_kernel s) (ig_queue_push (ip_queue s) fe) alerts in
      if has_bits (ie_mask ev) IN_CREATE && has_bits (ie_mask ev) IN_ISDIR then
        '(_, s) ← add_recursive_watch fuel s (join_path dir (ie_name ev)); Some (1, s)
      else Some (1, s)
  end.

(** [evs]: the events of one [read]; [None] when [select] times out or the read
    fails. The result is the number of events queued. *)
(* @src realtime/inotify_mon.c:179-244 inotify_poll_events_be *)
Definition inotify_poll_events_be (fuel : nat) (now : Z) (s : inotify_priv) (evs : option (list in_event))
    : option (Z * inotify_priv) :=
  match evs with
  | None => Some (0, s)
  | Some evs =>
      fold_left (λ acc ev, '(count, s) ← acc; '(n, s) ← handle_in_event fuel now s ev; Some (count + n, s))
        evs (Some (0, s))
  end.

(** [cfg], [queue] and the descriptor of [inotify_init1]. *)
(* @src realtime/inotify_mon.c:125-143 inotify_init_be *)
Definition inotify_init_be (alloc_ok init_ok : bool) (protect : option (list cstring)) (q : ig_event_queue)
    : option inotify_priv :=
  if alloc_ok && init_ok then Some (InotifyPriv [] protect (InKernel ∅ 1) q []) else None.

(** Every watch is removed before the descriptor is closed. *)
(* @src realtime/inotify_mon.c:246-257 inotify_cleanup_be *)
Definition inotify_cleanup_be (s : inotify_priv) : in_kernel :=
  fold_left (λ k (e : Z * cstring), inotify_rm_watch e.1 k) (ip_map s) (ip_kernel s).
End inotify.

(** ** The table loses an entry by taking its last one *)

Lemma swap_last_spec {A} (ws : list A) i e : ws !! i = Some e →
  let ws' := take (length ws - 1) (match ws !! (length ws - 1)%nat with Some z => <[i := z]> ws | None => ws end) in
  e :: ws' ≡ₚ ws ∧ take i ws' = take i ws ∧ (length ws = S (length ws')).
Proof.
  intros Hi. pose proof (lookup_lt_Some _ _ _ Hi) as Hlt.
  destruct (list_elem_of_split_length ws i e Hi) as (l & r & -> & ->).
  destruct r as [|z r _] using rev_ind.
  - assert (E : (length (l ++ [e]) - 1 = length l)%nat) by (rewrite length_app; cbn; lia).
    cbn zeta. rewrite E, list_lookup_middle by done.
    rewrite insert_app_r_alt, Nat.sub_diag, take_app_length by done.
    split; [by rewrite <- Permutation_cons_append|]. split; [by rewrite take_ge, take_app_length|].
    rewrite length_app. cbn. lia.
  - set (ws := l ++ e :: r ++ [z]).
    assert (E : (length ws - 1 = length (l ++ e :: r))%nat)
      by (unfold ws; rewrite !length_app; cbn [length]; rewrite length_app; cbn [length]; lia).
    assert (El : ws = (l ++ e :: r) ++ [z]) by (unfold ws; by rewrite <- app_assoc).
    assert (Ez : ws !! length (l ++ e :: r) = Some z) by (rewrite El; by apply list_lookup_middle).
    assert (Ei : <[length l := z]> ws = (l ++ z :: r) ++ [z]).
    { unfold ws. rewrite insert_app_r_alt, Nat.sub_diag by done. cbn. by rewrite <- app_assoc. }
    cbn zeta. rewrite E, Ez, Ei, take_app_length' by (rewrite !length_app; done).
    split; [|split].
    + rewrite El, (Permutation_app_comm (l ++ e :: r) [z]). cbn [app].
      rewrite <- !Permutation_middle. apply Permutation_swap.
    + unfold ws. by rewrite !take_app_length.
    + rewrite El, !length_app. cbn. lia.
Qed.

Definition unmatched (path : cstring) (e : Z * cstring) : Prop := is_prefix path e.2 = false.
#[export] Instance unmatched_dec path e : Decision (unmatched path e).
Proof. unfold unmatched. apply _. Defined.

(** The kernel keeps exactly the watches that no matching entry names. *)
Definition kernel_without (path : cstring) (ws : list (Z * cstring)) (k k' : in_kernel) : Prop :=
  ∀ wd ino, ik_watches k' !! wd = Some ino ↔
    ik_watches k !! wd = Some ino ∧ ∀ p, (wd, p) ∈ ws → is_prefix path p = false.

Lemma remove_loop_spec fuel : ∀ i path ws k, (length ws - i ≤ fuel)%nat → Forall (unmatched path) (take i ws) →
  (remove_loop fuel i path ws k).1 ≡ₚ filter (unmatched path) ws ∧
  kernel_without path ws k (remove_loop fuel i path ws k).2.
Proof.
  induction fuel as [|fuel IH]; intros i path ws k Hf Hpre.
  - rewrite take_ge in Hpre by lia. cbn.
    rewrite filter_all by (by apply Forall_forall). split; [done|].
    intros wd ino. split; [|tauto]. intros H. split; [done|]. intros p Hp.
    by apply (proj1 (Forall_forall _ _) Hpre (wd, p)).
  - cbn [remove_loop]. destruct (ws !! i) as [[wd p]|] eqn:E.
    2:{ apply lookup_ge_None in E. cbn. rewrite take_ge in Hpre by lia.
        rewrite filter_all by (by apply Forall_forall). split; [done|].
        intros w ino. split; [|tauto]. intros H. split; [done|]. intros q Hq.
        by apply (proj1 (Forall_forall _ _) Hpre (w, q)). }
    pose proof (lookup_lt_Some _ _ _ E) as Hlt.
    destruct (is_prefix path p) eqn:Em.
    + destruct (swap_last_spec ws i (wd, p) E) as (Hp & Ht & Hl).
      set (ws' := take (length ws - 1)%nat _) in *.
      destruct (IH i path ws' (inotify_rm_watch wd k)) as [H1 H2]; [lia|by rewrite Ht|].
      split.
      * rewrite H1, <- Hp, filter_cons_False; [done|]. unfold unmatched. cbn. congruence.
      * intros w ino. rewrite (H2 w ino). cbn. rewrite lookup_delete_Some. split.
        -- intros [[Hne Hk] Ha]. split; [done|]. intros q Hq. rewrite <- Hp in Hq.
           apply elem_of_cons in Hq as [[= -> ->]|Hq]; [done|by apply Ha].
        -- intros [Hk Ha]. split; [split; [|done]|].
           ++ intros ->. rewrite (Ha p) in Em; [done|]. by eapply list_elem_of_lookup_2.
           ++ intros q Hq. apply Ha. rewrite <- Hp. by right.
    + apply IH; [lia|]. rewrite (take_S_r _ _ _ E). apply Forall_app. by split; [|constructor].
Qed.

(** ** Normal forms *)

Lemma strip_slashes_suffix r : strip_slashes r `suffix_of` r.
Proof.
  induction r as [|c [|c' r] IH]; [done..|]. cbn [strip_slashes]. destruct (c =? 47); [|done].
  by apply suffix_cons_r.
Qed.

Lemma strip_slashes_idem r : strip_slashes (strip_slashes r) = strip_slashes r.
Proof.
  induction r as [|c [|c' r] IH]; [done..|]. cbn [strip_slashes]. destruct (c =? 47) eqn:E; [done|].
  cbn [strip_slashes]. by rewrite E.
Qed.

Lemma normalise_prefix p : normalise p `prefix_of` strncpy p (IG_MAX_PATH - 1).
Proof.
  destruct (strip_slashes_suffix (rev (strncpy p (IG_MAX_PATH - 1)))) as [k Hk]. exists (rev k).
  unfold normalise. rewrite <- rev_app_distr, <- Hk, rev_involutive. done.
Qed.

Lemma normalise_length p : (length (normalise p) < IG_MAX_PATH)%nat.
Proof.
  pose proof (prefix_length _ _ (normalise_prefix p)). pose proof (strncpy_length p (IG_MAX_PATH - 1)).
  unfold IG_MAX_PATH in *. lia.
Qed.

Lemma Forall_normalise (P : Z → Prop) p : Forall P p → Forall P (normalise p).
Proof.
  intros H. destruct (normalise_prefix p) as [k Hk].
  assert (H' : Forall P (strncpy p (IG_MAX_PATH - 1)))
    by (by apply Forall_take, Forall_cstr).
  rewrite Hk in H'. by apply Forall_app in H' as [H' _].
Qed.

Lemma normalise_is_cstring p : is_cstring (normalise p).
Proof.
  destruct (normalise_prefix p) as [k Hk]. pose proof (strncpy_is_cstring p (IG_MAX_PATH - 1)) as H.
  rewrite Hk in H. by apply Forall_app in H as [H _].
Qed.

Lemma strncpy_normalise p : strncpy (normalise p) (IG_MAX_PATH - 1) = normalise p.
Proof. apply strncpy_id; [apply normalise_is_cstring|]. pose proof (normalise_length p). lia. Qed.

Lemma normalise_idem p : normalise (normalise p) = normalise p.
Proof.
  unfold normalise at 1. rewrite strncpy_normalise. unfold normalise.
  by rewrite rev_involutive, strip_slashes_idem.
Qed.

(** ** The invariant of the backend *)

(** A table entry is a normal path of bytes. *)
Definition entry_ok (e : Z * cstring) : Prop := bytes e.2 ∧ normalise e.2 = e.2.

(** No kernel watch is forgotten. *)
Definition covered (ws : list (Z * cstring)) (k : in_kernel) : Prop :=
  ∀ wd ino, ik_watches k !! wd = Some ino → wd ∈ ws.*1.

Definition inotify_ok (s : inotify_priv) : Prop :=
  (length (ip_map s) ≤ IG_MAX_WATCHES)%nat ∧ NoDup (ip_map s).*2 ∧ Forall entry_ok (ip_map s) ∧
  covered (ip_map s) (ip_kernel s) ∧ queue_wf (ip_queue s).

(** What the kernel writes in an event: a file name. *)
Definition in_event_ok (ev : in_event) : Prop := bytes (ie_name ev).


Definition readdir_bytes (readdir : cstring → option (list (cstring * bool))) : Prop :=
  ∀ p es, readdir p = Some es → Forall (λ e, bytes e.1) es.

Lemma inotify_add_watch_watches inode_of p k wd k' : inotify_add_watch inode_of p k = Some (wd, k') →
  ∃ ino, inode_of p = Some ino ∧ ik_watches k' !! wd = Some ino ∧
    ∀ w i, ik_watches k' !! w = Some i → w = wd ∨ ik_watches k !! w = Some i.
Proof.
  unfold inotify_add_watch. destruct (inode_of p) as [ino|]; [|done]. cbn. intros H. exists ino. split; [done|].
  destruct (filter _ _) as [|[w i] l] eqn:E.
  - injection H as <- <-. cbn. split; [by rewrite lookup_insert_eq|].
    intros w i [[-> _]|[_ Hw]]%lookup_insert_Some; auto.
  - injection H as <- <-.
    assert (Hin : (w, i) ∈ filter (λ p : Z * Z, p.2 = ino) (map_to_list (ik_watches k)))
      by (rewrite E; by left).
    apply list_elem_of_filter in Hin as [<- Hin%elem_of_map_to_list]. auto.
Qed.

(** What a successful call leaves: the path is in the table, and when it was not
    there before the kernel watches its inode under the number recorded. *)
Lemma add_single_watch_spec inode_of s path r s' : add_single_watch inode_of s path = (r, s') →
  (r = -1 ∧ s' = s) ∨ (r = 0 ∧ s' = s ∧ normalise path ∈ (ip_map s).*2) ∨
  (∃ wd ino k, r = 0 ∧ inode_of (normalise path) = Some ino ∧ normalise path ∉ (ip_map s).*2 ∧
    s' = set_map (ip_map s ++ [(wd, normalise path)]) k s ∧ ik_watches k !! wd = Some ino ∧
    (length (ip_map s) < IG_MAX_WATCHES)%nat ∧
    ∀ w i, ik_watches k !! w = Some i → w = wd ∨ ik_watches (ip_kernel s) !! w = Some i).
Proof.
  unfold add_single_watch. destruct (_ <=? _)%nat eqn:El; [intros [= <- <-]; by left|].
  apply Nat.leb_gt in El. destruct (existsb _ _) eqn:Ex.
  - intros [= <- <-]. right. left. split_and!; try done.
    apply existsb_exists in Ex as (e & He & Hp). apply bool_decide_eq_true in Hp as <-.
    apply list_elem_of_fmap_2. by apply list_elem_of_In.
  - destruct (inotify_add_watch _ _ _) as [[wd k]|] eqn:Ek; [|intros [= <- <-]; by left].
    intros [= <- <-]. right. right.
    destruct (inotify_add_watch_watches _ _ _ _ _ Ek) as (ino & Hi & Hw & Hk).
    exists wd, ino, k. rewrite strncpy_normalise. split_and!; try done.
    intros ((w & p) & Hp & Hin)%list_elem_of_fmap. cbn in Hp. subst p.
    apply not_true_iff_false in Ex. apply Ex, existsb_exists. exists (w, normalise path).
    split; [by apply list_elem_of_In|]. by apply bool_decide_eq_true.
Qed.

Lemma add_single_watch_ok inode_of s path : bytes path → inotify_ok s →
  inotify_ok (add_single_watch inode_of s path).2 ∧
  ip_queue (add_single_watch inode_of s path).2 = ip_queue s.
Proof.
  intros Hb (Hl & Hn & He & Hc & Hq).
  destruct (add_single_watch inode_of s path) as [r s'] eqn:E.
  destruct (add_single_watch_spec _ _ _ _ _ E) as
    [(_ & ->)|[(_ & -> & _)|(wd & ino & k & _ & _ & Hnew & -> & _ & Hlt & Hk)]]; [done..|].
  cbn. split; [|done]. unfold inotify_ok, set_map. cbn. rewrite !fmap_app. cbn.
  repeat match goal with |- _ ∧ _ => split end; try assumption.
  - rewrite length_app. cbn. lia.
  - apply NoDup_app. split; [done|]. split; [|apply NoDup_singleton].
    intros x Hx ->%list_elem_of_singleton. done.
  - apply Forall_app. split; [done|]. constructor; [|constructor].
    split; [by apply Forall_normalise|apply normalise_idem].
  - intros w i [->|Hw]%Hk; rewrite fmap_app; apply elem_of_app; [right; by left|left; by eapply Hc].
Qed.

(** The relation of the walks: they keep the invariant and leave the queue alone. *)
Definition keeps (s s' : inotify_priv) : Prop := (inotify_ok s → inotify_ok s') ∧ ip_queue s' = ip_queue s.

Lemma keeps_trans a b c : keeps a b → keeps b c → keeps a c.
Proof. intros [H1 E1] [H2 E2]. split; [auto|congruence]. Qed.

Lemma join_path_bytes a b : bytes a → bytes b → bytes (join_path a b).
Proof.
  intros Ha Hb. apply Forall_take, Forall_app. split; [done|]. constructor; [|done]. unfold is_byte. lia.
Qed.

Lemma add_single_watch_keeps inode_of s path : bytes path → keeps s (add_single_watch inode_of s path).2.
Proof.
  intros Hb. split; [intros H; by apply add_single_watch_ok|].
  destruct (add_single_watch inode_of s path) as [r s'] eqn:E.
  by destruct (add_single_watch_spec _ _ _ _ _ E) as [(_ & ->)|[(_ & -> & _)|(? & ? & ? & _ & _ & _ & -> & _)]].
Qed.

Lemma add_recursive_watch_keeps inode_of readdir fuel : readdir_bytes readdir →
  ∀ s base r s', bytes base → add_recursive_watch inode_of readdir fuel s base = Some (r, s') → keeps s s'.
Proof.
  intros Hrd. induction fuel as [|fuel IH]; intros s base r s' Hb; cbn [add_recursive_watch];
    set (s1 := (add_single_watch inode_of s base).2);
    assert (K : keeps s s1) by (by apply add_single_watch_keeps);
    destruct (readdir base) as [es|] eqn:Er; try discriminate;
    try (intros H; apply (inj Some) in H; apply pair_eq in H as [_ <-]; done).
  destruct (fold_left _ _ _) as [s2|] eqn:Ef; cbn; [|done]. intros [= _ <-].
  apply keeps_trans with s1; [done|]. revert Ef. apply (fold_option_inv _ keeps).
  - intros a. by split.
  - apply keeps_trans.
  - intros a [name isdir] b Hin. destruct (_ || _); [intros [= <-]; by split|]. cbn.
    destruct (add_recursive_watch _ _ _ _ _) as [[r' b']|] eqn:E; cbn; [|done]. intros [= <-].
    eapply IH; [|exact E]. apply join_path_bytes; [done|].
    pose proof (Hrd _ _ Er) as Hes. rewrite Forall_forall in Hes. apply (Hes (name, isdir) Hin).
Qed.

Lemma wd_to_path_bytes s wd : Forall entry_ok (ip_map s) → bytes (wd_to_path s wd).
Proof.
  intros H. unfold wd_to_path. destruct (find_index _ _) as [i|]; [|apply bytes_lit].
  destruct (ip_map s !! i) as [[w p]|] eqn:E; [|apply bytes_lit].
  apply (Forall_lookup_1 _ _ _ _ H E).
Qed.

Lemma event_of_inotify_wf s now ev : Forall entry_ok (ip_map s) → in_event_ok ev →
  wf_event (event_of_inotify s now ev).
Proof.
  intros Hs Hev. unfold wf_event, event_of_inotify. cbn -[join_path strncpy wf_chain].
  repeat match goal with |- _ ∧ _ => split end; try apply wf_pid_chain_zero; try (unfold in_width; lia).
  - unfold join_path. rewrite length_take. unfold IG_MAX_PATH. lia.
  - apply join_path_bytes; [by apply wd_to_path_bytes|done].
  - pose proof (strncpy_length (ie_name ev) 255). lia.
  - by apply Forall_take, bytes_cstr.
  - constructor.
Qed.

Section events.
Variable inode_of : cstring → option Z.
Variable readdir : cstring → option (list (cstring * bool)).
Hypothesis Hrd : readdir_bytes readdir.

Lemma handle_in_event_ok fuel now s ev n s' : inotify_ok s → in_event_ok ev →
  handle_in_event inode_of readdir fuel now s ev = Some (n, s') →
  inotify_ok s' ∧ n = (if bool_decide (ie_name ev = []) then 0 else 1) ∧
  ip_queue s' = (if bool_decide (ie_name ev = []) then ip_queue s
                 else ig_queue_push (ip_queue s) (event_of_inotify s now ev)).
Proof.
  intros (Hl & Hn & He & Hc & Hq) Hev. unfold handle_in_event.
  pose proof (queue_push_wf _ _ Hq (event_of_inotify_wf s now ev He Hev)) as Hq'.
  pose proof (join_path_bytes _ _ (wd_to_path_bytes s (ie_wd ev) He) Hev) as Hj.
  destruct (ie_name ev) as [|c name] eqn:En; [by intros [= <- <-]|]. rewrite <- En in *.
  rewrite bool_decide_eq_false_2 by (by rewrite En). cbn zeta.
  set (alerts := if is_protected_path _ _ then _ else _). set (fe := event_of_inotify _ _ _) in *.
  set (s1 := InotifyPriv _ _ _ _ _). assert (Hs1 : inotify_ok s1) by done.
  case_match; [|by intros [= <- <-]].
  destruct (add_recursive_watch _ _ _ _ _) as [[r s2]|] eqn:Er; [|done]. intros [= <- <-].
  destruct (add_recursive_watch_keeps inode_of readdir fuel Hrd _ _ _ _ Hj Er) as [Hk Hqq].
  split; [by apply Hk|]. split; [done|]. by rewrite Hqq.
Qed.

Lemma inotify_add_watch_be_keeps fuel s path recursive r s' : bytes path →
  inotify_add_watch_be inode_of readdir fuel s path recursive = Some (r, s') → keeps s s'.
Proof.
  intros Hb. unfold inotify_add_watch_be. pose proof (Forall_normalise _ _ Hb) as Hn. destruct recursive.
  - by apply add_recursive_watch_keeps.
  - intros H. apply (inj Some) in H. rewrite (surjective_pairing (add_single_watch _ _ _)) in H.
    apply pair_eq in H as [_ <-]. by apply add_single_watch_keeps.
Qed.

Lemma poll_step_ok fuel now evs : Forall in_event_ok evs → ∀ count s n s', inotify_ok s →
  fold_left (λ acc ev, '(count, s) ← acc; '(n, s) ← handle_in_event inode_of readdir fuel now s ev; Some (count + n, s))
    evs (Some (count, s)) = Some (n, s') →
  inotify_ok s' ∧ n = count + Z.of_nat (length (filter (λ ev, ie_name ev ≠ []) evs)).
Proof.
  induction evs as [|ev evs IH]; intros Hevs count s n s' Hs; cbn [fold_left mbind option_bind];
    [intros [= <- <-]; split; [done|cbn; lia]|].
  inversion_clear Hevs as [|? ? Hev Hevs'].
  destruct (handle_in_event inode_of readdir fuel now s ev) as [[n1 s1]|] eqn:E; cbn [mbind option_bind].
  - destruct (handle_in_event_ok _ _ _ _ _ _ Hs Hev E) as (Hs1 & Hn1 & _).
    intros H. destruct (IH Hevs' _ _ _ _ Hs1 H) as [Hs' ->]. split; [done|].
    rewrite filter_cons. case_bool_decide; case_decide; try done; cbn [length]; lia.
  - intros H. exfalso. clear -H. by induction evs.
Qed.
End events.

Lemma filter_submseteq_NoDup (ws ws' : list (Z * cstring)) path :
  ws' ≡ₚ filter (unmatched path) ws → NoDup ws.*2 → NoDup ws'.*2.
Proof.
  intros Hp Hn. rewrite Hp. clear Hp. induction ws as [|e ws IH]; [done|]. cbn in Hn.
  apply NoDup_cons in Hn as [Hx Hn]. rewrite filter_cons. case_decide; [|auto].
  cbn. apply NoDup_cons. split; [|auto]. intros Hin. apply Hx.
  apply list_elem_of_fmap in Hin as (y & Hy & Hin). apply list_elem_of_filter in Hin as [_ Hin].
  rewrite Hy. by apply list_elem_of_fmap_2.
Qed.

Lemma inotify_remove_watch_be_ok s path : inotify_ok s → inotify_ok (inotify_remove_watch_be s path).2.
Proof.
  intros (Hl & Hn & He & Hc & Hq). unfold inotify_remove_watch_be.
  destruct (remove_loop_spec (length (ip_map s)) 0 path (ip_map s) (ip_kernel s)) as [Hp Hk];
    [lia|constructor|].
  destruct (remove_loop _ _ _ _ _) as [ws k]. cbn in Hp, Hk. unfold inotify_ok, set_map. cbn.
  repeat match goal with |- _ ∧ _ => split end; try assumption.
  - rewrite Hp. etrans; [apply length_filter|done].
  - by eapply filter_submseteq_NoDup.
  - rewrite Hp. apply Forall_forall. intros e [_ Hin]%list_elem_of_filter.
    by apply (proj1 (Forall_forall _ _) He).
  - intros wd ino [Hw Ha]%Hk. apply Hc in Hw. apply list_elem_of_fmap in Hw as ((w & p) & -> & Hw).
    cbn in *. rewrite Hp. apply list_elem_of_fmap. exists (w, p). split; [done|].
    apply list_elem_of_filter. split; [|done]. by apply Ha.
Qed.

(** ** The walk of a new directory ends *)

(** [rank] falls from a directory to its subdirectories. *)
Definition falls (readdir : cstring → option (list (cstring * bool))) (rank : cstring → nat) : Prop :=
  ∀ base es name, readdir base = Some es → (name, true) ∈ es → dot_entry name = false →
    (rank (join_path base name) < rank base)%nat.

Lemma add_recursive_watch_returns inode_of readdir rank : falls readdir rank → ∀ fuel s base,
  (rank base < fuel)%nat → is_Some (add_recursive_watch inode_of readdir fuel s base).
Proof.
  intros Hf. induction fuel as [|fuel IH]; intros s base Hr; [lia|]. cbn [add_recursive_watch].
  destruct (readdir base) as [es|] eqn:E; [|by eexists].
  destruct (fold_option_total (λ s (e : cstring * bool), if negb e.2 || dot_entry e.1 then Some s
            else '(_, s) ← add_recursive_watch inode_of readdir fuel s (join_path base e.1); Some s)
          es (add_single_watch inode_of s base).2) as [s' Hs'].
  - intros a [name isdir] Hin. destruct isdir; cbn [negb fst snd orb]; [|by eexists].
    destruct (dot_entry name) eqn:Ed; [by eexists|].
    destruct (IH a (join_path base name)) as [[r b] ->]; [|by eexists].
    pose proof (Hf _ _ _ E Hin Ed). lia.
  - rewrite Hs'. by eexists.
Qed.

Lemma poll_returns inode_of readdir rank now : falls readdir rank → ∀ fuel evs s,
  (∀ p, rank p < fuel)%nat → is_Some (inotify_poll_events_be inode_of readdir fuel now s (Some evs)).
Proof.
  intros Hf fuel evs s Hr. unfold inotify_poll_events_be. generalize 0. revert s.
  induction evs as [|ev evs IH]; intros s c; cbn [fold_left mbind option_bind]; [by eexists|].
  assert (H : is_Some (handle_in_event inode_of readdir fuel now s ev)).
  { unfold handle_in_event. destruct (ie_name ev) as [|x name]; [by eexists|]. case_match; [|by eexists].
    match goal with |- context [add_recursive_watch _ _ _ ?s' ?p] =>
      destruct (add_recursive_watch_returns inode_of readdir rank Hf fuel s' p (Hr p)) as [[r b] ->] end.
    by eexists. }
  destruct H as [[n s'] ->]. apply IH.
Qed.

(** ** Runs of the backend *)

(** One call on the backend, or what happens beside it: the kernel drops the
    watch of a deleted directory, the main thread pops an event. The file system
    may differ from one call to the next. *)
Inductive in_step : inotify_priv → inotify_priv → Prop :=
  | step_add inode_of readdir fuel s path recursive r s' :
      readdir_bytes readdir → bytes path →
      inotify_add_watch_be inode_of readdir fuel s path recursive = Some (r, s') → in_step s s'
  | step_remove s path : in_step s (inotify_remove_watch_be s path).2
  | step_poll inode_of readdir fuel now s evs n s' :
      readdir_bytes readdir → Forall in_event_ok evs →
      inotify_poll_events_be inode_of readdir fuel now s (Some evs) = Some (n, s') → in_step s s'
  | step_gone s wd : in_step s (set_map (ip_map s) (inotify_rm_watch wd (ip_kernel s)) s)
  | step_pop s :
      in_step s (InotifyPriv (ip_map s) (ip_protect s) (ip_kernel s) (ig_queue_pop (ip_queue s) 0 []).1
                   (ip_alerts s)).

Lemma pop_wf q : queue_wf q → queue_wf (ig_queue_pop q 0 []).1.
Proof.
  intros [Hq Hw]. cbn [ig_queue_pop]. destruct (Nat.eqb_spec (q_count q) 0) as [|Hn]; [by split|].
  destruct (pop_front_refines q Hq ltac:(lia)) as (ev & Hc & _ & Hok & Ht & _). split; [done|].
  rewrite Ht. rewrite Hc in Hw. by inversion_clear Hw.
Qed.

Lemma in_step_ok s s' : in_step s s' → inotify_ok s → inotify_ok s'.
Proof.
  intros [inode_of readdir fuel s0 path rc r s1 Hrd Hb H|s0 path|inode_of readdir fuel now s0 evs n s1 Hrd Hev H
         |s0 wd|s0] Hs.
  - by apply (inotify_add_watch_be_keeps inode_of readdir Hrd fuel s0 path rc r s1 Hb H).
  - by apply inotify_remove_watch_be_ok.
  - by apply (poll_step_ok inode_of readdir Hrd fuel now evs Hev 0 s0 n s1).
  - destruct Hs as (Hl & Hn & He & Hc & Hq). unfold inotify_ok. split_and!; try assumption.
    intros w ino Hw. cbn in Hw. apply lookup_delete_Some in Hw as [_ Hw]. by eapply Hc.
  - destruct Hs as (Hl & Hn & He & Hc & Hq). unfold inotify_ok. split_and!; try assumption. by apply pop_wf.
Qed.

Lemma cleanup_watches l k wd :
  ik_watches (fold_left (λ k (e : Z * cstring), inotify_rm_watch e.1 k) l k) !! wd =
  if bool_decide (wd ∈ l.*1) then None else ik_watches k !! wd.
Proof.
  revert k. induction l as [|[w p] l IH]; intros k; cbn; [done|]. rewrite IH. cbn.
  destruct (decide (wd = w)) as [->|Hne].
  - rewrite (bool_decide_eq_true_2 (w ∈ w :: _)) by left. case_bool_decide; [done|].
    by rewrite lookup_delete_eq.
  - rewrite lookup_delete_ne by done. destruct (decide (wd ∈ l.*1)).
    + rewrite !bool_decide_eq_true_2; [done|by right|done].
    + rewrite !bool_decide_eq_false_2; [done| |done]. by intros [->|]%elem_of_cons.
Qed.

Lemma inotify_init_ok protect q s : queue_wf q → inotify_init_be true true protect q = Some s → inotify_ok s.
Proof.
  intros Hq [= <-]. unfold inotify_ok. cbn. split_and!; try assumption; [unfold IG_MAX_WATCHES; lia|constructor..|].
  intros wd ino H. cbn [ip_kernel ik_watches] in H. by rewrite lookup_empty in H.
Qed.

(** Whatever sequence of watches added and removed, kernel events polled and
    watches dropped by the kernel follows the initialisation, the table holds at
    most 64 paths, normal and pairwise distinct, every kernel watch is named by
    it, the queue holds only well typed events, and cleaning up leaves the kernel
    no watch. *)
Theorem inotify_runs_typed (protect : option (list cstring)) (q : ig_event_queue) (s0 s : inotify_priv)
    (Hq : queue_wf q) (H0 : inotify_init_be true true protect q = Some s0) (Hrun : rtc in_step s0 s) :
  inotify_ok s ∧ ik_watches (inotify_cleanup_be s) = ∅.
Proof.
  assert (Hs : inotify_ok s).
  { pose proof (inotify_init_ok _ _ _ Hq H0) as H. clear H0 Hq. induction Hrun as [|a b c Hab _ IH]; [done|].
    apply IH. by apply in_step_ok with a. }
  split; [done|]. apply map_eq. intros wd. unfold inotify_cleanup_be. rewrite cleanup_watches, lookup_empty.
  case_bool_decide as Hin; [done|]. apply eq_None_not_Some. intros [ino Hw].
  destruct Hs as (_ & _ & _ & Hc & _). by eapply Hin, Hc.
Qed.

(** Removing a path removes from the table exactly the entries whose path it
    is a prefix of, in whatever order the table holds them, and from the kernel
    exactly the watches those entries name; the queue is untouched. *)
Theorem remove_watch_exact (s : inotify_priv) (path : cstring) :
  let s' := (inotify_remove_watch_be s path).2 in
  (inotify_remove_watch_be s path).1 = 0 ∧
  ip_map s' ≡ₚ filter (unmatched path) (ip_map s) ∧
  kernel_without path (ip_map s) (ip_kernel s) (ip_kernel s') ∧ ip_queue s' = ip_queue s.
Proof.
  unfold inotify_remove_watch_be.
  destruct (remove_loop_spec (length (ip_map s)) 0 path (ip_map s) (ip_kernel s)) as [Hp Hk];
    [lia|constructor|].
  by destruct (remove_loop _ _ _ _ _) as [ws k].
Qed.

(** The prefix is one of characters: a sibling whose name continues the removed
    one's goes too. *)
Example removal_takes_siblings :
  let s := InotifyPriv [(1, lit "/tmp/test"); (2, lit "/tmp/testing"); (3, lit "/tmp/test/sub"); (4, lit "/etc")]
             None (InKernel {[1 := 11; 2 := 12; 3 := 13; 4 := 14]} 5) ig_queue_init [] in
  (ip_map (inotify_remove_watch_be s (lit "/tmp/test")).2,
   map_to_list (ik_watches (ip_kernel (inotify_remove_watch_be s (lit "/tmp/test")).2))) =
  ([(4, lit "/etc")], [(4, 14)]).
Proof. by vm_compute. Qed.

Lemma nameless_event inode_of readdir fuel now s wd mask :
  handle_in_event inode_of readdir fuel now s (InEvent wd mask []) = Some (0, s).
Proof. done. Qed.

Definition IN_IGNORED : Z := 0x8000.

(** A watched directory [p] is deleted and created again: the kernel has
    dropped its watch, and its IN_DELETE_SELF and IN_IGNORED events carry no name,
    so the table keeps the entry. The IN_CREATE of the new directory is queued,
    but "already monitoring" is all the backend finds: the new inode is left
    without a watch. *)
Theorem recreated_directory_unwatched (inode_of : cstring → option Z)
    (readdir : cstring → option (list (cstring * bool))) (fuel : nat) (now : Z) (s : inotify_priv)
    (wd parent ino : Z) (name p : cstring) (es : list (cstring * bool))
    (Hname : name ≠ []) (Hp : join_path (wd_to_path s parent) name = p) (Hnorm : normalise p = p)
    (Hin : p ∈ (ip_map s).*2) (Hino : inode_of p = Some ino)
    (Hgone : ∀ w, ik_watches (ip_kernel s) !! w ≠ Some ino)
    (Hdir : readdir p = Some es) (Hsub : Forall (λ e, e.2 = false ∨ dot_entry e.1 = true) es) :
  ∃ s', inotify_poll_events_be inode_of readdir (S fuel) now s
          (Some [InEvent wd IN_DELETE_SELF []; InEvent wd IN_IGNORED [];
                 InEvent parent (Z.lor IN_CREATE IN_ISDIR) name]) = Some (1, s') ∧
    ip_map s' = ip_map s ∧ p ∈ (ip_map s').*2 ∧ ∀ w, ik_watches (ip_kernel s') !! w ≠ Some ino.
Proof.
  set (fe := event_of_inotify s now (InEvent parent (Z.lor IN_CREATE IN_ISDIR) name)).
  set (s1 := InotifyPriv (ip_map s) (ip_protect s) (ip_kernel s) (ig_queue_push (ip_queue s) fe)
    (if is_protected_path s (ev_path fe) then ip_alerts s ++ [ev_path fe] else ip_alerts s)).
  assert (Ha : (add_single_watch inode_of s1 p).2 = s1).
  { destruct (add_single_watch inode_of s1 p) as [r s2] eqn:E.
    destruct (add_single_watch_spec _ _ _ _ _ E) as [(_ & ->)|[(_ & -> & _)|(? & ? & ? & _ & _ & Hnew & _)]];
      [done..|]. rewrite Hnorm in Hnew. by destruct Hnew. }
  assert (Hw : add_recursive_watch inode_of readdir (S fuel) s1 p = Some (0, s1)).
  { cbn [add_recursive_watch]. rewrite Ha, Hdir. clear -Hsub.
    induction Hsub as [|[n d] es He _ IH]; [done|]. cbn [fold_left mbind option_bind].
    destruct He as [He|He]; cbn [fst snd] in *; rewrite He, ?orb_true_r; cbn [negb orb]; done. }
  assert (Hh : handle_in_event inode_of readdir (S fuel) now s
                 (InEvent parent (Z.lor IN_CREATE IN_ISDIR) name) = Some (1, s1)).
  { unfold handle_in_event. cbn [ie_name ie_wd ie_mask]. destruct name as [|c name]; [done|]. cbn zeta.
    fold fe. fold s1. replace (has_bits _ IN_CREATE && _) with true by reflexivity. by rewrite Hp, Hw. }
  exists s1. split; [|by split_and!].
  unfold inotify_poll_events_be. cbn [fold_left mbind option_bind].
  rewrite !nameless_event. cbn [mbind option_bind]. rewrite nameless_event. cbn [mbind option_bind].
  by rewrite Hh.
Qed.

(** ** Witnesses *)

(** [/w] holds a directory [d] and a file. *)
Definition w_readdir (p : cstring) : option (list (cstring * bool)) :=
  if bool_decide (p = lit "/w") then Some [(lit ".", true); (lit "..", true); (lit "d", true); (lit "f", false)]
  else if bool_decide (p = lit "/w/d") then Some [(lit ".", true); (lit "..", true)] else None.
Definition w_inode (p : cstring) : option Z :=
  if bool_decide (p = lit "/w") then Some 100 else if bool_decide (p = lit "/w/d") then Some 101 else None.

Lemma w_readdir_bytes : readdir_bytes w_readdir.
Proof.
  intros p es. unfold w_readdir. case_bool_decide; [|case_bool_decide; [|done]];
    intros E; apply (inj Some) in E; rewrite <- E;
    repeat (apply Forall_cons; split; [apply bytes_lit|]); apply Forall_nil_2.
Qed.

Definition w_init : inotify_priv := InotifyPriv [] None (InKernel ∅ 1) ig_queue_init [].
Definition w_watched : inotify_priv :=
  InotifyPriv [(1, lit "/w"); (2, lit "/w/d")] None (InKernel {[1 := 100; 2 := 101]} 3) ig_queue_init [].

(** The watch as configured, with a trailing slash. *)
Lemma inotify_runs_typed_witness :
  inotify_ok w_watched ∧ ik_watches (inotify_cleanup_be w_watched) = ∅.
Proof.
  apply (inotify_runs_typed None ig_queue_init w_init).
  - apply queue_init_wf.
  - reflexivity.
  - eapply rtc_once, (step_add w_inode w_readdir 2 w_init (lit "/w/") true 0).
    + apply w_readdir_bytes.
    + apply bytes_lit.
    + cbv. reflexivity.
Defined.

(** [d] deleted and made again, with inode 202. *)
Lemma recreated_directory_unwatched_witness :
  let s := set_map (ip_map w_watched) (inotify_rm_watch 2 (ip_kernel w_watched)) w_watched in
  ∃ s', inotify_poll_events_be (λ _, Some 202) w_readdir 1 1700000000 s
          (Some [InEvent 2 IN_DELETE_SELF []; InEvent 2 IN_IGNORED [];
                 InEvent 1 (Z.lor IN_CREATE IN_ISDIR) (lit "d")]) = Some (1, s') ∧
    ip_map s' = ip_map s ∧ lit "/w/d" ∈ (ip_map s').*2 ∧ ∀ w, ik_watches (ip_kernel s') !! w ≠ Some 202.
Proof.
  intros s.
  apply (recreated_directory_unwatched (λ _, Some 202) w_readdir 0 1700000000 s 2 1 202 (lit "d") (lit "/w/d")
           [(lit ".", true); (lit "..", true)]).
  - done.
  - reflexivity.
  - reflexivity.
  - right. left.
  - reflexivity.
  - intros w. cbn. rewrite lookup_delete_Some. intros [Hne H].
    destruct (decide (w = 1)) as [->|Hw]; [done|]. by rewrite lookup_insert_ne, lookup_singleton_ne in H.
  - reflexivity.
  - repeat constructor; by right.
Defined.
