(* ===== verification/LkmPolicy.v ===== *)
(** * In-kernel inode policy table (lkm/ig_lkm_policy.c)

    A hash table of 256 chained buckets guarded by a rwlock. [jhash2] and
    [hash_min] are the kernel's; a bucket index is a [fin 256], so nothing is
    assumed of them. The table is shown to implement a finite map keyed by
    (device, inode), the interface [PolicyStore] the hooks are written against;
    [pol_step] is the interleaving of the operations' critical sections. *)

From S2P Require Import Prelude Bytes Monitor.
From stdpp Require Import vector relations.

Local Open Scope Z_scope.

(** ** Constants (lkm/ig_lkm_common.h) *)

(* @src lkm/ig_lkm_common.h:26-28 IG_OP_WRITE *)
Definition IG_OP_WRITE : Z := 1.
Definition IG_OP_DELETE : Z := 2.
Definition IG_OP_RENAME : Z := 4.

(* @src lkm/ig_lkm_common.h:31-32 IG_BLOCK_AUDIT *)
Definition IG_BLOCK_AUDIT : Z := 0.
Definition IG_BLOCK_DENY : Z := 1.

Definition EPERM : Z := 1.
Definition ENOENT : Z := 2.
Definition EIO : Z := 5.
Definition ENOMEM : Z := 12.
Definition EFAULT : Z := 14.
Definition EINVAL : Z := 22.
Definition ENOTTY : Z := 25.
Definition ETIMEDOUT : Z := 110.

Definition IG_MAX_LKM_PATH : nat := 256.
Definition IG_POLICY_BITS : Z := 8.
#[global] Arguments IG_MAX_LKM_PATH : simpl never.

(* @src lkm/ig_lkm_policy.h:11-18 ig_policy_entry *)
Record ig_policy_entry := PolicyEntry {
  pe_dev : Z; pe_ino : Z; pe_mask : Z; pe_block : Z; pe_path : cstring }.

#[export] Instance ig_policy_entry_eq_dec : EqDecision ig_policy_entry.
Proof. solve_decision. Defined.

Definition key_of (e : ig_policy_entry) : Z * Z := (pe_dev e, pe_ino e).
Definition has_key (dev ino : Z) (e : ig_policy_entry) : bool :=
  (pe_dev e =? dev) && (pe_ino e =? ino).

Lemma has_key_spec dev ino e : has_key dev ino e = true ↔ key_of e = (dev, ino).
Proof.
  unfold has_key, key_of. rewrite andb_true_iff, !Z.eqb_eq. split; [intros [-> ->]|intros [= -> ->]]; done.
Qed.

Definition set_policy (mask block : Z) (path : option cstring) (e : ig_policy_entry) : ig_policy_entry :=
  PolicyEntry (pe_dev e) (pe_ino e) mask block
    (match path with Some p => strncpy p (IG_MAX_LKM_PATH - 1) | None => pe_path e end).

(** ** The interface the hooks use

    [ps_find] is [find_entry]; the laws say that the store is a finite map. *)
Class PolicyStore (T : Type) := {
  ps_find : T → Z → Z → option ig_policy_entry;
  ps_remove : T → Z → Z → T }.

Class PolicyStoreLaws (T : Type) `{PolicyStore T} := {
  ps_ok : T → Prop;
  ps_find_key : ∀ t dev ino e, ps_find t dev ino = Some e → key_of e = (dev, ino);
  ps_remove_ok : ∀ t dev ino, ps_ok t → ps_ok (ps_remove t dev ino);
  ps_find_remove : ∀ t dev ino dev' ino', ps_ok t →
    ps_find (ps_remove t dev ino) dev' ino' =
    if bool_decide ((dev, ino) = (dev', ino')) then None else ps_find t dev' ino' }.

Section policy_store.
Context {T : Type} `{PolicyStore T}.

(* @src lkm/ig_lkm_policy.c:123-138 inode_policy_lookup *)
Definition inode_policy_lookup (t : T) (dev ino op : Z) : option Z :=
  match ps_find t dev ino with
  | Some e => if has_bits (pe_mask e) op then Some (pe_block e) else None
  | None => None
  end.

(* @src lkm/ig_lkm_policy.c:140-147 inode_policy_path *)
Definition inode_policy_path (t : T) (dev ino : Z) : cstring :=
  match ps_find t dev ino with Some e => pe_path e | None => [] end.
End policy_store.

(** ** The hash table *)

Section table.
Variable jhash2 : list Z → Z → Z.
Variable hash_min : Z → fin 256.

(** [DEFINE_HASHTABLE(ig_policy_ht, IG_POLICY_BITS)] *)
Abbreviation policy_table := (vec (list ig_policy_entry) 256).

(* @src lkm/ig_lkm_policy.c:18-21 ig_policy_init *)
Definition ig_policy_init : policy_table := vreplicate 256 [].

(* @src lkm/ig_lkm_policy.c:23-32 make_key *)
Definition make_key (dev ino : Z) : Z :=
  let data := [u32 (Z.shiftr dev 32); Z.land dev 0xFFFFFFFF;
               u32 (Z.shiftr ino 32); Z.land ino 0xFFFFFFFF] in
  Z.land (jhash2 data 0) (Z.shiftl 1 IG_POLICY_BITS - 1).

Definition bucket (dev ino : Z) : fin 256 := hash_min (make_key dev ino).

(* @src lkm/ig_lkm_policy.c:35-45 find_entry *)
Definition find_entry (t : policy_table) (dev ino : Z) : option ig_policy_entry :=
  List.find (has_key dev ino) (t !!! bucket dev ino).

(** Writing through the pointer [find_entry] returned: the first match. *)
Fixpoint update_first (dev ino : Z) (f : ig_policy_entry → ig_policy_entry)
    (l : list ig_policy_entry) : list ig_policy_entry :=
  match l with
  | [] => []
  | e :: l => if has_key dev ino e then f e :: l else e :: update_first dev ino f l
  end.

(** [hash_del] of that pointer. *)
Fixpoint delete_first (dev ino : Z) (l : list ig_policy_entry) : list ig_policy_entry :=
  match l with
  | [] => []
  | e :: l => if has_key dev ino e then l else e :: delete_first dev ino l
  end.

Definition on_bucket (f : list ig_policy_entry → list ig_policy_entry) (dev ino : Z)
    (t : policy_table) : policy_table :=
  vinsert (bucket dev ino) (f (t !!! bucket dev ino)) t.

(** First critical section of [inode_policy_add]: update an existing entry. *)
(* @src lkm/ig_lkm_policy.c:57-67 inode_policy_add *)
Definition policy_add_update (t : policy_table) (dev ino mask block : Z) (path : option cstring)
    : option policy_table :=
  match find_entry t dev ino with
  | Some _ => Some (on_bucket (update_first dev ino (set_policy mask block path)) dev ino t)
  | None => None
  end.

(** The entry built outside the lock ([kzalloc]ed). *)
(* @src lkm/ig_lkm_policy.c:69-78 inode_policy_add *)
Definition policy_entry_new (dev ino mask block : Z) (path : option cstring) : ig_policy_entry :=
  set_policy mask block path (PolicyEntry dev ino 0 0 []).

(** Second critical section: [hash_add], at the head of the bucket. *)
(* @src lkm/ig_lkm_policy.c:80-82 inode_policy_add *)
Definition policy_add_insert (t : policy_table) (e : ig_policy_entry) : policy_table :=
  on_bucket (cons e) (pe_dev e) (pe_ino e) t.

(** The whole call, when no other writer runs between its critical sections;
    [alloc_ok] is the outcome of [kzalloc]. *)
(* @src lkm/ig_lkm_policy.c:49-88 inode_policy_add *)
Definition inode_policy_add (alloc_ok : bool) (t : policy_table) (dev ino mask block : Z)
    (path : option cstring) : policy_table * Z :=
  match policy_add_update t dev ino mask block path with
  | Some t' => (t', 0)
  | None => if alloc_ok
            then (policy_add_insert t (policy_entry_new dev ino mask block path), 0)
            else (t, - ENOMEM)
  end.

(* @src lkm/ig_lkm_policy.c:90-105 inode_policy_remove *)
Definition inode_policy_remove (t : policy_table) (dev ino : Z) : policy_table :=
  match find_entry t dev ino with
  | Some _ => on_bucket (delete_first dev ino) dev ino t
  | None => t
  end.

(* @src lkm/ig_lkm_policy.c:107-121 inode_policy_clear *)
Definition inode_policy_clear (t : policy_table) : policy_table := vmap (λ _, []) t.

#[export] Instance policy_table_store : PolicyStore policy_table := {
  ps_find := find_entry; ps_remove := inode_policy_remove }.

(** *** Invariant: an entry sits in its own bucket, one entry per key *)

Definition table_ok (t : policy_table) : Prop :=
  ∀ i, NoDup (key_of <$> t !!! i) ∧ Forall (λ e, bucket (pe_dev e) (pe_ino e) = i) (t !!! i).

Lemma find_has_key dev ino (l : list ig_policy_entry) e :
  List.find (has_key dev ino) l = Some e → e ∈ l ∧ key_of e = (dev, ino).
Proof.
  intros H. apply find_some in H as [Hin Hk]. apply list_elem_of_In in Hin.
  by apply has_key_spec in Hk.
Qed.

Lemma find_none_key dev ino (l : list ig_policy_entry) :
  List.find (has_key dev ino) l = None → (dev, ino) ∉ (key_of <$> l).
Proof.
  intros H (e & He & Hin)%list_elem_of_fmap. apply list_elem_of_In in Hin.
  eapply find_none in H; [|done]. symmetry in He. apply has_key_spec in He. congruence.
Qed.

Lemma find_update_first dev ino f l dev' ino' :
  (∀ e, key_of (f e) = key_of e) →
  List.find (has_key dev' ino') (update_first dev ino f l) =
  if bool_decide ((dev, ino) = (dev', ino'))
  then f <$> List.find (has_key dev' ino') l else List.find (has_key dev' ino') l.
Proof.
  intros Hf. induction l as [|e l IH]; cbn; [by case_bool_decide|].
  destruct (has_key dev ino e) eqn:He.
  - cbn. assert (has_key dev' ino' (f e) = has_key dev' ino' e) as ->.
    { destruct (has_key dev' ino' e) eqn:H'.
      - apply has_key_spec. rewrite Hf. by apply has_key_spec.
      - apply not_true_iff_false. intros H. apply has_key_spec in H. rewrite Hf in H.
        apply has_key_spec in H. congruence. }
    apply has_key_spec in He. case_bool_decide as E.
    + rewrite E in He. apply has_key_spec in He. by rewrite He.
    + destruct (has_key dev' ino' e) eqn:H'; [|done]. apply has_key_spec in H'. congruence.
  - cbn. destruct (has_key dev' ino' e) eqn:H'; [|done].
    case_bool_decide as E; [|done]. apply has_key_spec in H'. rewrite <- E in H'.
    apply has_key_spec in H'. congruence.
Qed.

Lemma update_first_keys dev ino f l :
  (∀ e, key_of (f e) = key_of e) → key_of <$> update_first dev ino f l = key_of <$> l.
Proof.
  intros Hf. induction l as [|e l IH]; [done|]. cbn [update_first].
  destruct (has_key dev ino e); rewrite !fmap_cons; [by rewrite Hf|by rewrite IH].
Qed.

Lemma delete_first_sub dev ino l : delete_first dev ino l `sublist_of` l.
Proof. induction l as [|e l IH]; cbn; [done|]. case_match; by constructor. Qed.

Lemma find_delete_first dev ino l dev' ino' : NoDup (key_of <$> l) →
  List.find (has_key dev' ino') (delete_first dev ino l) =
  if bool_decide ((dev, ino) = (dev', ino')) then None else List.find (has_key dev' ino') l.
Proof.
  induction l as [|e l IH]; cbn [delete_first]; intros Hnd; [by case_bool_decide|].
  rewrite fmap_cons in Hnd. apply NoDup_cons in Hnd as [Hni Hnd]. specialize (IH Hnd).
  destruct (has_key dev ino e) eqn:He.
  - apply has_key_spec in He. cbn. case_bool_decide as E.
    + destruct (List.find (has_key dev' ino') l) as [e'|] eqn:Hf; [|done].
      apply find_has_key in Hf as [Hin Hk]. exfalso. apply Hni. rewrite He, E, <- Hk.
      by apply list_elem_of_fmap_2.
    + destruct (has_key dev' ino' e) eqn:H'; [|done]. apply has_key_spec in H'. congruence.
  - cbn. destruct (has_key dev' ino' e) eqn:H'; [|done].
    case_bool_decide as E; [|done]. apply has_key_spec in H'. rewrite <- E in H'.
    apply has_key_spec in H'. congruence.
Qed.

Lemma table_ok_on_bucket f dev ino t :
  table_ok t →
  NoDup (key_of <$> f (t !!! bucket dev ino)) →
  Forall (λ e, bucket (pe_dev e) (pe_ino e) = bucket dev ino) (f (t !!! bucket dev ino)) →
  table_ok (on_bucket f dev ino t).
Proof.
  intros Hok Hnd Hb i. unfold on_bucket. destruct (decide (bucket dev ino = i)) as [<-|Hne].
  - by rewrite vlookup_insert.
  - rewrite vlookup_insert_ne by done. apply Hok.
Qed.

Lemma find_on_bucket f dev ino t dev' ino' :
  find_entry (on_bucket f dev ino t) dev' ino' =
  if bool_decide (bucket dev ino = bucket dev' ino')
  then List.find (has_key dev' ino') (f (t !!! bucket dev' ino')) else find_entry t dev' ino'.
Proof.
  unfold find_entry, on_bucket. case_bool_decide as E.
  - rewrite <- E. by rewrite vlookup_insert.
  - by rewrite vlookup_insert_ne.
Qed.

Lemma bucket_ne_key dev ino dev' ino' :
  bucket dev ino ≠ bucket dev' ino' → bool_decide ((dev, ino) = (dev', ino')) = false.
Proof. intros H. apply bool_decide_eq_false_2. by intros [= -> ->]. Qed.

Lemma set_policy_key mask block path e : key_of (set_policy mask block path e) = key_of e.
Proof. done. Qed.

Lemma table_ok_init : table_ok ig_policy_init.
Proof. intros i. unfold ig_policy_init. rewrite vlookup_replicate. split; constructor. Qed.

Lemma table_ok_update t dev ino mask block path t' :
  table_ok t → policy_add_update t dev ino mask block path = Some t' →
  table_ok t' ∧ ∀ dev' ino', find_entry t' dev' ino' =
    if bool_decide ((dev, ino) = (dev', ino'))
    then set_policy mask block path <$> find_entry t dev' ino' else find_entry t dev' ino'.
Proof.
  intros Hok Hu. unfold policy_add_update in Hu.
  destruct (find_entry t dev ino) as [e|]; [|done]. injection Hu as <-. split.
  - apply table_ok_on_bucket; [done| |].
    + rewrite update_first_keys by apply set_policy_key. apply Hok.
    + destruct (Hok (bucket dev ino)) as [_ Hb]. induction Hb as [|x l Hx Hl IH]; [constructor|].
      cbn [update_first]. destruct (has_key dev ino x); by constructor.
  - intros dev' ino'. rewrite find_on_bucket. case_bool_decide as E.
    + by rewrite find_update_first by apply set_policy_key.
    + by rewrite bucket_ne_key.
Qed.

Lemma table_ok_insert t e :
  table_ok t → find_entry t (pe_dev e) (pe_ino e) = None →
  table_ok (policy_add_insert t e) ∧ ∀ dev' ino', find_entry (policy_add_insert t e) dev' ino' =
    if bool_decide (key_of e = (dev', ino')) then Some e else find_entry t dev' ino'.
Proof.
  intros Hok Hn. destruct (Hok (bucket (pe_dev e) (pe_ino e))) as [Hnd Hb]. split.
  - unfold policy_add_insert. apply (table_ok_on_bucket (cons e)); [exact Hok| |].
    + rewrite fmap_cons. apply NoDup_cons. split; [|exact Hnd]. exact (find_none_key _ _ _ Hn).
    + apply Forall_cons. split; [reflexivity|exact Hb].
  - intros dev' ino'. unfold policy_add_insert. rewrite find_on_bucket.
    destruct (has_key dev' ino' e) eqn:He.
    + apply has_key_spec in He as Hk. rewrite (bool_decide_eq_true_2 (key_of e = _)) by done.
      unfold key_of in Hk. injection Hk as -> ->. rewrite bool_decide_eq_true_2 by done.
      cbn. by rewrite He.
    + rewrite (bool_decide_eq_false_2 (key_of e = _)) by (intros H; apply has_key_spec in H; congruence).
      case_bool_decide; [|done]. cbn. by rewrite He.
Qed.

Lemma table_ok_remove t dev ino :
  table_ok t → table_ok (inode_policy_remove t dev ino).
Proof.
  intros Hok. unfold inode_policy_remove. destruct (find_entry t dev ino); [|done].
  destruct (Hok (bucket dev ino)) as [Hnd Hb].
  pose proof (delete_first_sub dev ino (t !!! bucket dev ino)) as Hs.
  apply table_ok_on_bucket; [done| |by eapply Forall_sublist_of].
  eapply sublist_NoDup; [exact Hnd|]. by apply fmap_sublist.
Qed.

Lemma find_remove t dev ino dev' ino' : table_ok t →
  find_entry (inode_policy_remove t dev ino) dev' ino' =
  if bool_decide ((dev, ino) = (dev', ino')) then None else find_entry t dev' ino'.
Proof.
  intros Hok. unfold inode_policy_remove. destruct (find_entry t dev ino) as [e|] eqn:Hf.
  - rewrite find_on_bucket. case_bool_decide as E; [|by rewrite bucket_ne_key].
    rewrite find_delete_first by apply Hok. done.
  - case_bool_decide as E; [|done]. by injection E as <- <-.
Qed.

Lemma table_ok_clear t : table_ok (inode_policy_clear t).
Proof.
  intros i. unfold inode_policy_clear. rewrite vlookup_map. split; constructor.
Qed.

Lemma find_clear t dev ino : find_entry (inode_policy_clear t) dev ino = None.
Proof. unfold find_entry, inode_policy_clear. by rewrite vlookup_map. Qed.

#[export] Instance policy_table_laws : PolicyStoreLaws policy_table := {
  ps_ok := table_ok;
  ps_find_key := λ t dev ino e H, proj2 (find_has_key dev ino _ e H);
  ps_remove_ok := table_ok_remove;
  ps_find_remove := find_remove }.
End table.

(** ** Refinement of a finite map *)

Inductive policy_op :=
  | OpAdd (alloc_ok : bool) (dev ino mask block : Z) (path : option cstring)
  | OpRemove (dev ino : Z)
  | OpClear.

Section refinement.
Variable jhash2 : list Z → Z → Z.
Variable hash_min : Z → fin 256.

Definition policy_exec (t : vec (list ig_policy_entry) 256) (o : policy_op)
    : vec (list ig_policy_entry) 256 * Z :=
  match o with
  | OpAdd ok dev ino mask block path =>
      inode_policy_add jhash2 hash_min ok t dev ino mask block path
  | OpRemove dev ino => (inode_policy_remove jhash2 hash_min t dev ino, 0)
  | OpClear => (inode_policy_clear t, 0)
  end.

(** What the calls promise: an upsert that keeps the stored path when none is
    given and that can only fail on a new key, a delete, a clear. *)
Definition map_exec (m : gmap (Z * Z) ig_policy_entry) (o : policy_op)
    : gmap (Z * Z) ig_policy_entry * Z :=
  match o with
  | OpAdd ok dev ino mask block path =>
      match m !! (dev, ino) with
      | Some e => (<[(dev, ino) := set_policy mask block path e]> m, 0)
      | None =>
          if ok then (<[(dev, ino) := PolicyEntry dev ino mask block
                          (strncpy (default [] path) (IG_MAX_LKM_PATH - 1))]> m, 0)
          else (m, - ENOMEM)
      end
  | OpRemove dev ino => (delete (dev, ino) m, 0)
  | OpClear => (∅, 0)
  end.

(** The operations in order, with their return codes. *)
Fixpoint run_ops {S} (f : S → policy_op → S * Z) (s : S) (ops : list policy_op) : S * list Z :=
  match ops with
  | [] => (s, [])
  | o :: ops => let (s', r) := f s o in let (s'', rs) := run_ops f s' ops in (s'', r :: rs)
  end.

Definition represents (t : vec (list ig_policy_entry) 256)
    (m : gmap (Z * Z) ig_policy_entry) : Prop :=
  table_ok jhash2 hash_min t ∧
  ∀ dev ino, find_entry jhash2 hash_min t dev ino = m !! (dev, ino).

Lemma strncpy_nil n : strncpy [] n = [].
Proof. unfold strncpy. by destruct n. Qed.

Lemma policy_entry_new_eq dev ino mask block path :
  policy_entry_new dev ino mask block path =
  PolicyEntry dev ino mask block (strncpy (default [] path) (IG_MAX_LKM_PATH - 1)).
Proof.
  unfold policy_entry_new, set_policy. cbn [pe_dev pe_ino pe_path].
  destruct path; [done|]. cbn [default]. by rewrite strncpy_nil.
Qed.

Lemma policy_exec_represents t m o :
  represents t m →
  represents (policy_exec t o).1 (map_exec m o).1 ∧ (policy_exec t o).2 = (map_exec m o).2.
Proof.
  intros [Hok Hm]. destruct o as [ok dev ino mask block path|dev ino|]; cbn [policy_exec map_exec].
  - unfold inode_policy_add.
    destruct (policy_add_update jhash2 hash_min t dev ino mask block path) as [t'|] eqn:Hu.
    + destruct (table_ok_update _ _ _ _ _ _ _ _ _ Hok Hu) as [Hok' Hf].
      unfold policy_add_update in Hu. rewrite <- (Hm dev ino).
      destruct (find_entry jhash2 hash_min t dev ino) as [e|] eqn:He; [|done].
      split; [|done]. split; [exact Hok'|]. intros d i. cbn [fst]. rewrite Hf.
      case_bool_decide as E.
      * injection E as <- <-. by rewrite He, lookup_insert_eq.
      * by rewrite lookup_insert_ne, Hm by done.
    + unfold policy_add_update in Hu. rewrite <- (Hm dev ino).
      destruct (find_entry jhash2 hash_min t dev ino) as [e|] eqn:He; [done|].
      destruct ok; [|split; [split; [exact Hok|exact Hm]|reflexivity]].
      rewrite policy_entry_new_eq. set (e := PolicyEntry _ _ _ _ _).
      destruct (table_ok_insert jhash2 hash_min t e Hok He) as [Hok' Hf].
      split; [|done]. split; [exact Hok'|]. intros d i. cbn [fst]. rewrite Hf.
      change (key_of e) with (dev, ino). case_bool_decide as E.
      * injection E as <- <-. by rewrite lookup_insert_eq.
      * by rewrite lookup_insert_ne, Hm by done.
  - split; [|done]. split; [by apply table_ok_remove|]. intros d i. cbn [fst].
    rewrite find_remove by done. case_bool_decide as E.
    + injection E as <- <-. by rewrite lookup_delete_eq.
    + by rewrite lookup_delete_ne, Hm by done.
  - split; [|done]. split; [apply table_ok_clear|]. intros d i. cbn [fst].
    by rewrite find_clear, lookup_empty.
Qed.

Lemma run_ops_represents ops t m :
  represents t m →
  represents (run_ops policy_exec t ops).1 (run_ops map_exec m ops).1 ∧
  (run_ops policy_exec t ops).2 = (run_ops map_exec m ops).2.
Proof.
  revert t m. induction ops as [|o ops IH]; intros t m H; [done|].
  apply (policy_exec_represents t m o) in H as [H Hr]. cbn [run_ops].
  destruct (policy_exec t o) as [t1 r1], (map_exec m o) as [m1 r2]. cbn [fst snd] in *.
  destruct (IH _ _ H) as [H' Hr'].
  destruct (run_ops policy_exec t1 ops), (run_ops map_exec m1 ops). cbn [fst snd] in *.
  by subst.
Qed.

Lemma represents_init : represents ig_policy_init ∅.
Proof.
  split; [apply table_ok_init|]. intros dev ino. unfold find_entry, ig_policy_init.
  rewrite vlookup_replicate. by rewrite lookup_empty.
Qed.

(** *** Interleaving of the critical sections

    [/dev/ig_lkm] may be opened and its ioctls issued by several threads, and
    the hooks remove entries too. [pc_pending] holds the entries a caller has
    built after missing in the first section and not yet added. *)
Record policy_conc := PolicyConc {
  pc_table : vec (list ig_policy_entry) 256; pc_pending : list ig_policy_entry }.

Inductive policy_label :=
  | LUpdate (dev ino mask block : Z) (path : option cstring)
  | LMiss (dev ino mask block : Z) (path : option cstring)
  | LPublish (e : ig_policy_entry)
  | LRemove (dev ino : Z)
  | LClear.

Inductive pol_step : policy_conc → policy_label → policy_conc → Prop :=
  | step_update t t' p dev ino mask block path :
      policy_add_update jhash2 hash_min t dev ino mask block path = Some t' →
      pol_step (PolicyConc t p) (LUpdate dev ino mask block path) (PolicyConc t' p)
  | step_miss t p dev ino mask block path :
      policy_add_update jhash2 hash_min t dev ino mask block path = None →
      pol_step (PolicyConc t p) (LMiss dev ino mask block path)
        (PolicyConc t (policy_entry_new dev ino mask block path :: p))
  | step_publish t p1 p2 e :
      pol_step (PolicyConc t (p1 ++ e :: p2)) (LPublish e)
        (PolicyConc (policy_add_insert jhash2 hash_min t e) (p1 ++ p2))
  | step_remove t p dev ino :
      pol_step (PolicyConc t p) (LRemove dev ino)
        (PolicyConc (inode_policy_remove jhash2 hash_min t dev ino) p)
  | step_clear t p :
      pol_step (PolicyConc t p) LClear (PolicyConc (inode_policy_clear t) p).

Inductive pol_trace : policy_conc → list policy_label → policy_conc → Prop :=
  | trace_nil s : pol_trace s [] s
  | trace_cons s l s' ls s'' :
      pol_step s l s' → pol_trace s' ls s'' → pol_trace s (l :: ls) s''.

(** Adds of one key are serialised: none starts while another of the same key
    is between its sections. *)
Definition serial_step (s : policy_conc) (s' : policy_conc) : Prop :=
  ∃ l, pol_step s l s' ∧
    match l with
    | LMiss dev ino _ _ _ | LUpdate dev ino _ _ _ => (dev, ino) ∉ (key_of <$> pc_pending s)
    | _ => True
    end.

Definition conc_ok (s : policy_conc) : Prop :=
  table_ok jhash2 hash_min (pc_table s) ∧
  NoDup (key_of <$> pc_pending s) ∧
  ∀ e, e ∈ pc_pending s → find_entry jhash2 hash_min (pc_table s) (pe_dev e) (pe_ino e) = None.

Lemma conc_ok_step s s' : conc_ok s → serial_step s s' → conc_ok s'.
Proof.
  intros (Hok & Hnd & Hp) (l & Hs & Hg).
  destruct Hs as [t t' p dev ino mask block path Hu|t p dev ino mask block path Hu
                 |t p1 p2 e|t p dev ino|t p]; cbn [pc_table pc_pending] in *.
  - destruct (table_ok_update _ _ _ _ _ _ _ _ _ Hok Hu) as [Hok' Hf].
    split; [done|]. split; [done|]. intros e He. cbn [pc_table]. rewrite Hf, (Hp e He).
    by case_bool_decide.
  - split; [done|]. split.
    + cbn [pc_pending]. rewrite fmap_cons. by apply NoDup_cons.
    + intros e [->|He]%elem_of_cons; [|by apply Hp]. cbn. unfold policy_add_update in Hu.
      by destruct (find_entry jhash2 hash_min t dev ino).
  - assert (He : e ∈ p1 ++ e :: p2) by (apply elem_of_app; right; apply list_elem_of_here).
    destruct (table_ok_insert jhash2 hash_min t e Hok (Hp e He)) as [Hok' Hf].
    rewrite fmap_app, fmap_cons, NoDup_app in Hnd.
    destruct Hnd as (H1 & Hd & [Hn H2]%NoDup_cons).
    split; [done|]. split; cbn [pc_pending pc_table].
    + rewrite fmap_app. apply NoDup_app. split; [done|]. split; [|done].
      intros k Hk Hk2. by apply (Hd k Hk); apply elem_of_cons; right.
    + intros e' He'. rewrite Hf, bool_decide_eq_false_2.
      * apply Hp. apply elem_of_app in He' as [?|?]; apply elem_of_app; [by left|].
        right. by apply elem_of_cons; right.
      * intros Hk. change (key_of e = key_of e') in Hk.
        apply elem_of_app in He' as [Hin|Hin]; apply (list_elem_of_fmap_2 key_of) in Hin.
        -- apply (Hd _ Hin). rewrite <- Hk. apply list_elem_of_here.
        -- apply Hn. by rewrite Hk.
  - split; [by apply table_ok_remove|]. split; [done|]. intros e He. cbn [pc_table].
    rewrite find_remove by done. case_bool_decide; [done|]. by apply Hp.
  - split; [apply table_ok_clear|]. split; [done|]. intros e He. apply find_clear.
Qed.

(** ** Properties *)

(** [C10] The hash table implements a finite map from (device, inode): over any
    sequence of adds, removes and clears, with any allocation failures, every
    return code and every lookup and path query agrees with the map, whatever
    the hash functions are. *)
Theorem policy_table_refines_map (ops : list policy_op) :
  let tr := run_ops policy_exec ig_policy_init ops in
  let mr := run_ops map_exec ∅ ops in
  tr.2 = mr.2 ∧
  (∀ dev ino, find_entry jhash2 hash_min tr.1 dev ino = mr.1 !! (dev, ino)) ∧
  (∀ dev ino op,
     inode_policy_lookup (H := policy_table_store jhash2 hash_min) tr.1 dev ino op =
     (e ← mr.1 !! (dev, ino); if has_bits (pe_mask e) op then Some (pe_block e) else None)) ∧
  (∀ dev ino,
     inode_policy_path (H := policy_table_store jhash2 hash_min) tr.1 dev ino =
     default [] (pe_path <$> mr.1 !! (dev, ino))).
Proof.
  intros tr mr. destruct (run_ops_represents ops _ _ represents_init) as [[Hok Hm] Hr].
  fold tr mr in Hr, Hm. split; [done|]. split; [done|]. split.
  - intros dev ino op. unfold inode_policy_lookup. cbn [ps_find policy_table_store].
    rewrite Hm. by destruct (mr.1 !! (dev, ino)).
  - intros dev ino. unfold inode_policy_path. cbn [ps_find policy_table_store].
    rewrite Hm. by destruct (mr.1 !! (dev, ino)).
Qed.

(** While adds of one key never overlap, every interleaving of the
    critical sections keeps one entry per (device, inode), so a removal makes
    the next lookup miss. *)
Theorem serialised_adds_keep_one_entry (s : policy_conc)
    (Hr : rtc serial_step (PolicyConc ig_policy_init []) s) :
  table_ok jhash2 hash_min (pc_table s) ∧
  ∀ dev ino, find_entry jhash2 hash_min
    (inode_policy_remove jhash2 hash_min (pc_table s) dev ino) dev ino = None.
Proof.
  assert (conc_ok (PolicyConc ig_policy_init [])) as H0.
  { split; [apply table_ok_init|]. split; [constructor|].
    intros e H. by apply elem_of_nil in H. }
  remember (PolicyConc ig_policy_init []) as s0 eqn:E. clear E.
  induction Hr as [s|s s1 s2 H1 H2 IH].
  - destruct H0 as [Hok _]. split; [exact Hok|]. intros dev ino.
    rewrite find_remove by exact Hok. by rewrite bool_decide_eq_true_2.
  - apply IH. by eapply conc_ok_step.
Qed.

(** Two overlapping adds of one key both miss and both publish: after the
    policy is removed, the lookup still answers with the stale entry. *)
Theorem overlapping_adds_survive_remove (dev ino mask block : Z) (path : option cstring)
    (Hm : has_bits mask IG_OP_WRITE = true) :
  let e := policy_entry_new dev ino mask block path in
  ∃ s, pol_trace (PolicyConc ig_policy_init [])
         [LMiss dev ino mask block path; LMiss dev ino mask block path;
          LPublish e; LPublish e; LRemove dev ino] s ∧
       pc_pending s = [] ∧
       inode_policy_lookup (H := policy_table_store jhash2 hash_min) (pc_table s)
         dev ino IG_OP_WRITE = Some block.
Proof.
  intros e.
  assert (Hk : has_key dev ino e = true) by (apply has_key_spec; reflexivity).
  assert (Hn : policy_add_update jhash2 hash_min ig_policy_init dev ino mask block path = None).
  { unfold policy_add_update, find_entry, ig_policy_init. by rewrite vlookup_replicate. }
  eexists. split; [|split].
  - eapply trace_cons; [by apply step_miss|]. eapply trace_cons; [by apply step_miss|].
    eapply trace_cons; [apply (step_publish _ [] [e] e)|].
    eapply trace_cons; [apply (step_publish _ [] [] e)|].
    eapply trace_cons; [apply step_remove|]. apply trace_nil.
  - reflexivity.
  - cbn [pc_table]. unfold inode_policy_lookup. cbn [ps_find policy_table_store].
    unfold inode_policy_remove, policy_add_insert, find_entry, on_bucket, ig_policy_init.
    change (pe_dev e) with dev. change (pe_ino e) with ino.
    rewrite !vlookup_insert, vlookup_replicate. cbn [List.find]. rewrite Hk.
    rewrite !vlookup_insert. cbn [delete_first]. rewrite Hk. cbn [List.find]. rewrite Hk.
    change (pe_mask e) with mask. by rewrite Hm.
Qed.
End refinement.

Definition hash_zero (z : Z) : fin 256 := 0%fin.

Lemma serialised_adds_keep_one_entry_witness :
  let e := policy_entry_new 8 42 1 1 None in
  find_entry (λ _ _, 0) hash_zero
    (inode_policy_remove (λ _ _, 0) hash_zero
      (policy_add_insert (λ _ _, 0) hash_zero ig_policy_init e) 8 42) 8 42 = None.
Proof.
  intros e.
  apply (serialised_adds_keep_one_entry (λ _ _, 0) hash_zero
           (PolicyConc (policy_add_insert (λ _ _, 0) hash_zero ig_policy_init e) [])).
  eapply rtc_l; [|eapply rtc_l; [|apply rtc_refl]].
  - exists (LMiss 8 42 1 1 None). split; [apply step_miss; reflexivity|].
    cbn. intros H. by apply elem_of_nil in H.
  - exists (LPublish e). split; [apply (step_publish _ _ _ [] [] e)|done].
Defined.

Lemma overlapping_adds_survive_remove_witness :
  let e := policy_entry_new 8 42 1 1 None in
  ∃ s, pol_trace (λ _ _, 0) hash_zero (PolicyConc ig_policy_init [])
         [LMiss 8 42 1 1 None; LMiss 8 42 1 1 None; LPublish e; LPublish e; LRemove 8 42] s ∧
       pc_pending s = [] ∧
       inode_policy_lookup (H := policy_table_store (λ _ _, 0) hash_zero) (pc_table s)
         8 42 IG_OP_WRITE = Some 1.
Proof. exact (overlapping_adds_survive_remove _ _ 8 42 1 1 None eq_refl). Defined.
