(* ===== verification/ProcCache.v ===== *)
(** * Kernel process cache (lkm/ig_lkm_proc_cache.c)

    Entries are heap nodes linked twice, into a hash chain and into the LRU
    list. The model keeps the heap, the chains and the list apart, and every
    dereference, unlink and free of a node that is not there is a fault
    ([None]), so that the refinement of an LRU list of entries is also a memory
    safety result. The spinlock makes each callback's update atomic. *)

From S2P Require Import Prelude Bytes Monitor.

Local Open Scope Z_scope.

(** ** Constants and data *)

Definition IG_PC_MAX_ENTRIES : Z := 8192.
Definition IG_PC_GRACE_NS : Z := 5 * 60 * 1000000000.
Definition IG_PC_THROTTLE_RATE : Z := 10000.
Definition IG_PC_REAP_MAX : nat := 256.
Definition IG_LKM_CHAIN_MAX : nat := 16.
Definition IG_LKM_EXE_LEN : nat := 128.
Definition IG_LKM_CMDLINE_LEN : nat := 256.
#[global] Arguments IG_PC_REAP_MAX : simpl never.
#[global] Arguments IG_LKM_CHAIN_MAX : simpl never.

(* @src lkm/ig_lkm_proc_cache.c:75-89 ig_pc_entry *)
Record ig_pc_entry := PcEntry {
  pc_pid : Z; pc_ppid : Z; pc_uid : Z; pc_euid : Z; pc_sid : Z;
  pc_comm : cstring; pc_tty : cstring; pc_start_time_ns : Z;
  pc_exe : cstring; pc_cmdline : cstring;
  pc_exit_time_ns : Z (* 0 = alive *) }.

(* @src lkm/ig_lkm_common.h:53-66 ig_lkm_chain_entry *)
Record ig_lkm_chain_entry := LkmChainEntry {
  lc_pid : Z; lc_ppid : Z; lc_uid : Z; lc_euid : Z; lc_sid : Z;
  lc_comm : cstring; lc_tty : cstring; lc_start_time_ns : Z;
  lc_exe : cstring; lc_cmdline : cstring }.

#[export] Instance ig_pc_entry_eq_dec : EqDecision ig_pc_entry.
Proof. solve_decision. Defined.
#[export] Instance ig_lkm_chain_entry_eq_dec : EqDecision ig_lkm_chain_entry.
Proof. solve_decision. Defined.

Definition lkm_chain_entry_zero : ig_lkm_chain_entry :=
  LkmChainEntry 0 0 0 0 0 [] [] 0 [] [].

(** What the callbacks read of a [task_struct]; [None] for a null pointer on
    the way ([signal->tty], [mm], the exe file or its [d_path]). [mm_args] are
    the bytes between [arg_start] and [arg_end], [mm_copied] the result of
    [access_process_vm] on them. *)
Record mm_view := MmView { mm_exe : option cstring; mm_args : list Z; mm_copied : Z }.
Record task := Task {
  t_pid : Z; t_ppid : option Z; t_uid : Z; t_euid : Z; t_sid : Z; t_comm : cstring;
  t_tty : option cstring; t_start_ns : Z; t_mm : option mm_view }.

(** The allocator: an address that is not in use. *)
Class KernelAlloc (A : Type) := {
  kzalloc : gmap positive A → positive;
  kzalloc_fresh : ∀ h, h !! kzalloc h = None }.

Lemma fresh_dom_fresh {A} (h : gmap positive A) : h !! fresh (dom h) = None.
Proof. apply not_elem_of_dom, is_fresh. Qed.

#[export] Instance kernel_alloc_fresh A : KernelAlloc A := {
  kzalloc := λ h, fresh (dom h); kzalloc_fresh := fresh_dom_fresh }.

(** ** State *)

(** The hash table, the LRU list (head first), the heap and [ig_pc_count]. *)
(* @src lkm/ig_lkm_proc_cache.c:91-95 ig_pc_table *)
Record pc_index := PcIndex {
  ix_heap : gmap positive ig_pc_entry;
  ix_table : gmap Z (list positive);
  ix_lru : list positive;
  ix_count : Z }.

(* @src lkm/ig_lkm_proc_cache.c:95-104 ig_pc_inserts *)
Record pc_stats := PcStats {
  st_inserts : Z; st_hits : Z; st_misses : Z; st_evicts : Z; st_throttle : Z;
  st_window_jiffies : Z; st_window_count : Z }.

Definition chain (ix : pc_index) (b : Z) : list positive := default [] (ix_table ix !! b).

Section cache.
Context `{KernelAlloc ig_pc_entry}.
(** [hash_min(pid, IG_PC_HASH_BITS)] *)
Variable hash_min : Z → Z.
Variable HZ : Z.

Definition pc_index_init : pc_index := PcIndex ∅ ∅ [] 0.

(** ** Helpers *)

(* @src lkm/ig_lkm_proc_cache.c:120-133 capture_tty *)
Definition capture_tty (t : task) (outlen : nat) : cstring :=
  match t_tty t with Some name => strncpy name (outlen - 1) | None => [] end.

Fixpoint find_chain (heap : gmap positive ig_pc_entry) (pid : Z) (ns : list positive)
    : option (option positive) :=
  match ns with
  | [] => Some None
  | n :: ns => e ← heap !! n; if pc_pid e =? pid then Some (Some n) else find_chain heap pid ns
  end.

(* @src lkm/ig_lkm_proc_cache.c:136-143 ig_pc_find_locked *)
Definition ig_pc_find_locked (ix : pc_index) (pid : Z) : option (option positive) :=
  find_chain (ix_heap ix) pid (chain ix (hash_min pid)).

Definition without (n : positive) : list positive → list positive := filter (λ m, m ≠ n).

(** [hash_del; list_del; atomic_dec(&ig_pc_count); kfree] *)
(* @src lkm/ig_lkm_proc_cache.c:275-278 ig_pc_on_fork *)
Definition unlink (ix : pc_index) (n : positive) : option pc_index :=
  if bool_decide (n ∈ ix_lru ix) then
    _ ← ix_heap ix !! n;
    Some (PcIndex (delete n (ix_heap ix)) (without n <$> ix_table ix)
            (without n (ix_lru ix)) (ix_count ix - 1))
  else None.

(** [hash_add; list_add; atomic_inc(&ig_pc_count)] *)
(* @src lkm/ig_lkm_proc_cache.c:285-287 ig_pc_on_fork *)
Definition link (ix : pc_index) (e : ig_pc_entry) : pc_index :=
  let n := kzalloc (ix_heap ix) in
  let b := hash_min (pc_pid e) in
  PcIndex (<[n := e]> (ix_heap ix)) (<[b := n :: chain ix b]> (ix_table ix))
    (n :: ix_lru ix) (ix_count ix + 1).

(* @src lkm/ig_lkm_proc_cache.c:146-156 ig_pc_evict_one_locked *)
Definition ig_pc_evict_one_locked (ix : pc_index) : option pc_index :=
  match last (ix_lru ix) with None => Some ix | Some victim => unlink ix victim end.

(** [time_after(a, b)] on a 64-bit [unsigned long]. *)
Definition time_after (a b : Z) : bool := 2 ^ 63 <=? u64 (b - a).

(* @src lkm/ig_lkm_proc_cache.c:159-172 ig_pc_should_throttle *)
Definition ig_pc_should_throttle (s : pc_stats) (now : Z) : pc_stats * bool :=
  let reset := time_after now (u64 (st_window_jiffies s + HZ)) in
  let window := if reset then now else st_window_jiffies s in
  let count := s32 ((if reset then 0 else st_window_count s) + 1) in
  let over := IG_PC_THROTTLE_RATE <? count in
  (PcStats (st_inserts s) (st_hits s) (st_misses s) (st_evicts s)
     (if over then u32 (st_throttle s + 1) else st_throttle s) window count, over).

(* @src lkm/ig_lkm_proc_cache.c:176-240 capture_exec_meta *)
Definition capture_exec_meta (t : task) (exe_len cmd_len : nat) : cstring * cstring :=
  match t_mm t with
  | None => ([], [])
  | Some mm =>
      let exe := match mm_exe mm with Some p => strncpy p (exe_len - 1) | None => [] end in
      let want := Nat.min (length (mm_args mm)) (cmd_len - 1) in
      let copied := Z.to_nat (Z.min (mm_copied mm) (Z.of_nat want)) in
      let raw := take copied (mm_args mm) in
      let spaced := ((λ b, if b =? 0 then 32 else b) <$> take (copied - 1) raw)
                      ++ drop (copied - 1) raw in
      (exe, cstr spaced)
  end.

(** The entry [ig_pc_on_fork] and [ig_pc_preload] fill. *)
(* @src lkm/ig_lkm_proc_cache.c:258-267 ig_pc_on_fork *)
Definition entry_of_task (t : task) (parent : option Z) : ig_pc_entry :=
  PcEntry (t_pid t) (default 0 parent) (t_uid t) (t_euid t) (t_sid t)
    (t_comm t) (capture_tty t 16) (t_start_ns t) [] [] 0.

(** ** Callbacks *)

(** The locked part of [ig_pc_on_fork]. *)
(* @src lkm/ig_lkm_proc_cache.c:269-290 ig_pc_on_fork *)
Definition fork_locked (ix : pc_index) (e : ig_pc_entry) : option (pc_index * bool) :=
  old ← ig_pc_find_locked ix (pc_pid e);
  ix ← match old with Some n => unlink ix n | None => Some ix end;
  let full := IG_PC_MAX_ENTRIES <=? ix_count ix in
  ix' ← if full then ig_pc_evict_one_locked ix else Some ix;
  Some (link ix' e, full && bool_decide (ix_lru ix ≠ [])).

Definition count_insert (s : pc_stats) (evicted : bool) : pc_stats :=
  PcStats (u32 (st_inserts s + 1)) (st_hits s) (st_misses s)
    (if evicted then u32 (st_evicts s + 1) else st_evicts s) (st_throttle s)
    (st_window_jiffies s) (st_window_count s).

Abbreviation cache := (pc_index * pc_stats)%type.

(* @src lkm/ig_lkm_proc_cache.c:244-291 ig_pc_on_fork *)
Definition ig_pc_on_fork (c : cache) (jiffies : Z) (alloc_ok : bool)
    (parent : option Z) (child : option task) : option cache :=
  match child with
  | None => Some c
  | Some t =>
      let (s, throttled) := ig_pc_should_throttle c.2 jiffies in
      if throttled then Some (c.1, s)
      else if alloc_ok
        then '(ix, ev) ← fork_locked c.1 (entry_of_task t parent); Some (ix, count_insert s ev)
        else Some (c.1, s)
  end.

(** Writing through the pointer and moving the node in the LRU list. *)
Definition rewrite_node (ix : pc_index) (n : positive) (f : ig_pc_entry → ig_pc_entry)
    (head : bool) : option pc_index :=
  e ← ix_heap ix !! n;
  if bool_decide (n ∈ ix_lru ix)
  then Some (PcIndex (<[n := f e]> (ix_heap ix)) (ix_table ix)
               (if head then n :: without n (ix_lru ix) else without n (ix_lru ix) ++ [n])
               (ix_count ix))
  else None.

(* @src lkm/ig_lkm_proc_cache.c:311-322 ig_pc_on_exec *)
Definition exec_entry (t : task) (e : ig_pc_entry) : ig_pc_entry :=
  let (exe, cmd) := capture_exec_meta t 256 512 in
  PcEntry (pc_pid e) (pc_ppid e) (pc_uid e) (pc_euid e) (pc_sid e)
    (t_comm t) (capture_tty t 16) (pc_start_time_ns e)
    (match exe with [] => pc_exe e | _ => strncpy exe 255 end)
    (match cmd with [] => pc_cmdline e | _ => strncpy cmd 511 end)
    (pc_exit_time_ns e).

(* @src lkm/ig_lkm_proc_cache.c:293-327 ig_pc_on_exec *)
Definition ig_pc_on_exec (c : cache) (t : option task) : option cache :=
  match t with
  | None => Some c
  | Some t =>
      r ← ig_pc_find_locked c.1 (t_pid t);
      match r with
      | Some n => ix ← rewrite_node c.1 n (exec_entry t) true; Some (ix, c.2)
      | None => Some c
      end
  end.

Definition set_exit_time (now : Z) (e : ig_pc_entry) : ig_pc_entry :=
  PcEntry (pc_pid e) (pc_ppid e) (pc_uid e) (pc_euid e) (pc_sid e) (pc_comm e) (pc_tty e)
    (pc_start_time_ns e) (pc_exe e) (pc_cmdline e) now.

(* @src lkm/ig_lkm_proc_cache.c:329-347 ig_pc_on_exit *)
Definition ig_pc_on_exit (c : cache) (now_ns : Z) (t : option task) : option cache :=
  match t with
  | None => Some c
  | Some t =>
      r ← ig_pc_find_locked c.1 (t_pid t);
      match r with
      | Some n => ix ← rewrite_node c.1 n (set_exit_time now_ns) false; Some (ix, c.2)
      | None => Some c
      end
  end.

(** ** Ancestry chain *)

(* @src lkm/ig_lkm_proc_cache.c:376-389 ig_proc_cache_collect_chain *)
Definition chain_entry_of (e : ig_pc_entry) : ig_lkm_chain_entry :=
  LkmChainEntry (pc_pid e) (pc_ppid e) (pc_uid e) (pc_euid e) (pc_sid e)
    (pc_comm e) (pc_tty e) (pc_start_time_ns e)
    (strncpy (pc_exe e) (IG_LKM_EXE_LEN - 1)) (strncpy (pc_cmdline e) (IG_LKM_CMDLINE_LEN - 1)).

(** The loop: entries filled from [cur] on, the truncation flag, and how many
    lookups hit and missed. [fuel] is the number of iterations left. *)
(* @src lkm/ig_lkm_proc_cache.c:365-396 ig_proc_cache_collect_chain *)
Fixpoint collect_loop (fuel : nat) (ix : pc_index) (cur : Z)
    : option (list ig_lkm_chain_entry * bool * Z) :=
  match fuel with
  | O => Some ([], false, 0)
  | S fuel =>
      r ← ig_pc_find_locked ix cur;
      match r with
      | None => Some ([], true, 1)
      | Some n =>
          e ← ix_heap ix !! n;
          let o := chain_entry_of e in
          if (pc_ppid e <=? 1) || (pc_ppid e =? cur) then Some ([o], false, 0)
          else
            '(os, tr, misses) ← collect_loop fuel ix (pc_ppid e);
            Some (o :: os, match fuel with O => true | _ => tr end, misses)
      end
  end.

(* @src lkm/ig_lkm_proc_cache.c:351-400 ig_proc_cache_collect_chain *)
Definition ig_proc_cache_collect_chain (c : cache) (start_pid : Z) (max_depth : nat)
    : option (cache * list ig_lkm_chain_entry * bool) :=
  '(os, tr, misses) ← collect_loop max_depth c.1 start_pid;
  let s := c.2 in
  Some ((c.1, PcStats (st_inserts s) (u32 (st_hits s + Z.of_nat (length os)))
                (u32 (st_misses s + misses)) (st_evicts s) (st_throttle s)
                (st_window_jiffies s) (st_window_count s)), os, tr).

(* @src lkm/ig_lkm_proc_cache.c:403-422 ig_proc_cache_lookup_full *)
Definition ig_proc_cache_lookup_full (c : cache) (pid : Z) (comm_len exe_len cmd_len : nat)
    : option (option (cstring * cstring * cstring)) :=
  r ← ig_pc_find_locked c.1 pid;
  match r with
  | None => Some None
  | Some n => e ← ix_heap c.1 !! n;
      Some (Some (strncpy (pc_comm e) (comm_len - 1), strncpy (pc_exe e) (exe_len - 1),
                  strncpy (pc_cmdline e) (cmd_len - 1)))
  end.

(* @src lkm/ig_lkm_proc_cache.c:424-437 ig_proc_cache_get_stats *)
Definition ig_proc_cache_get_stats (c : cache) : list Z :=
  [ix_count c.1; st_inserts c.2; st_hits c.2; st_misses c.2; st_evicts c.2; st_throttle c.2].

(** ** Garbage collection and preload *)

(** A tombstone older than the grace period, in [u64] arithmetic. *)
(* @src lkm/ig_lkm_proc_cache.c:453-454 ig_pc_gc_work *)
Definition expired (now : Z) (e : ig_pc_entry) : bool :=
  negb (pc_exit_time_ns e =? 0) && negb (u64 (now - pc_exit_time_ns e) <? IG_PC_GRACE_NS).

(** The reverse walk; [budget] is how many entries may still be reaped. *)
(* @src lkm/ig_lkm_proc_cache.c:452-461 ig_pc_gc_work *)
Fixpoint gc_scan (now : Z) (budget : nat) (ns : list positive) (ix : pc_index)
    : option pc_index :=
  match ns, budget with
  | [], _ | _, O => Some ix
  | n :: ns, S budget' =>
      e ← ix_heap ix !! n;
      if expired now e
      then ix' ← unlink ix n; gc_scan now budget' ns ix'
      else gc_scan now budget ns ix
  end.

(* @src lkm/ig_lkm_proc_cache.c:444-465 ig_pc_gc_work *)
Definition ig_pc_gc_work (c : cache) (now_ns : Z) : option cache :=
  ix ← gc_scan now_ns IG_PC_REAP_MAX (rev (ix_lru c.1)) c.1; Some (ix, c.2).

(** [for_each_process]; each task with the outcome of its [kzalloc]. *)
(* @src lkm/ig_lkm_proc_cache.c:473-518 ig_pc_preload *)
Fixpoint ig_pc_preload (c : cache) (ts : list (bool * task)) : option cache :=
  match ts with
  | [] => Some c
  | (alloc_ok, t) :: ts =>
      if alloc_ok then
        let e := entry_of_task t (t_ppid t) in
        if IG_PC_MAX_ENTRIES <=? ix_count c.1 then Some c
        else
          r ← ig_pc_find_locked c.1 (pc_pid e);
          match r with
          | Some _ => ig_pc_preload c ts
          | None => ig_pc_preload (link c.1 e, count_insert c.2 false) ts
          end
      else ig_pc_preload c ts
  end.

Fixpoint unlink_all (ns : list positive) (ix : pc_index) : option pc_index :=
  match ns with [] => Some ix | n :: ns => ix' ← unlink ix n; unlink_all ns ix' end.

(** [hash_for_each_safe]: every chain, one after the other. *)
(* @src lkm/ig_lkm_proc_cache.c:640-649 ig_proc_cache_exit *)
Definition ig_proc_cache_exit (c : cache) : option cache :=
  ix ← unlink_all (concat ((map_to_list (ix_table c.1)).*2)) c.1;
  Some (PcIndex (ix_heap ix) (ix_table ix) (ix_lru ix) 0, c.2).

(** ** Events *)

(** The callbacks and the API calls, with what they read of the kernel. *)
Inductive pc_event :=
  | EvFork (jiffies : Z) (alloc_ok : bool) (parent : option Z) (child : option task)
  | EvExec (t : option task)
  | EvExit (now_ns : Z) (t : option task)
  | EvGc (now_ns : Z)
  | EvPreload (ts : list (bool * task))
  | EvCollect (pid : Z) (max_depth : nat).

Definition pc_step (c : cache) (ev : pc_event) : option cache :=
  match ev with
  | EvFork j ok p t => ig_pc_on_fork c j ok p t
  | EvExec t => ig_pc_on_exec c t
  | EvExit now t => ig_pc_on_exit c now t
  | EvGc now => ig_pc_gc_work c now
  | EvPreload ts => ig_pc_preload c ts
  | EvCollect pid d => r ← ig_proc_cache_collect_chain c pid d; Some r.1.1
  end.

Fixpoint pc_run (c : cache) (evs : list pc_event) : option cache :=
  match evs with [] => Some c | ev :: evs => c' ← pc_step c ev; pc_run c' evs end.

(** ** Specification: an LRU list of entries keyed by pid *)

Definition lookup_pid (pid : Z) (l : list ig_pc_entry) : option ig_pc_entry :=
  List.find (λ e, pc_pid e =? pid) l.
Definition drop_pid (pid : Z) : list ig_pc_entry → list ig_pc_entry :=
  filter (λ e, pc_pid e ≠ pid).

Definition spec_insert (e : ig_pc_entry) (l : list ig_pc_entry) : list ig_pc_entry :=
  let l := drop_pid (pc_pid e) l in
  e :: (if IG_PC_MAX_ENTRIES <=? Z.of_nat (length l) then removelast l else l).

Definition spec_touch (pid : Z) (f : ig_pc_entry → ig_pc_entry) (head : bool)
    (l : list ig_pc_entry) : list ig_pc_entry :=
  match lookup_pid pid l with
  | Some e => if head then f e :: drop_pid pid l else drop_pid pid l ++ [f e]
  | None => l
  end.

(** Oldest first, at most [budget] removed. *)
Fixpoint reap (now : Z) (budget : nat) (l : list ig_pc_entry) : list ig_pc_entry :=
  match l, budget with
  | [], _ | _, O => l
  | e :: l, S budget' => if expired now e then reap now budget' l else e :: reap now budget l
  end.

Definition spec_gc (now : Z) (l : list ig_pc_entry) : list ig_pc_entry :=
  rev (reap now IG_PC_REAP_MAX (rev l)).

Fixpoint spec_preload (l : list ig_pc_entry) (ts : list (bool * task)) : list ig_pc_entry :=
  match ts with
  | [] => l
  | (true, t) :: ts =>
      if IG_PC_MAX_ENTRIES <=? Z.of_nat (length l) then l
      else spec_preload (match lookup_pid (t_pid t) l with
                         | Some _ => l | None => entry_of_task t (t_ppid t) :: l end) ts
  | (false, _) :: ts => spec_preload l ts
  end.

(** The fork rate limiter decides with the counters alone. *)
Definition spec_step (s : pc_stats) (l : list ig_pc_entry) (ev : pc_event)
    : list ig_pc_entry :=
  match ev with
  | EvFork j true p (Some t) =>
      if (ig_pc_should_throttle s j).2 then l else spec_insert (entry_of_task t p) l
  | EvFork _ _ _ _ => l
  | EvExec (Some t) => spec_touch (t_pid t) (exec_entry t) true l
  | EvExit now (Some t) => spec_touch (t_pid t) (set_exit_time now) false l
  | EvExec None | EvExit _ None => l
  | EvGc now => spec_gc now l
  | EvPreload ts => spec_preload l ts
  | EvCollect _ _ => l
  end.

Definition entries (ix : pc_index) : list ig_pc_entry := omap (λ n, ix_heap ix !! n) (ix_lru ix).

(** ** Invariant *)

(** The chains, the list and the heap hold the same nodes; pids are unique; the
    count is exact and bounded. *)
Record ix_ok (ix : pc_index) : Prop := {
  ok_lru : NoDup (ix_lru ix);
  ok_dom : ∀ n, n ∈ ix_lru ix ↔ is_Some (ix_heap ix !! n);
  ok_chain : ∀ b n, n ∈ chain ix b ↔ ∃ e, ix_heap ix !! n = Some e ∧ hash_min (pc_pid e) = b;
  ok_nodup : ∀ b, NoDup (chain ix b);
  ok_pid : ∀ n m e f, ix_heap ix !! n = Some e → ix_heap ix !! m = Some f →
                      pc_pid e = pc_pid f → n = m;
  ok_count : ix_count ix = Z.of_nat (length (ix_lru ix));
  ok_max : ix_count ix ≤ IG_PC_MAX_ENTRIES }.

Lemma elem_of_without n m l : m ∈ without n l ↔ m ≠ n ∧ m ∈ l.
Proof. unfold without. by rewrite list_elem_of_filter. Qed.

Lemma without_not_in n l : n ∉ l → without n l = l.
Proof. intros Hn. apply filter_all. by intros m Hm ->. Qed.

Lemma length_without n l : NoDup l → n ∈ l → S (length (without n l)) = length l.
Proof.
  induction l as [|m l IH]; [by intros _ ?%elem_of_nil|]. intros [Hm Hl]%NoDup_cons Hin.
  destruct (decide (m = n)) as [->|Hne].
  - unfold without. rewrite filter_cons_False by naive_solver.
    fold (without n l). by rewrite without_not_in.
  - unfold without. rewrite filter_cons_True by done. cbn. f_equal. apply IH; [done|].
    by apply elem_of_cons in Hin as [Heq|?].
Qed.

Lemma chain_unlink ix n b :
  chain (PcIndex (delete n (ix_heap ix)) (without n <$> ix_table ix)
           (without n (ix_lru ix)) (ix_count ix - 1)) b = without n (chain ix b).
Proof.
  unfold chain. cbn [ix_table]. rewrite lookup_fmap. by destruct (ix_table ix !! b).
Qed.

Lemma chain_link ix e b :
  chain (link ix e) b =
  if bool_decide (hash_min (pc_pid e) = b)
  then kzalloc (ix_heap ix) :: chain ix b else chain ix b.
Proof.
  unfold chain, link. cbn [ix_table]. case_bool_decide as E.
  - subst b. by rewrite lookup_insert_eq.
  - by rewrite lookup_insert_ne.
Qed.

Lemma ix_ok_init : ix_ok pc_index_init.
Proof.
  split; cbn [pc_index_init ix_lru ix_heap ix_count].
  - constructor.
  - intros n. rewrite lookup_empty. split; [by intros ?%elem_of_nil|by intros []].
  - intros b n. unfold chain, pc_index_init. cbn [ix_table ix_heap]. rewrite !lookup_empty.
    split; [by intros ?%elem_of_nil|by intros (? & ? & _)].
  - intros b. unfold chain, pc_index_init. cbn [ix_table]. rewrite lookup_empty. constructor.
  - intros n m e f Hn. by rewrite lookup_empty in Hn.
  - done.
  - done.
Qed.

(** *** Finding *)

Lemma find_chain_spec heap pid ns :
  (∀ n, n ∈ ns → is_Some (heap !! n)) →
  ∃ r, find_chain heap pid ns = Some r ∧
    match r with
    | Some n => n ∈ ns ∧ ∃ e, heap !! n = Some e ∧ pc_pid e = pid
    | None => ∀ n e, n ∈ ns → heap !! n = Some e → pc_pid e ≠ pid
    end.
Proof.
  induction ns as [|n ns IH]; intros Hd; cbn [find_chain].
  { exists None. split; [done|]. by intros n e ?%elem_of_nil. }
  destruct (Hd n (list_elem_of_here _ _)) as [e He]. rewrite He. cbn.
  destruct (Z.eqb_spec (pc_pid e) pid) as [Hp|Hp].
  - exists (Some n). split; [done|]. split; [by left|by exists e].
  - destruct IH as (r & -> & Hr); [intros m Hm; apply Hd; by right|]. exists r. split; [done|].
    destruct r as [m|].
    + destruct Hr as [Hin He']. split; [by right|done].
    + intros m f [->|Hin]%elem_of_cons Hf; [congruence|by eapply Hr].
Qed.

(** [ig_pc_find_locked] never faults and finds the node of the pid, if any. *)
Lemma find_locked_spec ix pid : ix_ok ix →
  ∃ r, ig_pc_find_locked ix pid = Some r ∧
    match r with
    | Some n => n ∈ ix_lru ix ∧ ∃ e, ix_heap ix !! n = Some e ∧ pc_pid e = pid
    | None => ∀ n e, ix_heap ix !! n = Some e → pc_pid e ≠ pid
    end.
Proof.
  intros Hok. unfold ig_pc_find_locked.
  destruct (find_chain_spec (ix_heap ix) pid (chain ix (hash_min pid))) as (r & Hf & Hr).
  { intros n (e & He & _)%(ok_chain _ Hok). by exists e. }
  exists r. split; [exact Hf|]. destruct r as [n|].
  - destruct Hr as [_ (e & He & Hp)]. split; [|by exists e]. apply (ok_dom _ Hok). by exists e.
  - intros n e He Hp. apply (Hr n e); [|done|done]. apply (ok_chain _ Hok). exists e.
    by rewrite Hp.
Qed.

Lemma lookup_pid_omap ix pid n e : ix_ok ix →
  n ∈ ix_lru ix → ix_heap ix !! n = Some e → pc_pid e = pid →
  lookup_pid pid (entries ix) = Some e.
Proof.
  intros Hok Hin He Hp. unfold lookup_pid, entries. revert Hin.
  induction (ix_lru ix) as [|m l IH]; [by intros ?%elem_of_nil|]. intros Hin.
  destruct (ix_heap ix !! m) as [f|] eqn:Hf; cbn; rewrite Hf.
  - cbn. destruct (Z.eqb_spec (pc_pid f) pid) as [E|E].
    + assert (m = n) as -> by (eapply ok_pid; eauto; congruence). congruence.
    + apply IH. apply elem_of_cons in Hin as [->|?]; [congruence|done].
  - apply IH. apply elem_of_cons in Hin as [->|?]; [congruence|done].
Qed.

Lemma elem_of_entries ix e : e ∈ entries ix ↔ ∃ n, n ∈ ix_lru ix ∧ ix_heap ix !! n = Some e.
Proof. unfold entries. rewrite list_elem_of_omap. done. Qed.

Lemma lookup_pid_absent ix pid :
  (∀ n e, ix_heap ix !! n = Some e → pc_pid e ≠ pid) → lookup_pid pid (entries ix) = None.
Proof.
  intros Hn. unfold lookup_pid. destruct (List.find _ _) as [e|] eqn:Hf; [|done].
  apply find_some in Hf as [Hin Hp]. apply list_elem_of_In, elem_of_entries in Hin as (n & _ & He).
  apply Z.eqb_eq in Hp. by apply Hn in He.
Qed.

Lemma drop_pid_absent ix pid :
  (∀ n e, ix_heap ix !! n = Some e → pc_pid e ≠ pid) → drop_pid pid (entries ix) = entries ix.
Proof.
  intros Hn. unfold drop_pid. apply filter_all.
  intros e (n & _ & He)%elem_of_entries. by eapply Hn.
Qed.

Lemma length_entries ix : ix_ok ix → length (entries ix) = length (ix_lru ix).
Proof.
  intros Hok. assert (HF : Forall (λ n, is_Some (ix_heap ix !! n)) (ix_lru ix)).
  { apply Forall_forall. intros n. apply ok_dom, Hok. }
  unfold entries. induction HF as [|n l [e He] HF IH]; [done|]. cbn. rewrite He. cbn. by rewrite IH.
Qed.

(** *** Unlinking, linking, rewriting *)

Lemma omap_heap_cons (h : gmap positive ig_pc_entry) n (l : list positive) :
  omap (λ m, h !! m) (n :: l) =
  match h !! n with Some e => e :: omap (λ m, h !! m) l | None => omap (λ m, h !! m) l end.
Proof. done. Qed.

Lemma omap_heap_rev (h : gmap positive ig_pc_entry) (l : list positive) :
  omap (λ m, h !! m) (rev l) = rev (omap (λ m, h !! m) l).
Proof.
  induction l as [|n l IH]; [done|]. cbn [rev]. rewrite omap_app, IH, !omap_heap_cons.
  destruct (h !! n); cbn; [done|by rewrite app_nil_r].
Qed.

Lemma omap_delete (h : gmap positive ig_pc_entry) n (l : list positive) :
  n ∉ l → omap (λ m, delete n h !! m) l = omap (λ m, h !! m) l.
Proof.
  induction l as [|m l IH]; [done|]. intros Hn. cbn.
  rewrite lookup_delete_ne by (intros ->; apply Hn; by left).
  rewrite IH by (intros ?; apply Hn; by right). done.
Qed.

Lemma unlink_ok ix n : ix_ok ix → n ∈ ix_lru ix →
  ∃ ix' e, unlink ix n = Some ix' ∧ ix_heap ix !! n = Some e ∧ ix_ok ix' ∧
    ix_lru ix' = without n (ix_lru ix) ∧ ix_heap ix' = delete n (ix_heap ix) ∧
    ix_count ix' = ix_count ix - 1.
Proof.
  intros Hok Hin. destruct (proj1 (ok_dom _ Hok n) Hin) as [e He]. unfold unlink.
  rewrite bool_decide_eq_true_2 by done. rewrite He. cbn. eexists _, e.
  split; [reflexivity|]. split; [done|]. split; [|done].
  pose proof (length_without n _ (ok_lru _ Hok) Hin) as Hlen.
  split; cbn [ix_lru ix_heap ix_count].
  - apply NoDup_filter, ok_lru, Hok.
  - intros m. rewrite elem_of_without, (ok_dom _ Hok). destruct (decide (m = n)) as [->|Hne].
    + rewrite lookup_delete_eq. split; [by intros []|by intros []].
    + rewrite lookup_delete_ne by done. naive_solver.
  - intros b m. rewrite chain_unlink, elem_of_without, (ok_chain _ Hok).
    destruct (decide (m = n)) as [->|Hne].
    + rewrite lookup_delete_eq. split; [by intros []|by intros (? & ? & _)].
    + rewrite lookup_delete_ne by done. naive_solver.
  - intros b. rewrite chain_unlink. apply NoDup_filter, ok_nodup, Hok.
  - intros m k f g Hm Hk. apply lookup_delete_Some in Hm as [_ Hm], Hk as [_ Hk].
    by eapply ok_pid.
  - rewrite (ok_count _ Hok). lia.
  - pose proof (ok_max _ Hok). lia.
Qed.

(** Entries after a node is unlinked: its pid is gone. *)
Lemma entries_without ix n e : ix_ok ix → ix_heap ix !! n = Some e →
  omap (λ m, delete n (ix_heap ix) !! m) (without n (ix_lru ix)) = drop_pid (pc_pid e) (entries ix).
Proof.
  intros Hok He. unfold entries, drop_pid. induction (ix_lru ix) as [|m l IH]; [done|].
  destruct (decide (m = n)) as [->|Hne].
  - unfold without. rewrite filter_cons_False by naive_solver. fold (without n l). rewrite IH.
    rewrite omap_heap_cons, He. by rewrite filter_cons_False by naive_solver.
  - unfold without. rewrite filter_cons_True by done. fold (without n l).
    rewrite !omap_heap_cons, lookup_delete_ne by done.
    destruct (ix_heap ix !! m) as [f|] eqn:Hf; [|exact IH].
    rewrite filter_cons_True.
    + by rewrite IH.
    + intros Hp. apply Hne. by eapply ok_pid.
Qed.

Lemma link_ok ix e : ix_ok ix → ix_count ix < IG_PC_MAX_ENTRIES →
  (∀ n f, ix_heap ix !! n = Some f → pc_pid f ≠ pc_pid e) →
  ix_ok (link ix e) ∧ entries (link ix e) = e :: entries ix ∧
  ix_count (link ix e) = ix_count ix + 1.
Proof.
  intros Hok Hmax Hnew. pose proof (kzalloc_fresh (ix_heap ix)) as Hfr.
  assert (Hni : kzalloc (ix_heap ix) ∉ ix_lru ix).
  { intros Hin. apply (ok_dom _ Hok) in Hin as [f Hf]. congruence. }
  split; [|split; [|done]].
  - split.
    + cbn [link ix_lru]. apply NoDup_cons. split; [done|apply ok_lru, Hok].
    + intros n. cbn [link ix_lru ix_heap]. rewrite elem_of_cons, (ok_dom _ Hok).
      destruct (decide (n = kzalloc (ix_heap ix))) as [->|Hne].
      * rewrite lookup_insert_eq. naive_solver.
      * rewrite lookup_insert_ne by done. naive_solver.
    + intros b n. rewrite chain_link. cbn [link ix_heap].
      destruct (decide (n = kzalloc (ix_heap ix))) as [->|Hne].
      * rewrite lookup_insert_eq. case_bool_decide as E.
        -- split; [intros _; by exists e|intros _; by left].
        -- rewrite (ok_chain _ Hok), Hfr. naive_solver.
      * rewrite lookup_insert_ne by done. rewrite <- (ok_chain _ Hok).
        case_bool_decide; [|done]. rewrite elem_of_cons. naive_solver.
    + intros b. rewrite chain_link. case_bool_decide; [|apply ok_nodup, Hok].
      apply NoDup_cons. split; [|apply ok_nodup, Hok].
      rewrite (ok_chain _ Hok), Hfr. by intros (? & ? & _).
    + intros n m f g. cbn [link ix_heap]. rewrite !lookup_insert_Some.
      intros [[<- <-]|[_ Hn]] [[<- <-]|[_ Hm]] Hp; [done| | |by eapply ok_pid].
      * by apply Hnew in Hm.
      * by apply Hnew in Hn.
    + cbn [link ix_lru ix_count length]. rewrite (ok_count _ Hok). lia.
    + cbn [link ix_count]. lia.
  - unfold entries. cbn [link ix_lru ix_heap]. rewrite omap_heap_cons, lookup_insert_eq. f_equal.
    clear -Hni. induction (ix_lru ix) as [|m l IH]; [done|]. rewrite !omap_heap_cons.
    rewrite lookup_insert_ne by (intros Heq; apply Hni; rewrite Heq; by left).
    rewrite IH by (intros ?; apply Hni; by right). done.
Qed.

Lemma rewrite_node_ok ix n e f head : ix_ok ix → n ∈ ix_lru ix → ix_heap ix !! n = Some e →
  pc_pid (f e) = pc_pid e →
  ∃ ix', rewrite_node ix n f head = Some ix' ∧ ix_ok ix' ∧
    entries ix' = (if head then f e :: drop_pid (pc_pid e) (entries ix)
                   else drop_pid (pc_pid e) (entries ix) ++ [f e]) ∧
    ix_count ix' = ix_count ix.
Proof.
  intros Hok Hin He Hp. unfold rewrite_node. rewrite He. cbn.
  rewrite bool_decide_eq_true_2 by done. eexists. split; [reflexivity|].
  pose proof (length_without n _ (ok_lru _ Hok) Hin) as Hlen.
  assert (Hnw : n ∉ without n (ix_lru ix)) by (rewrite elem_of_without; naive_solver).
  assert (Hw : omap (λ m, <[n:=f e]> (ix_heap ix) !! m) (without n (ix_lru ix)) =
               drop_pid (pc_pid e) (entries ix)).
  { rewrite <- (entries_without ix n e Hok He). apply list_omap_ext. clear Hlen.
    apply Forall2_same_length_lookup_2; [done|]. intros i m m' Hm Hm'.
    assert (m = m') as <- by congruence. apply list_elem_of_lookup_2 in Hm.
    rewrite lookup_insert_ne, lookup_delete_ne by (intros ->; done). done. }
  split; [|split; [|done]].
  - split; cbn [ix_lru ix_heap ix_count].
    + destruct head; [apply NoDup_cons; split; [done|apply NoDup_filter, ok_lru, Hok]|].
      apply NoDup_app. split; [apply NoDup_filter, ok_lru, Hok|].
      split; [|apply NoDup_singleton]. by intros m Hm ->%list_elem_of_singleton.
    + intros m. assert (m ∈ (if head then n :: without n (ix_lru ix)
                                     else without n (ix_lru ix) ++ [n]) ↔ m ∈ ix_lru ix) as ->.
      { destruct head; rewrite ?elem_of_app, ?elem_of_cons, ?elem_of_nil, elem_of_without;
          destruct (decide (m = n)); naive_solver. }
      rewrite (ok_dom _ Hok). destruct (decide (m = n)) as [->|].
      * rewrite lookup_insert_eq, He. naive_solver.
      * by rewrite lookup_insert_ne.
    + intros b m. change (chain _ b) with (chain ix b). rewrite (ok_chain _ Hok).
      destruct (decide (m = n)) as [->|]; [|by rewrite lookup_insert_ne].
      rewrite lookup_insert_eq, He. split; intros (g & [= <-] & Hg); eexists; split;
        try reflexivity; congruence.
    + intros b. apply (ok_nodup _ Hok).
    + intros m k g h Hm Hk Hpid. apply lookup_insert_Some in Hm, Hk.
      destruct Hm as [[<- <-]|[_ Hm]], Hk as [[<- <-]|[_ Hk]]; [done| | |by eapply ok_pid].
      * eapply ok_pid; eauto. congruence.
      * eapply ok_pid; eauto. congruence.
    + rewrite (ok_count _ Hok). destruct head; rewrite ?length_app; cbn [length]; lia.
    + apply (ok_max _ Hok).
  - unfold entries at 1. cbn [ix_lru ix_heap]. destruct head.
    + rewrite omap_heap_cons, lookup_insert_eq. by rewrite Hw.
    + rewrite omap_app, Hw, omap_heap_cons, lookup_insert_eq. done.
Qed.

(** *** Each operation refines its specification *)

Lemma find_locked_entries ix pid : ix_ok ix →
  ∃ r, ig_pc_find_locked ix pid = Some r ∧
    match r with
    | Some n => n ∈ ix_lru ix ∧ ∃ e, ix_heap ix !! n = Some e ∧ pc_pid e = pid ∧
                lookup_pid pid (entries ix) = Some e
    | None => (∀ n e, ix_heap ix !! n = Some e → pc_pid e ≠ pid) ∧
              lookup_pid pid (entries ix) = None
    end.
Proof.
  intros Hok. destruct (find_locked_spec ix pid Hok) as (r & Hf & Hr). exists r.
  split; [done|]. destruct r as [n|].
  - destruct Hr as (Hin & e & He & Hp). split; [done|]. exists e.
    split; [done|]. split; [done|]. by eapply lookup_pid_omap.
  - split; [done|by apply lookup_pid_absent].
Qed.

Lemma removelast_snoc {A} (l : list A) x : removelast (l ++ [x]) = l.
Proof. by rewrite removelast_app, app_nil_r. Qed.

(** Evicting removes the last entry of the LRU list. *)
Lemma evict_ok ix : ix_ok ix →
  ∃ ix', ig_pc_evict_one_locked ix = Some ix' ∧ ix_ok ix' ∧
    entries ix' = removelast (entries ix) ∧
    ix_count ix' = Z.of_nat (length (removelast (entries ix))) ∧
    (∀ n e, ix_heap ix' !! n = Some e → ix_heap ix !! n = Some e).
Proof.
  intros Hok. unfold ig_pc_evict_one_locked. destruct (last (ix_lru ix)) as [n|] eqn:Hl.
  - apply last_Some in Hl as [l Hl]. assert (Hin : n ∈ ix_lru ix).
    { rewrite Hl. apply elem_of_app. right. by left. }
    destruct (unlink_ok ix n Hok Hin) as (ix' & e & Hu & He & Hok' & Hlru & Hheap & Hc).
    exists ix'. split; [done|]. split; [done|].
    assert (Hent : entries ix' = removelast (entries ix)).
    { unfold entries at 1. rewrite Hlru, Hheap.
      pose proof (ok_lru _ Hok) as Hnd. rewrite Hl in Hnd. apply NoDup_app in Hnd as (_ & Hd & _).
      assert (Hnl : n ∉ l) by (intros ?; eapply Hd; [done|by left]).
      rewrite Hl. unfold without. rewrite filter_app, filter_cons_False by naive_solver.
      rewrite filter_nil, app_nil_r. fold (without n l). rewrite without_not_in by done.
      rewrite omap_delete by done. unfold entries. rewrite Hl, omap_app, omap_heap_cons, He.
      exact (eq_sym (removelast_snoc _ _)). }
    split; [done|]. split.
    + rewrite <- Hent, length_entries by done. apply (ok_count _ Hok').
    + intros m f. rewrite Hheap. by intros [_ ?]%lookup_delete_Some.
  - apply last_None in Hl. exists ix. split; [done|]. split; [done|].
    unfold entries. rewrite Hl. split; [done|]. split; [|done].
    rewrite (ok_count _ Hok), Hl. done.
Qed.

Lemma count_entries ix : ix_ok ix → ix_count ix = Z.of_nat (length (entries ix)).
Proof. intros Hok. rewrite length_entries by done. apply ok_count, Hok. Qed.

Lemma removelast_length {A} (l : list A) : length (removelast l) = (length l - 1)%nat.
Proof.
  induction l as [|x l IH]; [done|]. destruct l as [|y l]; [done|].
  change (removelast (x :: y :: l)) with (x :: removelast (y :: l)). cbn [length] in *. lia.
Qed.

Lemma fork_locked_ok ix e : ix_ok ix →
  ∃ ix' ev, fork_locked ix e = Some (ix', ev) ∧ ix_ok ix' ∧
    entries ix' = spec_insert e (entries ix).
Proof.
  intros Hok. unfold fork_locked.
  destruct (find_locked_entries ix (pc_pid e) Hok) as (r & -> & Hr). cbn.
  assert (∃ ix1, match r with Some n => unlink ix n | None => Some ix end = Some ix1 ∧
            ix_ok ix1 ∧ entries ix1 = drop_pid (pc_pid e) (entries ix) ∧
            (∀ n f, ix_heap ix1 !! n = Some f → pc_pid f ≠ pc_pid e))
    as (ix1 & -> & Hok1 & He1 & Hnew).
  { destruct r as [n|].
    - destruct Hr as (Hin & f & Hf & Hp & _).
      destruct (unlink_ok ix n Hok Hin) as (ix1 & f' & Hu & Hf' & Hok1 & Hlru & Hheap & _).
      exists ix1. split; [done|]. split; [done|]. assert (f' = f) as -> by congruence.
      unfold entries at 1. rewrite Hlru, Hheap, (entries_without ix n f) by done.
      rewrite Hp. split; [done|]. intros m g Hm Hg. apply lookup_delete_Some in Hm as [Hne Hm].
      apply Hne. eapply (ok_pid _ Hok); eauto. congruence.
    - destruct Hr as [Hn _]. exists ix. split; [done|]. split; [done|].
      by rewrite drop_pid_absent. }
  cbn. unfold spec_insert. rewrite <- He1, <- (count_entries ix1 Hok1).
  pose proof (ok_max _ Hok1) as Hmax. destruct (Z.leb_spec IG_PC_MAX_ENTRIES (ix_count ix1)) as [Hf|Hf].
  - destruct (evict_ok ix1 Hok1) as (ix2 & -> & Hok2 & He2 & Hc2 & Hsub). cbn.
    eexists _, _. split; [reflexivity|].
    destruct (link_ok ix2 e) as (Hok3 & He3 & _); [done| | |].
    + pose proof (count_entries ix1 Hok1). pose proof (count_entries ix2 Hok2).
      rewrite Hc2, removelast_length. unfold IG_PC_MAX_ENTRIES in *. lia.
    + intros n f Hn. by eapply Hnew, Hsub.
    + split; [done|]. by rewrite He3, He2.
  - cbn. eexists _, _. split; [reflexivity|].
    destruct (link_ok ix1 e) as (Hok3 & He3 & _); [done|done|done|]. by rewrite He3.
Qed.

Lemma touch_ok ix t f head : ix_ok ix → (∀ e, pc_pid (f e) = pc_pid e) →
  ∃ r, ig_pc_find_locked ix t = Some r ∧
    match r with
    | Some n => ∃ ix', rewrite_node ix n f head = Some ix' ∧ ix_ok ix' ∧
                  entries ix' = spec_touch t f head (entries ix)
    | None => entries ix = spec_touch t f head (entries ix)
    end.
Proof.
  intros Hok Hf. destruct (find_locked_entries ix t Hok) as (r & Hr & Hs). exists r.
  split; [done|]. unfold spec_touch. destruct r as [n|].
  - destruct Hs as (Hin & e & He & Hp & ->).
    destruct (rewrite_node_ok ix n e f head Hok Hin He (Hf e)) as (ix' & Hw & Hok' & Hent & _).
    exists ix'. split; [done|]. split; [done|]. by rewrite Hent, Hp.
  - by destruct Hs as [_ ->].
Qed.

(** The reverse walk over the nodes still to visit, [ns], which are in the
    list and come after [done] (already visited, nearer the tail). *)
Lemma gc_scan_ok now ns : ∀ budget ix kept,
  ix_ok ix → ix_lru ix = rev ns ++ kept →
  ∃ ix', gc_scan now budget ns ix = Some ix' ∧ ix_ok ix' ∧
    entries ix' = rev (reap now budget (omap (λ n, ix_heap ix !! n) ns))
                    ++ omap (λ n, ix_heap ix !! n) kept.
Proof.
  induction ns as [|n ns IH]; intros budget ix kept Hok Hlru.
  { exists ix. destruct budget; (split; [done|]; split; [done|]); unfold entries; by rewrite Hlru. }
  assert (Hin : n ∈ ix_lru ix).
  { rewrite Hlru. cbn. rewrite !elem_of_app. left. right. by left. }
  destruct (unlink_ok ix n Hok Hin) as (ix1 & e & Hu & He & Hok1 & Hlru1 & Hheap1 & _).
  rewrite omap_heap_cons, He. destruct budget as [|budget].
  { exists ix. split; [done|]. split; [done|]. unfold entries. rewrite Hlru. cbn [rev reap].
    by rewrite !omap_app, omap_heap_rev, omap_heap_cons, He. }
  cbn [gc_scan reap]. rewrite He. cbn [mbind option_bind]. destruct (expired now e).
  - rewrite Hu. cbn [mbind option_bind].
    pose proof (ok_lru _ Hok) as Hnd. rewrite Hlru in Hnd. cbn [rev] in Hnd.
    rewrite <- app_assoc in Hnd. apply NoDup_app in Hnd as (_ & Hd & [Hk _]%NoDup_cons).
    assert (Hn : n ∉ rev ns) by (intros ?; eapply Hd; [done|by left]).
    destruct (IH budget ix1 kept Hok1) as (ix' & Hg & Hok' & Hent).
    + rewrite Hlru1, Hlru. cbn [rev]. unfold without. rewrite !filter_app.
      rewrite filter_cons_False by naive_solver. rewrite filter_nil, app_nil_r.
      fold (without n (rev ns)) (without n kept). by rewrite !without_not_in.
    + exists ix'. split; [done|]. split; [done|]. rewrite Hent, Hheap1.
      rewrite !omap_delete; [done|done|]. intros Hns. apply Hn. by rewrite elem_of_rev.
  - destruct (IH (S budget) ix (n :: kept) Hok) as (ix' & Hg & Hok' & Hent).
    + rewrite Hlru. cbn [rev]. by rewrite <- app_assoc.
    + exists ix'. split; [done|]. split; [done|]. rewrite Hent. cbn [rev].
      by rewrite <- app_assoc, omap_heap_cons, He.
Qed.

Lemma preload_ok ts : ∀ c, ix_ok c.1 →
  ∃ c', ig_pc_preload c ts = Some c' ∧ ix_ok c'.1 ∧
    entries c'.1 = spec_preload (entries c.1) ts.
Proof.
  induction ts as [|[alloc_ok t] ts IH]; intros [ix s] Hok; [by eexists|].
  cbn [ig_pc_preload spec_preload fst snd] in *. destruct alloc_ok; [|by apply (IH (ix, s))].
  rewrite <- count_entries by done. destruct (Z.leb_spec IG_PC_MAX_ENTRIES (ix_count ix)) as [|Hlt].
  { by eexists. }
  set (e := entry_of_task t (t_ppid t)). change (pc_pid e) with (t_pid t).
  destruct (find_locked_entries ix (t_pid t) Hok) as (r & -> & Hr). cbn [mbind option_bind].
  destruct r as [n|].
  - destruct Hr as (_ & f & _ & _ & ->). by apply (IH (ix, s)).
  - destruct Hr as [Hn ->]. destruct (link_ok ix e Hok Hlt Hn) as (Hok' & Hent & _).
    destruct (IH (link ix e, count_insert s false) Hok') as (c' & Hp & Hc & He).
    exists c'. split; [done|]. split; [done|]. rewrite He. cbn [fst]. by rewrite Hent.
Qed.

(** *** The ancestry chain *)

(** [ancestry l cur d os tr]: the chain followed from [cur] through the entries
    of [l], with [d] slots left. *)
Inductive ancestry (l : list ig_pc_entry) : Z → nat → list ig_lkm_chain_entry → bool → Prop :=
  | anc_miss cur d : lookup_pid cur l = None → ancestry l cur (S d) [] true
  | anc_root cur d e :
      lookup_pid cur l = Some e → pc_ppid e ≤ 1 ∨ pc_ppid e = cur →
      ancestry l cur (S d) [chain_entry_of e] false
  | anc_full cur e :
      lookup_pid cur l = Some e → 1 < pc_ppid e → pc_ppid e ≠ cur →
      ancestry l cur 1 [chain_entry_of e] true
  | anc_parent cur d e os tr :
      lookup_pid cur l = Some e → 1 < pc_ppid e → pc_ppid e ≠ cur →
      ancestry l (pc_ppid e) (S d) os tr →
      ancestry l cur (S (S d)) (chain_entry_of e :: os) tr.

Lemma collect_loop_ok fuel : ∀ ix cur, ix_ok ix →
  ∃ os tr misses, collect_loop fuel ix cur = Some (os, tr, misses) ∧
    (fuel ≠ O → ancestry (entries ix) cur fuel os tr) ∧ (length os ≤ fuel)%nat ∧
    (fuel = O → os = [] ∧ tr = false).
Proof.
  induction fuel as [|fuel IH]; intros ix cur Hok; cbn [collect_loop].
  { exists [], false, 0. by repeat split; cbn. }
  destruct (find_locked_entries ix cur Hok) as (r & -> & Hr). cbn [mbind option_bind].
  destruct r as [n|].
  2:{ exists [], true, 1. split; [done|]. split; [|split; [cbn; lia|done]].
      intros _. apply anc_miss, Hr. }
  destruct Hr as (_ & e & He & Hp & Hl). rewrite He. cbn [mbind option_bind].
  destruct (Z.leb_spec (pc_ppid e) 1) as [Hle|Hgt]; cbn [orb].
  { eexists _, _, _. split; [reflexivity|]. split; [|split; [cbn; lia|done]].
    intros _. apply anc_root; [done|by left]. }
  destruct (Z.eqb_spec (pc_ppid e) cur) as [Heq|Hne].
  { eexists _, _, _. split; [reflexivity|]. split; [|split; [cbn; lia|done]].
    intros _. apply anc_root; [done|by right]. }
  destruct (IH ix (pc_ppid e) Hok) as (os & tr & misses & -> & Ha & Hlen & H0).
  cbn [mbind option_bind]. eexists _, _, _. split; [reflexivity|].
  split; [|split; [cbn; lia|done]]. intros _. destruct fuel as [|fuel].
  - destruct H0 as [-> _]; [done|]. by apply anc_full.
  - apply anc_parent; try done. by apply Ha.
Qed.

(** One event: no fault, the invariant kept, the list as specified. *)
Lemma pc_step_ok c ev : ix_ok c.1 →
  ∃ c', pc_step c ev = Some c' ∧ ix_ok c'.1 ∧ entries c'.1 = spec_step c.2 (entries c.1) ev.
Proof.
  intros Hok. destruct c as [ix s]. cbn [fst snd] in *. destruct ev as [j ok p t|t|now t|now|ts|pid d];
    cbn [pc_step spec_step].
  - unfold ig_pc_on_fork. destruct t as [t|]; [|destruct ok; by eexists].
    cbn [snd fst]. destruct (ig_pc_should_throttle s j) as [s' th]. cbn [snd].
    destruct th; [destruct ok; by eexists|]. destruct ok; [|by eexists].
    destruct (fork_locked_ok ix (entry_of_task t p) Hok) as (ix' & ev & -> & Hok' & He).
    by eexists.
  - destruct t as [t|]; [|by eexists]. unfold ig_pc_on_exec. cbn [fst snd].
    destruct (touch_ok ix (t_pid t) (exec_entry t) true Hok) as (r & -> & Hr).
    { intros e. unfold exec_entry. by destruct (capture_exec_meta t 256 512). }
    cbn [mbind option_bind]. destruct r as [n|]; [|by eexists].
    destruct Hr as (ix' & -> & Hok' & He). by eexists.
  - destruct t as [t|]; [|by eexists]. unfold ig_pc_on_exit. cbn [fst snd].
    destruct (touch_ok ix (t_pid t) (set_exit_time now) false Hok) as (r & -> & Hr); [done|].
    cbn [mbind option_bind]. destruct r as [n|]; [|by eexists].
    destruct Hr as (ix' & -> & Hok' & He). by eexists.
  - unfold ig_pc_gc_work. cbn [fst snd].
    destruct (gc_scan_ok now (rev (ix_lru ix)) IG_PC_REAP_MAX ix [] Hok) as (ix' & -> & Hok' & He).
    { by rewrite rev_involutive, app_nil_r. }
    eexists. split; [reflexivity|]. split; [done|]. cbn [fst]. rewrite He. unfold spec_gc, entries.
    cbn [omap list_omap]. by rewrite app_nil_r, omap_heap_rev.
  - by apply (preload_ok ts (ix, s)).
  - unfold ig_proc_cache_collect_chain. cbn [fst snd].
    destruct (collect_loop_ok d ix pid Hok) as (os & tr & m & -> & _). by eexists.
Qed.

Lemma pc_run_ok evs : ∀ c, ix_ok c.1 → ∃ c', pc_run c evs = Some c' ∧ ix_ok c'.1.
Proof.
  induction evs as [|ev evs IH]; intros c Hok; [by eexists|]. cbn [pc_run].
  destruct (pc_step_ok c ev Hok) as (c' & -> & Hok' & _). by apply IH.
Qed.

(** *** Garbage collection, teardown, rate limit *)

Lemma reap_sublist now b l : reap now b l `sublist_of` l.
Proof.
  revert b. induction l as [|e l IH]; intros [|b]; cbn [reap]; try done.
  destruct (expired now e); by constructor.
Qed.

Lemma reap_keeps now b l e : e ∈ l → expired now e = false → e ∈ reap now b l.
Proof.
  revert b. induction l as [|f l IH]; intros b Hin He; [by apply elem_of_nil in Hin|].
  destruct b as [|b]; cbn [reap]; [done|].
  apply elem_of_cons in Hin as [->|Hin].
  - rewrite He. by left.
  - destruct (expired now f); [by apply IH|right; by apply IH].
Qed.

Lemma reap_budget now b l :
  (length l ≤ length (reap now b l) + b)%nat ∧
  ((length l < length (reap now b l) + b)%nat →
   Forall (λ e, expired now e = false) (reap now b l)).
Proof.
  revert b. induction l as [|e l IH]; intros [|b]; cbn [reap length].
  - by split; [lia|].
  - split; [lia|constructor].
  - by split; [lia|intros ?; lia].
  - destruct (expired now e) eqn:E.
    + destruct (IH b) as [H1 H2]. split; [lia|]. intros Hl. apply H2. lia.
    + destruct (IH (S b)) as [H1 H2]. cbn [length]. split; [lia|].
      intros Hl. constructor; [done|]. apply H2. lia.
Qed.

Lemma unlink_all_ok ns : ∀ ix, ix_ok ix → NoDup ns → (∀ n, n ∈ ns → n ∈ ix_lru ix) →
  ∃ ix', unlink_all ns ix = Some ix' ∧ ix_ok ix' ∧
    ∀ n, n ∈ ix_lru ix' ↔ n ∈ ix_lru ix ∧ n ∉ ns.
Proof.
  induction ns as [|n ns IH]; intros ix Hok Hnd Hin.
  { exists ix. split; [done|]. split; [done|]. intros n. pose proof (not_elem_of_nil n). tauto. }
  apply NoDup_cons in Hnd as [Hn Hnd].
  destruct (unlink_ok ix n Hok (Hin n (list_elem_of_here _ _)))
    as (ix1 & e & Hu & _ & Hok1 & Hlru & _ & _).
  cbn [unlink_all]. rewrite Hu. cbn [mbind option_bind].
  destruct (IH ix1 Hok1 Hnd) as (ix' & Ha & Hok' & Hiff).
  { intros m Hm. rewrite Hlru, elem_of_without. split; [by intros ->|]. apply Hin. by right. }
  exists ix'. split; [done|]. split; [done|]. intros m.
  rewrite Hiff, Hlru, elem_of_without, elem_of_cons. tauto.
Qed.

(** The chains of an index list every node once. *)
Lemma all_chains_ok ix : ix_ok ix →
  NoDup (concat ((map_to_list (ix_table ix)).*2)) ∧
  ∀ n, n ∈ concat ((map_to_list (ix_table ix)).*2) ↔ n ∈ ix_lru ix.
Proof.
  intros Hok.
  assert (Hel : ∀ b ns, (b, ns) ∈ map_to_list (ix_table ix) → chain ix b = ns).
  { intros b ns Hb%elem_of_map_to_list. unfold chain. by rewrite Hb. }
  split.
  - pose proof (NoDup_fst_map_to_list (ix_table ix)) as Hk.
    induction (map_to_list (ix_table ix)) as [|[b ns] l IH]; [constructor|].
    rewrite fmap_cons in *. cbn [fst snd concat] in *. apply NoDup_cons in Hk as [Hb Hk].
    apply NoDup_app. split; [|split].
    + rewrite <- (Hel b ns) by by left. apply (ok_nodup _ Hok).
    + intros n Hn Hn'. apply list_elem_of_In, in_concat in Hn' as (ms & Hms & Hnm).
      apply list_elem_of_In, list_elem_of_fmap in Hms as ([b' ms'] & -> & Hin). cbn in Hnm.
      apply list_elem_of_In in Hnm. rewrite <- (Hel b ns) in Hn by by left.
      rewrite <- (Hel b' ms') in Hnm by by right.
      apply (ok_chain _ Hok) in Hn as (e & He & <-), Hnm as (f & Hf & <-).
      apply Hb. apply list_elem_of_fmap. exists (hash_min (pc_pid f), ms').
      split; [cbn; congruence|done].
    + apply IH; [|done]. intros b' ms Hin. apply Hel. by right.
  - intros n. rewrite list_elem_of_In, in_concat, (ok_dom _ Hok). split.
    + intros (ms & Hms & Hn). apply list_elem_of_In, list_elem_of_fmap in Hms as ([b ms'] & -> & Hin).
      apply list_elem_of_In in Hn. cbn in Hn. rewrite <- (Hel b ms' Hin) in Hn.
      apply (ok_chain _ Hok) in Hn as (e & He & _). by exists e.
    + intros [e He]. assert (Hc : n ∈ chain ix (hash_min (pc_pid e))).
      { apply (ok_chain _ Hok). by exists e. }
      unfold chain in Hc. destruct (ix_table ix !! _) as [ns|] eqn:Hns; cbn in Hc;
        [|by apply elem_of_nil in Hc].
      exists ns. split; [|by apply list_elem_of_In]. apply list_elem_of_In, list_elem_of_fmap.
      exists (hash_min (pc_pid e), ns). split; [done|]. by apply elem_of_map_to_list.
Qed.

Lemma exit_ok c : ix_ok c.1 → ∃ c', ig_proc_cache_exit c = Some c' ∧
  ix_lru c'.1 = [] ∧ ix_heap c'.1 = ∅ ∧ ix_count c'.1 = 0.
Proof.
  intros Hok. destruct (all_chains_ok _ Hok) as [Hnd Hel]. unfold ig_proc_cache_exit.
  destruct (unlink_all_ok _ _ Hok Hnd (λ n, proj1 (Hel n))) as (ix' & -> & Hok' & Hiff).
  cbn [mbind option_bind]. eexists. split; [reflexivity|]. cbn [fst ix_lru ix_heap ix_count].
  assert (Hnil : ∀ n, n ∉ ix_lru ix').
  { intros n Hn. apply Hiff in Hn as [Hn Hn']. by apply Hn', Hel. }
  split; [|split; [|done]].
  - destruct (ix_lru ix') as [|n l]; [done|]. by destruct (Hnil n (list_elem_of_here _ _)).
  - apply map_empty. intros n. apply eq_None_not_Some. intros Hn%(ok_dom _ Hok'). by apply Hnil in Hn.
Qed.

Fixpoint throttle_run (s : pc_stats) (js : list Z) : list bool :=
  match js with
  | [] => []
  | j :: js => let (s', b) := ig_pc_should_throttle s j in b :: throttle_run s' js
  end.

Lemma throttle_run_count js : ∀ s,
  0 ≤ st_window_count s → st_window_count s + Z.of_nat (length js) < 2 ^ 31 →
  Forall (λ j, time_after j (u64 (st_window_jiffies s + HZ)) = false) js →
  Z.of_nat (length (filter (λ b, b = false) (throttle_run s js))) =
  Z.max 0 (Z.min (Z.of_nat (length js)) (IG_PC_THROTTLE_RATE - st_window_count s)).
Proof.
  induction js as [|j js IH]; intros s H0 Hlt HF; [cbn; lia|].
  apply Forall_cons in HF as [Hj HF]. cbn [throttle_run length] in *.
  unfold ig_pc_should_throttle. rewrite Hj.
  assert (s32 (st_window_count s + 1) = st_window_count s + 1) as -> by (apply s32_small; lia).
  set (s' := PcStats _ _ _ _ _ _ _).
  specialize (IH s' ltac:(cbn; lia) ltac:(cbn; lia) HF). cbn [st_window_count s'] in IH.
  destruct (Z.ltb_spec IG_PC_THROTTLE_RATE (st_window_count s + 1)) as [Hr|Hr].
  - rewrite filter_cons_False by done. rewrite IH. lia.
  - rewrite filter_cons_True by done. cbn [length]. rewrite Nat2Z.inj_succ, IH. lia.
Qed.

(** ** Properties *)

(** [C21] Every callback refines the LRU list of entries keyed by pid: from a
    well-formed cache it returns (no stray pointer, no double free), keeps the
    cache well formed, and its entries are those the specification lists. *)
Theorem proc_cache_refines_lru (c : cache) (ev : pc_event) (Hok : ix_ok c.1) :
  ∃ c', pc_step c ev = Some c' ∧ ix_ok c'.1 ∧ entries c'.1 = spec_step c.2 (entries c.1) ev.
Proof. by apply pc_step_ok. Qed.

(** No sequence of callbacks faults; the count is the number of entries
    and at most 8192, no pid is listed twice, and unloading frees every node. *)
Theorem proc_cache_runs_safely (s : pc_stats) (evs : list pc_event) :
  ∃ c, pc_run (pc_index_init, s) evs = Some c ∧
    ix_count c.1 = Z.of_nat (length (entries c.1)) ∧ ix_count c.1 ≤ IG_PC_MAX_ENTRIES ∧
    (∀ e f, e ∈ entries c.1 → f ∈ entries c.1 → pc_pid e = pc_pid f → e = f) ∧
    ∃ c', ig_proc_cache_exit c = Some c' ∧ ix_lru c'.1 = [] ∧ ix_heap c'.1 = ∅.
Proof.
  destruct (pc_run_ok evs (pc_index_init, s) ix_ok_init) as (c & Hr & Hok). exists c.
  split; [done|]. split; [by apply count_entries|]. split; [apply ok_max, Hok|]. split.
  - intros e f (n & _ & He)%elem_of_entries (m & _ & Hf)%elem_of_entries Hp.
    assert (n = m) as <- by by eapply ok_pid. congruence.
  - destruct (exit_ok c Hok) as (c' & He & Hl & Hh & _). by exists c'.
Qed.

(** The chain collected for a process is its ancestry in the cache: each
    entry is that of the previous one's parent, it stops at a root (parent 0, 1
    or itself) with the flag clear, and the flag is set exactly when a parent
    is not cached or the depth limit cuts the chain. *)
Theorem collect_chain_follows_ancestry (c : cache) (pid : Z) (max_depth : nat)
    (Hok : ix_ok c.1) (Hd : (0 < max_depth)%nat) :
  ∃ c' os tr, ig_proc_cache_collect_chain c pid max_depth = Some (c', os, tr) ∧
    c'.1 = c.1 ∧ ancestry (entries c.1) pid max_depth os tr ∧ (length os ≤ max_depth)%nat.
Proof.
  destruct (collect_loop_ok max_depth c.1 pid Hok) as (os & tr & m & Hc & Ha & Hl & _).
  unfold ig_proc_cache_collect_chain. rewrite Hc. cbn [mbind option_bind].
  eexists _, _, _. split; [reflexivity|]. split; [done|]. split; [apply Ha; lia|done].
Qed.

(** Garbage collection keeps the order, never drops an entry that is
    alive or within its grace period, drops at most 256, and when it drops
    fewer no expired entry is left. *)
Theorem gc_reaps_exactly_expired (c : cache) (now : Z) (Hok : ix_ok c.1) :
  ∃ c', ig_pc_gc_work c now = Some c' ∧ ix_ok c'.1 ∧
    entries c'.1 `sublist_of` entries c.1 ∧
    (∀ e, e ∈ entries c.1 → expired now e = false → e ∈ entries c'.1) ∧
    (length (entries c.1) ≤ length (entries c'.1) + IG_PC_REAP_MAX)%nat ∧
    ((length (entries c.1) < length (entries c'.1) + IG_PC_REAP_MAX)%nat →
     ∀ e, e ∈ entries c'.1 → expired now e = false).
Proof.
  destruct (pc_step_ok c (EvGc now) Hok) as (c' & Hg & Hok' & He). exists c'.
  split; [exact Hg|]. split; [done|]. cbn [spec_step] in He. unfold spec_gc in He. rewrite He.
  destruct (reap_budget now IG_PC_REAP_MAX (rev (entries c.1))) as [Hb1 Hb2].
  pose proof (reap_sublist now IG_PC_REAP_MAX (rev (entries c.1))) as Hs.
  rewrite !length_rev in *. split; [|split; [|split; [exact Hb1|]]].
  - rewrite <- (rev_involutive (entries c.1)) at 2. by apply sublist_rev.
  - intros e Hin Hx. rewrite elem_of_rev. apply reap_keeps; [|done]. by rewrite elem_of_rev.
  - intros Hl e Hin. rewrite elem_of_rev in Hin.
    specialize (Hb2 Hl). rewrite Forall_forall in Hb2. by apply Hb2.
Qed.

(** Within one second window exactly the first 10000 forks are recorded
    and every further one is skipped. *)
Theorem throttle_admits_rate (s : pc_stats) (js : list Z)
    (H0 : st_window_count s = 0) (Hlen : Z.of_nat (length js) < 2 ^ 31)
    (Hwin : Forall (λ j, time_after j (u64 (st_window_jiffies s + HZ)) = false) js) :
  Z.of_nat (length (filter (λ b, b = false) (throttle_run s js))) =
  Z.min (Z.of_nat (length js)) IG_PC_THROTTLE_RATE.
Proof. rewrite throttle_run_count by (done || lia). rewrite H0. unfold IG_PC_THROTTLE_RATE. lia. Qed.
End cache.

(** *** Witnesses *)

Definition shell_task : task :=
  Task 200 (Some 100) 0 0 100 (lit "sh") (Some (lit "pts/1")) 5 None.
Definition stats_zero : pc_stats := PcStats 0 0 0 0 0 0 0.

Lemma proc_cache_refines_lru_witness :
  ∃ c', pc_step (λ p, p mod 4096) 250 (pc_index_init, stats_zero)
          (EvFork 10 true (Some 100) (Some shell_task)) = Some c' ∧
        entries c'.1 = [entry_of_task shell_task (Some 100)].
Proof.
  destruct (proc_cache_refines_lru (λ p, p mod 4096) 250 (pc_index_init, stats_zero)
              (EvFork 10 true (Some 100) (Some shell_task)) (ix_ok_init _)) as (c' & H & _ & He).
  exists c'. split; [exact H|]. rewrite He. reflexivity.
Defined.

Definition login_task : task :=
  Task 100 (Some 1) 0 0 100 (lit "login") None 3 None.
Definition two_forks : list pc_event :=
  [EvFork 10 true (Some 1) (Some login_task); EvFork 11 true (Some 100) (Some shell_task)].
Definition two_entries : list ig_pc_entry :=
  [entry_of_task shell_task (Some 100); entry_of_task login_task (Some 1)].

Lemma two_forks_cache :
  ∃ c, pc_run (λ p, p mod 4096) 250 (pc_index_init, stats_zero) two_forks = Some c ∧
       ix_ok (λ p, p mod 4096) c.1 ∧ entries c.1 = two_entries.
Proof.
  unfold two_forks. cbn [pc_run pc_step ig_pc_on_fork fst snd].
  destruct (fork_locked_ok (λ p, p mod 4096) 250 pc_index_init (entry_of_task login_task (Some 1))
              (ix_ok_init _)) as (ix1 & ev1 & H1 & Hok1 & He1).
  destruct (fork_locked_ok (λ p, p mod 4096) 250 ix1 (entry_of_task shell_task (Some 100)) Hok1)
    as (ix2 & ev2 & H2 & Hok2 & He2).
  destruct (ig_pc_should_throttle 250 stats_zero 10) as [s1 b1] eqn:E1.
  vm_compute in E1. injection E1 as <- <-. rewrite H1. cbn [mbind option_bind fst snd].
  destruct (ig_pc_should_throttle 250 _ 11) as [s2 b2] eqn:E2.
  destruct ev1; vm_compute in E2; injection E2 as <- <-; rewrite H2; cbn [mbind option_bind];
    eexists; (split; [reflexivity|]); (split; [exact Hok2|]); cbn [fst]; rewrite He2, He1; reflexivity.
Qed.

Lemma collect_chain_follows_ancestry_witness :
  ∃ c c' os tr, pc_run (λ p, p mod 4096) 250 (pc_index_init, stats_zero) two_forks = Some c ∧
    ig_proc_cache_collect_chain (λ p, p mod 4096) c 200 16 = Some (c', os, tr) ∧
    ancestry two_entries 200 16 os tr.
Proof.
  destruct two_forks_cache as (c & Hr & Hok & He).
  destruct (collect_chain_follows_ancestry (λ p, p mod 4096) c 200 16 Hok ltac:(lia))
    as (c' & os & tr & Hc & _ & Ha & _).
  rewrite He in Ha. exists c, c', os, tr. split; [exact Hr|]. split; [exact Hc|exact Ha].
Defined.

Lemma gc_reaps_exactly_expired_witness :
  ∃ c c', pc_run (λ p, p mod 4096) 250 (pc_index_init, stats_zero) two_forks = Some c ∧
    ig_pc_gc_work c 600000000000 = Some c' ∧
    entry_of_task shell_task (Some 100) ∈ entries c'.1.
Proof.
  destruct two_forks_cache as (c & Hr & Hok & He).
  destruct (gc_reaps_exactly_expired (λ p, p mod 4096) 250 c 600000000000 Hok)
    as (c' & Hc & _ & _ & Hk & _).
  exists c, c'. split; [exact Hr|]. split; [exact Hc|]. apply Hk; [|reflexivity].
  rewrite He. by left.
Defined.

Lemma throttle_admits_rate_witness :
  length (filter (λ b, b = false) (throttle_run 250 stats_zero [10; 20; 30])) = 3%nat.
Proof.
  apply Nat2Z.inj. apply (throttle_admits_rate 250 stats_zero [10; 20; 30] eq_refl eq_refl).
  repeat constructor.
Defined.
