(* ===== verification/LkmEvents.v ===== *)
(** * Kernel event queue (lkm/ig_lkm_events.c)

    A kfifo of 64 events filled by the hooks and drained by [/dev/ig_lkm]. The
    kernel module's state (policy store, process cache, fifo) is threaded by the
    monad [K], whose computations fault when the process cache does. The policy
    store is any [PolicyStore]. *)

From S2P Require Import Prelude Bytes Monitor LkmPolicy ProcCache.

Local Open Scope Z_scope.

Definition IG_EVENT_LKM_QUEUE_SIZE : nat := 64.
#[global] Arguments IG_EVENT_LKM_QUEUE_SIZE : simpl never.

(* @src lkm/ig_lkm_common.h:69-84 ig_lkm_event *)
Record ig_lkm_event := LkmEvent {
  le_dev : Z; le_ino : Z; le_op : Z; le_blocked : Z; le_pid : Z; le_uid : Z;
  le_comm : cstring; le_path : cstring; le_timestamp_ns : Z;
  le_chain_depth : Z; le_chain_truncated : bool; le_chain : list ig_lkm_chain_entry }.

(** What one call reads of the kernel: [current] (thread and group ids, uid,
    the task), the live tasks by pid, the clock, and whether [kmalloc] succeeds. *)
Record kenv := KEnv {
  ke_current : task; ke_tgid : Z; ke_uid : Z; ke_tasks : gmap Z task;
  ke_now_ns : Z; ke_alloc_ok : bool }.

(** ** The module's state and its monad *)

Record lkm (T : Type) := Lkm {
  k_policy : T; k_cache : pc_index * pc_stats; k_fifo : list ig_lkm_event;
  k_flush : bool (* ig_flush_work is scheduled *) }.
Arguments Lkm {T}. Arguments k_policy {T}. Arguments k_cache {T}.
Arguments k_fifo {T}. Arguments k_flush {T}.

Definition K (T A : Type) : Type := lkm T → option (A * lkm T).

Definition kret {T A} (a : A) : K T A := λ s, Some (a, s).
Definition kbind {T A B} (m : K T A) (f : A → K T B) : K T B :=
  λ s, '(a, s') ← m s; f a s'.
Definition kget {T A} (f : lkm T → A) : K T A := λ s, Some (f s, s).
Definition kmodify {T} (f : lkm T → lkm T) : K T unit := λ s, Some (tt, f s).

Declare Scope kmon_scope.
Delimit Scope kmon_scope with kmon.
Notation "'let*' x ':=' m 'in' k" := (kbind m (λ x, k))
  (at level 200, x name, m at level 100, k at level 200) : kmon_scope.
Notation "m ;;; k" := (kbind m (λ _, k)) (at level 100, right associativity) : kmon_scope.

Section events.
Context {T : Type} `{PolicyStore T}.
(** [hash_min] of the process cache. *)
Variable hash_min : Z → Z.

Definition set_policy_store (f : T → T) (s : lkm T) : lkm T :=
  Lkm (f (k_policy s)) (k_cache s) (k_fifo s) (k_flush s).
Definition set_fifo (f : list ig_lkm_event → list ig_lkm_event) (s : lkm T) : lkm T :=
  Lkm (k_policy s) (k_cache s) (f (k_fifo s)) (k_flush s).
Definition set_flush (s : lkm T) : lkm T := Lkm (k_policy s) (k_cache s) (k_fifo s) true.

(** ** The ancestry chain *)

(* @src lkm/ig_lkm_events.c:103-113 ig_collect_chain *)
Definition live_entry (t : task) : ig_lkm_chain_entry :=
  LkmChainEntry (t_pid t) (default 0 (t_ppid t)) (t_uid t) (t_euid t) (t_sid t)
    (t_comm t) [] (t_start_ns t) [] [].

(** The fallback walk along [real_parent]; [fuel] iterations are left. A parent
    pointer is the pid it denotes, so [parent == t] compares pids. *)
(* @src lkm/ig_lkm_events.c:94-120 ig_collect_chain *)
Fixpoint live_chain (fuel : nat) (tasks : gmap Z task) (t : option task)
    : list ig_lkm_chain_entry * bool :=
  match fuel with
  | O => ([], false)
  | S fuel =>
      match t with
      | None => ([], true)
      | Some t =>
          match t_ppid t with
          | None => ([live_entry t], false)
          | Some ppid =>
              if (ppid <=? 1) || (ppid =? t_pid t) then ([live_entry t], false)
              else let (es, tr) := live_chain fuel tasks (tasks !! ppid) in
                   (live_entry t :: es, match fuel with O => true | _ => tr end)
          end
      end
  end.

(* @src lkm/ig_lkm_events.c:70-121 ig_collect_chain *)
Definition ig_collect_chain (env : kenv) : K T (list ig_lkm_chain_entry * bool) := λ s,
  '(c, es, tr) ← ig_proc_cache_collect_chain hash_min (k_cache s)
                   (t_pid (ke_current env)) IG_LKM_CHAIN_MAX;
  let s' := Lkm (k_policy s) c (k_fifo s) (k_flush s) in
  Some (match es with
        | [] => live_chain IG_LKM_CHAIN_MAX (ke_tasks env) (Some (ke_current env))
        | _ => (es, tr)
        end, s').

(** ** The fifo *)

(** [kfifo_in(&ig_fifo, ev, 1)]: nothing is copied into a full fifo. *)
Definition kfifo_in (ev : ig_lkm_event) (q : list ig_lkm_event) : list ig_lkm_event :=
  if bool_decide (length q < IG_EVENT_LKM_QUEUE_SIZE)%nat then q ++ [ev] else q.

(* @src lkm/ig_lkm_events.c:127-178 ig_event_enqueue *)
Definition ig_event_enqueue (env : kenv) (dev ino op blocked : Z) : K T unit :=
  if ke_alloc_ok env then
    (let* ch := ig_collect_chain env in
     let* path := kget (λ s, strncpy (inode_policy_path (k_policy s) dev ino) 255) in
     let ev := LkmEvent dev ino op blocked (ke_tgid env) (ke_uid env)
                 (strncpy (t_comm (ke_current env)) 15) path (ke_now_ns env)
                 (Z.of_nat (length ch.1)) ch.2 ch.1 in
     kmodify (set_fifo (kfifo_in ev));;;
     kmodify set_flush)%kmon
  else kret tt.

(* @src lkm/ig_lkm_events.c:180-183 ig_event_empty *)
Definition ig_event_empty (s : lkm T) : bool :=
  match k_fifo s with [] => true | _ => false end.

(* @src lkm/ig_lkm_events.c:185-193 ig_event_pop *)
Definition ig_event_pop : K T (option ig_lkm_event) := λ s,
  match k_fifo s with
  | [] => Some (None, s)
  | ev :: q => Some (Some ev, set_fifo (λ _, q) s)
  end.

(** The work item: wakes the readers when there is something to read. *)
(* @src lkm/ig_lkm_events.c:45-49 ig_event_flush_work *)
Definition ig_event_flush_work : K T bool := λ s,
  Some (negb (ig_event_empty s), Lkm (k_policy s) (k_cache s) (k_fifo s) false).

(** ** Lemmas *)

(** Well-formed module state. *)
Record lkm_ok `{!PolicyStoreLaws T} (s : lkm T) : Prop := {
  lkm_policy : ps_ok (k_policy s);
  lkm_cache : ix_ok hash_min (k_cache s).1;
  lkm_fifo : (length (k_fifo s) ≤ IG_EVENT_LKM_QUEUE_SIZE)%nat;
  lkm_chains : Forall (λ ev, le_chain_depth ev = Z.of_nat (length (le_chain ev)) ∧
                             (length (le_chain ev) ≤ IG_LKM_CHAIN_MAX)%nat) (k_fifo s) }.

Lemma live_chain_length fuel tasks t : (length (live_chain fuel tasks t).1 ≤ fuel)%nat.
Proof.
  revert t. induction fuel as [|fuel IH]; intros t; [done|]. cbn [live_chain].
  destruct t as [t|]; [|cbn; lia]. destruct (t_ppid t) as [ppid|]; [|cbn; lia].
  destruct ((ppid <=? 1) || _); [cbn; lia|]. specialize (IH (tasks !! ppid)).
  destruct (live_chain fuel tasks (tasks !! ppid)) as [es tr]. cbn in *. lia.
Qed.

Lemma collect_chain_ok env s : ix_ok hash_min (k_cache s).1 →
  ∃ ch c, ig_collect_chain env s = Some (ch, Lkm (k_policy s) c (k_fifo s) (k_flush s)) ∧
    c.1 = (k_cache s).1 ∧ (length ch.1 ≤ IG_LKM_CHAIN_MAX)%nat ∧
    (ancestry (entries (k_cache s).1) (t_pid (ke_current env)) IG_LKM_CHAIN_MAX ch.1 ch.2 ∨
     lookup_pid (t_pid (ke_current env)) (entries (k_cache s).1) = None ∧
     ch = live_chain IG_LKM_CHAIN_MAX (ke_tasks env) (Some (ke_current env))).
Proof.
  intros Hok. unfold ig_collect_chain, ig_proc_cache_collect_chain.
  destruct (collect_loop_ok hash_min IG_LKM_CHAIN_MAX (k_cache s).1 (t_pid (ke_current env)) Hok)
    as (os & tr & m & -> & Ha & Hl & _). cbn [mbind option_bind].
  specialize (Ha ltac:(done)). eexists _, _. split; [reflexivity|].
  split; [reflexivity|]. destruct os as [|o os].
  - split; [apply live_chain_length|]. right. split; [|done].
    inversion Ha; subst; try done.
  - split; [exact Hl|]. by left.
Qed.

Lemma fifo_in_length ev q : (length q ≤ IG_EVENT_LKM_QUEUE_SIZE)%nat →
  (length (kfifo_in ev q) ≤ IG_EVENT_LKM_QUEUE_SIZE)%nat.
Proof.
  intros Hl. unfold kfifo_in. case_bool_decide; [|done]. rewrite length_app. cbn. lia.
Qed.

(** What a call reports: this event, its path as stored at the time, a chain of
    at most 16 processes starting at the current task. *)
Definition reports (env : kenv) (t : T) (dev ino op blocked : Z) (ev : ig_lkm_event) : Prop :=
  le_dev ev = dev ∧ le_ino ev = ino ∧ le_op ev = op ∧ le_blocked ev = blocked ∧
  le_pid ev = ke_tgid env ∧ le_uid ev = ke_uid env ∧ le_timestamp_ns ev = ke_now_ns env ∧
  le_path ev = strncpy (inode_policy_path t dev ino) 255 ∧
  le_chain_depth ev = Z.of_nat (length (le_chain ev)) ∧
  (length (le_chain ev) ≤ IG_LKM_CHAIN_MAX)%nat.

(** An enqueue never faults, and changes the fifo and the cache statistics only:
    the event is appended, unless the fifo is full or no memory is left. *)
Lemma enqueue_ok env dev ino op blocked s : ix_ok hash_min (k_cache s).1 →
  ∃ s', ig_event_enqueue env dev ino op blocked s = Some (tt, s') ∧
    k_policy s' = k_policy s ∧ (k_cache s').1 = (k_cache s).1 ∧
    if ke_alloc_ok env
    then k_flush s' = true ∧
         ∃ ev, reports env (k_policy s) dev ino op blocked ev ∧ k_fifo s' = kfifo_in ev (k_fifo s)
    else s' = s.
Proof.
  intros Hok. unfold ig_event_enqueue. destruct (ke_alloc_ok env); [|by exists s].
  destruct (collect_chain_ok env s Hok) as (ch & c & Hc & Hix & Hl & _).
  unfold kbind at 1. rewrite Hc. cbn [mbind option_bind].
  eexists. split; [reflexivity|]. split; [done|]. split; [exact Hix|]. split; [done|].
  eexists. split; [|reflexivity]. by repeat (split; [reflexivity|]).
Qed.

Lemma kfifo_in_Forall P ev q : P ev → Forall P q → Forall P (kfifo_in ev q).
Proof.
  intros. unfold kfifo_in. case_bool_decide; [|done]. apply Forall_app. by rewrite Forall_singleton.
Qed.

Lemma enqueue_lkm_ok `{!PolicyStoreLaws T} env dev ino op blocked s s' :
  lkm_ok s → ig_event_enqueue env dev ino op blocked s = Some (tt, s') → lkm_ok s'.
Proof.
  intros [H1 H2 H3 H4] He. destruct (enqueue_ok env dev ino op blocked s H2)
    as (s'' & He' & Hp & Hc & Hf). assert (s'' = s') as -> by congruence.
  destruct (ke_alloc_ok env); [|by subst].
  destruct Hf as (_ & ev & (_ & _ & _ & _ & _ & _ & _ & _ & Hd & Hl) & Hq).
  split; rewrite ?Hp, ?Hc, ?Hq; [done|done| |].
  - by apply fifo_in_length.
  - by apply kfifo_in_Forall.
Qed.
End events.
