(* ===== verification/LkmAccess.v ===== *)
(** * Policy decisions of the kernel hooks

    What the four hook implementations (lkm/hooks) have in common: the objects a
    call touches are a list of [access]es, checked in order until one is denied.
    [run_accesses] does it the way the hooks do; [access_spec] is its pure
    specification, over any [PolicyStore]. *)

From S2P Require Import Prelude Bytes Monitor LkmPolicy ProcCache LkmEvents.

Local Open Scope Z_scope.

(** ** Kernel objects *)

(** An inode: its superblock's device, if there is a superblock, its number and
    mode. *)
Record kinode := KInode { i_sb : option Z; i_ino : Z; i_mode : Z }.

Definition S_ISREG (mode : Z) : bool := Z.land mode 0xF000 =? 0x8000.

(** An object checked for [a_op]; [a_audit]: an audited access is reported;
    [a_drop]: an audited access removes the policy (deletion). *)
Record access := Access { a_dev : Z; a_ino : Z; a_op : Z; a_audit : bool; a_drop : bool }.

Section access.
Context {T : Type} `{PolicyStore T}.
Variable hash_min : Z → Z.
Variable env : kenv.

Abbreviation enqueue := (ig_event_enqueue hash_min env).

Definition check_access (a : access) : K T Z :=
  (let* r := kget (λ s, inode_policy_lookup (k_policy s) (a_dev a) (a_ino a) (a_op a)) in
   match r with
   | None => kret 0
   | Some b =>
       if b =? IG_BLOCK_DENY
       then enqueue (a_dev a) (a_ino a) (a_op a) 1;;; kret (- EPERM)
       else (if a_audit a then enqueue (a_dev a) (a_ino a) (a_op a) 0 else kret tt);;;
            (if a_drop a then kmodify (set_policy_store (λ t, ps_remove t (a_dev a) (a_ino a)))
             else kret tt);;;
            kret 0
   end)%kmon.

Fixpoint run_accesses (accs : list access) : K T Z :=
  match accs with
  | [] => kret 0
  | a :: accs => (let* rc := check_access a in
                  if rc =? 0 then run_accesses accs else kret rc)%kmon
  end.

(** ** Specification *)

Definition denied (t : T) (a : access) : bool :=
  match inode_policy_lookup t (a_dev a) (a_ino a) (a_op a) with
  | Some b => b =? IG_BLOCK_DENY
  | None => false
  end.

(** Whether the call is denied, the store after it, and the accesses reported,
    each with the store at the time and the [blocked] flag. *)
Fixpoint access_spec (t : T) (accs : list access) : bool * T * list (T * access * Z) :=
  match accs with
  | [] => (false, t, [])
  | a :: accs =>
      match inode_policy_lookup t (a_dev a) (a_ino a) (a_op a) with
      | None => access_spec t accs
      | Some b =>
          if b =? IG_BLOCK_DENY then (true, t, [(t, a, 1)])
          else
            let '(d, t', log) :=
              access_spec (if a_drop a then ps_remove t (a_dev a) (a_ino a) else t) accs in
            (d, t', if a_audit a then (t, a, 0) :: log else log)
      end
  end.

Definition report_of (l : T * access * Z) (ev : ig_lkm_event) : Prop :=
  let '(t, a, blocked) := l in reports env t (a_dev a) (a_ino a) (a_op a) blocked ev.

Definition queue_all (evs q : list ig_lkm_event) : list ig_lkm_event :=
  fold_left (λ q ev, kfifo_in ev q) evs q.

(** What a hook did to the module: the store as specified, the events of the
    log queued in order (those that fit), nothing else. *)
Definition hook_effect (s s' : lkm T) (t' : T) (log : list (T * access * Z)) : Prop :=
  k_policy s' = t' ∧ (k_cache s').1 = (k_cache s).1 ∧
  if ke_alloc_ok env
  then ∃ evs, Forall2 report_of log evs ∧ k_fifo s' = queue_all evs (k_fifo s)
  else k_fifo s' = k_fifo s.

Lemma hook_effect_nil s : hook_effect s s (k_policy s) [].
Proof.
  split; [done|]. split; [done|]. destruct (ke_alloc_ok env); [|done].
  exists []. by split; [constructor|].
Qed.

Lemma hook_effect_cons s s1 s2 t1 a b t2 log :
  hook_effect s s1 t1 [(k_policy s, a, b)] → hook_effect s1 s2 t2 log →
  hook_effect s s2 t2 ((k_policy s, a, b) :: log).
Proof.
  intros (Hp1 & Hc1 & Hf1) (Hp2 & Hc2 & Hf2). split; [done|]. split; [congruence|].
  destruct (ke_alloc_ok env); [|congruence].
  destruct Hf1 as (evs1 & Hr1 & Hq1), Hf2 as (evs2 & Hr2 & Hq2).
  exists (evs1 ++ evs2). split; [change (Forall2 report_of ([(k_policy s, a, b)] ++ log) (evs1 ++ evs2)); by apply Forall2_app|].
  unfold queue_all in *. rewrite fold_left_app. congruence.
Qed.

Lemma enqueue_effect s a b : ix_ok hash_min (k_cache s).1 →
  ∃ s', enqueue (a_dev a) (a_ino a) (a_op a) b s = Some (tt, s') ∧
        hook_effect s s' (k_policy s) [(k_policy s, a, b)].
Proof.
  intros Hok. destruct (enqueue_ok hash_min env (a_dev a) (a_ino a) (a_op a) b s Hok)
    as (s' & He & Hp & Hc & Hf).
  exists s'. split; [done|]. split; [done|]. split; [done|].
  destruct (ke_alloc_ok env); [|by subst].
  destruct Hf as (_ & ev & Hr & Hq). exists [ev]. split; [|done]. by constructor.
Qed.

Lemma drop_effect s s' a log :
  hook_effect s s' (k_policy s) log →
  hook_effect s (if a_drop a then set_policy_store (λ t, ps_remove t (a_dev a) (a_ino a)) s'
                 else s')
    (if a_drop a then ps_remove (k_policy s) (a_dev a) (a_ino a) else k_policy s) log.
Proof.
  intros (Hp & Hc & Hf). destruct (a_drop a); [|done].
  split; [cbn; by rewrite Hp|]. by split.
Qed.

Lemma check_access_effect a s : ix_ok hash_min (k_cache s).1 →
  ∃ s', check_access a s = Some (if denied (k_policy s) a then - EPERM else 0, s') ∧
  match inode_policy_lookup (k_policy s) (a_dev a) (a_ino a) (a_op a) with
  | None => s' = s
  | Some b =>
      if b =? IG_BLOCK_DENY then hook_effect s s' (k_policy s) [(k_policy s, a, 1)]
      else hook_effect s s'
             (if a_drop a then ps_remove (k_policy s) (a_dev a) (a_ino a) else k_policy s)
             (if a_audit a then [(k_policy s, a, 0)] else [])
  end.
Proof.
  intros Hok. unfold check_access, denied, kbind at 1, kget. cbn [mbind option_bind].
  destruct (inode_policy_lookup (k_policy s) (a_dev a) (a_ino a) (a_op a)) as [b|];
    [|by exists s].
  destruct (b =? IG_BLOCK_DENY).
  - destruct (enqueue_effect s a 1 Hok) as (s' & He & Hf). unfold kbind. rewrite He. by exists s'.
  - assert (∃ s1, (if a_audit a then enqueue (a_dev a) (a_ino a) (a_op a) 0 else kret tt) s
                  = Some (tt, s1) ∧
                hook_effect s s1 (k_policy s) (if a_audit a then [(k_policy s, a, 0)] else []))
      as (s1 & H1 & Hf1).
    { destruct (a_audit a); [by apply enqueue_effect|]. exists s. split; [done|apply hook_effect_nil]. }
    unfold kbind. rewrite H1. cbn [mbind option_bind]. eexists. split; [|by apply drop_effect].
    by destruct (a_drop a).
Qed.

(** The hooks implement the specification and never fault. *)
Lemma run_accesses_spec accs : ∀ s, ix_ok hash_min (k_cache s).1 →
  let '(d, t', log) := access_spec (k_policy s) accs in
  ∃ s', run_accesses accs s = Some (if d then - EPERM else 0, s') ∧ hook_effect s s' t' log.
Proof.
  induction accs as [|a accs IH]; intros s Hok; cbn [access_spec run_accesses].
  { exists s. split; [done|apply hook_effect_nil]. }
  destruct (check_access_effect a s Hok) as (s1 & Hc & Hf). unfold denied in Hc.
  unfold kbind. rewrite Hc. cbn [mbind option_bind].
  destruct (inode_policy_lookup (k_policy s) (a_dev a) (a_ino a) (a_op a)) as [b|].
  2:{ subst s1. by apply IH. }
  destruct (b =? IG_BLOCK_DENY); [by exists s1|].
  assert (Hok1 : ix_ok hash_min (k_cache s1).1) by (destruct Hf as (_ & -> & _); done).
  specialize (IH s1 Hok1). destruct Hf as (Hp & Hix & Hq). rewrite Hp in IH.
  destruct (access_spec _ accs) as [[d t'] log]. destruct IH as (s2 & Hr & Hf2).
  exists s2. split; [exact Hr|]. destruct (a_audit a).
  - eapply hook_effect_cons; [|exact Hf2]. by split.
  - destruct Hf2 as (Hp2 & Hc2 & Hq2). split; [done|]. split; [congruence|].
    destruct (ke_alloc_ok env); [|congruence]. destruct Hq as (evs & HF & Hq).
    inversion HF; subst. destruct Hq2 as (evs2 & HF2 & Hq2). exists evs2. split; [done|].
    by rewrite Hq2, Hq.
Qed.

(** When only the last access may drop its policy, the call is denied exactly
    when one of its accesses is. *)
Lemma access_spec_denied accs : ∀ t, Forall (λ a, a_drop a = false) (removelast accs) →
  (access_spec t accs).1.1 = existsb (denied t) accs.
Proof.
  induction accs as [|a accs IH]; intros t HF; [done|]. cbn [access_spec existsb].
  unfold denied at 1. destruct accs as [|a' accs].
  - cbn. destruct (inode_policy_lookup t _ _ _); [|done]. by destruct (_ =? IG_BLOCK_DENY).
  - change (removelast (a :: a' :: accs)) with (a :: removelast (a' :: accs)) in HF.
    apply Forall_cons in HF as [Hd HF]. specialize (IH t HF).
    destruct (inode_policy_lookup t _ _ _); [|exact IH].
    destruct (_ =? IG_BLOCK_DENY); [done|]. rewrite Hd.
    destruct (access_spec t (a' :: accs)) as [[d t'] log]. exact IH.
Qed.
End access.

(** ** Sample states, for the witnesses *)

(** A store given by a function. *)
#[export] Instance fun_store : PolicyStore (Z → Z → option ig_policy_entry) := {
  ps_find := λ t dev ino, t dev ino;
  ps_remove := λ t dev ino d i, if (d =? dev) && (i =? ino) then None else t d i }.

(** Inode 7 of device 1 is denied; path 1000 is a link (inode 8) to it. *)
Definition one_policy (block : Z) (dev ino : Z) : option ig_policy_entry :=
  if (dev =? 1) && (ino =? 7) then Some (PolicyEntry 1 7 7 block (lit "/etc/passwd")) else None.

Definition sample_env : kenv := KEnv shell_task 200 0 ∅ 0 true.

Definition sample_lkm (block : Z) : lkm (Z → Z → option ig_policy_entry) :=
  Lkm (one_policy block) (pc_index_init, stats_zero) [] false.
