(* ===== verification/LkmSyscall.v ===== *)
(** * System call hooks (lkm/hooks/lkm310.c, lkm/hooks/lkm417_syscall.c)

    Twenty entries of [sys_call_table] are replaced by handlers that resolve the
    object of the call, check its policy, and return [-EPERM] or tail-call the
    original with the same arguments. lkm310.c takes the arguments typed,
    lkm417_syscall.c takes the registers; both are modelled and shown equal. *)

From S2P Require Import Prelude Bytes Monitor LkmPolicy ProcCache LkmEvents LkmAccess.

Local Open Scope Z_scope.

Definition AT_FDCWD : Z := -100.
Definition AT_REMOVEDIR : Z := 0x200.
Definition O_WRONLY : Z := 1.
Definition O_RDWR : Z := 2.
Definition O_TRUNC : Z := 0x200.

Inductive sysno :=
  | NR_write | NR_truncate | NR_ftruncate | NR_open | NR_openat | NR_creat | NR_unlink
  | NR_unlinkat | NR_rename | NR_renameat | NR_renameat2 | NR_chmod | NR_fchmodat | NR_chown
  | NR_fchownat | NR_link | NR_linkat | NR_setxattr | NR_lsetxattr | NR_fsetxattr.

#[export] Instance sysno_eq_dec : EqDecision sysno.
Proof. solve_decision. Defined.

(* @src lkm/hooks/lkm417_syscall.c:80-85 arg1 *)
Record pt_regs := PtRegs { r_di : Z; r_si : Z; r_dx : Z; r_r10 : Z; r_r8 : Z }.

(** The handler's outcome: a value, or the original call with its arguments. *)
Inductive hook_result (A : Type) := HReturn (rc : Z) | HOrig (nr : sysno) (args : A).
Arguments HReturn {A}. Arguments HOrig {A}.

(** The kernel's resolution of paths (with its lookup flags) and descriptors:
    [None] when it fails, an inode that may be null otherwise. *)
Record vfs := Vfs {
  user_path_at : Z → Z → Z → option (option kinode);
  fdget : Z → option (option kinode) }.

Section syscall.
Context {T : Type} `{PolicyStore T}.
Variable hash_min : Z → Z.
Variable v : vfs.
Variable env : kenv.

(** ** Resolution and checks, the same in both files *)

(* @src lkm/hooks/lkm310.c:94-111 pathat_to_devino *)
Definition pathat_to_devino (dfd upath : Z) : option (Z * Z) :=
  match user_path_at v dfd upath 0 with
  | Some (Some (KInode (Some dev) ino _)) => Some (dev, ino)
  | _ => None
  end.

(* @src lkm/hooks/lkm310.c:113-117 path_to_devino *)
Definition path_to_devino (upath : Z) : option (Z * Z) := pathat_to_devino AT_FDCWD upath.

(* @src lkm/hooks/lkm310.c:119-136 fd_to_devino *)
Definition fd_to_devino (fd : Z) : option (Z * Z) :=
  match fdget v fd with
  | Some (Some (KInode (Some dev) ino mode)) => if S_ISREG mode then Some (dev, ino) else None
  | _ => None
  end.

(* @src lkm/hooks/lkm310.c:138-155 ig_check *)
Definition ig_check (dev ino op : Z) : K T Z :=
  (let* r := kget (λ s, inode_policy_lookup (k_policy s) dev ino op) in
   match r with
   | None => kret 0
   | Some block_mode =>
       if block_mode =? IG_BLOCK_DENY
       then ig_event_enqueue hash_min env dev ino op 1;;; kret (- EPERM)
       else ig_event_enqueue hash_min env dev ino op 0;;; kret 0
   end)%kmon.

(* @src lkm/hooks/lkm310.c:157-174 ig_check_delete *)
Definition ig_check_delete (dev ino : Z) : K T Z :=
  (let* r := kget (λ s, inode_policy_lookup (k_policy s) dev ino IG_OP_DELETE) in
   match r with
   | None => kret 0
   | Some block_mode =>
       if block_mode =? IG_BLOCK_DENY
       then ig_event_enqueue hash_min env dev ino IG_OP_DELETE 1;;; kret (- EPERM)
       else ig_event_enqueue hash_min env dev ino IG_OP_DELETE 0;;;
            kmodify (set_policy_store (λ t, ps_remove t dev ino));;; kret 0
   end)%kmon.

(** [if (resolved) rc = check(dev, ino);] with [rc] initially 0. *)
Definition on_object (r : option (Z * Z)) (check : Z → Z → K T Z) : K T Z :=
  match r with Some (dev, ino) => check dev ino | None => kret 0 end.

(* @src lkm/hooks/lkm310.c:218-228 check_open_flags *)
Definition check_open_flags (dfd upath flags : Z) : K T Z :=
  if has_bits flags (Z.lor (Z.lor O_WRONLY O_RDWR) O_TRUNC)
  then on_object (pathat_to_devino dfd upath) (λ dev ino, ig_check dev ino IG_OP_WRITE)
  else kret 0.

(* @src lkm/hooks/lkm310.c:284-308 check_rename *)
Definition check_rename (olddfd oldname newdfd newname : Z) : K T Z :=
  (let* rc := on_object (pathat_to_devino olddfd oldname)
                (λ dev ino, ig_check dev ino IG_OP_RENAME) in
   if rc =? 0 then
     on_object (pathat_to_devino newdfd newname) (λ dev ino,
       let* r := kget (λ s, inode_policy_lookup (k_policy s) dev ino IG_OP_RENAME) in
       match r with
       | Some block_mode =>
           if block_mode =? IG_BLOCK_DENY
           then ig_event_enqueue hash_min env dev ino IG_OP_RENAME 1;;; kret (- EPERM)
           else kret 0
       | None => kret 0
       end)
   else kret rc)%kmon.

(** [if (rc) return rc; return orig(args);] *)
Definition guard_orig {A} (nr : sysno) (args : A) (check : K T Z) : K T (hook_result A) :=
  (let* rc := check in if rc =? 0 then kret (HOrig nr args) else kret (HReturn rc))%kmon.

(** ** lkm310.c: typed arguments *)

(* @src lkm/hooks/lkm310.c:177-190 ig_sys_write *)
Definition ig_sys_write (fd buf count : Z) : K T (hook_result (list Z)) :=
  guard_orig NR_write [fd; buf; count]
    (on_object (fd_to_devino fd) (λ dev ino, ig_check dev ino IG_OP_WRITE)).

(* @src lkm/hooks/lkm310.c:192-203 ig_sys_truncate *)
Definition ig_sys_truncate (path length : Z) : K T (hook_result (list Z)) :=
  guard_orig NR_truncate [path; length]
    (on_object (path_to_devino path) (λ dev ino, ig_check dev ino IG_OP_WRITE)).

(* @src lkm/hooks/lkm310.c:205-216 ig_sys_ftruncate *)
Definition ig_sys_ftruncate (fd length : Z) : K T (hook_result (list Z)) :=
  guard_orig NR_ftruncate [fd; length]
    (on_object (fd_to_devino fd) (λ dev ino, ig_check dev ino IG_OP_WRITE)).

(* @src lkm/hooks/lkm310.c:230-237 ig_sys_open *)
Definition ig_sys_open (filename flags mode : Z) : K T (hook_result (list Z)) :=
  guard_orig NR_open [filename; flags; mode]
    (check_open_flags AT_FDCWD filename flags).

(* @src lkm/hooks/lkm310.c:239-246 ig_sys_openat *)
Definition ig_sys_openat (dfd filename flags mode : Z) : K T (hook_result (list Z)) :=
  guard_orig NR_openat [dfd; filename; flags; mode]
    (check_open_flags dfd filename flags).

(* @src lkm/hooks/lkm310.c:248-254 ig_sys_creat *)
Definition ig_sys_creat (pathname mode : Z) : K T (hook_result (list Z)) :=
  guard_orig NR_creat [pathname; mode]
    (check_open_flags AT_FDCWD pathname (Z.lor O_WRONLY O_TRUNC)).

(* @src lkm/hooks/lkm310.c:256-267 ig_sys_unlink *)
Definition ig_sys_unlink (pathname : Z) : K T (hook_result (list Z)) :=
  guard_orig NR_unlink [pathname]
    (on_object (path_to_devino pathname) (λ dev ino, ig_check_delete dev ino)).

(* @src lkm/hooks/lkm310.c:269-282 ig_sys_unlinkat *)
Definition ig_sys_unlinkat (dfd pathname flag : Z) : K T (hook_result (list Z)) :=
  guard_orig NR_unlinkat [dfd; pathname; flag]
    (if has_bits flag AT_REMOVEDIR then kret 0
     else on_object (pathat_to_devino dfd pathname) (λ dev ino, ig_check_delete dev ino)).

(* @src lkm/hooks/lkm310.c:310-317 ig_sys_rename *)
Definition ig_sys_rename (oldname newname : Z) : K T (hook_result (list Z)) :=
  guard_orig NR_rename [oldname; newname]
    (check_rename AT_FDCWD oldname AT_FDCWD newname).

(* @src lkm/hooks/lkm310.c:319-328 ig_sys_renameat *)
Definition ig_sys_renameat (olddfd oldname newdfd newname : Z) : K T (hook_result (list Z)) :=
  guard_orig NR_renameat [olddfd; oldname; newdfd; newname]
    (check_rename olddfd oldname newdfd newname).

(* @src lkm/hooks/lkm310.c:331-341 ig_sys_renameat2 *)
Definition ig_sys_renameat2 (olddfd oldname newdfd newname flags : Z) : K T (hook_result (list Z)) :=
  guard_orig NR_renameat2 [olddfd; oldname; newdfd; newname; flags]
    (check_rename olddfd oldname newdfd newname).

(* @src lkm/hooks/lkm310.c:344-355 ig_sys_chmod *)
Definition ig_sys_chmod (filename mode : Z) : K T (hook_result (list Z)) :=
  guard_orig NR_chmod [filename; mode]
    (on_object (path_to_devino filename) (λ dev ino, ig_check dev ino IG_OP_WRITE)).

(* @src lkm/hooks/lkm310.c:357-370 ig_sys_fchmodat *)
Definition ig_sys_fchmodat (dfd filename mode : Z) : K T (hook_result (list Z)) :=
  guard_orig NR_fchmodat [dfd; filename; mode]
    (on_object (pathat_to_devino dfd filename) (λ dev ino, ig_check dev ino IG_OP_WRITE)).

(* @src lkm/hooks/lkm310.c:372-384 ig_sys_chown *)
Definition ig_sys_chown (filename user group : Z) : K T (hook_result (list Z)) :=
  guard_orig NR_chown [filename; user; group]
    (on_object (path_to_devino filename) (λ dev ino, ig_check dev ino IG_OP_WRITE)).

(* @src lkm/hooks/lkm310.c:386-399 ig_sys_fchownat *)
Definition ig_sys_fchownat (dfd filename user group flag : Z) : K T (hook_result (list Z)) :=
  guard_orig NR_fchownat [dfd; filename; user; group; flag]
    (on_object (pathat_to_devino dfd filename) (λ dev ino, ig_check dev ino IG_OP_WRITE)).

(* @src lkm/hooks/lkm310.c:401-413 ig_sys_link *)
Definition ig_sys_link (oldname newname : Z) : K T (hook_result (list Z)) :=
  guard_orig NR_link [oldname; newname]
    (on_object (path_to_devino oldname) (λ dev ino, ig_check dev ino IG_OP_WRITE)).

(* @src lkm/hooks/lkm310.c:415-430 ig_sys_linkat *)
Definition ig_sys_linkat (olddfd oldname newdfd newname flags : Z) : K T (hook_result (list Z)) :=
  guard_orig NR_linkat [olddfd; oldname; newdfd; newname; flags]
    (on_object (pathat_to_devino olddfd oldname) (λ dev ino, ig_check dev ino IG_OP_WRITE)).

(* @src lkm/hooks/lkm310.c:432-446 ig_sys_setxattr *)
Definition ig_sys_setxattr (path name value size flags : Z) : K T (hook_result (list Z)) :=
  guard_orig NR_setxattr [path; name; value; size; flags]
    (on_object (path_to_devino path) (λ dev ino, ig_check dev ino IG_OP_WRITE)).

(* @src lkm/hooks/lkm310.c:448-462 ig_sys_lsetxattr *)
Definition ig_sys_lsetxattr (path name value size flags : Z) : K T (hook_result (list Z)) :=
  guard_orig NR_lsetxattr [path; name; value; size; flags]
    (on_object (path_to_devino path) (λ dev ino, ig_check dev ino IG_OP_WRITE)).

(* @src lkm/hooks/lkm310.c:464-478 ig_sys_fsetxattr *)
Definition ig_sys_fsetxattr (fd name value size flags : Z) : K T (hook_result (list Z)) :=
  guard_orig NR_fsetxattr [fd; name; value; size; flags]
    (on_object (fd_to_devino (u32 fd)) (λ dev ino, ig_check dev ino IG_OP_WRITE)).

(** The entry code: registers to typed parameters. *)
Definition entry_310 (nr : sysno) (r : pt_regs) : K T (hook_result (list Z)) :=
  match nr with
  | NR_write => ig_sys_write (u32 (r_di r)) (r_si r) (r_dx r)
  | NR_truncate => ig_sys_truncate (r_di r) (s64 (r_si r))
  | NR_ftruncate => ig_sys_ftruncate (u32 (r_di r)) (r_si r)
  | NR_open => ig_sys_open (r_di r) (s32 (r_si r)) (u16 (r_dx r))
  | NR_openat => ig_sys_openat (s32 (r_di r)) (r_si r) (s32 (r_dx r)) (u16 (r_r10 r))
  | NR_creat => ig_sys_creat (r_di r) (u16 (r_si r))
  | NR_unlink => ig_sys_unlink (r_di r)
  | NR_unlinkat => ig_sys_unlinkat (s32 (r_di r)) (r_si r) (s32 (r_dx r))
  | NR_rename => ig_sys_rename (r_di r) (r_si r)
  | NR_renameat => ig_sys_renameat (s32 (r_di r)) (r_si r) (s32 (r_dx r)) (r_r10 r)
  | NR_renameat2 => ig_sys_renameat2 (s32 (r_di r)) (r_si r) (s32 (r_dx r)) (r_r10 r) (u32 (r_r8 r))
  | NR_chmod => ig_sys_chmod (r_di r) (u16 (r_si r))
  | NR_fchmodat => ig_sys_fchmodat (s32 (r_di r)) (r_si r) (u16 (r_dx r))
  | NR_chown => ig_sys_chown (r_di r) (u32 (r_si r)) (u32 (r_dx r))
  | NR_fchownat => ig_sys_fchownat (s32 (r_di r)) (r_si r) (u32 (r_dx r)) (u32 (r_r10 r)) (s32 (r_r8 r))
  | NR_link => ig_sys_link (r_di r) (r_si r)
  | NR_linkat => ig_sys_linkat (s32 (r_di r)) (r_si r) (s32 (r_dx r)) (r_r10 r) (s32 (r_r8 r))
  | NR_setxattr => ig_sys_setxattr (r_di r) (r_si r) (r_dx r) (r_r10 r) (s32 (r_r8 r))
  | NR_lsetxattr => ig_sys_lsetxattr (r_di r) (r_si r) (r_dx r) (r_r10 r) (s32 (r_r8 r))
  | NR_fsetxattr => ig_sys_fsetxattr (s32 (r_di r)) (r_si r) (r_dx r) (r_r10 r) (s32 (r_r8 r))
  end.

(** ** lkm417_syscall.c: registers

    The file has its own copies of the checks. *)

(* @src lkm/hooks/lkm417_syscall.c:87-104 pathat_to_devino *)
Definition regs_pathat_to_devino (dfd upath : Z) : option (Z * Z) :=
  match user_path_at v dfd upath 0 with
  | Some (Some (KInode (Some dev) ino _)) => Some (dev, ino)
  | _ => None
  end.

(* @src lkm/hooks/lkm417_syscall.c:106-110 path_to_devino *)
Definition regs_path_to_devino (upath : Z) : option (Z * Z) := regs_pathat_to_devino AT_FDCWD upath.

(* @src lkm/hooks/lkm417_syscall.c:112-129 fd_to_devino *)
Definition regs_fd_to_devino (fd : Z) : option (Z * Z) :=
  match fdget v fd with
  | Some (Some (KInode (Some dev) ino mode)) => if S_ISREG mode then Some (dev, ino) else None
  | _ => None
  end.

(* @src lkm/hooks/lkm417_syscall.c:131-148 ig_check *)
Definition regs_check (dev ino op : Z) : K T Z :=
  (let* r := kget (λ s, inode_policy_lookup (k_policy s) dev ino op) in
   match r with
   | None => kret 0
   | Some block_mode =>
       if block_mode =? IG_BLOCK_DENY
       then ig_event_enqueue hash_min env dev ino op 1;;; kret (- EPERM)
       else ig_event_enqueue hash_min env dev ino op 0;;; kret 0
   end)%kmon.

(* @src lkm/hooks/lkm417_syscall.c:150-167 ig_check_delete *)
Definition regs_check_delete (dev ino : Z) : K T Z :=
  (let* r := kget (λ s, inode_policy_lookup (k_policy s) dev ino IG_OP_DELETE) in
   match r with
   | None => kret 0
   | Some block_mode =>
       if block_mode =? IG_BLOCK_DENY
       then ig_event_enqueue hash_min env dev ino IG_OP_DELETE 1;;; kret (- EPERM)
       else ig_event_enqueue hash_min env dev ino IG_OP_DELETE 0;;;
            kmodify (set_policy_store (λ t, ps_remove t dev ino));;; kret 0
   end)%kmon.

(* @src lkm/hooks/lkm417_syscall.c:169-193 check_rename *)
Definition regs_check_rename (olddfd oldname newdfd newname : Z) : K T Z :=
  (let* rc := on_object (regs_pathat_to_devino olddfd oldname)
                (λ dev ino, regs_check dev ino IG_OP_RENAME) in
   if rc =? 0 then
     on_object (regs_pathat_to_devino newdfd newname) (λ dev ino,
       let* r := kget (λ s, inode_policy_lookup (k_policy s) dev ino IG_OP_RENAME) in
       match r with
       | Some block_mode =>
           if block_mode =? IG_BLOCK_DENY
           then ig_event_enqueue hash_min env dev ino IG_OP_RENAME 1;;; kret (- EPERM)
           else kret 0
       | None => kret 0
       end)
   else kret rc)%kmon.

(* @src lkm/hooks/lkm417_syscall.c:195-206 check_open_flags *)
Definition regs_check_open_flags (dfd upath flags : Z) : K T Z :=
  if has_bits flags (Z.lor (Z.lor O_WRONLY O_RDWR) O_TRUNC)
  then on_object (regs_pathat_to_devino dfd upath) (λ dev ino, regs_check dev ino IG_OP_WRITE)
  else kret 0.

(* @src lkm/hooks/lkm417_syscall.c:208-217 ig_sys_write *)
Definition regs_sys_write (r : pt_regs) : K T (hook_result pt_regs) :=
  guard_orig NR_write r
    (on_object (regs_fd_to_devino (u32 (r_di r))) (λ dev ino, regs_check dev ino IG_OP_WRITE)).

(* @src lkm/hooks/lkm417_syscall.c:219-228 ig_sys_truncate *)
Definition regs_sys_truncate (r : pt_regs) : K T (hook_result pt_regs) :=
  guard_orig NR_truncate r
    (on_object (regs_path_to_devino (r_di r)) (λ dev ino, regs_check dev ino IG_OP_WRITE)).

(* @src lkm/hooks/lkm417_syscall.c:230-239 ig_sys_ftruncate *)
Definition regs_sys_ftruncate (r : pt_regs) : K T (hook_result pt_regs) :=
  guard_orig NR_ftruncate r
    (on_object (regs_fd_to_devino (u32 (r_di r))) (λ dev ino, regs_check dev ino IG_OP_WRITE)).

(* @src lkm/hooks/lkm417_syscall.c:241-247 ig_sys_open *)
Definition regs_sys_open (r : pt_regs) : K T (hook_result pt_regs) :=
  guard_orig NR_open r
    (regs_check_open_flags AT_FDCWD (r_di r) (s32 (r_si r))).

(* @src lkm/hooks/lkm417_syscall.c:249-255 ig_sys_openat *)
Definition regs_sys_openat (r : pt_regs) : K T (hook_result pt_regs) :=
  guard_orig NR_openat r
    (regs_check_open_flags (s32 (r_di r)) (r_si r) (s32 (r_dx r))).

(* @src lkm/hooks/lkm417_syscall.c:257-263 ig_sys_creat *)
Definition regs_sys_creat (r : pt_regs) : K T (hook_result pt_regs) :=
  guard_orig NR_creat r
    (regs_check_open_flags AT_FDCWD (r_di r) (Z.lor O_WRONLY O_TRUNC)).

(* @src lkm/hooks/lkm417_syscall.c:265-274 ig_sys_unlink *)
Definition regs_sys_unlink (r : pt_regs) : K T (hook_result pt_regs) :=
  guard_orig NR_unlink r
    (on_object (regs_path_to_devino (r_di r)) (λ dev ino, regs_check_delete dev ino)).

(* @src lkm/hooks/lkm417_syscall.c:276-288 ig_sys_unlinkat *)
Definition regs_sys_unlinkat (r : pt_regs) : K T (hook_result pt_regs) :=
  guard_orig NR_unlinkat r
    (if has_bits (s32 (r_dx r)) AT_REMOVEDIR then kret 0
     else on_object (regs_pathat_to_devino (s32 (r_di r)) (r_si r)) (λ dev ino, regs_check_delete dev ino)).

(* @src lkm/hooks/lkm417_syscall.c:290-297 ig_sys_rename *)
Definition regs_sys_rename (r : pt_regs) : K T (hook_result pt_regs) :=
  guard_orig NR_rename r
    (regs_check_rename AT_FDCWD (r_di r) AT_FDCWD (r_si r)).

(* @src lkm/hooks/lkm417_syscall.c:299-306 ig_sys_renameat *)
Definition regs_sys_renameat (r : pt_regs) : K T (hook_result pt_regs) :=
  guard_orig NR_renameat r
    (regs_check_rename (s32 (r_di r)) (r_si r) (s32 (r_dx r)) (r_r10 r)).

(* @src lkm/hooks/lkm417_syscall.c:309-316 ig_sys_renameat2 *)
Definition regs_sys_renameat2 (r : pt_regs) : K T (hook_result pt_regs) :=
  guard_orig NR_renameat2 r
    (regs_check_rename (s32 (r_di r)) (r_si r) (s32 (r_dx r)) (r_r10 r)).

(* @src lkm/hooks/lkm417_syscall.c:319-328 ig_sys_chmod *)
Definition regs_sys_chmod (r : pt_regs) : K T (hook_result pt_regs) :=
  guard_orig NR_chmod r
    (on_object (regs_path_to_devino (r_di r)) (λ dev ino, regs_check dev ino IG_OP_WRITE)).

(* @src lkm/hooks/lkm417_syscall.c:330-340 ig_sys_fchmodat *)
Definition regs_sys_fchmodat (r : pt_regs) : K T (hook_result pt_regs) :=
  guard_orig NR_fchmodat r
    (on_object (regs_pathat_to_devino (s32 (r_di r)) (r_si r)) (λ dev ino, regs_check dev ino IG_OP_WRITE)).

(* @src lkm/hooks/lkm417_syscall.c:342-351 ig_sys_chown *)
Definition regs_sys_chown (r : pt_regs) : K T (hook_result pt_regs) :=
  guard_orig NR_chown r
    (on_object (regs_path_to_devino (r_di r)) (λ dev ino, regs_check dev ino IG_OP_WRITE)).

(* @src lkm/hooks/lkm417_syscall.c:353-363 ig_sys_fchownat *)
Definition regs_sys_fchownat (r : pt_regs) : K T (hook_result pt_regs) :=
  guard_orig NR_fchownat r
    (on_object (regs_pathat_to_devino (s32 (r_di r)) (r_si r)) (λ dev ino, regs_check dev ino IG_OP_WRITE)).

(* @src lkm/hooks/lkm417_syscall.c:365-374 ig_sys_link *)
Definition regs_sys_link (r : pt_regs) : K T (hook_result pt_regs) :=
  guard_orig NR_link r
    (on_object (regs_path_to_devino (r_di r)) (λ dev ino, regs_check dev ino IG_OP_WRITE)).

(* @src lkm/hooks/lkm417_syscall.c:376-386 ig_sys_linkat *)
Definition regs_sys_linkat (r : pt_regs) : K T (hook_result pt_regs) :=
  guard_orig NR_linkat r
    (on_object (regs_pathat_to_devino (s32 (r_di r)) (r_si r)) (λ dev ino, regs_check dev ino IG_OP_WRITE)).

(* @src lkm/hooks/lkm417_syscall.c:388-397 ig_sys_setxattr *)
Definition regs_sys_setxattr (r : pt_regs) : K T (hook_result pt_regs) :=
  guard_orig NR_setxattr r
    (on_object (regs_path_to_devino (r_di r)) (λ dev ino, regs_check dev ino IG_OP_WRITE)).

(* @src lkm/hooks/lkm417_syscall.c:399-408 ig_sys_lsetxattr *)
Definition regs_sys_lsetxattr (r : pt_regs) : K T (hook_result pt_regs) :=
  guard_orig NR_lsetxattr r
    (on_object (regs_path_to_devino (r_di r)) (λ dev ino, regs_check dev ino IG_OP_WRITE)).

(* @src lkm/hooks/lkm417_syscall.c:410-419 ig_sys_fsetxattr *)
Definition regs_sys_fsetxattr (r : pt_regs) : K T (hook_result pt_regs) :=
  guard_orig NR_fsetxattr r
    (on_object (regs_fd_to_devino (u32 (s32 (r_di r)))) (λ dev ino, regs_check dev ino IG_OP_WRITE)).

Definition entry_417 (nr : sysno) (r : pt_regs) : K T (hook_result pt_regs) :=
  match nr with
  | NR_write => regs_sys_write r
  | NR_truncate => regs_sys_truncate r
  | NR_ftruncate => regs_sys_ftruncate r
  | NR_open => regs_sys_open r
  | NR_openat => regs_sys_openat r
  | NR_creat => regs_sys_creat r
  | NR_unlink => regs_sys_unlink r
  | NR_unlinkat => regs_sys_unlinkat r
  | NR_rename => regs_sys_rename r
  | NR_renameat => regs_sys_renameat r
  | NR_renameat2 => regs_sys_renameat2 r
  | NR_chmod => regs_sys_chmod r
  | NR_fchmodat => regs_sys_fchmodat r
  | NR_chown => regs_sys_chown r
  | NR_fchownat => regs_sys_fchownat r
  | NR_link => regs_sys_link r
  | NR_linkat => regs_sys_linkat r
  | NR_setxattr => regs_sys_setxattr r
  | NR_lsetxattr => regs_sys_lsetxattr r
  | NR_fsetxattr => regs_sys_fsetxattr r
  end.
End syscall.

(** The arguments the registers carry, by the prototypes of the originals. *)
(* @src lkm/hooks/lkm310.c:27-46 orig_write_t *)
Definition typed_args (nr : sysno) (r : pt_regs) : list Z :=
  match nr with
  | NR_write => [u32 (r_di r); r_si r; r_dx r]
  | NR_truncate => [r_di r; s64 (r_si r)]
  | NR_ftruncate => [u32 (r_di r); r_si r]
  | NR_open => [r_di r; s32 (r_si r); u16 (r_dx r)]
  | NR_openat => [s32 (r_di r); r_si r; s32 (r_dx r); u16 (r_r10 r)]
  | NR_creat => [r_di r; u16 (r_si r)]
  | NR_unlink => [r_di r]
  | NR_unlinkat => [s32 (r_di r); r_si r; s32 (r_dx r)]
  | NR_rename => [r_di r; r_si r]
  | NR_renameat => [s32 (r_di r); r_si r; s32 (r_dx r); r_r10 r]
  | NR_renameat2 => [s32 (r_di r); r_si r; s32 (r_dx r); r_r10 r; u32 (r_r8 r)]
  | NR_chmod => [r_di r; u16 (r_si r)]
  | NR_fchmodat => [s32 (r_di r); r_si r; u16 (r_dx r)]
  | NR_chown => [r_di r; u32 (r_si r); u32 (r_dx r)]
  | NR_fchownat => [s32 (r_di r); r_si r; u32 (r_dx r); u32 (r_r10 r); s32 (r_r8 r)]
  | NR_link => [r_di r; r_si r]
  | NR_linkat => [s32 (r_di r); r_si r; s32 (r_dx r); r_r10 r; s32 (r_r8 r)]
  | NR_setxattr => [r_di r; r_si r; r_dx r; r_r10 r; s32 (r_r8 r)]
  | NR_lsetxattr => [r_di r; r_si r; r_dx r; r_r10 r; s32 (r_r8 r)]
  | NR_fsetxattr => [s32 (r_di r); r_si r; r_dx r; r_r10 r; s32 (r_r8 r)]
  end.

(** ** Specification: the objects a call touches *)

Section spec.
Context {T : Type} `{PolicyStore T}.
Variable hash_min : Z → Z.
Variable v : vfs.
Variable env : kenv.

Definition object (r : option (Z * Z)) (op : Z) : list access :=
  match r with
  | Some (dev, ino) => [Access dev ino op true (op =? IG_OP_DELETE)]
  | None => []
  end.

(** The destination of a rename is checked, an audited one is not reported. *)
Definition destination (r : option (Z * Z)) : list access :=
  match r with Some (dev, ino) => [Access dev ino IG_OP_RENAME false false] | None => [] end.

Definition write_open (flags : Z) : bool :=
  has_bits flags (Z.lor (Z.lor O_WRONLY O_RDWR) O_TRUNC).

Definition accesses (nr : sysno) (r : pt_regs) : list access :=
  let at_path dfd p := pathat_to_devino v dfd p in
  match nr with
  | NR_write | NR_ftruncate => object (fd_to_devino v (u32 (r_di r))) IG_OP_WRITE
  | NR_fsetxattr => object (fd_to_devino v (u32 (s32 (r_di r)))) IG_OP_WRITE
  | NR_truncate | NR_chmod | NR_chown | NR_link | NR_setxattr | NR_lsetxattr =>
      object (at_path AT_FDCWD (r_di r)) IG_OP_WRITE
  | NR_fchmodat | NR_fchownat | NR_linkat =>
      object (at_path (s32 (r_di r)) (r_si r)) IG_OP_WRITE
  | NR_creat => object (at_path AT_FDCWD (r_di r)) IG_OP_WRITE
  | NR_open => if write_open (s32 (r_si r))
               then object (at_path AT_FDCWD (r_di r)) IG_OP_WRITE else []
  | NR_openat => if write_open (s32 (r_dx r))
                 then object (at_path (s32 (r_di r)) (r_si r)) IG_OP_WRITE else []
  | NR_unlink => object (at_path AT_FDCWD (r_di r)) IG_OP_DELETE
  | NR_unlinkat => if has_bits (s32 (r_dx r)) AT_REMOVEDIR then []
                   else object (at_path (s32 (r_di r)) (r_si r)) IG_OP_DELETE
  | NR_rename => object (at_path AT_FDCWD (r_di r)) IG_OP_RENAME ++
                 destination (at_path AT_FDCWD (r_si r))
  | NR_renameat | NR_renameat2 =>
      object (at_path (s32 (r_di r)) (r_si r)) IG_OP_RENAME ++
      destination (at_path (s32 (r_dx r)) (r_r10 r))
  end.

Abbreviation run := (run_accesses hash_min env).

Lemma run_singleton (a : access) (s : lkm T) : run [a] s = check_access hash_min env a s.
Proof.
  cbn [run_accesses]. unfold kbind. destruct (check_access hash_min env a s) as [[rc s']|]; [|done].
  cbn. by destruct (Z.eqb_spec rc 0) as [->|].
Qed.

Lemma ig_check_run dev ino op (s : lkm T) :
  ig_check hash_min env dev ino op s = run [Access dev ino op true false] s.
Proof.
  rewrite run_singleton. unfold ig_check, check_access, kbind, kget. cbn.
  destruct (inode_policy_lookup _ _ _ _) as [b|]; [|done].
  destruct (b =? IG_BLOCK_DENY); [done|]. by destruct (ig_event_enqueue _ _ _ _ _ _ _) as [[[] s']|].
Qed.

Lemma ig_check_delete_run dev ino (s : lkm T) :
  ig_check_delete hash_min env dev ino s = run [Access dev ino IG_OP_DELETE true true] s.
Proof.
  rewrite run_singleton. unfold ig_check_delete, check_access, kbind, kget. cbn.
  destruct (inode_policy_lookup _ _ _ _) as [b|]; [|done].
  destruct (b =? IG_BLOCK_DENY); [done|]. by destruct (ig_event_enqueue _ _ _ _ _ _ _) as [[[] s']|].
Qed.

Lemma on_object_write r (s : lkm T) :
  on_object r (λ dev ino, ig_check hash_min env dev ino IG_OP_WRITE) s =
  run (object r IG_OP_WRITE) s.
Proof. destruct r as [[dev ino]|]; [apply ig_check_run|done]. Qed.

Lemma on_object_delete r (s : lkm T) :
  on_object r (λ dev ino, ig_check_delete hash_min env dev ino) s =
  run (object r IG_OP_DELETE) s.
Proof. destruct r as [[dev ino]|]; [apply ig_check_delete_run|done]. Qed.

Lemma run_app accs1 accs2 (s : lkm T) :
  run (accs1 ++ accs2) s =
  kbind (run accs1) (λ rc, if rc =? 0 then run accs2 else kret rc) s.
Proof.
  revert s. induction accs1 as [|a accs1 IH]; intros s; [done|]. cbn [app run_accesses].
  unfold kbind. destruct (check_access hash_min env a s) as [[rc s']|]; [|done]. cbn.
  destruct (rc =? 0) eqn:E; [exact (IH s')|]. cbn. by rewrite E.
Qed.

Lemma check_rename_run olddfd oldname newdfd newname (s : lkm T) :
  check_rename hash_min v env olddfd oldname newdfd newname s =
  run (object (pathat_to_devino v olddfd oldname) IG_OP_RENAME ++
       destination (pathat_to_devino v newdfd newname)) s.
Proof.
  rewrite run_app. unfold check_rename, kbind.
  assert (on_object (pathat_to_devino v olddfd oldname)
            (λ dev ino, ig_check hash_min env dev ino IG_OP_RENAME) s =
          run (object (pathat_to_devino v olddfd oldname) IG_OP_RENAME) s) as ->.
  { destruct (pathat_to_devino v olddfd oldname) as [[dev ino]|]; [apply ig_check_run|done]. }
  destruct (run _ s) as [[rc s']|]; [|done]. cbn [mbind option_bind].
  destruct (rc =? 0); [|done].
  destruct (pathat_to_devino v newdfd newname) as [[dev ino]|]; [|done].
  cbn [destination]. rewrite run_singleton. unfold check_access, on_object, kbind, kget. cbn.
  destruct (inode_policy_lookup _ _ _ _) as [b|]; [|done]. by destruct (b =? IG_BLOCK_DENY).
Qed.

Lemma check_open_run dfd p flags (s : lkm T) :
  check_open_flags hash_min v env dfd p flags s =
  run (if write_open flags then object (pathat_to_devino v dfd p) IG_OP_WRITE else []) s.
Proof.
  unfold check_open_flags. change (has_bits flags _) with (write_open flags).
  destruct (write_open flags); [apply on_object_write|done].
Qed.

(** What a hook returns, given what its checks return. *)
Definition hook_outcome {A} (nr : sysno) (args : A) (r : option (Z * lkm T))
    : option (hook_result A * lkm T) :=
  '(rc, s') ← r; Some (if rc =? 0 then HOrig nr args else HReturn rc, s').

Lemma guard_orig_run {A} nr (args : A) check accs (s : lkm T) :
  check s = run accs s → guard_orig nr args check s = hook_outcome nr args (run accs s).
Proof.
  intros Hc. unfold guard_orig, kbind, hook_outcome. rewrite Hc.
  destruct (run accs s) as [[rc s']|]; [|done]. cbn. by destruct (rc =? 0).
Qed.

Ltac hook_case :=
  apply guard_orig_run;
  first [ apply on_object_write | apply check_rename_run | apply check_open_run
        | apply on_object_delete | idtac ].

Lemma entry_310_run nr r (s : lkm T) :
  entry_310 hash_min v env nr r s = hook_outcome nr (typed_args nr r) (run (accesses nr r) s).
Proof.
  destruct nr; cbn [entry_310 typed_args accesses]; hook_case.
  unfold ig_sys_unlinkat. destruct (has_bits (s32 (r_dx r)) AT_REMOVEDIR); [done|].
  apply on_object_delete.
Qed.

Lemma entry_417_run nr r (s : lkm T) :
  entry_417 hash_min v env nr r s = hook_outcome nr r (run (accesses nr r) s).
Proof.
  destruct nr; cbn [entry_417 accesses]; hook_case.
  destruct (has_bits (s32 (r_dx r)) AT_REMOVEDIR); [done|]. apply on_object_delete.
Qed.

Lemma accesses_drop_last nr r : Forall (λ a, a_drop a = false) (removelast (accesses nr r)).
Proof.
  assert (Hd : ∀ o p, Forall (λ a, a_drop a = false) (removelast (object o IG_OP_RENAME ++ destination p))).
  { intros [[??]|] [[??]|]; repeat constructor. }
  assert (Ho : ∀ o op, Forall (λ a, a_drop a = false) (removelast (object o op))).
  { intros [[??]|] op; repeat constructor. }
  destruct nr; cbn [accesses]; auto; case_match; auto; constructor.
Qed.

(** ** Properties *)

(** The decision alone. *)
Lemma entry_310_decides nr r (s : lkm T) : ix_ok hash_min (k_cache s).1 →
  ∃ s', entry_310 hash_min v env nr r s =
    Some (if existsb (denied (k_policy s)) (accesses nr r) then HReturn (- EPERM) else HOrig nr (typed_args nr r), s').
Proof.
  intros Hok. pose proof (access_spec_denied (accesses nr r) (k_policy s) (accesses_drop_last nr r)) as Hd.
  pose proof (run_accesses_spec hash_min env (accesses nr r) s Hok) as Hr.
  rewrite entry_310_run. destruct (access_spec (k_policy s) (accesses nr r)) as [[d t'] log].
  cbn [fst] in Hd. subst d. destruct Hr as (s' & -> & _). exists s'. by destruct (existsb _ _).
Qed.

Lemma accesses_ops nr r a : a ∈ accesses nr r → a_op a ∈ [IG_OP_WRITE; IG_OP_DELETE; IG_OP_RENAME].
Proof using Type.
  assert (Ho : ∀ o op, op ∈ [IG_OP_WRITE; IG_OP_DELETE; IG_OP_RENAME] →
    ∀ a, a ∈ object o op → a_op a ∈ [IG_OP_WRITE; IG_OP_DELETE; IG_OP_RENAME]).
  { intros [[? ?]|] op Hop b; cbn [object]; [|by intros ?%elem_of_nil]. by intros ->%list_elem_of_singleton. }
  assert (Hd : ∀ p a, a ∈ destination p → a_op a ∈ [IG_OP_WRITE; IG_OP_DELETE; IG_OP_RENAME]).
  { intros [[? ?]|] b; cbn [destination]; [|by intros ?%elem_of_nil].
    intros ->%list_elem_of_singleton. cbn [a_op]. by right; right; left. }
  destruct nr; cbn [accesses]; repeat case_match; rewrite ?elem_of_app, ?elem_of_nil; try done;
    try (intros [H1|H1]; [|by eapply Hd; exact H1]; revert H1); apply Ho;
    first [by left | by right; left | by right; right; left].
Qed.

(** [C9] A hooked call is refused with [-EPERM], the original not called,
    exactly when an object it touches has a DENY policy for the operation;
    otherwise the original runs with the caller's own arguments. Either way the
    hook returns, the events reported and the policies dropped are those of the
    specification, and nothing else of the module changes. *)
Theorem syscall_hook_enforces_policy (nr : sysno) (r : pt_regs) (s : lkm T)
    (Hok : ix_ok hash_min (k_cache s).1) :
  let '(d, t', log) := access_spec (k_policy s) (accesses nr r) in
  d = existsb (denied (k_policy s)) (accesses nr r) ∧
  ∃ s', entry_310 hash_min v env nr r s =
          Some (if d then HReturn (- EPERM) else HOrig nr (typed_args nr r), s') ∧
        hook_effect env s s' t' log.
Proof.
  pose proof (access_spec_denied (accesses nr r) (k_policy s) (accesses_drop_last nr r)) as Hd.
  pose proof (run_accesses_spec hash_min env (accesses nr r) s Hok) as Hr.
  rewrite entry_310_run. destruct (access_spec (k_policy s) (accesses nr r)) as [[d t'] log].
  split; [exact Hd|]. destruct Hr as (s' & -> & Hf). exists s'. split; [|done]. by destruct d.
Qed.

(** [C34] The two hook implementations agree: same decision, same effect, and
    the original called with the same typed arguments. *)
Theorem syscall_variants_agree (nr : sysno) (r : pt_regs) (s : lkm T) :
  entry_310 hash_min v env nr r s =
  '(res, s') ← entry_417 hash_min v env nr r s;
  Some (match res with HReturn rc => HReturn rc | HOrig n regs => HOrig n (typed_args n regs) end, s').
Proof.
  rewrite entry_310_run, entry_417_run. unfold hook_outcome.
  destruct (run (accesses nr r) s) as [[rc s']|]; [|done]. cbn. by destruct (rc =? 0).
Qed.

(** The hooks resolve paths without following a final symbolic link
    (lookup flags 0), while the calls they guard follow it ([LOOKUP_FOLLOW]): a
    truncating open through a link that has no policy reaches a file whose
    policy denies writing, unreported. *)
Theorem open_through_symlink_unchecked (path flags mode : Z) (dev ino tdev tino tmode : Z)
    (s : lkm T) (LOOKUP_FOLLOW := 1)
    (Hlink : user_path_at v AT_FDCWD path 0 = Some (Some (KInode (Some dev) ino 0xA1FF)))
    (Htarget : user_path_at v AT_FDCWD path LOOKUP_FOLLOW =
               Some (Some (KInode (Some tdev) tino tmode)))
    (Hnone : inode_policy_lookup (k_policy s) dev ino IG_OP_WRITE = None)
    (Hdeny : inode_policy_lookup (k_policy s) tdev tino IG_OP_WRITE = Some IG_BLOCK_DENY) :
  denied (k_policy s) (Access tdev tino IG_OP_WRITE true false) = true ∧
  entry_310 hash_min v env NR_open (PtRegs path flags mode 0 0) s =
    Some (HOrig NR_open [path; s32 flags; u16 mode], s).
Proof.
  split; [unfold denied; cbn [a_dev a_ino a_op]; by rewrite Hdeny|].
  rewrite entry_310_run. unfold hook_outcome. cbn [accesses r_di r_si typed_args r_dx].
  destruct (write_open (s32 flags)); [|done].
  unfold pathat_to_devino. rewrite Hlink. cbn [object]. rewrite run_singleton.
  unfold check_access, kbind, kget. cbn. by rewrite Hnone.
Qed.

(** An AUDIT policy on the destination of a rename allows the call and
    reports nothing, although the header says an audited access is logged. *)
Theorem rename_destination_audit_unreported (r : pt_regs) (dev ino block : Z) (s : lkm T)
    (Hsrc : pathat_to_devino v AT_FDCWD (r_di r) = None)
    (Hdst : pathat_to_devino v AT_FDCWD (r_si r) = Some (dev, ino))
    (Hpol : inode_policy_lookup (k_policy s) dev ino IG_OP_RENAME = Some block)
    (Haudit : block ≠ IG_BLOCK_DENY) :
  entry_310 hash_min v env NR_rename r s = Some (HOrig NR_rename [r_di r; r_si r], s).
Proof.
  rewrite entry_310_run. unfold hook_outcome. cbn [accesses typed_args].
  rewrite Hsrc, Hdst. cbn [object destination app]. rewrite run_singleton.
  unfold check_access, kbind, kget. cbn. rewrite Hpol.
  by destruct (Z.eqb_spec block IG_BLOCK_DENY).
Qed.
End spec.

(** *** Witnesses *)

Definition link_vfs : vfs := Vfs
  (λ _ p follow, if p =? 1000 then
     Some (Some (if has_bits follow 1 then KInode (Some 1) 7 0x81A4 else KInode (Some 1) 8 0xA1FF))
   else if p =? 2000 then Some (Some (KInode (Some 1) 7 0x81A4)) else None)
  (λ _, None).

Lemma syscall_hook_enforces_policy_witness :
  ∃ s', entry_310 (λ p, p mod 4096) link_vfs sample_env NR_truncate (PtRegs 2000 0 0 0 0)
          (sample_lkm 1) = Some (HReturn (- EPERM), s').
Proof.
  pose proof (syscall_hook_enforces_policy (λ p, p mod 4096) link_vfs sample_env NR_truncate
                (PtRegs 2000 0 0 0 0) (sample_lkm 1) (ix_ok_init _)) as H.
  destruct H as (_ & s' & H & _). exists s'. exact H.
Defined.

Lemma open_through_symlink_unchecked_witness :
  entry_310 (λ p, p mod 4096) link_vfs sample_env NR_open (PtRegs 1000 (Z.lor O_WRONLY O_TRUNC) 0 0 0)
    (sample_lkm 1) = Some (HOrig NR_open [1000; 513; 0], sample_lkm 1).
Proof.
  exact (proj2 (open_through_symlink_unchecked (λ p, p mod 4096) link_vfs sample_env
    1000 (Z.lor O_WRONLY O_TRUNC) 0 1 8 1 7 0x81A4 (sample_lkm 1) eq_refl eq_refl eq_refl eq_refl)).
Defined.

Lemma rename_destination_audit_unreported_witness :
  entry_310 (λ p, p mod 4096) link_vfs sample_env NR_rename (PtRegs 3000 2000 0 0 0) (sample_lkm 0) =
  Some (HOrig NR_rename [3000; 2000], sample_lkm 0).
Proof.
  exact (rename_destination_audit_unreported (λ p, p mod 4096) link_vfs sample_env
           (PtRegs 3000 2000 0 0 0) 1 7 0 (sample_lkm 0) eq_refl eq_refl eq_refl ltac:(discriminate)).
Defined.
