(* ===== verification/LkmInstall.v ===== *)
(** * Installing the system call hooks (lkm/hooks/lkm310.c, lkm/hooks/lkm417_syscall.c)

    Twenty entries of the kernel's [sys_call_table] are exchanged one after the
    other while other processors run system calls, with the write protection of
    CR0 lifted on the processor that does it. CR0 is a register of each processor, and
    nothing keeps the thread on one: every single assignment and every access to CR0 is
    a step, before which the scheduler may move the thread. *)

From S2P Require Import Prelude Bytes Monitor LkmPolicy ProcCache LkmEvents LkmSyscall.

Local Open Scope Z_scope.

Definition CR0_WP : Z := 16.

Section install.
(** Function pointers, and the agent's handler for each call. *)
Context {F : Type}.
Variable ig_sys : sysno → F.
(** Whether the table is in read-only pages: a write with CR0.WP set faults. *)
Variable ro : bool.

(** [hs_cpu]: the processor the thread is on; [hs_val]: the local [cr0]. *)
(* @src lkm/hooks/lkm310.c:48-70 sys_call_table *)
Record hook_state := HookState {
  sys_call_table : sysno → F; orig_sys : sysno → F; cr0 : nat → Z; hs_cpu : nat; hs_val : Z }.

Definition set_entry (n : sysno) (f : F) (t : sysno → F) : sysno → F :=
  λ m, if decide (m = n) then f else t m.

Definition set_table (t : sysno → F) (s : hook_state) : hook_state :=
  HookState t (orig_sys s) (cr0 s) (hs_cpu s) (hs_val s).
Definition set_orig (o : sysno → F) (s : hook_state) : hook_state :=
  HookState (sys_call_table s) o (cr0 s) (hs_cpu s) (hs_val s).
Definition move_to (c : option nat) (s : hook_state) : hook_state :=
  match c with Some c => HookState (sys_call_table s) (orig_sys s) (cr0 s) c (hs_val s) | None => s end.

(** One assignment, [read_cr0], or [mywrite_cr0] of the value read with the bit
    cleared or set. *)
Inductive install_step := ReadCr0 | WriteCr0 (wp : bool) | SaveOrig (n : sysno) | Publish (n : sysno) | PutBack (n : sysno).

(* @src lkm/hooks/lkm310.c:80-85 disable_write_protection *)
Definition disable_write_protection : list install_step := [ReadCr0; WriteCr0 false].
(* @src lkm/hooks/lkm310.c:87-92 enable_write_protection *)
Definition enable_write_protection : list install_step := [ReadCr0; WriteCr0 true].

(** [None] is a page fault. *)
Definition write_table (n : sysno) (f : F) (s : hook_state) : option hook_state :=
  if ro && Z.testbit (cr0 s (hs_cpu s)) CR0_WP then None else Some (set_table (set_entry n f (sys_call_table s)) s).

Definition do_step (s : hook_state) (st : install_step) : option hook_state :=
  match st with
  | ReadCr0 => Some (HookState (sys_call_table s) (orig_sys s) (cr0 s) (hs_cpu s) (cr0 s (hs_cpu s)))
  | WriteCr0 wp =>
      let v := if wp then Z.setbit (hs_val s) CR0_WP else Z.clearbit (hs_val s) CR0_WP in
      Some (HookState (sys_call_table s) (orig_sys s) (λ c, if decide (c = hs_cpu s) then v else cr0 s c)
              (hs_cpu s) (hs_val s))
  | SaveOrig n => Some (set_orig (set_entry n (sys_call_table s n) (orig_sys s)) s)
  | Publish n => write_table n (ig_sys n) s
  | PutBack n => write_table n (orig_sys s n) s
  end.

(** The steps from the [i]-th on; [moves i]: the processor the scheduler moves the
    thread to before step [i], if it does. *)
Fixpoint do_steps (moves : nat → option nat) (i : nat) (l : list install_step) (s : hook_state) : option hook_state :=
  match l with
  | [] => Some s
  | st :: l => s ← do_step (move_to (moves i) s) st; do_steps moves (S i) l s
  end.

(* @src lkm/hooks/lkm310.c:480-482 HOOK *)
Definition HOOK (n : sysno) : list install_step := [SaveOrig n; Publish n].
(* @src lkm/hooks/lkm310.c:484-485 UNHOOK *)
Definition UNHOOK (n : sysno) : list install_step := [PutBack n].

(** The order of the HOOK lines; [nr_renameat2] is the preprocessor condition. *)
(* @src lkm/hooks/lkm310.c:496-519 ig_hooks_init *)
Definition hook_order (nr_renameat2 : bool) : list sysno :=
  [NR_write; NR_truncate; NR_ftruncate; NR_open; NR_openat; NR_creat; NR_unlink; NR_unlinkat;
   NR_rename; NR_renameat] ++ (if nr_renameat2 then [NR_renameat2] else []) ++
  [NR_chmod; NR_fchmodat; NR_chown; NR_fchownat; NR_link; NR_linkat; NR_setxattr; NR_lsetxattr;
   NR_fsetxattr].
(* @src lkm/hooks/lkm417_syscall.c:437-460 ig_hooks_init *)
Definition regs_hook_order (nr_renameat2 : bool) : list sysno :=
  [NR_write; NR_truncate; NR_ftruncate; NR_open; NR_openat; NR_creat; NR_unlink; NR_unlinkat;
   NR_rename; NR_renameat] ++ (if nr_renameat2 then [NR_renameat2] else []) ++
  [NR_chmod; NR_fchmodat; NR_chown; NR_fchownat; NR_link; NR_linkat; NR_setxattr; NR_lsetxattr;
   NR_fsetxattr].

Definition install_steps (order : list sysno) : list install_step :=
  disable_write_protection ++ (order ≫= HOOK) ++ enable_write_protection.
Definition remove_steps (order : list sysno) : list install_step :=
  disable_write_protection ++ (order ≫= UNHOOK) ++ enable_write_protection.

(** [found]: the table's symbol was resolved. *)
(* @src lkm/hooks/lkm310.c:487-523 ig_hooks_init *)
Definition ig_hooks_init (found nr_renameat2 : bool) (moves : nat → option nat) (s : hook_state)
    : option (Z * hook_state) :=
  if found then s ← do_steps moves 0 (install_steps (hook_order nr_renameat2)) s; Some (0, s) else Some (- ENOENT, s).
(* @src lkm/hooks/lkm310.c:525-556 ig_hooks_exit *)
Definition ig_hooks_exit (found nr_renameat2 : bool) (moves : nat → option nat) (s : hook_state) : option hook_state :=
  if found then do_steps moves 0 (remove_steps (hook_order nr_renameat2)) s else Some s.
(* @src lkm/hooks/lkm417_syscall.c:428-464 ig_hooks_init *)
Definition regs_hooks_init (found nr_renameat2 : bool) (moves : nat → option nat) (s : hook_state)
    : option (Z * hook_state) :=
  if found then s ← do_steps moves 0 (install_steps (regs_hook_order nr_renameat2)) s; Some (0, s)
  else Some (- ENOENT, s).
(* @src lkm/hooks/lkm417_syscall.c:466-497 ig_hooks_exit *)
Definition regs_hooks_exit (found nr_renameat2 : bool) (moves : nat → option nat) (s : hook_state)
    : option hook_state :=
  if found then do_steps moves 0 (remove_steps (regs_hook_order nr_renameat2)) s else Some s.

(** ** The table, at every moment *)

(** What a step does to the table and the originals when it does not fault. *)
Definition store (s : hook_state) (st : install_step) : hook_state :=
  match st with
  | SaveOrig n => set_orig (set_entry n (sys_call_table s n) (orig_sys s)) s
  | Publish n => set_table (set_entry n (ig_sys n) (sys_call_table s)) s
  | PutBack n => set_table (set_entry n (orig_sys s n) (sys_call_table s)) s
  | _ => s
  end.
Definition stores (l : list install_step) (s : hook_state) : hook_state := fold_left store l s.

Definition same_tables (s s' : hook_state) : Prop := sys_call_table s = sys_call_table s' ∧ orig_sys s = orig_sys s'.

Lemma store_same s s' st : same_tables s s' → same_tables (store s st) (store s' st).
Proof. intros [Ht Ho]. destruct st; cbn; rewrite ?Ht, ?Ho; by split. Qed.

Lemma do_step_store s st s' : do_step s st = Some s' → same_tables (store s st) s'.
Proof.
  destruct st; cbn; try (by intros [= <-]); unfold write_table; destruct (_ && _); try done; by intros [= <-].
Qed.

Lemma do_steps_stores moves l : ∀ i s s', do_steps moves i l s = Some s' → same_tables (stores l s) s'.
Proof.
  induction l as [|st l IH]; intros i s s'; cbn [do_steps stores fold_left]; [by intros [= <-]|].
  destruct (do_step _ st) as [s1|] eqn:H1; cbn [mbind option_bind]; [|done]. intros H2%IH.
  apply do_step_store in H1. assert (Hm : same_tables (store s st) s1).
  { destruct (store_same s (move_to (moves i) s) st) as [E1 E2]; [by destruct (moves i)|].
    destruct H1 as [E3 E4]. exact (conj (eq_trans E1 E3) (eq_trans E2 E4)). }
  assert (Hf : same_tables (stores l (store s st)) (stores l s1)).
  { clear -Hm. revert Hm. generalize (store s st). revert s1. induction l as [|x l IH]; intros s1 s0 H; [done|].
    cbn [stores fold_left]. by apply IH, store_same. }
  destruct Hf as [E1 E2], H2 as [E3 E4]. exact (conj (eq_trans E1 E3) (eq_trans E2 E4)).
Qed.

Definition is_store (st : install_step) : bool := match st with ReadCr0 | WriteCr0 _ => false | _ => true end.

Lemma stores_filter l : ∀ s, stores l s = stores (List.filter is_store l) s.
Proof. induction l as [|st l IH]; intros s; [done|]. cbn [stores fold_left List.filter]. destruct st; cbn; apply IH. Qed.

(** What a prefix of the steps stores is a prefix of the HOOK or UNHOOK lines. *)
Lemma stored_part (f : sysno → list install_step) order l : (∀ n, List.filter is_store (f n) = f n) →
  l `prefix_of` disable_write_protection ++ (order ≫= f) ++ enable_write_protection →
  List.filter is_store l `prefix_of` order ≫= f.
Proof.
  intros Hf [k Hk]. apply (f_equal (List.filter is_store)) in Hk. rewrite !List.filter_app in Hk.
  exists (List.filter is_store k). rewrite <- Hk. cbn. rewrite app_nil_r. clear Hk.
  induction order as [|n order IH]; [done|]. cbn [mbind list_bind]. by rewrite List.filter_app, Hf, <- IH.
Qed.

(** Against the table [t0] before: the calls of [done] go to the handlers, which
    know the original, the others to the original. *)
Record installed_to (t0 : sysno → F) (done : sysno → Prop) (s : hook_state) : Prop := {
  it_done n : done n → sys_call_table s n = ig_sys n ∧ orig_sys s n = t0 n;
  it_rest n : ¬ done n → sys_call_table s n = t0 n }.

(** A call is served by the original or by the handler, which can reach it. *)
Definition served (t0 : sysno → F) (s : hook_state) : Prop :=
  ∀ n, sys_call_table s n = t0 n ∨ (sys_call_table s n = ig_sys n ∧ orig_sys s n = t0 n).

Lemma installed_served t0 done s (Hdec : ∀ n, Decision (done n)) : installed_to t0 done s → served t0 s.
Proof. intros [H1 H2] n. destruct (Hdec n); [right; by apply H1|left; by apply H2]. Qed.

Lemma served_same t0 s s' : same_tables s s' → served t0 s → served t0 s'.
Proof. intros [Ht Ho] H n. rewrite <- Ht, <- Ho. apply H. Qed.
Lemma installed_same t0 done s s' : same_tables s s' → installed_to t0 done s → installed_to t0 done s'.
Proof. intros [Ht Ho] [H1 H2]. split; intros n; rewrite <- Ht, <- ?Ho; [apply H1|apply H2]. Qed.

Lemma save_installed t0 done s n : ¬ done n → installed_to t0 done s → installed_to t0 done (store s (SaveOrig n)).
Proof.
  intros Hn [H1 H2]. split; cbn; [|done]. intros m Hm. destruct (H1 m Hm) as [Ht Ho]. split; [done|].
  unfold set_entry. by rewrite decide_False by (intros ->; done).
Qed.

(** Past a HOOK line. *)
Lemma publish_installed t0 done s n : ¬ done n → installed_to t0 done s →
  installed_to t0 (λ m, done m ∨ m = n) (store (store s (SaveOrig n)) (Publish n)).
Proof.
  intros Hn [H1 H2]. split; cbn; intros m Hm; unfold set_entry.
  - destruct Hm as [Hm| ->].
    + rewrite !decide_False by (intros ->; done). by apply H1.
    + rewrite !decide_True by done. split; [done|]. by apply H2.
  - rewrite decide_False by (intros ->; tauto). apply H2. tauto.
Qed.

(** A prefix of the HOOK lines. *)
Lemma hook_prefix t0 order : ∀ l done s (Hdec : ∀ n, Decision (done n)), NoDup order → (∀ n, n ∈ order → ¬ done n) →
  installed_to t0 done s → l `prefix_of` order ≫= HOOK →
  served t0 (stores l s) ∧ (l = order ≫= HOOK → installed_to t0 (λ n, done n ∨ n ∈ order) (stores l s)).
Proof.
  induction order as [|n order IH]; intros l done s Hdec Hnd Hnew Hin Hl.
  { apply prefix_nil_inv in Hl as ->. split; [by eapply installed_served|]. intros _.
    destruct Hin as [H1 H2]. split; intros m Hm; [apply H1|apply H2]; set_solver. }
  apply NoDup_cons in Hnd as [Hn Hnd]. cbn [mbind list_bind HOOK app] in *.
  assert (Hfresh : ¬ done n) by (apply Hnew; by left). pose proof (save_installed t0 done s n Hfresh Hin) as Hs.
  destruct l as [|st l]; [split; [by eapply installed_served|discriminate]|].
  apply prefix_cons_inv_1 in Hl as Hst. apply prefix_cons_inv_2 in Hl. subst st.
  destruct l as [|st l]; [split; [by eapply (installed_served t0 done)|destruct order; discriminate]|].
  apply prefix_cons_inv_1 in Hl as Hst. apply prefix_cons_inv_2 in Hl. subst st. cbn [stores fold_left].
  destruct (IH l (λ m, done m ∨ m = n) (store (store s (SaveOrig n)) (Publish n)) _ Hnd) as [H1 H2].
  - intros m Hm [Hd| ->]; [by apply (Hnew m); [right|]|done].
  - by apply publish_installed.
  - exact Hl.
  - split; [exact H1|]. intros Hw. injection Hw as Hw. destruct (H2 Hw) as [H5 H6].
    split; intros m Hm; [apply H5|apply H6]; set_solver.
Qed.

(** A prefix of the UNHOOK lines. *)
Lemma unhook_prefix t0 order : ∀ l s, (∀ n, n ∈ order → orig_sys s n = t0 n) → served t0 s →
  l `prefix_of` order ≫= UNHOOK → served t0 (stores l s) ∧
  (l = order ≫= UNHOOK → ∀ n, sys_call_table (stores l s) n = if decide (n ∈ order) then t0 n else sys_call_table s n).
Proof.
  induction order as [|n order IH]; intros l s Ho Hs Hl; [apply prefix_nil_inv in Hl as ->; by split|].
  cbn [mbind list_bind UNHOOK app] in *. destruct l as [|st l]; [by split|].
  apply prefix_cons_inv_1 in Hl as Hst. apply prefix_cons_inv_2 in Hl. subst st. cbn [stores fold_left].
  set (s1 := store s (PutBack n)).
  assert (Hs1 : served t0 s1).
  { intros m. subst s1. cbn. rewrite (Ho n) by by left. unfold set_entry.
    destruct (decide (m = n)) as [->|]; [by left|apply Hs]. }
  destruct (IH l s1) as [H3 H4]; [|done|done|].
  - intros m Hm. apply Ho. by right.
  - split; [exact H3|]. intros Hw m. injection Hw as Hw.
    change (fold_left store l s1) with (stores l s1). rewrite (H4 Hw). subst s1. cbn. rewrite (Ho n) by by left.
    unfold set_entry. destruct (decide (m = n)) as [->|Hne].
    + rewrite (decide_True (P := n ∈ n :: order)) by by left. by destruct (decide _).
    + destruct (decide (m ∈ order)) as [Hm|Hm].
      * by rewrite decide_True by by right.
      * rewrite decide_False; [done|]. intros [->|?]%elem_of_cons; done.
Qed.

Lemma hook_order_nodup b : NoDup (hook_order b).
Proof. destruct b; refine (bool_decide_unpack _ _); vm_compute; exact I. Qed.

(** Both files use the same order. *)
Lemma regs_hook_order_same b : regs_hook_order b = hook_order b.
Proof. done. Qed.

(** Loading, at every moment and at its end, as far as it does not fault. *)
Lemma install_tables moves order s l s' : NoDup order → l `prefix_of` install_steps order →
  do_steps moves 0 l s = Some s' → served (sys_call_table s) s' ∧
  (l = install_steps order → installed_to (sys_call_table s) (λ n, n ∈ order) s').
Proof.
  intros Hnd Hl Hrun. apply do_steps_stores in Hrun. rewrite stores_filter in Hrun.
  destruct (hook_prefix (sys_call_table s) order (List.filter is_store l) (λ _, False) s _ Hnd) as [H1 H2];
    [by intros ?? []|by split|by apply (stored_part HOOK)|].
  split; [by eapply served_same|]. intros ->. eapply installed_same; [exact Hrun|].
  assert (Hw : List.filter is_store (install_steps order) = order ≫= HOOK).
  { unfold install_steps. rewrite !List.filter_app. cbn. rewrite app_nil_r. clear. induction order; [done|]. cbn. by f_equal; f_equal. }
  destruct (H2 Hw) as [H3 H4]. split; intros n Hn; [apply H3; by right|apply H4; tauto].
Qed.

(** Unloading. *)
Lemma remove_tables moves order t0 s l s' : installed_to t0 (λ n, n ∈ order) s → l `prefix_of` remove_steps order →
  do_steps moves 0 l s = Some s' → served t0 s' ∧ (l = remove_steps order → ∀ n, sys_call_table s' n = t0 n).
Proof.
  intros Hin Hl Hrun. apply do_steps_stores in Hrun. rewrite stores_filter in Hrun.
  pose proof (installed_served t0 _ s _ Hin) as Hs. destruct Hin as [Hdone Hrest].
  destruct (unhook_prefix t0 order (List.filter is_store l) s) as [H1 H2];
    [intros n Hn; by apply Hdone|done|by apply (stored_part UNHOOK)|].
  split; [by eapply served_same|]. intros -> n. destruct Hrun as [<- _].
  rewrite H2; [destruct (decide (n ∈ order)); [done|by apply Hrest]|].
  unfold remove_steps. rewrite !List.filter_app. cbn. rewrite app_nil_r. clear. induction order; [done|]. cbn. by f_equal.
Qed.

(** ** Faults and the protection *)

Definition wp_off (c : nat) (s : hook_state) : Prop := Z.testbit (cr0 s c) CR0_WP = false.
Definition wp_on (c : nat) (s : hook_state) : Prop := Z.testbit (cr0 s c) CR0_WP = true.

(** Nobody moves the thread during these steps. *)
Definition stays (moves : nat → option nat) (l : list install_step) : Prop := ∀ i, (i < length l)%nat → moves i = None.

Lemma do_steps_app moves l1 l2 : ∀ i s,
  do_steps moves i (l1 ++ l2) s = s' ← do_steps moves i l1 s; do_steps moves (i + length l1) l2 s'.
Proof.
  induction l1 as [|st l1 IH]; intros i s; cbn [app do_steps length mbind option_bind]; [by rewrite Nat.add_0_r|].
  destruct (do_step _ st); cbn [mbind option_bind]; [|done]. rewrite IH. by replace (S i + length l1)%nat with (i + S (length l1))%nat by lia.
Qed.

(** Over a writable table nothing faults. *)
Lemma writable_runs moves l : ro = false → ∀ i s, is_Some (do_steps moves i l s).
Proof.
  intros Hro. induction l as [|st l IH]; intros i s; [by eexists|]. cbn [do_steps].
  assert (is_Some (do_step (move_to (moves i) s) st)) as [s1 ->]; [|apply IH].
  destruct st; cbn; unfold write_table; rewrite ?Hro; by eexists.
Qed.

(** The stores, where the protection is lifted and the thread stays. *)
Lemma stores_run moves l : Forall (λ st, is_store st = true) l → ∀ i s, (∀ j, (i ≤ j < i + length l)%nat → moves j = None) →
  wp_off (hs_cpu s) s → ∃ s', do_steps moves i l s = Some s' ∧ cr0 s' = cr0 s ∧ hs_cpu s' = hs_cpu s.
Proof.
  induction 1 as [|st l Hst _ IH]; intros i s Hm Hwp; [by exists s|]. cbn [do_steps length] in *.
  rewrite Hm by lia. cbn [move_to].
  assert (∃ s1, do_step s st = Some s1 ∧ cr0 s1 = cr0 s ∧ hs_cpu s1 = hs_cpu s) as (s1 & -> & Hc & Hp).
  { destruct st; try done; cbn; unfold write_table; rewrite ?Hwp, ?andb_false_r; by eexists. }
  cbn [mbind option_bind]. destruct (IH (S i) s1) as (s' & H1 & H2 & H3); [intros j Hj; apply Hm; lia| |].
  { unfold wp_off in *. by rewrite Hc, Hp. }
  exists s'. split; [exact H1|]. split; congruence.
Qed.

Lemma wp_cleared v : Z.testbit (Z.clearbit v CR0_WP) CR0_WP = false.
Proof. by rewrite Z.clearbit_eq. Qed.
Lemma wp_set v : Z.testbit (Z.setbit v CR0_WP) CR0_WP = true.
Proof. by rewrite Z.setbit_eq. Qed.

(** Lifting the protection. *)
Lemma lift_runs moves s : (∀ j, (j < 2)%nat → moves j = None) → ∃ s',
  do_steps moves 0 disable_write_protection s = Some s' ∧ hs_cpu s' = hs_cpu s ∧ wp_off (hs_cpu s) s' ∧
  ∀ c, c ≠ hs_cpu s → cr0 s' c = cr0 s c.
Proof.
  intros Hm. unfold disable_write_protection. cbn [do_steps]. rewrite !Hm by lia. eexists. split; [reflexivity|].
  split; [done|]. split; [|intros c Hc; cbn; by rewrite decide_False].
  unfold wp_off. cbn [cr0 move_to hs_cpu]. rewrite decide_True by done. apply wp_cleared.
Qed.

(** A whole write window during which the thread stays where it is: nothing faults,
    and the protection is on again there and as it was elsewhere. *)
Lemma window_runs moves mid s : Forall (λ st, is_store st = true) mid →
  stays moves (disable_write_protection ++ mid ++ enable_write_protection) → ∃ s',
  do_steps moves 0 (disable_write_protection ++ mid ++ enable_write_protection) s = Some s' ∧
  wp_on (hs_cpu s) s' ∧ ∀ c, c ≠ hs_cpu s → cr0 s' c = cr0 s c.
Proof.
  intros Hmid Hm. unfold stays in Hm. rewrite !length_app in Hm. cbn [length disable_write_protection enable_write_protection] in Hm.
  destruct (lift_runs moves s) as (s1 & H1 & Hp1 & Hw1 & Ho1); [intros j Hj; apply Hm; lia|].
  rewrite do_steps_app, H1. cbn [mbind option_bind length disable_write_protection].
  destruct (stores_run moves mid Hmid (0 + 2) s1) as (s2 & H2 & Hc2 & Hp2); [intros j Hj; apply Hm; lia|by rewrite Hp1|].
  rewrite do_steps_app, H2. unfold enable_write_protection. cbn [mbind option_bind do_steps].
  rewrite !Hm by lia. eexists. split; [reflexivity|]. unfold wp_on. cbn. rewrite Hp2, Hp1. split.
  - rewrite decide_True by done. apply wp_set.
  - intros c Hc. rewrite decide_False by done. by rewrite Hc2, Ho1.
Qed.

Lemma hooks_are_stores order : Forall (λ st, is_store st = true) (order ≫= HOOK).
Proof. induction order; cbn; by repeat constructor. Qed.
Lemma unhooks_are_stores order : Forall (λ st, is_store st = true) (order ≫= UNHOOK).
Proof. induction order; cbn; by repeat constructor. Qed.

(** What runs to its end ran through every prefix. *)
Lemma do_steps_prefix moves l l' i s : l `prefix_of` l' → is_Some (do_steps moves i l' s) → is_Some (do_steps moves i l s).
Proof. intros [k ->]. rewrite do_steps_app. destruct (do_steps moves i l s); [by eexists|by intros []]. Qed.

(** No step faults on a writable table, or while the thread stays on its processor. *)
Definition undisturbed (moves : nat → option nat) (l : list install_step) : Prop := ro = false ∨ stays moves l.

Lemma install_runs moves order s l : l `prefix_of` install_steps order → undisturbed moves (install_steps order) →
  is_Some (do_steps moves 0 l s).
Proof.
  intros Hl [Hro|Hst]; [by apply writable_runs|]. eapply do_steps_prefix; [exact Hl|].
  destruct (window_runs moves (order ≫= HOOK) s (hooks_are_stores order) Hst) as (s' & H & _). by exists s'.
Qed.
Lemma remove_runs moves order s l : l `prefix_of` remove_steps order → undisturbed moves (remove_steps order) →
  is_Some (do_steps moves 0 l s).
Proof.
  intros Hl [Hro|Hst]; [by apply writable_runs|]. eapply do_steps_prefix; [exact Hl|].
  destruct (window_runs moves (order ≫= UNHOOK) s (unhooks_are_stores order) Hst) as (s' & H & _). by exists s'.
Qed.

(** A load and an unload of a thread that stays on its processor. *)
Lemma hooks_come_and_go_facts order s : NoDup order → ∃ s1 s2,
  do_steps (λ _, None) 0 (install_steps order) s = Some s1 ∧
  installed_to (sys_call_table s) (λ n, n ∈ order) s1 ∧
  do_steps (λ _, None) 0 (remove_steps order) s1 = Some s2 ∧ ∀ n, sys_call_table s2 n = sys_call_table s n.
Proof.
  intros Hnd. destruct (install_runs (λ _, None) order s _ (reflexivity _)) as [s1 H1]; [right; by intros ??|].
  destruct (install_tables _ order s _ s1 Hnd (reflexivity _) H1) as [_ Hin]. specialize (Hin eq_refl).
  destruct (remove_runs (λ _, None) order s1 _ (reflexivity _)) as [s2 H2]; [right; by intros ??|].
  destruct (remove_tables _ order _ s1 _ s2 Hin (reflexivity _) H2) as [_ Hback]. specialize (Hback eq_refl). exists s1, s2. by split_and!.
Qed.

(** The code of either file. *)
Definition hooks_init_of (v417 : bool) := if v417 then regs_hooks_init else ig_hooks_init.
Definition hooks_exit_of (v417 : bool) := if v417 then regs_hooks_exit else ig_hooks_exit.

Lemma hooks_init_runs v417 b moves s : hooks_init_of v417 true b moves s =
  (s' ← do_steps moves 0 (install_steps (hook_order b)) s; Some (0, s')).
Proof. by destruct v417. Qed.
Lemma hooks_exit_runs v417 b moves s : hooks_exit_of v417 true b moves s =
  do_steps moves 0 (remove_steps (hook_order b)) s.
Proof. by destruct v417. Qed.

(** ** Properties *)

(** [C37] The hooks come and go without a gap, in either file and wherever the
    scheduler moves the thread that loads or unloads them: after every single step
    a system call on another processor runs either the kernel's function or the
    agent's handler with the kernel's function to go on to; loading that comes to its
    end points every listed entry at its handler, and unloading that comes to its
    end restores the whole table. No step faults if the table is writable, or if the thread
    stays on one processor from lifting the write protection to setting it again; in
    that case the protection is on after both on the processor they ran on, and as it was on the
    others. (Nothing in the code keeps the thread there: on a preemptible kernel it can be moved,
    which is the next theorem.) *)
Theorem hooks_come_and_go_live (v417 nr_renameat2 : bool) (s : hook_state) (moves moves' : nat → option nat) :
  let t0 := sys_call_table s in
  let order := if v417 then regs_hook_order nr_renameat2 else hook_order nr_renameat2 in
  (∀ l, l `prefix_of` install_steps order →
     (∀ s', do_steps moves 0 l s = Some s' → served t0 s') ∧
     (undisturbed moves (install_steps order) → is_Some (do_steps moves 0 l s))) ∧
  (stays moves (install_steps order) → ∃ s1, hooks_init_of v417 true nr_renameat2 moves s = Some (0, s1) ∧
     wp_on (hs_cpu s) s1 ∧ ∀ c, c ≠ hs_cpu s → cr0 s1 c = cr0 s c) ∧
  ∀ rc s1, hooks_init_of v417 true nr_renameat2 moves s = Some (rc, s1) →
    rc = 0 ∧ (∀ n, n ∈ order → sys_call_table s1 n = ig_sys n ∧ orig_sys s1 n = t0 n) ∧
    (∀ l, l `prefix_of` remove_steps order →
       (∀ s', do_steps moves' 0 l s1 = Some s' → served t0 s') ∧
       (undisturbed moves' (remove_steps order) → is_Some (do_steps moves' 0 l s1))) ∧
    (stays moves' (remove_steps order) → ∃ s2, hooks_exit_of v417 true nr_renameat2 moves' s1 = Some s2 ∧
       wp_on (hs_cpu s1) s2 ∧ ∀ c, c ≠ hs_cpu s1 → cr0 s2 c = cr0 s1 c) ∧
    ∀ s2, hooks_exit_of v417 true nr_renameat2 moves' s1 = Some s2 → ∀ n, sys_call_table s2 n = t0 n.
Proof.
  intros t0 order. assert (Hord : order = hook_order nr_renameat2) by by destruct v417.
  assert (Hnd : NoDup order) by (rewrite Hord; apply hook_order_nodup).
  rewrite hooks_init_runs, <- Hord. split; [|split].
  - intros l Hl. split; [|by apply install_runs]. intros s' Hs. by apply (install_tables moves order s l s').
  - intros Hst. destruct (window_runs moves _ s (hooks_are_stores order) Hst) as (s1 & H1 & H2 & H3).
    exists s1. unfold install_steps. by rewrite H1.
  - intros rc s1 Hrun. destruct (do_steps moves 0 (install_steps order) s) as [s1'|] eqn:E;
      cbn [mbind option_bind] in Hrun; [|done]. injection Hrun as <- ->.
    destruct (install_tables moves order s _ s1 Hnd (reflexivity _) E) as [_ Hall]. pose proof (Hall eq_refl) as Hin.
    rewrite hooks_exit_runs, <- Hord. split; [done|]. split; [intros n Hn; by apply Hin|]. split; [|split].
    + intros l Hl. split; [|by apply remove_runs]. intros s' Hs. by apply (remove_tables moves' order t0 s1 l s').
    + intros Hst. destruct (window_runs moves' _ s1 (unhooks_are_stores order) Hst) as (s2 & H1 & H2 & H3).
      exists s2. by unfold remove_steps.
    + intros s2 Hs n. by apply (remove_tables moves' order t0 s1 _ s2 Hin (reflexivity _) Hs).
Qed.

(** The write window is not tied to a processor: where the thread is moved to another
    one inside it, loading faults on a read-only table when that one's protection is on;
    and a move just before the protection is set again leaves the processor it came from
    unprotected after a load that reports success. *)
Theorem moved_thread_breaks_window (nr_renameat2 : bool) (s : hook_state) (c : nat)
    (Hc : c ≠ hs_cpu s) (Hwp : wp_on c s) :
  (ro = true → ∃ moves, ig_hooks_init true nr_renameat2 moves s = None) ∧
  ∃ moves s1, ig_hooks_init true nr_renameat2 moves s = Some (0, s1) ∧ wp_off (hs_cpu s) s1.
Proof.
  split.
  - intros Hro. exists (λ i, if (i =? 3)%nat then Some c else None). unfold ig_hooks_init, wp_on in *.
    assert (Hfirst : ∃ l, install_steps (hook_order nr_renameat2) =
      ReadCr0 :: WriteCr0 false :: SaveOrig NR_write :: Publish NR_write :: l) by by eexists.
    destruct Hfirst as [l ->]. cbn [do_steps Nat.eqb do_step move_to mbind option_bind].
    unfold write_table. cbn [cr0 hs_cpu set_orig]. rewrite decide_False by done. by rewrite Hro, Hwp.
  - set (mid := hook_order nr_renameat2 ≫= HOOK).
    set (moves := λ i, if (i =? 2 + length mid)%nat then Some c else None). exists moves.
    unfold ig_hooks_init, install_steps. fold mid.
    assert (Hm : ∀ j, (j < 2 + length mid)%nat → moves j = None).
    { intros j Hj. unfold moves. by rewrite (proj2 (Nat.eqb_neq _ _)) by lia. }
    destruct (lift_runs moves s) as (s1 & H1 & Hp1 & Hw1 & _); [intros j Hj; apply Hm; lia|].
    destruct (stores_run moves mid (hooks_are_stores _) (0 + 2) s1) as (s2 & H2 & Hc2 & Hp2);
      [intros j Hj; apply Hm; lia|by rewrite Hp1|].
    rewrite do_steps_app, H1. cbn [mbind option_bind length disable_write_protection].
    rewrite do_steps_app, H2. cbn [mbind option_bind enable_write_protection do_steps].
    assert (moves (0 + 2 + length mid)%nat = Some c) as -> by (unfold moves; by rewrite Nat.eqb_refl).
    assert (moves (S (0 + 2 + length mid))%nat = None) as ->
      by (unfold moves; by rewrite (proj2 (Nat.eqb_neq _ _)) by lia).
    eexists. split; [reflexivity|]. unfold wp_off in *. cbn. rewrite decide_False by done. by rewrite Hc2.
Qed.
End install.

(** *** Witness: two processors, a read-only table *)

Lemma moved_thread_breaks_window_witness :
  let s := HookState (λ _ : sysno, 0%nat) (λ _, 0%nat) (λ _, 0x80050033) 0 0 in
  (true = true → ∃ moves, ig_hooks_init (λ _, 1%nat) true true true moves s = None) ∧
  ∃ moves s1, ig_hooks_init (λ _, 1%nat) true true true moves s = Some (0, s1) ∧ wp_off 0 s1.
Proof.
  exact (moved_thread_breaks_window (λ _, 1%nat) true true
    (HookState (λ _ : sysno, 0%nat) (λ _, 0%nat) (λ _, 0x80050033) 0 0) 1 ltac:(discriminate) eq_refl).
Defined.
