(* ===== verification/LkmLsm.v ===== *)
(** * LSM hooks (lkm/hooks/lkm42.c, lkm/hooks/lkm415.c)

    Seven security hooks added to the kernel's hook lists. The two files have
    copies of the same hooks and differ in how the lists are found and written. The hooks
    receive the inode itself, so nothing is resolved. *)

From S2P Require Import Prelude Bytes Monitor LkmPolicy ProcCache LkmEvents LkmAccess.
From S2P Require LkmSyscall.

Local Open Scope Z_scope.

Definition MAY_WRITE : Z := 2.
Definition PROT_WRITE : Z := 2.
Definition ATTR_MODE : Z := 1.
Definition ATTR_UID : Z := 2.
Definition ATTR_GID : Z := 4.
Definition ATTR_SIZE : Z := 8.

(** A dentry is its inode, if it has one. *)
Abbreviation dentry := (option kinode).

Section lsm.
Context {T : Type} `{PolicyStore T}.
Variable hash_min : Z → Z.
Variable env : kenv.
Abbreviation enqueue := (ig_event_enqueue hash_min env).

(* @src lkm/hooks/lkm415.c:77-103 ig_check_inode *)
Definition ig_check_inode (inode : option kinode) (op : Z) : K T Z :=
  match inode with
  | Some (KInode (Some dev) ino mode) =>
      if S_ISREG mode then
        (let* r := kget (λ s, inode_policy_lookup (k_policy s) dev ino op) in
         match r with
         | None => kret 0
         | Some block_mode =>
             if block_mode =? IG_BLOCK_DENY then enqueue dev ino op 1;;; kret (- EPERM)
             else enqueue dev ino op 0;;; kret 0
         end)%kmon
      else kret 0
  | _ => kret 0
  end.

(* @src lkm/hooks/lkm415.c:105-111 ig_check_dentry *)
Definition ig_check_dentry (d : option dentry) (op : Z) : K T Z :=
  match d with None => kret 0 | Some inode => ig_check_inode inode op end.

(* @src lkm/hooks/lkm415.c:113-137 ig_check_delete_inode *)
Definition ig_check_delete_inode (inode : option kinode) : K T Z :=
  match inode with
  | Some (KInode (Some dev) ino mode) =>
      if S_ISREG mode then
        (let* r := kget (λ s, inode_policy_lookup (k_policy s) dev ino IG_OP_DELETE) in
         match r with
         | None => kret 0
         | Some block_mode =>
             if block_mode =? IG_BLOCK_DENY then enqueue dev ino IG_OP_DELETE 1;;; kret (- EPERM)
             else enqueue dev ino IG_OP_DELETE 0;;;
                  kmodify (set_policy_store (λ t, ps_remove t dev ino));;; kret 0
         end)%kmon
      else kret 0
  | _ => kret 0
  end.

(* @src lkm/hooks/lkm415.c:141-146 ig_inode_permission *)
Definition ig_inode_permission (inode : option kinode) (mask : Z) : K T Z :=
  if has_bits mask MAY_WRITE then ig_check_inode inode IG_OP_WRITE else kret 0.

(** [file]: [None] for a null pointer (an anonymous mapping). *)
(* @src lkm/hooks/lkm415.c:148-154 ig_mmap_file *)
Definition ig_mmap_file (file : option (option kinode)) (prot : Z) : K T Z :=
  match file with
  | Some f_inode => if has_bits prot PROT_WRITE then ig_check_inode f_inode IG_OP_WRITE else kret 0
  | None => kret 0
  end.

(* @src lkm/hooks/lkm415.c:156-159 ig_inode_unlink *)
Definition ig_inode_unlink (d : option dentry) : K T Z := ig_check_delete_inode (mjoin d).

(* @src lkm/hooks/lkm415.c:161-174 ig_inode_rename *)
Definition ig_inode_rename (old_dentry new_dentry : option dentry) : K T Z :=
  (let* rc := ig_check_dentry old_dentry IG_OP_RENAME in
   if rc =? 0 then
     match new_dentry with
     | Some (Some inode) => ig_check_dentry new_dentry IG_OP_RENAME
     | _ => kret rc
     end
   else kret rc)%kmon.

(* @src lkm/hooks/lkm415.c:176-180 ig_inode_link *)
Definition ig_inode_link (old_dentry : option dentry) : K T Z :=
  ig_check_dentry old_dentry IG_OP_WRITE.

(* @src lkm/hooks/lkm415.c:183-192 ig_inode_setxattr *)
Definition ig_inode_setxattr (d : option dentry) : K T Z := ig_check_dentry d IG_OP_WRITE.

(** [attr]: the [ia_valid] bits, [None] for a null pointer. *)
(* @src lkm/hooks/lkm415.c:194-202 ig_inode_setattr *)
Definition ig_inode_setattr (d : option dentry) (attr : option Z) : K T Z :=
  if has_bits (default 0 attr) (Z.lor (Z.lor (Z.lor ATTR_SIZE ATTR_MODE) ATTR_UID) ATTR_GID)
  then ig_check_dentry d IG_OP_WRITE else kret 0.

(** The hook calls of the kernel. *)
Inductive lsm_call :=
  | InodePermission (inode : option kinode) (mask : Z)
  | MmapFile (file : option (option kinode)) (prot : Z)
  | InodeUnlink (d : option dentry)
  | InodeRename (old_dentry new_dentry : option dentry)
  | InodeLink (old_dentry : option dentry)
  | InodeSetxattr (d : option dentry)
  | InodeSetattr (d : option dentry) (attr : option Z).

Definition lsm_hook (c : lsm_call) : K T Z :=
  match c with
  | InodePermission inode mask => ig_inode_permission inode mask
  | MmapFile file prot => ig_mmap_file file prot
  | InodeUnlink d => ig_inode_unlink d
  | InodeRename o n => ig_inode_rename o n
  | InodeLink o => ig_inode_link o
  | InodeSetxattr d => ig_inode_setxattr d
  | InodeSetattr d attr => ig_inode_setattr d attr
  end.

(** ** lkm42.c *)

(* @src lkm/hooks/lkm42.c:25-51 ig_check_inode *)
Definition ig_check_inode_42 (inode : option kinode) (op : Z) : K T Z :=
  match inode with
  | Some (KInode (Some dev) ino mode) =>
      if S_ISREG mode then
        (let* r := kget (λ s, inode_policy_lookup (k_policy s) dev ino op) in
         match r with
         | None => kret 0
         | Some block_mode =>
             if block_mode =? IG_BLOCK_DENY then enqueue dev ino op 1;;; kret (- EPERM)
             else enqueue dev ino op 0;;; kret 0
         end)%kmon
      else kret 0
  | _ => kret 0
  end.

(* @src lkm/hooks/lkm42.c:53-59 ig_check_dentry *)
Definition ig_check_dentry_42 (d : option dentry) (op : Z) : K T Z :=
  match d with None => kret 0 | Some inode => ig_check_inode_42 inode op end.

(* @src lkm/hooks/lkm42.c:61-85 ig_check_delete_inode *)
Definition ig_check_delete_inode_42 (inode : option kinode) : K T Z :=
  match inode with
  | Some (KInode (Some dev) ino mode) =>
      if S_ISREG mode then
        (let* r := kget (λ s, inode_policy_lookup (k_policy s) dev ino IG_OP_DELETE) in
         match r with
         | None => kret 0
         | Some block_mode =>
             if block_mode =? IG_BLOCK_DENY then enqueue dev ino IG_OP_DELETE 1;;; kret (- EPERM)
             else enqueue dev ino IG_OP_DELETE 0;;;
                  kmodify (set_policy_store (λ t, ps_remove t dev ino));;; kret 0
         end)%kmon
      else kret 0
  | _ => kret 0
  end.

(** Its seven hooks and their list. *)
(* @src lkm/hooks/lkm42.c:88-159 ig_hooks *)
Definition lsm_hook_42 (c : lsm_call) : K T Z :=
  match c with
  | InodePermission inode mask => if has_bits mask MAY_WRITE then ig_check_inode_42 inode IG_OP_WRITE else kret 0
  | MmapFile file prot =>
      match file with
      | Some f_inode => if has_bits prot PROT_WRITE then ig_check_inode_42 f_inode IG_OP_WRITE else kret 0
      | None => kret 0
      end
  | InodeUnlink d => ig_check_delete_inode_42 (mjoin d)
  | InodeRename old_dentry new_dentry =>
      (let* rc := ig_check_dentry_42 old_dentry IG_OP_RENAME in
       if rc =? 0 then
         match new_dentry with
         | Some (Some inode) => ig_check_dentry_42 new_dentry IG_OP_RENAME
         | _ => kret rc
         end
       else kret rc)%kmon
  | InodeLink old_dentry => ig_check_dentry_42 old_dentry IG_OP_WRITE
  | InodeSetxattr d => ig_check_dentry_42 d IG_OP_WRITE
  | InodeSetattr d attr =>
      if has_bits (default 0 attr) (Z.lor (Z.lor (Z.lor ATTR_SIZE ATTR_MODE) ATTR_UID) ATTR_GID)
      then ig_check_dentry_42 d IG_OP_WRITE else kret 0
  end.

(** The two files decide alike. *)
Lemma lsm_variants_agree c : lsm_hook_42 c = lsm_hook c.
Proof. by destruct c. Qed.

(** ** Specification *)

(** A regular file on a device is checked, anything else is not. *)
Definition file_access (inode : option kinode) (op : Z) : list access :=
  match inode with
  | Some (KInode (Some dev) ino mode) =>
      if S_ISREG mode then [Access dev ino op true (op =? IG_OP_DELETE)] else []
  | _ => []
  end.

Definition lsm_accesses (c : lsm_call) : list access :=
  match c with
  | InodePermission inode mask => if has_bits mask MAY_WRITE then file_access inode IG_OP_WRITE else []
  | MmapFile file prot => if has_bits prot PROT_WRITE then file_access (mjoin file) IG_OP_WRITE else []
  | InodeUnlink d => file_access (mjoin d) IG_OP_DELETE
  | InodeRename o n => file_access (mjoin o) IG_OP_RENAME ++ file_access (mjoin n) IG_OP_RENAME
  | InodeLink o => file_access (mjoin o) IG_OP_WRITE
  | InodeSetxattr d => file_access (mjoin d) IG_OP_WRITE
  | InodeSetattr d attr =>
      if has_bits (default 0 attr) (ATTR_SIZE + ATTR_MODE + ATTR_UID + ATTR_GID)
      then file_access (mjoin d) IG_OP_WRITE else []
  end.

Abbreviation run := (run_accesses hash_min env).

Lemma check_inode_run inode op (s : lkm T) : op ≠ IG_OP_DELETE →
  ig_check_inode inode op s = run (file_access inode op) s.
Proof.
  intros Hop. unfold ig_check_inode, file_access. apply Z.eqb_neq in Hop. rewrite Hop.
  destruct inode as [[[dev|] ino mode]|]; try done. destruct (S_ISREG mode); [|done].
  exact (LkmSyscall.ig_check_run hash_min env dev ino op s).
Qed.

Lemma check_delete_run inode (s : lkm T) :
  ig_check_delete_inode inode s = run (file_access inode IG_OP_DELETE) s.
Proof.
  unfold ig_check_delete_inode, file_access. destruct inode as [[[dev|] ino mode]|]; try done.
  destruct (S_ISREG mode); [|done]. exact (LkmSyscall.ig_check_delete_run hash_min env dev ino s).
Qed.

Lemma check_dentry_run (d : option dentry) op (s : lkm T) : op ≠ IG_OP_DELETE →
  ig_check_dentry d op s = run (file_access (mjoin d) op) s.
Proof. intros. destruct d as [inode|]; [by apply check_inode_run|done]. Qed.

Lemma lsm_hook_run c (s : lkm T) : lsm_hook c s = run (lsm_accesses c) s.
Proof.
  destruct c as [inode mask|file prot|d|o n|o|d|d attr]; cbn [lsm_hook lsm_accesses].
  - unfold ig_inode_permission. destruct (has_bits _ _); [by apply check_inode_run|done].
  - unfold ig_mmap_file. destruct file as [f|]; cbn [mjoin option_join];
      (destruct (has_bits _ _); [|done]); [by apply check_inode_run|done].
  - apply check_delete_run.
  - rewrite LkmSyscall.run_app. unfold ig_inode_rename, kbind.
    rewrite check_dentry_run by done. destruct (run _ s) as [[rc s']|]; [|done]. cbn [mbind option_bind].
    destruct (Z.eqb_spec rc 0) as [->|]; [|done].
    destruct n as [[inode|]|]; [by apply check_dentry_run|done|done].
  - by apply check_dentry_run.
  - by apply check_dentry_run.
  - unfold ig_inode_setattr. change (Z.lor _ ATTR_GID) with (ATTR_SIZE + ATTR_MODE + ATTR_UID + ATTR_GID).
    destruct (has_bits _ _); [by apply check_dentry_run|done].
Qed.

Lemma file_access_cases inode op :
  file_access inode op = [] ∨ ∃ dev ino, file_access inode op = [Access dev ino op true (op =? IG_OP_DELETE)].
Proof.
  unfold file_access. destruct inode as [[[dev|] ino mode]|]; try by left.
  destruct (S_ISREG mode); [right; by eexists _, _|by left].
Qed.

Lemma lsm_drop_last c : Forall (λ a, a_drop a = false) (removelast (lsm_accesses c)).
Proof.
  assert (Ho : ∀ i op, Forall (λ a, a_drop a = false) (removelast (file_access i op))).
  { intros i op. destruct (file_access_cases i op) as [->|(? & ? & ->)]; repeat constructor. }
  destruct c; cbn [lsm_accesses]; auto; try (case_match; [auto|constructor]).
  destruct (file_access_cases (mjoin old_dentry) IG_OP_RENAME) as [->|(? & ? & ->)];
    destruct (file_access_cases (mjoin new_dentry) IG_OP_RENAME) as [->|(? & ? & ->)];
    repeat constructor.
Qed.

(** ** Properties *)

(** [C38] In both files a hook call is refused with [-EPERM] exactly when a
    regular file it touches has a DENY policy for the operation, and allowed with 0
    otherwise; the events and the dropped policies are those of the specification. *)
Theorem lsm_hook_enforces_policy (v42 : bool) (c : lsm_call) (s : lkm T) (Hok : ix_ok hash_min (k_cache s).1) :
  let '(d, t', log) := access_spec (k_policy s) (lsm_accesses c) in
  d = existsb (denied (k_policy s)) (lsm_accesses c) ∧
  ∃ s', (if v42 then lsm_hook_42 else lsm_hook) c s = Some (if d then - EPERM else 0, s') ∧
        hook_effect env s s' t' log.
Proof.
  pose proof (access_spec_denied (lsm_accesses c) (k_policy s) (lsm_drop_last c)) as Hd.
  pose proof (run_accesses_spec hash_min env (lsm_accesses c) s Hok) as Hr.
  assert ((if v42 then lsm_hook_42 else lsm_hook) c = lsm_hook c) as -> by (destruct v42; [apply lsm_variants_agree|done]).
  rewrite lsm_hook_run. by destruct (access_spec (k_policy s) (lsm_accesses c)) as [[d t'] log].
Qed.
End lsm.

(** ** The hook lists

    The kernel keeps, per hook, the list of the functions to call. The module
    links one entry of its own into seven of them and unlinks it again; other
    modules may do the same in between. *)

Inductive lsm_slot := SPermission | SMmap | SUnlink | SRename | SLink | SSetxattr | SSetattr.

#[export] Instance lsm_slot_eq_dec : EqDecision lsm_slot.
Proof. solve_decision. Defined.

Inductive lsm_entry := Ours | Other (n : nat).

#[export] Instance lsm_entry_eq_dec : EqDecision lsm_entry.
Proof. solve_decision. Defined.

(** The lists, and the write protection bit of CR0. *)
Record lsm_kernel := LsmKernel { lk_heads : lsm_slot → list lsm_entry; lk_wp : bool }.

Definition set_head (sl : lsm_slot) (f : list lsm_entry → list lsm_entry) (k : lsm_kernel) : lsm_kernel :=
  LsmKernel (λ sl', if decide (sl' = sl) then f (lk_heads k sl') else lk_heads k sl') (lk_wp k).

Definition slot_of (c : lsm_call) : lsm_slot :=
  match c with
  | InodePermission _ _ => SPermission | MmapFile _ _ => SMmap | InodeUnlink _ => SUnlink
  | InodeRename _ _ => SRename | InodeLink _ => SLink | InodeSetxattr _ => SSetxattr
  | InodeSetattr _ _ => SSetattr
  end.

(** [hlist_del_rcu] of one entry. *)
Fixpoint unlink_entry (e : lsm_entry) (l : list lsm_entry) : list lsm_entry :=
  match l with
  | [] => []
  | x :: l => if decide (x = e) then l else x :: unlink_entry e l
  end.

(* @src lkm/hooks/lkm415.c:204-213 ig_hooks *)
Definition ig_hooks : list lsm_slot := [SPermission; SMmap; SUnlink; SRename; SLink; SSetxattr; SSetattr].

Section lists.
(** Whether the lists are in read-only pages: a write with CR0.WP set faults. *)
Variable ro : bool.

Definition write_head (sl : lsm_slot) (f : list lsm_entry → list lsm_entry) (k : lsm_kernel) : option lsm_kernel :=
  if ro && lk_wp k then None else Some (set_head sl f k).

Definition add_hooks (k : lsm_kernel) : option lsm_kernel :=
  fold_left (λ acc sl, k ← acc; write_head sl (λ l, l ++ [Ours]) k) ig_hooks (Some k).
Definition del_hooks (k : lsm_kernel) : option lsm_kernel :=
  fold_left (λ acc sl, k ← acc; write_head sl (unlink_entry Ours) k) ig_hooks (Some k).

(* @src lkm/hooks/lkm415.c:63-68 ig_disable_wp *)
Definition ig_disable_wp (k : lsm_kernel) : lsm_kernel := LsmKernel (lk_heads k) false.
(* @src lkm/hooks/lkm415.c:70-75 ig_enable_wp *)
Definition ig_enable_wp (k : lsm_kernel) : lsm_kernel := LsmKernel (lk_heads k) true.

(** From 5.7 on [kallsyms_lookup_name] is not exported: a kprobe on it tells its
    address. *)
(* @src lkm/hooks/lkm415.c:29-46 ig_resolve_kallsyms *)
Definition ig_resolve_kallsyms (version register_kprobe : Z) : Z :=
  if 0x050700 <=? version then if register_kprobe <? 0 then register_kprobe else 0 else 0.

(** [found]: whether the symbol [security_hook_heads] is there. *)
(* @src lkm/hooks/lkm415.c:215-257 ig_hooks_init *)
Definition ig_hooks_init_415 (version register_kprobe : Z) (found : bool) (k : lsm_kernel) : option (Z * lsm_kernel) :=
  let ret := ig_resolve_kallsyms version register_kprobe in
  if negb (ret =? 0) then Some (ret, k)
  else if negb found then Some (- ENOENT, k)
  else k ← add_hooks (ig_disable_wp k); Some (0, ig_enable_wp k).

(* @src lkm/hooks/lkm415.c:259-275 ig_hooks_exit *)
Definition ig_hooks_exit_415 (k : lsm_kernel) : option lsm_kernel :=
  k ← del_hooks (ig_disable_wp k); Some (ig_enable_wp k).

(* @src lkm/hooks/lkm42.c:161-186 ig_hooks_init *)
Definition ig_hooks_init_42 (found : bool) (k : lsm_kernel) : option (Z * lsm_kernel) :=
  if negb found then Some (- ENOENT, k) else k ← add_hooks k; Some (0, k).

(* @src lkm/hooks/lkm42.c:188-198 ig_hooks_exit *)
Definition ig_hooks_exit_42 (k : lsm_kernel) : option lsm_kernel := del_hooks k.
End lists.

(** What other modules do to the lists meanwhile. *)
Inductive other_op := OtherAdd (sl : lsm_slot) (n : nat) | OtherDel (sl : lsm_slot) (n : nat).
Definition other_step (k : lsm_kernel) (o : other_op) : lsm_kernel :=
  match o with
  | OtherAdd sl n => set_head sl (λ l, l ++ [Other n]) k
  | OtherDel sl n => set_head sl (unlink_entry (Other n)) k
  end.

(** The kernel's dispatch: the functions of the list in order until one refuses. *)
Section dispatch.
Context {T : Type} `{PolicyStore T}.
Variable hash_min : Z → Z.
Variable env : kenv.
Variable others : nat → lsm_call → Z.

Fixpoint call_list (c : lsm_call) (l : list lsm_entry) : K T Z :=
  match l with
  | [] => kret 0
  | e :: l => (let* rc := (match e with Ours => lsm_hook hash_min env c | Other n => kret (others n c) end) in
               if rc =? 0 then call_list c l else kret rc)%kmon
  end.
Definition call_int_hook (k : lsm_kernel) (c : lsm_call) : K T Z := call_list c (lk_heads k (slot_of c)).

Lemma call_list_others c l (s : lkm T) : Ours ∉ l →
  ∃ rc, call_list c l s = Some (rc, s) ∧ ∀ l' s', call_list c (l ++ l') s' = if rc =? 0 then call_list c l' s' else Some (rc, s').
Proof.
  induction l as [|e l IH]; intros Hn; [by exists 0|]. apply not_elem_of_cons in Hn as [He Hn].
  destruct e as [|n]; [done|]. destruct (IH Hn) as (rc & Hrc & Happ). cbn [call_list app].
  destruct (Z.eqb_spec (others n c) 0) as [H0|H0].
  - exists rc. unfold kbind, kret. cbn [mbind option_bind]. rewrite ?H0. cbn [Z.eqb]. split; [done|].
    intros l' s'. unfold kbind, kret. cbn [mbind option_bind]. rewrite ?H0. apply Happ.
  - apply Z.eqb_neq in H0. exists (others n c). unfold kbind, kret. cbn [mbind option_bind]. rewrite ?H0.
    split; [done|]. intros l' s'. unfold kbind, kret. cbn [mbind option_bind]. by rewrite ?H0.
Qed.
End dispatch.

Lemma write_open sl f ro k : lk_wp k = false → write_head ro sl f k = Some (set_head sl f k).
Proof. intros H. unfold write_head. by rewrite H, andb_false_r. Qed.

(** Every list is written once. *)
Lemma write_all f ro k : lk_wp k = false → ∃ k',
  fold_left (λ acc sl, k ← acc; write_head ro sl f k) ig_hooks (Some k) = Some k' ∧
  lk_wp k' = false ∧ ∀ sl, lk_heads k' sl = f (lk_heads k sl).
Proof.
  intros H. unfold ig_hooks. cbn [fold_left mbind option_bind].
  rewrite !write_open by done. cbn [mbind option_bind].
  repeat (rewrite !write_open by done; cbn [mbind option_bind]).
  eexists. split; [reflexivity|]. split; [exact H|]. intros sl. by destruct sl.
Qed.

Lemma kallsyms_resolved version register_kprobe : 0 ≤ register_kprobe → ig_resolve_kallsyms version register_kprobe = 0.
Proof. intros H. unfold ig_resolve_kallsyms. rewrite (proj2 (Z.ltb_ge _ _)) by done. by destruct (_ <=? _). Qed.

(** One list with our entry and the same list without it. *)
Definition hooked (l l' : list lsm_entry) : Prop :=
  ∃ a b, l = a ++ Ours :: b ∧ l' = a ++ b ∧ Ours ∉ a ∧ Ours ∉ b.

Lemma unlink_app_l e a b : e ∈ a → unlink_entry e (a ++ b) = unlink_entry e a ++ b.
Proof.
  induction a as [|x a IH]; intros He; [by apply elem_of_nil in He|]. cbn.
  destruct (decide (x = e)) as [->|Hne]; [done|]. apply elem_of_cons in He as [->|He]; [done|]. by rewrite IH.
Qed.
Lemma unlink_app_r e a b : e ∉ a → unlink_entry e (a ++ b) = a ++ unlink_entry e b.
Proof.
  induction a as [|x a IH]; intros He; [done|]. apply not_elem_of_cons in He as [Hx He]. cbn.
  rewrite decide_False by done. by rewrite IH.
Qed.
Lemma unlink_sub e x l : x ∈ unlink_entry e l → x ∈ l.
Proof.
  induction l as [|y l IH]; [done|]. cbn. destruct (decide (y = e)); [by right|].
  rewrite !elem_of_cons. naive_solver.
Qed.

Lemma hooked_step o sl k k' : hooked (lk_heads k sl) (lk_heads k' sl) →
  hooked (lk_heads (other_step k o) sl) (lk_heads (other_step k' o) sl).
Proof.
  intros (a & b & H1 & H2 & Ha & Hb).
  destruct o as [sl' n|sl' n]; cbn; (destruct (decide (sl = sl')) as [->|]; [|by exists a, b]); rewrite H1, H2.
  - exists a, (b ++ [Other n]). rewrite <- !app_assoc. split; [done|]. split; [done|]. split; [done|].
    rewrite elem_of_app, list_elem_of_singleton. naive_solver.
  - destruct (decide (Other n ∈ a)) as [Hin|Hin].
    + rewrite !unlink_app_l by done. exists (unlink_entry (Other n) a), b.
      split; [done|]. split; [done|]. split; [|done]. intros ?%unlink_sub. done.
    + rewrite !unlink_app_r by done. cbn. exists a, (unlink_entry (Other n) b).
      split; [done|]. split; [done|]. split; [done|]. intros ?%unlink_sub. done.
Qed.

(** Loading the hooks and taking them out again leaves the lists of the other
    modules as they would be without, whatever these do in between, and the
    write protection on; while they are in, every call is decided by the other
    entries of its list and by [lsm_hook], which runs exactly once if none of
    those before it refuses. *)
Theorem lsm_hooks_install_and_restore {T} `{PolicyStore T} (hash_min : Z → Z) (env : kenv)
    (others : nat → lsm_call → Z) (ro : bool) (version register_kprobe : Z) (ops : list other_op) (k : lsm_kernel)
    (Hprobe : 0 ≤ register_kprobe) (Hfree : ∀ sl, Ours ∉ lk_heads k sl) :
  ∃ k1 k2, ig_hooks_init_415 ro version register_kprobe true k = Some (0, k1) ∧ lk_wp k1 = true ∧
    ig_hooks_exit_415 ro (fold_left other_step ops k1) = Some k2 ∧ lk_wp k2 = true ∧
    (∀ sl, lk_heads k2 sl = lk_heads (fold_left other_step ops k) sl) ∧
    ∀ c (s : lkm T), ∃ before after,
      (∀ s', call_int_hook hash_min env others (fold_left other_step ops k1) c s' =
        if before =? 0
        then '(rc, s'') ← lsm_hook hash_min env c s'; if rc =? 0 then Some (after, s'') else Some (rc, s'')
        else Some (before, s')) ∧
      call_int_hook hash_min env others (fold_left other_step ops k) c s =
        Some (if before =? 0 then after else before, s).
Proof.
  destruct (write_all (λ l, l ++ [Ours]) ro (ig_disable_wp k) eq_refl) as (k1 & Hadd & Hwp1 & Hl1).
  set (ki := ig_enable_wp k1).
  assert (Hh : ∀ sl, hooked (lk_heads (fold_left other_step ops ki) sl) (lk_heads (fold_left other_step ops k) sl)).
  { assert (H0 : ∀ sl, hooked (lk_heads ki sl) (lk_heads k sl)).
    { intros sl. exists (lk_heads k sl), []. cbn. rewrite Hl1, app_nil_r. split; [done|]. split; [done|].
      split; [apply Hfree|apply not_elem_of_nil]. }
    clearbody ki. clear -H0. revert ki k H0. induction ops as [|o ops IH]; intros ki k H0; [done|]. cbn.
    apply IH. intros sl. apply hooked_step, H0. }
  destruct (write_all (unlink_entry Ours) ro (ig_disable_wp (fold_left other_step ops ki)) eq_refl)
    as (k2 & Hdel & _ & Hl2).
  exists ki, (ig_enable_wp k2). split; [unfold ig_hooks_init_415, add_hooks; rewrite kallsyms_resolved by done; by rewrite Hadd|]. split; [done|].
  split; [unfold ig_hooks_exit_415, del_hooks; by rewrite Hdel|]. split; [done|]. split.
  - intros sl. cbn. rewrite Hl2. cbn. destruct (Hh sl) as (a & b & -> & -> & Ha & Hb).
    rewrite unlink_app_r by done. cbn. done.
  - intros c s. unfold call_int_hook. destruct (Hh (slot_of c)) as (a & b & -> & -> & Ha & Hb).
    destruct (call_list_others hash_min env others c a s Ha) as (ra & _ & Happ).
    destruct (call_list_others hash_min env others c b s Hb) as (rb & Hb1 & Happb).
    exists ra, rb. split; [|rewrite Happ; by destruct (ra =? 0)].
    intros s'. rewrite Happ. destruct (ra =? 0); [|done]. cbn [call_list]. unfold kbind.
    destruct (lsm_hook hash_min env c s') as [[rc s'']|]; [|done]. cbn [mbind option_bind].
    destruct (rc =? 0); [|done]. specialize (Happb [] s''). rewrite app_nil_r in Happb. rewrite Happb.
    cbn [call_list]. unfold kret. by destruct (Z.eqb_spec rb 0) as [->|].
Qed.

Lemma lsm_hooks_install_and_restore_witness :
  ∃ k1, ig_hooks_init_415 true 0x050F00 0 true (LsmKernel (λ _, [Other 1]) true) = Some (0, k1) ∧ lk_wp k1 = true.
Proof.
  destruct (lsm_hooks_install_and_restore (T := Z → Z → option ig_policy_entry) (λ p, p mod 4096) sample_env
    (λ _ _, 0) true 0x050F00 0 [OtherAdd SLink 2; OtherDel SUnlink 1] (LsmKernel (λ _, [Other 1]) true) ltac:(lia))
    as (k1 & _ & H1 & H2 & _); [|by exists k1].
  intros sl. cbn. rewrite list_elem_of_singleton. discriminate.
Defined.

(** The file for kernels before 4.15 does not lift the write protection: where
    the lists are read-only its first write faults. *)
Example hooks_42_fault_on_readonly_lists :
  ig_hooks_init_42 true true (LsmKernel (λ _, []) true) = None.
Proof. reflexivity. Qed.

Lemma lsm_hook_enforces_policy_witness :
  ∃ s', lsm_hook_42 (λ p, p mod 4096) sample_env
          (InodeUnlink (Some (Some (KInode (Some 1) 7 0x81A4)))) (sample_lkm 1)
        = Some (- EPERM, s').
Proof.
  destruct (lsm_hook_enforces_policy (λ p, p mod 4096) sample_env true
    (InodeUnlink (Some (Some (KInode (Some 1) 7 0x81A4)))) (sample_lkm 1) (ix_ok_init _))
    as (_ & s' & H & _). exists s'. exact H.
Defined.
