(* ===== verification/LkmUnload.v ===== *)
(** * Unloading the kernel module under running calls (lkm/ig_lkm_main.c, lkm/hooks/)

    [ig_lkm_exit] takes the hooks out, cancels the flush work, releases the
    device and the process cache and clears the policies; the kernel then frees
    the module's code. Processors that are inside a hook meanwhile are modelled
    next to it. The files that patch the system call table do not wait for them,
    the LSM files call [synchronize_rcu]. *)

From S2P Require Import Prelude Bytes Monitor LkmPolicy ProcCache LkmEvents LkmAccess LkmSyscall LkmInstall LkmLsm.

Local Open Scope Z_scope.

(** A call inside the module: before its check and report, or on its way out,
    through the module's code. *)
Inductive call_phase := Checking | Leaving.

#[export] Instance call_phase_eq_dec : EqDecision call_phase.
Proof. solve_decision. Defined.

(** What the unloading does; [AwaitCalls] stands for [synchronize_rcu] on a kernel
    that does not preempt hooks, and [FreeText] is the kernel's, last. *)
Inductive exit_op (X : Type) :=
  Remove (x : X) | AwaitCalls | CancelFlush | ReleaseDevice | ReleaseCache | ClearPolicies | FreeText.
Arguments Remove {X}. Arguments AwaitCalls {X}. Arguments CancelFlush {X}. Arguments ReleaseDevice {X}.
Arguments ReleaseCache {X}. Arguments ClearPolicies {X}. Arguments FreeText {X}.

#[export] Instance exit_op_eq_dec {X} `{EqDecision X} : EqDecision (exit_op X).
Proof. solve_decision. Defined.

(** [xs]: how [ig_hooks_exit] removes the hooks; [waits]: whether it waits. *)
(* @src lkm/ig_lkm_main.c:67-75 ig_lkm_exit *)
Definition exit_ops {X} (xs : list X) (waits : bool) : list (exit_op X) :=
  (Remove <$> xs) ++ (if waits then [AwaitCalls] else []) ++
  [CancelFlush; ReleaseDevice; ReleaseCache; ClearPolicies; FreeText].

Section unload.
(** [H]: the kernel's table or lists, [X]: one write to them, [E]: the entries
    through which a call comes in. *)
Context {H X E : Type} `{EqDecision X}.
Variable remove : H → X → option H.
Variable enters : H → E → bool.

Record unloading := Unloading {
  ul_hooks : H; ul_done : list (exit_op X); ul_todo : list (exit_op X); ul_calls : gmap nat call_phase }.

(** One step: a processor enters a hook, checks and reports, or leaves; or the
    unloading goes on. [None]: not possible now. *)
Inductive move := Enter (cpu : nat) (e : E) | Report (cpu : nat) | Leave (cpu : nat) | Unload.

Definition set_calls (f : gmap nat call_phase → gmap nat call_phase) (s : unloading) : unloading :=
  Unloading (ul_hooks s) (ul_done s) (ul_todo s) (f (ul_calls s)).

Definition exit_step (op : exit_op X) (s : unloading) : option H :=
  match op with
  | Remove x => remove (ul_hooks s) x
  | AwaitCalls => if decide (ul_calls s = ∅) then Some (ul_hooks s) else None
  | _ => Some (ul_hooks s)
  end.

Definition ustep (s : unloading) (m : move) : option unloading :=
  match m with
  | Enter cpu e =>
      match ul_calls s !! cpu with
      | None => if enters (ul_hooks s) e then Some (set_calls (<[cpu := Checking]>) s) else None
      | Some _ => None
      end
  | Report cpu =>
      match ul_calls s !! cpu with Some Checking => Some (set_calls (<[cpu := Leaving]>) s) | _ => None end
  | Leave cpu =>
      match ul_calls s !! cpu with Some Leaving => Some (set_calls (delete cpu) s) | _ => None end
  | Unload =>
      match ul_todo s with
      | [] => None
      | op :: l => h ← exit_step op s; Some (Unloading h (ul_done s ++ [op]) l (ul_calls s))
      end
  end.
Definition urun (ms : list move) (s : unloading) : option unloading :=
  fold_left (λ acc m, s ← acc; ustep s m) ms (Some s).

(** A call whose next step uses what is no longer there: the process cache or the
    flush work when it reports, the module's code in any case. *)
Definition stranded (s : unloading) (cpu : nat) : Prop :=
  ∃ ph, ul_calls s !! cpu = Some ph ∧
    (FreeText ∈ ul_done s ∨ (ph = Checking ∧ (CancelFlush ∈ ul_done s ∨ ReleaseCache ∈ ul_done s))).

Definition remove_all (xs : list X) (h : H) : option H := fold_left (λ acc x, h ← acc; remove h x) xs (Some h).

Lemma remove_all_cons x xs h : remove_all (x :: xs) h = h' ← remove h x; remove_all xs h'.
Proof. unfold remove_all. cbn. destruct (remove h x); [done|]. by induction xs. Qed.
Lemma remove_all_app xs ys h : remove_all (xs ++ ys) h = h' ← remove_all xs h; remove_all ys h'.
Proof.
  revert h. induction xs as [|x xs IH]; intros h; [done|]. rewrite <- app_comm_cons, !remove_all_cons.
  destruct (remove h x); [apply IH|done].
Qed.
Lemma urun_cons m ms s : urun (m :: ms) s = s' ← ustep s m; urun ms s'.
Proof. unfold urun. cbn. destruct (ustep s m); [done|]. by induction ms. Qed.
Lemma urun_app ms ns s : urun (ms ++ ns) s = s' ← urun ms s; urun ns s'.
Proof.
  revert s. induction ms as [|m ms IH]; intros s; [done|]. rewrite <- app_comm_cons, !urun_cons.
  destruct (ustep s m); [apply IH|done].
Qed.

Definition loaded (xs : list X) (waits : bool) (h : H) : unloading := Unloading h [] (exit_ops xs waits) ∅.

(** The removal alone never stops, whatever calls are inside. *)
Lemma unload_removes calls : ∀ xs h h' done rest, remove_all xs h = Some h' →
  urun (replicate (length xs) Unload) (Unloading h done ((Remove <$> xs) ++ rest) calls) =
    Some (Unloading h' (done ++ (Remove <$> xs)) rest calls).
Proof.
  induction xs as [|x xs IH]; intros h h' done rest Hr.
  { cbn in Hr |- *. injection Hr as ->. by rewrite app_nil_r. }
  rewrite remove_all_cons in Hr. cbn [length replicate fmap list_fmap app]. rewrite urun_cons.
  cbn [ustep ul_todo exit_step ul_hooks ul_done ul_calls].
  destruct (remove h x) as [h1|]; [|done]. cbn [mbind option_bind] in Hr |- *. rewrite (IH _ _ _ _ Hr).
  by rewrite <- app_assoc.
Qed.

(** Without waiting, a call that entered before the unloading is still inside when
    the code is freed. *)
Lemma unload_strands xs h h' cpu e : remove_all xs h = Some h' → enters h e = true →
  ∃ s, urun (Enter cpu e :: replicate (length xs) Unload ++ replicate 5 Unload) (loaded xs false h) = Some s ∧
    ul_hooks s = h' ∧ ul_todo s = [] ∧ FreeText ∈ ul_done s ∧ ul_calls s !! cpu = Some Checking ∧ stranded s cpu.
Proof.
  intros Hr He. rewrite urun_cons. unfold loaded, exit_ops. cbn [ustep ul_calls ul_hooks app]. rewrite lookup_empty, He.
  unfold set_calls. cbn [mbind option_bind ul_hooks ul_done ul_todo ul_calls].
  rewrite urun_app, (unload_removes _ xs h h' _ _ Hr). cbn [mbind option_bind replicate].
  eexists. split; [reflexivity|]. cbn [ul_hooks ul_todo ul_done ul_calls]. rewrite lookup_insert_eq.
  assert (Hf : FreeText ∈ (((((([] ++ (Remove <$> xs)) ++ [CancelFlush]) ++ [ReleaseDevice]) ++ [ReleaseCache]) ++
    [ClearPolicies]) ++ [FreeText])) by (apply elem_of_app; right; by left).
  do 2 (split; [done|]). split; [exact Hf|]. split; [done|]. exists Checking. cbn [ul_calls ul_done].
  rewrite lookup_insert_eq. split; [done|by left].
Qed.

(** With waiting: either the hooks are being taken out and nothing is gone yet, or
    they are out and no call is inside. *)
Inductive waiting (xs : list X) (h : H) : unloading → Prop :=
  | waiting_removes xs1 xs2 h1 calls : xs = xs1 ++ xs2 → remove_all xs1 h = Some h1 →
      waiting xs h (Unloading h1 (Remove <$> xs1)
        ((Remove <$> xs2) ++ AwaitCalls :: [CancelFlush; ReleaseDevice; ReleaseCache; ClearPolicies; FreeText]) calls)
  | waiting_after h1 done todo : remove_all xs h = Some h1 → Forall (λ op, ∀ x, op ≠ Remove x) todo →
      waiting xs h (Unloading h1 done todo ∅).

Lemma waiting_loaded xs h : waiting xs h (loaded xs true h).
Proof. by apply (waiting_removes xs h [] xs h ∅). Qed.

Lemma waiting_step xs h m s s' : (∀ h1 e, remove_all xs h = Some h1 → enters h1 e = false) →
  waiting xs h s → ustep s m = Some s' → waiting xs h s'.
Proof.
  intros Hclosed Hs. destruct Hs as [xs1 xs2 h1 calls Hxs Hr|h1 done todo Hr Htodo];
    destruct m as [cpu e|cpu|cpu|]; cbn [ustep ul_hooks ul_done ul_todo ul_calls].
  1-3: intros Hst; repeat case_match; try done; injection Hst as <-; by apply waiting_removes.
  - destruct xs2 as [|x xs2]; cbn [fmap list_fmap app exit_step ul_hooks ul_calls].
    + destruct (decide (calls = ∅)) as [->|]; [|done]. intros [= <-]. rewrite app_nil_r in Hxs. subst xs1.
      apply waiting_after; [done|by repeat constructor].
    + destruct (remove h1 x) as [h2|] eqn:Hx; [|done]. cbn [mbind option_bind]. intros [= <-].
      replace ((Remove <$> xs1) ++ [Remove x]) with (Remove <$> (xs1 ++ [x])) by by rewrite fmap_app.
      apply waiting_removes; [by rewrite <- app_assoc|]. rewrite remove_all_app, Hr.
      cbn [mbind option_bind]. by rewrite remove_all_cons, Hx.
  - rewrite lookup_empty, (Hclosed h1 e Hr). done.
  - by rewrite lookup_empty.
  - by rewrite lookup_empty.
  - destruct todo as [|op todo]; [done|]. apply Forall_cons in Htodo as [Hop Htodo].
    intros Hst. assert (exit_step op (Unloading h1 done (op :: todo) ∅) = Some h1) as He.
    { destruct op as [x| | | | | |]; [by destruct (Hop x)|exact eq_refl..]. }
    rewrite He in Hst. cbn [mbind option_bind] in Hst. injection Hst as <-. by apply waiting_after.
Qed.

Lemma waiting_safe xs h s cpu : waiting xs h s → ¬ stranded s cpu.
Proof.
  intros [xs1 xs2 h1 calls Hxs Hr|h1 done todo Hr Htodo] (ph & Hc & Hgone); cbn [ul_calls ul_done] in *;
    [|by rewrite lookup_empty in Hc].
  assert (Hno : ∀ op : exit_op X, op ∈ Remove <$> xs1 → ∃ x, op = Remove x).
  { intros op (x & -> & _)%list_elem_of_fmap. by exists x. }
  destruct Hgone as [Hf|[_ [Hf|Hf]]]; by destruct (Hno _ Hf).
Qed.

(** Nothing a run can reach strands a call. *)
Lemma unload_waits_safe xs h ms s cpu : (∀ h1 e, remove_all xs h = Some h1 → enters h1 e = false) →
  urun ms (loaded xs true h) = Some s → ¬ stranded s cpu.
Proof.
  intros Hclosed Hrun. apply (waiting_safe xs h). pose proof (waiting_loaded xs h) as Hw. revert Hw Hrun.
  generalize (loaded xs true h). induction ms as [|m ms IH]; intros s0 Hw Hrun.
  { by injection Hrun as <-. }
  rewrite urun_cons in Hrun. destruct (ustep s0 m) as [s1|] eqn:Hst; [|done].
  by apply (IH s1); [apply (waiting_step xs h m s0)|].
Qed.
End unload.

(** ** The two kinds of hooks *)

(** The system call table: a call comes in through an entry that points at the
    agent's handler. *)
Definition table_enters {F} `{EqDecision F} (ig_sys : sysno → F) (s : hook_state (F := F)) (n : sysno) : bool :=
  bool_decide (sys_call_table s n = ig_sys n).

(** The LSM lists: one write per step, entered while our entry is in the list. *)
Inductive lsm_write := LsmWpOff | LsmWpOn | LsmDel (sl : lsm_slot).

#[export] Instance lsm_write_eq_dec : EqDecision lsm_write.
Proof. solve_decision. Defined.

Definition lsm_remove (ro : bool) (k : lsm_kernel) (w : lsm_write) : option lsm_kernel :=
  match w with
  | LsmWpOff => Some (ig_disable_wp k)
  | LsmWpOn => Some (ig_enable_wp k)
  | LsmDel sl => write_head ro sl (unlink_entry Ours) k
  end.
Definition lsm_enters (k : lsm_kernel) (sl : lsm_slot) : bool := bool_decide (Ours ∈ lk_heads k sl).

(* @src lkm/hooks/lkm415.c:259-272 ig_hooks_exit *)
Definition lsm_exit_415 : list lsm_write := LsmWpOff :: (LsmDel <$> ig_hooks) ++ [LsmWpOn].
(* @src lkm/hooks/lkm42.c:188-195 ig_hooks_exit *)
Definition lsm_exit_42 : list lsm_write := LsmDel <$> ig_hooks.

(** The steps of a thread that stays on its processor. *)
Lemma unmoved_steps {F} (ig_sys : sysno → F) (ro : bool) l : ∀ i s,
  do_steps ig_sys ro (λ _, None) i l s = remove_all (do_step ig_sys ro) l s.
Proof.
  induction l as [|st l IH]; intros i s; [done|]. rewrite remove_all_cons. cbn [do_steps move_to].
  destruct (do_step ig_sys ro s st); [apply IH|done].
Qed.

(** The files that patch the table do not wait: for every hooked call there is a
    run, of a thread that stays on its processor, in which another one enters the handler,
    the unloading completes - the table is the kernel's again, the code is freed - and the
    call is still inside. *)
Theorem unload_strands_running_call {F} `{EqDecision F} (ig_sys : sysno → F) (ro v417 nr_renameat2 : bool)
    (s : hook_state (F := F)) (cpu : nat) (n : sysno)
    (Hn : n ∈ (if v417 then regs_hook_order nr_renameat2 else hook_order nr_renameat2)) :
  let order := if v417 then regs_hook_order nr_renameat2 else hook_order nr_renameat2 in
  ∃ s1 ms u, hooks_init_of ig_sys ro v417 true nr_renameat2 (λ _, None) s = Some (0, s1) ∧
    urun (do_step ig_sys ro) (table_enters ig_sys) ms (loaded (remove_steps order) false s1) = Some u ∧
    ul_todo u = [] ∧ FreeText ∈ ul_done u ∧ (∀ m, sys_call_table (ul_hooks u) m = sys_call_table s m) ∧
    ul_calls u !! cpu = Some Checking ∧ stranded u cpu.
Proof.
  intros order. assert (Hord : order = hook_order nr_renameat2) by by destruct v417.
  destruct (hooks_come_and_go_facts ig_sys ro order s) as (s1 & s2 & Hinit & Hin & Hexit & Hback);
    [rewrite Hord; apply hook_order_nodup|]. rewrite unmoved_steps in Hexit.
  destruct (unload_strands (do_step ig_sys ro) (table_enters ig_sys) (remove_steps order) s1 s2 cpu n Hexit)
    as (u & Hrun & Hh & Htodo & Hfree & Hcall & Hstr).
  { apply bool_decide_eq_true. by apply Hin. }
  eexists s1, _, u. split; [|split; [exact Hrun|]].
  - by rewrite hooks_init_runs, <- Hord, Hinit.
  - rewrite Hh. by split_and!.
Qed.

(** The writes of loading and unloading, when they succeed. *)
Lemma writes_done f ro k k' : fold_left (λ acc sl, k ← acc; write_head ro sl f k) ig_hooks (Some k) = Some k' →
  ∀ sl, lk_heads k' sl = f (lk_heads k sl).
Proof.
  unfold ig_hooks, write_head. cbn [fold_left mbind option_bind].
  destruct (ro && lk_wp k) eqn:E; [done|].
  repeat (cbn [mbind option_bind set_head lk_wp]; rewrite E). intros [= <-] sl. by destruct sl.
Qed.

Lemma lsm_exit_done (v42 : bool) ro k k' :
  remove_all (lsm_remove ro) (if v42 then lsm_exit_42 else lsm_exit_415) k = Some k' →
  ∀ sl, lk_heads k' sl = unlink_entry Ours (lk_heads k sl).
Proof.
  destruct v42; unfold lsm_exit_42, lsm_exit_415; intros Hr; [exact (writes_done _ ro k k' Hr)|].
  rewrite remove_all_cons in Hr. cbn [lsm_remove mbind option_bind] in Hr. rewrite remove_all_app in Hr.
  destruct (remove_all (lsm_remove ro) (LsmDel <$> ig_hooks) (ig_disable_wp k)) as [k1|] eqn:Hd; [|done].
  cbn in Hr. injection Hr as <-. exact (writes_done _ ro _ _ Hd).
Qed.

(** The LSM files wait: however calls and the unloading interleave, no call is
    ever inside when what it needs is taken down. *)
Theorem lsm_unload_strands_no_call (v42 ro : bool) (version register_kprobe : Z) (k k1 : lsm_kernel)
    (ms : list (move (E := lsm_slot))) (u : unloading) (cpu : nat)
    (Hfree : ∀ sl, Ours ∉ lk_heads k sl)
    (Hload : (if v42 then ig_hooks_init_42 ro true k else ig_hooks_init_415 ro version register_kprobe true k) = Some (0, k1))
    (Hrun : urun (lsm_remove ro) lsm_enters ms (loaded (if v42 then lsm_exit_42 else lsm_exit_415) true k1) = Some u) :
  ¬ stranded u cpu.
Proof.
  assert (Hk1 : ∀ sl, lk_heads k1 sl = lk_heads k sl ++ [Ours]).
  { destruct v42; unfold ig_hooks_init_42, ig_hooks_init_415 in Hload; cbn [negb] in Hload.
    - destruct (add_hooks ro k) as [k2|] eqn:Ha; [|done]. injection Hload as ->. exact (writes_done _ ro _ _ Ha).
    - destruct (negb _) eqn:Hr; [apply negb_true_iff, Z.eqb_neq in Hr; congruence|].
      destruct (add_hooks ro (ig_disable_wp k)) as [k2|] eqn:Ha; [|done]. injection Hload as <-.
      exact (writes_done _ ro _ _ Ha). }
  apply (unload_waits_safe (lsm_remove ro) lsm_enters (if v42 then lsm_exit_42 else lsm_exit_415) k1 ms); [|exact Hrun].
  intros h e Hr. apply bool_decide_eq_false. rewrite (lsm_exit_done v42 ro k1 h Hr e), Hk1, unlink_app_r by apply Hfree.
  cbn. rewrite app_nil_r. apply Hfree.
Qed.

(** *** Witnesses *)

(** Functions are numbers, the handlers negative; processor 0 writes, the module is unloaded on 1. *)
Definition sys_index (n : sysno) : Z :=
  match n with NR_write => 1 | NR_truncate => 2 | NR_ftruncate => 3 | _ => 4 end.

Lemma unload_strands_running_call_witness :
  ∃ s1 ms u, hooks_init_of (λ n, - sys_index n) true false true true (λ _, None) (HookState sys_index (λ _, 0) (λ _, 0x10000) 1 0) = Some (0, s1) ∧
    urun (do_step (λ n, - sys_index n) true) (table_enters (λ n, - sys_index n)) ms
      (loaded (remove_steps (hook_order true)) false s1) = Some u ∧ stranded u 0.
Proof.
  destruct (unload_strands_running_call (λ n, - sys_index n) true false true (HookState sys_index (λ _, 0) (λ _, 0x10000) 1 0)
    0 NR_write) as (s1 & ms & u & H1 & H2 & _ & _ & _ & _ & H3); [by left|].
  exists s1, ms, u. split; [exact H1|]. split; [exact H2|exact H3].
Defined.

(** A call enters, the hooks are taken out, the call reports and leaves, and only
    then the rest goes on. *)
Definition lsm_moves : list (move (E := lsm_slot)) :=
  Enter 0 SUnlink :: replicate 9 Unload ++ [Report 0; Leave 0] ++ replicate 6 Unload.

Definition lsm_before : lsm_kernel := LsmKernel (λ _, [Other 1]) true.
Definition lsm_during : lsm_kernel :=
  match ig_hooks_init_415 true 0x050F00 0 true lsm_before with Some (_, k) => k | None => lsm_before end.

Lemma lsm_unload_strands_no_call_witness :
  ∃ u, urun (lsm_remove true) lsm_enters lsm_moves (loaded lsm_exit_415 true lsm_during) = Some u ∧ ul_todo u = [] ∧
    ¬ stranded u 0.
Proof.
  assert (Htodo : ul_todo <$> urun (lsm_remove true) lsm_enters lsm_moves (loaded lsm_exit_415 true lsm_during) =
    Some []) by (vm_compute; reflexivity).
  destruct (urun (lsm_remove true) lsm_enters lsm_moves (loaded lsm_exit_415 true lsm_during)) as [u|] eqn:Hrun;
    [|discriminate Htodo].
  exists u. split; [reflexivity|]. split; [cbn in Htodo; congruence|].
  apply (lsm_unload_strands_no_call false true 0x050F00 0 lsm_before lsm_during lsm_moves u 0);
    [|reflexivity|exact Hrun].
  intros sl. cbn. rewrite list_elem_of_singleton. discriminate.
Defined.
