(* ===== verification/LkmChardev.v ===== *)
(** * Character device and its client (lkm/ig_lkm_chardev.c, lkm/lkm_client.c,
      lkm/ig_lkm_main.c)

    [/dev/ig_lkm] carries policies into the kernel ([ioctl]) and events out
    ([read]). The kernel side and the agent's client are modelled together, over
    the real policy table; module loading is a ladder of acquisitions. *)

From S2P Require Import Prelude Bytes Monitor LkmPolicy ProcCache LkmEvents LkmAccess LkmSyscall.
From stdpp Require Import vector.

Local Open Scope Z_scope.

Definition ERESTARTSYS : Z := 512.

(** ** ioctl numbers (lkm/ig_lkm_common.h) *)

(* @src lkm/ig_lkm_common.h:34-40 ig_lkm_policy_req *)
Record ig_lkm_policy_req := PolicyReq {
  rq_dev : Z; rq_ino : Z; rq_mask : Z; rq_block : Z; rq_path : list Z (* char[256] *) }.

Definition IG_LKM_MAGIC : Z := 70 (* 'F' *).
Definition sizeof_policy_req : Z := 8 + 8 + 4 + 4 + 256.
Definition sizeof_chain_entry : Z := 6 * 4 + 16 + 16 + 8 + 128 + 256.
Definition sizeof_event : Z := 8 + 8 + 4 * 4 + 16 + 256 + 8 + 8 + 16 * sizeof_chain_entry.

(** [_IOC(dir, type, nr, size)] *)
Definition IOC (dir type nr size : Z) : Z :=
  Z.lor (Z.lor (Z.shiftl dir 30) (Z.shiftl size 16)) (Z.lor (Z.shiftl type 8) nr).

(* @src lkm/ig_lkm_common.h:87-89 IG_IOC_ADD_INODE *)
Definition IG_IOC_ADD_INODE : Z := IOC 1 IG_LKM_MAGIC 1 sizeof_policy_req.
Definition IG_IOC_REMOVE_INODE : Z := IOC 1 IG_LKM_MAGIC 2 sizeof_policy_req.
Definition IG_IOC_CLEAR_ALL : Z := IOC 0 IG_LKM_MAGIC 3 0.

Section chardev.
Variable jhash2 : list Z → Z → Z.
Variable hash_min : Z → fin 256.
(** [hash_min] of the process cache's larger table. *)
Variable hash_min_pid : Z → Z.

Abbreviation table := (vec (list ig_policy_entry) 256).
#[local] Instance chardev_store : PolicyStore table := policy_table_store jhash2 hash_min.
#[local] Instance chardev_laws : PolicyStoreLaws table := policy_table_laws jhash2 hash_min.

(** ** Kernel side *)

Definition set_table (t : table) (s : lkm table) : lkm table :=
  Lkm t (k_cache s) (k_fifo s) (k_flush s).

(** [arg]: what [copy_from_user] reads, [None] when it fails. *)
(* @src lkm/ig_lkm_chardev.c:30-55 ig_ioctl *)
Definition ig_ioctl (cmd : Z) (arg : option ig_lkm_policy_req) (alloc_ok : bool) : K table Z :=
  (if cmd =? IG_IOC_ADD_INODE then
     match arg with
     | None => kret (- EFAULT)
     | Some req => λ s,
         let path := cstr (take 255 (rq_path req)) in
         let (t, rc) := inode_policy_add jhash2 hash_min alloc_ok (k_policy s)
                          (rq_dev req) (rq_ino req) (rq_mask req) (rq_block req) (Some path) in
         Some (rc, set_table t s)
     end
   else if cmd =? IG_IOC_REMOVE_INODE then
     match arg with
     | None => kret (- EFAULT)
     | Some req =>
         kmodify (set_policy_store (λ t, inode_policy_remove jhash2 hash_min t (rq_dev req) (rq_ino req)));;;
         kret 0
     end
   else if cmd =? IG_IOC_CLEAR_ALL then kmodify (set_policy_store inode_policy_clear);;; kret 0
   else kret (- ENOTTY))%kmon.

(** [woken]: the fifo found after sleeping on an empty one, [None] when a signal
    ends the sleep. The result is the byte count or error, and what was copied. *)
(* @src lkm/ig_lkm_chardev.c:59-89 ig_read *)
Definition ig_read (count : Z) (woken : option (list ig_lkm_event)) (alloc_ok copy_ok : bool)
    : K table (Z * option ig_lkm_event) :=
  (if count <? sizeof_event then kret (- EINVAL, None)
   else
     let* empty := kget ig_event_empty in
     let* signalled :=
       (match (empty, woken) with
        | (false, _) => kret false
        | (true, Some q) => kmodify (set_fifo (λ _, q));;; kret false
        | (true, None) => kret true
        end) in
     if signalled : bool then kret (- ERESTARTSYS, None)
     else if negb alloc_ok then kret (- ENOMEM, None)
     else
       let* r := ig_event_pop in
       match r with
       | None => kret (0, None)
       | Some ev => if copy_ok then kret (sizeof_event, Some ev) else kret (- EFAULT, None)
       end)%kmon.

(* @src lkm/ig_lkm_chardev.c:91-95 ig_poll *)
Definition ig_poll (s : lkm table) : Z := if ig_event_empty s then 0 else Z.lor 0x01 0x40.

(** ** Client side (lkm/lkm_client.c) *)

(** glibc's [major] and [minor]. *)
Definition major (dev : Z) : Z :=
  Z.lor (Z.land (Z.shiftr dev 8) 0xFFF) (Z.land (Z.shiftr dev 32) 0xFFFFF000).
Definition minor (dev : Z) : Z :=
  Z.lor (Z.land dev 0xFF) (Z.land (Z.shiftr dev 12) 0xFFFFFF00).

(* @src lkm/lkm_client.c:23-26 stat_dev_to_kernel *)
Definition stat_dev_to_kernel (st_dev : Z) : Z :=
  Z.lor (u64 (Z.shiftl (major st_dev) 20)) (minor st_dev).

(** The [ioctl] library call on [g_lkm_fd]: -1 on any error. *)
Definition ioctl (fd cmd : Z) (req : option ig_lkm_policy_req) (alloc_ok : bool) : K table Z :=
  if fd <? 0 then kret (-1)
  else (let* rc := ig_ioctl cmd req alloc_ok in kret (if rc <? 0 then -1 else rc))%kmon.

(** A string in a zeroed [char[256]]. *)
Definition path_field (path : option cstring) : list Z :=
  let p := strncpy (default [] path) 255 in p ++ replicate (256 - length p) 0.

(* @src lkm/lkm_client.c:49-61 lkm_add_inode *)
Definition lkm_add_inode (fd st_dev st_ino mask block : Z) (path : option cstring) (alloc_ok : bool)
    : K table Z :=
  ioctl fd IG_IOC_ADD_INODE
    (Some (PolicyReq (stat_dev_to_kernel st_dev) st_ino mask block (path_field path))) alloc_ok.

(* @src lkm/lkm_client.c:63-69 lkm_remove_inode *)
Definition lkm_remove_inode (fd st_dev st_ino : Z) : K table Z :=
  ioctl fd IG_IOC_REMOVE_INODE
    (Some (PolicyReq (stat_dev_to_kernel st_dev) st_ino 0 0 (path_field None))) true.

(* @src lkm/lkm_client.c:71-74 lkm_clear_all *)
Definition lkm_clear_all (fd : Z) : K table Z := ioctl fd IG_IOC_CLEAR_ALL None true.

(** [stat]: device and inode of a path, [None] when it fails; [allocs]: the
    outcome of the kernel's allocation for each entry. *)
(* @src lkm/lkm_client.c:76-96 lkm_add_from_baseline *)
Fixpoint lkm_add_from_baseline (stat : cstring → option (Z * Z)) (fd : Z)
    (db : list (cstring * bool)) (block : Z) : K table Z :=
  let mask := Z.lor (Z.lor IG_OP_WRITE IG_OP_DELETE) IG_OP_RENAME in
  match db with
  | [] => kret 0
  | (path, alloc_ok) :: db =>
      match stat path with
      | None => lkm_add_from_baseline stat fd db block
      | Some (st_dev, st_ino) =>
          (let* rc := lkm_add_inode fd st_dev st_ino mask block (Some path) alloc_ok in
           let* added := lkm_add_from_baseline stat fd db block in
           kret (if rc =? 0 then added + 1 else added))%kmon
      end
  end.

(** The entries of a database, each with what the kernel's allocator answers when its
    turn comes. *)
Definition with_memory (kzalloc : nat → bool) (paths : list cstring) : list (cstring * bool) :=
  imap (λ i p, (p, kzalloc i)) paths.

(** [g_lkm_fd] is -1 while the device is closed. [opened]: the descriptor [open]
    returns, or [errno]. *)
(* @src lkm/lkm_client.c:28-34 lkm_client_init *)
Definition lkm_client_init (opened : Z + Z) : Z * Z :=
  match opened with inl fd => (0, fd) | inr errno => (- errno, -1) end.

(** The descriptor to close, if any, and [g_lkm_fd] afterwards. *)
(* @src lkm/lkm_client.c:36-42 lkm_client_cleanup *)
Definition lkm_client_cleanup (fd : Z) : option Z * Z := if 0 <=? fd then (Some fd, -1) else (None, fd).

(* @src lkm/lkm_client.c:44-47 lkm_client_ready *)
Definition lkm_client_ready (fd : Z) : bool := 0 <=? fd.

(** [read] turned into 0 with an event, or a negative error. *)
(* @src lkm/lkm_client.c:100-106 lkm_read_event *)
Definition lkm_read_event (woken : option (list ig_lkm_event)) (alloc_ok copy_ok : bool)
    : K table (Z * option ig_lkm_event) :=
  (let* r := ig_read sizeof_event woken alloc_ok copy_ok in
   kret (if r.1 <? 0 then (r.1, None)
         else if r.1 =? sizeof_event then (0, r.2) else (- EIO, None)))%kmon.

(** [select] on the descriptor: an error, a timeout (0), or readable. *)
(* @src lkm/lkm_client.c:108-124 lkm_read_event_timeout *)
Definition lkm_read_event_timeout (select : Z) (woken : option (list ig_lkm_event))
    (alloc_ok copy_ok : bool) : K table (Z * option ig_lkm_event) :=
  if select <? 0 then kret (select, None)
  else if select =? 0 then kret (- ETIMEDOUT, None)
  else lkm_read_event woken alloc_ok copy_ok.

(** ** Lemmas *)

Definition full_mask : Z := Z.lor (Z.lor IG_OP_WRITE IG_OP_DELETE) IG_OP_RENAME.

(** The map holds a policy of the given block mode for every operation. *)
Definition protected (m : gmap (Z * Z) ig_policy_entry) (block : Z) (k : Z * Z) : Prop :=
  ∃ e, m !! k = Some e ∧ pe_mask e = full_mask ∧ pe_block e = block.

(** Adding, whether or not the kernel's memory suffices: a new entry needs it, an
    entry that is there is rewritten without. *)
Lemma map_add_protects m ok dev ino block path k :
  (ok = true ∧ k = (dev, ino)) ∨ protected m block k →
  protected (map_exec m (OpAdd ok dev ino full_mask block path)).1 block k.
Proof.
  intros Hk. cbn [map_exec]. unfold protected. destruct (decide (k = (dev, ino))) as [->|Hne].
  - destruct (m !! (dev, ino)) as [e0|] eqn:He; [|destruct ok]; cbn [fst]; rewrite ?lookup_insert_eq;
      [by eexists|by eexists|]. destruct Hk as [[? _]|(e & ? & _)]; congruence.
  - destruct Hk as [[_ ?]|Hk]; [done|]. by destruct (m !! (dev, ino)), ok; cbn [fst]; rewrite ?lookup_insert_ne.
Qed.

Lemma map_add_only m ok dev ino mask block path k :
  is_Some ((map_exec m (OpAdd ok dev ino mask block path)).1 !! k) →
  is_Some (m !! k) ∨ (ok = true ∧ k = (dev, ino)).
Proof.
  cbn [map_exec]. intros H. destruct (m !! (dev, ino)) as [e|] eqn:He; [|destruct ok]; cbn [fst] in H;
    (destruct (decide (k = (dev, ino))) as [->|Hne];
      [|left; by rewrite ?lookup_insert_ne in H by done]); [by left; eexists|by right|by left].
Qed.

Lemma map_add_entries (P : Z * Z → ig_policy_entry → Prop) m ok dev ino block path :
  (∀ e, pe_mask e = full_mask → pe_block e = block → pe_path e = strncpy path 255 → P (dev, ino) e) →
  map_Forall P m → map_Forall P (map_exec m (OpAdd ok dev ino full_mask block (Some (strncpy path 255)))).1.
Proof.
  intros Hnew Hm. cbn [map_exec].
  assert (Hp : strncpy (strncpy path 255) (IG_MAX_LKM_PATH - 1) = strncpy path 255).
  { apply strncpy_id; [apply strncpy_is_cstring|]. pose proof (strncpy_length path 255).
    unfold IG_MAX_LKM_PATH. lia. }
  destruct (m !! (dev, ino)), ok; cbn [fst]; first [exact Hm|apply map_Forall_insert_2; [by apply Hnew|done]].
Qed.

Lemma cstr_pad q n : is_cstring q → cstr (q ++ replicate n 0) = q.
Proof.
  intros Hs. induction Hs as [|c l Hc Hs IH]; [by destruct n|].
  cbn. by rewrite (proj2 (Z.eqb_neq c 0) Hc), IH.
Qed.

(** The path reaches the kernel cut to 255 bytes. *)
Lemma path_field_sent p : cstr (take 255 (path_field (Some p))) = strncpy p 255.
Proof.
  unfold path_field. change (default [] (Some p)) with p.
  rewrite take_app_ge, take_replicate by apply strncpy_length. apply cstr_pad, strncpy_is_cstring.
Qed.

Lemma lkm_add_inode_exec fd st_dev st_ino block path ok s m : 0 ≤ fd →
  represents jhash2 hash_min (k_policy s) m →
  let add := map_exec m (OpAdd ok (stat_dev_to_kernel st_dev) st_ino full_mask block (Some (strncpy path 255))) in
  ∃ t', lkm_add_inode fd st_dev st_ino full_mask block (Some path) ok s =
      Some (if add.2 <? 0 then -1 else add.2, set_table t' s) ∧
    represents jhash2 hash_min t' add.1.
Proof.
  intros Hfd Hr add. unfold lkm_add_inode, ioctl. destruct (Z.ltb_spec fd 0); [lia|].
  set (req := PolicyReq _ _ _ _ _). set (p := cstr (take 255 (rq_path req))).
  set (o := OpAdd ok (rq_dev req) (rq_ino req) full_mask block (Some p)).
  assert (add = map_exec m o) as ->.
  { unfold add, o, p. cbn [req rq_path rq_dev rq_ino]. by rewrite path_field_sent. }
  destruct (policy_exec_represents jhash2 hash_min (k_policy s) m o Hr) as [Hr' Hrc].
  exists (policy_exec jhash2 hash_min (k_policy s) o).1. split; [|exact Hr'].
  unfold kbind, ig_ioctl. rewrite Z.eqb_refl. fold p. rewrite <- Hrc. cbn [policy_exec o].
  change (rq_mask req) with full_mask. change (rq_block req) with block.
  by destruct (inode_policy_add _ _ _ _ _ _ _ _ _) as [t rc].
Qed.

(** What loading a baseline does to the map of policies, and the count it returns. *)
Fixpoint load_map (stat : cstring → option (Z * Z)) (block : Z) (db : list (cstring * bool))
    (m : gmap (Z * Z) ig_policy_entry) : gmap (Z * Z) ig_policy_entry * Z :=
  match db with
  | [] => (m, 0)
  | (p, ok) :: db =>
      match stat p with
      | None => load_map stat block db m
      | Some (d, i) =>
          let (m, rc) := map_exec m (OpAdd ok (stat_dev_to_kernel d) i full_mask block (Some (strncpy p 255))) in
          let (m, n) := load_map stat block db m in (m, if rc =? 0 then n + 1 else n)
      end
  end.

Lemma load_refines stat fd block db : 0 ≤ fd → ∀ s m, represents jhash2 hash_min (k_policy s) m →
  ∃ t', lkm_add_from_baseline stat fd db block s = Some ((load_map stat block db m).2, set_table t' s) ∧
    represents jhash2 hash_min t' (load_map stat block db m).1.
Proof.
  intros Hfd. induction db as [|[p ok] db IH]; intros s m Hr.
  { exists (k_policy s). split; [by destruct s|done]. }
  cbn [lkm_add_from_baseline load_map]. destruct (stat p) as [[d i]|]; [|by apply IH].
  destruct (lkm_add_inode_exec fd d i block p ok s m Hfd Hr) as (t1 & Ha & Hr1).
  destruct (map_exec m _) as [m1 rc]. cbn [fst snd] in *. destruct (IH (set_table t1 s) m1 Hr1) as (t2 & Hb & Hr2).
  exists t2. change (Z.lor _ IG_OP_RENAME) with full_mask. unfold kbind at 1. rewrite Ha.
  cbn [mbind option_bind]. unfold kbind. rewrite Hb. cbn [mbind option_bind].
  destruct (load_map stat block db m1) as [m2 n]. cbn [fst snd] in *. split; [|done]. unfold kret.
  by destruct rc as [|rc|rc].
Qed.

(** The entry of a baseline file: every operation, the block mode asked for, the
    file's path cut to 255 bytes. *)
Definition entry_for (stat : cstring → option (Z * Z)) (block : Z) (paths : list cstring) (k : Z * Z)
    (e : ig_policy_entry) : Prop :=
  ∃ p d i, p ∈ paths ∧ stat p = Some (d, i) ∧ k = (stat_dev_to_kernel d, i) ∧
    pe_mask e = full_mask ∧ pe_block e = block ∧ pe_path e = strncpy p 255.

(** The objects a loaded baseline stands for: those of the files that can be
    inspected and for which the kernel had memory. *)
Definition loads_key (stat : cstring → option (Z * Z)) (db : list (cstring * bool)) (k : Z * Z) : Prop :=
  ∃ p d i, (p, true) ∈ db ∧ stat p = Some (d, i) ∧ k = (stat_dev_to_kernel d, i).

Lemma with_memory_paths kzalloc paths : (with_memory kzalloc paths).*1 = paths.
Proof.
  apply list_eq. intros i. unfold with_memory. rewrite list_lookup_fmap, list_lookup_imap. by destruct (paths !! i).
Qed.

Lemma load_map_count stat block db : ∀ m, 0 ≤ (load_map stat block db m).2 ≤ Z.of_nat (length db).
Proof.
  induction db as [|[p ok] db IH]; intros m; [done|]. cbn [load_map length].
  destruct (stat p) as [[d i]|]; [|specialize (IH m); lia]. destruct (map_exec m _) as [m1 rc].
  specialize (IH m1). destruct (load_map stat block db m1) as [m2 n]. cbn [snd] in *. destruct (rc =? 0); lia.
Qed.

Lemma load_map_protects stat block db k : ∀ m, loads_key stat db k ∨ protected m block k →
  protected (load_map stat block db m).1 block k.
Proof.
  induction db as [|[p ok] db IH]; intros m Hk.
  { destruct Hk as [(p & d & i & ?%elem_of_nil & _)|Hk]; done. }
  assert (Hhd : loads_key stat ((p, ok) :: db) k → loads_key stat db k ∨
    (ok = true ∧ ∃ d i, stat p = Some (d, i) ∧ k = (stat_dev_to_kernel d, i))).
  { intros (q & d & i & [[= -> <-]|Hq]%elem_of_cons & Hs & ->); [right; split; [done|by exists d, i]|left].
    by exists q, d, i. }
  cbn [load_map]. destruct (stat p) as [[d i]|] eqn:Hst.
  - pose proof (map_add_protects m ok (stat_dev_to_kernel d) i block (Some (strncpy p 255)) k) as Hadd.
    destruct (map_exec m _) as [m1 rc]. cbn [fst] in Hadd. specialize (IH m1).
    destruct (load_map stat block db m1) as [m2 n]. cbn [fst] in *. apply IH.
    destruct Hk as [[?|(-> & d' & i' & Hs & ->)]%Hhd|Hk]; [by left|right; apply Hadd; left|right; apply Hadd; by right].
    split; [done|congruence].
  - apply IH. destruct Hk as [[?|(_ & d & i & ? & _)]%Hhd|Hk]; [by left|done|by right].
Qed.

Lemma load_map_only stat block db k : ∀ m, is_Some ((load_map stat block db m).1 !! k) →
  is_Some (m !! k) ∨ loads_key stat db k.
Proof.
  induction db as [|[p ok] db IH]; intros m Hk; [by left|].
  assert (Htl : loads_key stat db k → loads_key stat ((p, ok) :: db) k).
  { intros (q & d & i & Hq & Hs). exists q, d, i. split; [by right|done]. }
  cbn [load_map] in Hk. destruct (stat p) as [[d i]|] eqn:Hst.
  - pose proof (map_add_only m ok (stat_dev_to_kernel d) i full_mask block (Some (strncpy p 255)) k) as Hadd.
    destruct (map_exec m _) as [m1 rc]. cbn [fst] in Hadd. specialize (IH m1).
    destruct (load_map stat block db m1) as [m2 n]. cbn [fst] in *.
    destruct (IH Hk) as [[?|[-> ->]]%Hadd|?]; [by left| |right; by apply Htl].
    right. exists p, d, i. split; [by left|done].
  - destruct (IH m Hk) as [?|?]; [by left|right; by apply Htl].
Qed.

(** Every policy a loaded baseline leaves is that of one of its files. *)
Lemma load_map_entries stat block db : ∀ seen m, map_Forall (entry_for stat block seen) m →
  map_Forall (entry_for stat block (seen ++ db.*1)) (load_map stat block db m).1.
Proof.
  induction db as [|[p ok] db IH]; intros seen m Hm; cbn [load_map fmap list_fmap fst]; [by rewrite app_nil_r|].
  replace (seen ++ p :: db.*1) with ((seen ++ [p]) ++ db.*1) by by rewrite <- app_assoc.
  assert (Hmono : map_Forall (entry_for stat block (seen ++ [p])) m).
  { eapply map_Forall_impl; [exact Hm|]. intros k e (q & d & i & Hq & Hrest). exists q, d, i.
    split; [|exact Hrest]. apply elem_of_app. by left. }
  destruct (stat p) as [[d i]|] eqn:Hst; [|by apply IH].
  assert (Hadd : map_Forall (entry_for stat block (seen ++ [p]))
    (map_exec m (OpAdd ok (stat_dev_to_kernel d) i full_mask block (Some (strncpy p 255)))).1).
  { apply map_add_entries; [|exact Hmono]. intros e H1 H2 H3. exists p, d, i.
    split; [apply elem_of_app; right; by left|done]. }
  destruct (map_exec m _) as [m1 rc]. cbn [fst] in Hadd. specialize (IH (seen ++ [p]) m1 Hadd).
  by destruct (load_map stat block db m1) as [m2 n].
Qed.

Lemma protected_denied t m dev ino op : represents jhash2 hash_min t m →
  protected m IG_BLOCK_DENY (dev, ino) → op ∈ [IG_OP_WRITE; IG_OP_DELETE; IG_OP_RENAME] →
  inode_policy_lookup t dev ino op = Some IG_BLOCK_DENY.
Proof.
  intros [_ Hm] (e & He & Hmask & Hb) Hop. unfold inode_policy_lookup.
  change (ps_find t dev ino) with (find_entry jhash2 hash_min t dev ino). rewrite Hm, He, Hmask, Hb.
  rewrite !elem_of_cons, elem_of_nil in Hop. by destruct Hop as [->|[->|[->|[]]]].
Qed.

Lemma sizeof_event_eq : sizeof_event = 7488.
Proof. reflexivity. Qed.

(** ** Properties *)

(** Once a baseline is loaded in DENY mode, a system call that would
    write, delete or rename one of its files the kernel had memory for is refused
    with [-EPERM] and the original is not run, whatever hash functions the kernel
    uses. *)
Theorem baseline_files_are_enforced (v : vfs) (env : kenv) (stat : cstring → option (Z * Z))
    (fd : Z) (db : list (cstring * bool)) (nr : sysno) (r : pt_regs) (a : access) (p : cstring) (d i : Z)
    (Hfd : 0 ≤ fd) (Hp : (p, true) ∈ db) (Hst : stat p = Some (d, i))
    (Ha : a ∈ accesses v nr r) (Hkey : (a_dev a, a_ino a) = (stat_dev_to_kernel d, i))
    (Hop : a_op a ∈ [IG_OP_WRITE; IG_OP_DELETE; IG_OP_RENAME]) :
  ∃ n s s', lkm_add_from_baseline stat fd db IG_BLOCK_DENY
            (Lkm ig_policy_init (pc_index_init, stats_zero) [] false) = Some (n, s) ∧
    0 ≤ n ≤ Z.of_nat (length db) ∧
    entry_310 hash_min_pid v env nr r s = Some (HReturn (- EPERM), s').
Proof.
  destruct (load_refines stat fd IG_BLOCK_DENY db Hfd
              (Lkm ig_policy_init (pc_index_init, stats_zero) [] false) ∅
              (represents_init jhash2 hash_min)) as (t & Hl & Hr).
  assert (Hd : protected (load_map stat IG_BLOCK_DENY db ∅).1 IG_BLOCK_DENY (a_dev a, a_ino a)).
  { apply load_map_protects. left. by exists p, d, i. }
  set (s := set_table t (Lkm ig_policy_init (pc_index_init, stats_zero) [] false)).
  assert (Hden : existsb (denied (k_policy s)) (accesses v nr r) = true).
  { apply existsb_exists. exists a. split; [by apply list_elem_of_In|]. unfold denied.
    change (k_policy s) with t. rewrite (protected_denied t _ _ _ _ Hr Hd Hop). reflexivity. }
  destruct (entry_310_decides hash_min_pid v env nr r s (ix_ok_init _)) as (s' & He). rewrite Hden in He.
  eexists _, s, s'. split; [exact Hl|]. split; [apply load_map_count|exact He].
Qed.

(** A client that could not open the device, or closed it, changes nothing in
    the module: every policy call returns -1 and a baseline registers no file. *)
Theorem closed_client_inert (opened : Z + Z) (stat : cstring → option (Z * Z)) (db : list (cstring * bool))
    (block st_dev st_ino mask : Z) (path : option cstring) (ok : bool) (s : lkm table)
    (Hfd : ∀ fd, opened = inl fd → 0 ≤ fd) (Herr : ∀ e, opened = inr e → 0 < e) :
  let fd := (lkm_client_init opened).2 in
  lkm_client_ready fd = bool_decide ((lkm_client_init opened).1 = 0) ∧
  let fd' := if lkm_client_ready fd then (lkm_client_cleanup fd).2 else fd in
  lkm_client_ready fd' = false ∧ lkm_clear_all fd' s = Some (-1, s) ∧
  lkm_add_inode fd' st_dev st_ino mask block path ok s = Some (-1, s) ∧
  lkm_remove_inode fd' st_dev st_ino s = Some (-1, s) ∧ lkm_add_from_baseline stat fd' db block s = Some (0, s).
Proof.
  intros fd.
  assert (Hclosed : ∃ fd', fd' = -1 ∧ (if lkm_client_ready fd then (lkm_client_cleanup fd).2 else fd) = fd').
  { exists (-1). split; [done|]. subst fd. destruct opened as [f|e]; cbn; [|done]. specialize (Hfd f eq_refl).
    unfold lkm_client_ready, lkm_client_cleanup. by rewrite (proj2 (Z.leb_le 0 f) Hfd). }
  split.
  - subst fd. destruct opened as [f|e]; cbn; unfold lkm_client_ready.
    + rewrite (proj2 (Z.leb_le 0 f) (Hfd f eq_refl)). symmetry. by apply bool_decide_eq_true.
    + symmetry. apply bool_decide_eq_false. specialize (Herr e eq_refl). lia.
  - destruct Hclosed as (fd' & -> & ->). do 4 (split; [done|]).
    induction db as [|[p a] db IH]; [done|]. cbn [lkm_add_from_baseline].
    destruct (stat p) as [[d i]|]; [|done]. unfold kbind at 1, lkm_add_inode, ioctl. cbn [Z.ltb Z.compare kret mbind option_bind].
    unfold kbind. by rewrite IH.
Qed.

(** A read with room for an event and an event queued returns exactly one
    event, the oldest, and removes it from the queue; it is removed, and lost,
    when the copy to user space fails. *)
Theorem read_delivers_oldest (s : lkm table) (count : Z) (woken : option (list ig_lkm_event))
    (copy_ok : bool) (ev : ig_lkm_event) (q : list ig_lkm_event)
    (Hcount : sizeof_event ≤ count) (Hq : k_fifo s = ev :: q) :
  ig_read count woken true copy_ok s =
  Some (if copy_ok then (7488, Some ev) else (- EFAULT, None), set_fifo (λ _, q) s).
Proof.
  unfold ig_read. destruct (Z.ltb_spec count sizeof_event); [lia|].
  unfold kbind, kget, ig_event_empty, ig_event_pop. rewrite Hq. cbn [mbind option_bind].
  unfold kret. cbn [mbind option_bind negb]. rewrite Hq. cbn [mbind option_bind].
  by destruct copy_ok.
Qed.

(** The device key the client computes is the kernel's [MKDEV]: major
    above 20 bits of minor, so two devices whose numbers the kernel can
    represent never share a key. *)
Theorem device_key_exact (st_dev : Z) (Hmaj : major st_dev < 4096) (Hmin : minor st_dev < 1048576)
    (Hpos : 0 ≤ st_dev) :
  Z.shiftr (stat_dev_to_kernel st_dev) 20 = major st_dev ∧
  Z.land (stat_dev_to_kernel st_dev) 0xFFFFF = minor st_dev.
Proof.
  assert (H0 : 0 ≤ major st_dev ∧ 0 ≤ minor st_dev).
  { unfold major, minor. split; apply Z.lor_nonneg; split; apply Z.land_nonneg; right; lia. }
  unfold stat_dev_to_kernel. rewrite Z.shiftl_mul_pow2 by lia.
  assert (u64 (major st_dev * 2 ^ 20) = major st_dev * 2 ^ 20) as ->.
  { apply wrap_small. unfold in_width. lia. }
  assert (Z.lor (major st_dev * 2 ^ 20) (minor st_dev) = major st_dev * 2 ^ 20 + minor st_dev) as ->.
  { symmetry. rewrite <- Z.lxor_lor; [rewrite Z.add_nocarry_lxor; [done|]|].
    all: rewrite <- Z.shiftl_mul_pow2 by lia; apply Z.bits_inj'; intros n Hn;
      rewrite Z.land_spec, Z.bits_0, Z.shiftl_spec by done.
    all: destruct (Z.ltb_spec n 20);
      [rewrite Z.testbit_neg_r by lia; done|
       rewrite (Z.bits_above_log2 (minor st_dev) n); [apply andb_false_r|lia|]].
    all: destruct (Z.eq_dec (minor st_dev) 0) as [->|]; [cbn; lia|].
    all: apply Z.log2_lt_pow2; [lia|]; apply Z.lt_le_trans with (2 ^ 20); [lia|];
      apply Z.pow_le_mono_r; lia. }
  split.
  - rewrite Z.shiftr_div_pow2, Z.add_comm, Z.div_add by lia. rewrite Z.div_small by lia. done.
  - change 0xFFFFF with (Z.ones 20). rewrite Z.land_ones, Z.add_comm, Z_mod_plus_full by lia.
    apply Z.mod_small. lia.
Qed.
End chardev.

(** ** Loading and unloading the module *)

Inductive resource :=
  | RForkProbe | RExecProbe | RExitProbe | RGcWork | RRegion | RCdev | RClass | RDevice | RHooks.

#[export] Instance resource_eq_dec : EqDecision resource.
Proof. solve_decision. Defined.

(** [register_kprobe]: its result, needed from 5.7 on, where the symbol is not
    exported. *)
(* @src lkm/ig_lkm_proc_cache.c:529-541 pc_resolve_kallsyms *)
Definition pc_resolve_kallsyms (version register_kprobe : Z) : Z :=
  if 0x050700 <=? version then if register_kprobe <? 0 then register_kprobe else 0 else 0.

(** Results of the kernel calls, in the order the module makes them; 0 is
    success. [ld_resolve] is what [pc_resolve_kallsyms] returns, 0 before 3.15.
    [ld_symbols]: the tracepoints were found. *)
Record load_env := LoadEnv {
  ld_resolve : Z; ld_symbols : bool; ld_fork : Z; ld_exec : Z; ld_exit : Z;
  ld_region : Z; ld_cdev : Z; ld_class : Z; ld_device_ok : bool; ld_hooks : Z }.

(** A release gives back one resource; releasing what is not held is a fault. *)
Definition release (r : resource) (held : option (list resource)) : option (list resource) :=
  h ← held; if decide (r ∈ h) then Some (filter (λ x, x ≠ r) h) else None.

Definition hold (r : resource) (held : option (list resource)) : option (list resource) :=
  h ← held; Some (r :: h).

Abbreviation holding := (option (list resource)).

(* @src lkm/ig_lkm_proc_cache.c:552-618 ig_proc_cache_init *)
Definition ig_proc_cache_init (k : load_env) (h : holding) : Z * holding :=
  if negb (ld_resolve k =? 0) then (ld_resolve k, h)
  else if negb (ld_symbols k) then (- ENOENT, h)
  else if negb (ld_fork k =? 0) then (ld_fork k, h)
  else let h := hold RForkProbe h in
  if negb (ld_exec k =? 0) then (ld_exec k, release RForkProbe h)
  else let h := hold RExecProbe h in
  if negb (ld_exit k =? 0) then (ld_exit k, release RForkProbe (release RExecProbe h))
  else (0, hold RGcWork (hold RExitProbe h)).

(* @src lkm/ig_lkm_proc_cache.c:627-640 ig_proc_cache_exit *)
Definition proc_cache_release (h : holding) : holding :=
  release RGcWork (release RForkProbe (release RExecProbe (release RExitProbe h))).

(* @src lkm/ig_lkm_chardev.c:104-145 ig_chardev_init *)
Definition ig_chardev_init (k : load_env) (h : holding) : Z * holding :=
  if negb (ld_region k =? 0) then (ld_region k, h)
  else let h := hold RRegion h in
  if negb (ld_cdev k =? 0) then (ld_cdev k, release RRegion h)
  else let h := hold RCdev h in
  if negb (ld_class k =? 0) then (ld_class k, release RRegion (release RCdev h))
  else let h := hold RClass h in
  if negb (ld_device_ok k) then (- ENOMEM, release RRegion (release RCdev (release RClass h)))
  else (0, hold RDevice h).

(* @src lkm/ig_lkm_chardev.c:147-154 ig_chardev_exit *)
Definition ig_chardev_exit (h : holding) : holding :=
  release RRegion (release RCdev (release RClass (release RDevice h))).

(* @src lkm/ig_lkm_main.c:33-65 ig_lkm_init *)
Definition ig_lkm_init (k : load_env) (h : holding) : Z * holding :=
  let (ret, h) := ig_proc_cache_init k h in
  if negb (ret =? 0) then (ret, h)
  else let (ret, h) := ig_chardev_init k h in
  if negb (ret =? 0) then (ret, proc_cache_release h)
  else if negb (ld_hooks k =? 0) then (ld_hooks k, proc_cache_release (ig_chardev_exit h))
  else (0, hold RHooks h).

(* @src lkm/ig_lkm_main.c:67-75 ig_lkm_exit *)
Definition ig_lkm_exit (h : holding) : holding :=
  proc_cache_release (ig_chardev_exit (release RHooks h)).

(** Loading the module acquires everything or, on any failing step,
    gives back exactly what it had acquired and returns that step's error;
    unloading a loaded module releases everything once. *)
Theorem module_load_all_or_nothing (k : load_env) :
  let (ret, h) := ig_lkm_init k (Some []) in
  if ret =? 0
  then h = Some [RHooks; RDevice; RClass; RCdev; RRegion; RGcWork; RExitProbe; RExecProbe; RForkProbe]
       ∧ ig_lkm_exit h = Some []
  else h = Some [].
Proof.
  destruct k as [c1 b1 c2 c3 c4 c5 c6 c7 b2 c8].
  destruct c1; [|by vm_compute|by vm_compute]. destruct b1; [|by vm_compute].
  destruct c2; [|by vm_compute|by vm_compute]. destruct c3; [|by vm_compute|by vm_compute].
  destruct c4; [|by vm_compute|by vm_compute]. destruct c5; [|by vm_compute|by vm_compute].
  destruct c6; [|by vm_compute|by vm_compute]. destruct c7; [|by vm_compute|by vm_compute].
  destruct b2; [|by vm_compute]. destruct c8; by vm_compute.
Qed.

(** *** Witnesses *)

(** [/etc/passwd] is inode 7 of device 8:1, open as descriptor 3. *)
Definition passwd_stat (p : cstring) : option (Z * Z) :=
  if decide (p = lit "/etc/passwd") then Some (0x801, 7) else None.
Definition passwd_vfs : vfs := Vfs (λ _ _ _, None)
  (λ fd, if fd =? 3 then Some (Some (KInode (Some 0x800001) 7 0x81A4)) else None).

Lemma baseline_files_are_enforced_witness :
  ∃ n s s', lkm_add_from_baseline (λ _ _, 0) hash_zero passwd_stat 4
            [(lit "/etc/shadow", false); (lit "/etc/passwd", true)] IG_BLOCK_DENY
            (Lkm ig_policy_init (pc_index_init, stats_zero) [] false) = Some (n, s) ∧ 0 ≤ n ≤ 2 ∧
    entry_310 (H := policy_table_store (λ _ _, 0) hash_zero) (λ p, p mod 4096) passwd_vfs
      sample_env NR_write (PtRegs 3 0 10 0 0) s = Some (HReturn (- EPERM), s').
Proof.
  apply (baseline_files_are_enforced (λ _ _, 0) hash_zero (λ p, p mod 4096) passwd_vfs sample_env
    passwd_stat 4 [(lit "/etc/shadow", false); (lit "/etc/passwd", true)] NR_write (PtRegs 3 0 10 0 0)
    (Access 0x800001 7 IG_OP_WRITE true false) (lit "/etc/passwd") 0x801 7).
  - lia.
  - right. by left.
  - reflexivity.
  - by left.
  - reflexivity.
  - by left.
Defined.

Lemma read_delivers_oldest_witness :
  let ev := LkmEvent 8 7 1 1 200 0 (lit "sh") (lit "/etc/passwd") 0 0 false [] in
  ig_read 8192 None true true (Lkm ig_policy_init (pc_index_init, stats_zero) [ev] false) =
  Some ((7488, Some ev), Lkm ig_policy_init (pc_index_init, stats_zero) [] false).
Proof.
  intros ev.
  exact (read_delivers_oldest (Lkm ig_policy_init (pc_index_init, stats_zero) [ev] false) 8192 None
           true ev [] ltac:(vm_compute; discriminate) eq_refl).
Defined.

Lemma device_key_exact_witness :
  Z.shiftr (stat_dev_to_kernel 0x801) 20 = 8 ∧ Z.land (stat_dev_to_kernel 0x801) 0xFFFFF = 1.
Proof. exact (device_key_exact 0x801 eq_refl eq_refl ltac:(lia)). Defined.
