(* ===== verification/LkmWakeup.v ===== *)
(** * Sleeping and waking on the event fifo (lkm/ig_lkm_events.c, ig_lkm_chardev.c)

    [ig_event_enqueue] puts the event in and only schedules the work item that
    wakes the readers; [ig_read] sleeps in [wait_event_interruptible]. Here every
    access to the fifo, to the work's pending bit and to the wait queue is a step
    of its own: any number of callers, any number of readers and the worker that
    runs the item interleave. Shown: no wake-up is lost, and each event goes to one
    reader, in order. *)

From S2P Require Import Prelude Bytes Monitor LkmPolicy ProcCache LkmEvents LkmChardev.
From stdpp Require Import vector.

Local Open Scope Z_scope.

(** A caller of [ig_event_enqueue]: about to put its event in, or to schedule the
    work item. *)
(* @src lkm/ig_lkm_events.c:168-177 ig_event_enqueue *)
Inductive caller_phase := CPut (ev : ig_lkm_event) | CSchedule.

(** The worker: about to test the fifo, or to wake the readers. A work item runs
    on one worker at a time. *)
(* @src lkm/ig_lkm_events.c:45-49 ig_event_flush_work *)
Inductive worker_phase := WIdle | WTest | WWake.

(** A reader in [wait_event_interruptible]: the first test; about to enter the
    wait queue; in the queue, testing; in [schedule()]; past it, about to allocate
    and take. [woken]: it was set running again since it entered the queue. *)
(* @src lkm/ig_lkm_chardev.c:69-88 ig_read *)
Inductive reader_phase := RCheck | RPrepare | RTest (woken : bool) | RSleep (woken : bool) | RTake.

Section wakeup.
Context {T : Type}.

(** [w_put], [w_taken]: every event the fifo took and gave, in order;
    [w_returned]: what each finished read returned. *)
Record waits := Waits {
  w_mod : lkm T; w_work : worker_phase;
  w_callers : gmap nat caller_phase; w_readers : gmap nat reader_phase; w_signals : gset nat;
  w_put : list ig_lkm_event; w_taken : list ig_lkm_event;
  w_returned : list (nat * (Z * option ig_lkm_event)) }.

Definition wake (ph : reader_phase) : reader_phase :=
  match ph with RTest _ => RTest true | RSleep _ => RSleep true | _ => ph end.

Definition with_callers (f : gmap nat caller_phase → gmap nat caller_phase) (s : waits) : waits :=
  Waits (w_mod s) (w_work s) (f (w_callers s)) (w_readers s) (w_signals s) (w_put s) (w_taken s) (w_returned s).
Definition with_readers (f : gmap nat reader_phase → gmap nat reader_phase) (s : waits) : waits :=
  Waits (w_mod s) (w_work s) (w_callers s) (f (w_readers s)) (w_signals s) (w_put s) (w_taken s) (w_returned s).
Definition with_work (m : lkm T) (w : worker_phase) (s : waits) : waits :=
  Waits m w (w_callers s) (w_readers s) (w_signals s) (w_put s) (w_taken s) (w_returned s).

(** [kfifo_in], then [schedule_work]. *)
(* @src lkm/ig_lkm_events.c:168-177 ig_event_enqueue *)
Definition caller_step (c : nat) (ph : caller_phase) (s : waits) : waits :=
  match ph with
  | CPut ev =>
      let q := k_fifo (w_mod s) in
      Waits (set_fifo (kfifo_in ev) (w_mod s)) (w_work s) (<[c := CSchedule]> (w_callers s)) (w_readers s) (w_signals s)
        (w_put s ++ drop (length q) (kfifo_in ev q)) (w_taken s) (w_returned s)
  | CSchedule => with_work (set_flush (w_mod s)) (w_work s) (with_callers (delete c) s)
  end.

(** The work item, its pending bit cleared before it runs. *)
(* @src lkm/ig_lkm_events.c:45-49 ig_event_flush_work *)
Definition worker_step (s : waits) : option waits :=
  match w_work s with
  | WIdle => None
  | WTest => Some (with_work (w_mod s) (if ig_event_empty (w_mod s) then WIdle else WWake) s)
  | WWake => Some (with_work (w_mod s) WIdle (with_readers (fmap wake) s))
  end.

Definition finish (r : nat) (res : Z * option ig_lkm_event) (m : lkm T) (taken : list ig_lkm_event) (s : waits) : waits :=
  Waits m (w_work s) (w_callers s) (delete r (w_readers s)) (w_signals s) (w_put s) (w_taken s ++ taken)
    (w_returned s ++ [(r, res)]).

(** The end of a read: [kmalloc], [ig_event_pop], [copy_to_user]. *)
(* @src lkm/ig_lkm_chardev.c:73-88 ig_read *)
Definition take_step (r : nat) (alloc_ok copy_ok : bool) (s : waits) : waits :=
  if negb alloc_ok then finish r (- ENOMEM, None) (w_mod s) [] s
  else match k_fifo (w_mod s) with
       | [] => finish r (0, None) (w_mod s) [] s
       | ev :: q =>
           finish r (if copy_ok then (sizeof_event, Some ev) else (- EFAULT, None)) (set_fifo (λ _, q) (w_mod s)) [ev] s
       end.

(** [None]: asleep. *)
(* @src lkm/ig_lkm_chardev.c:69-88 ig_read *)
Definition reader_step (r : nat) (alloc_ok copy_ok : bool) (ph : reader_phase) (s : waits) : option waits :=
  let goto ph := Some (with_readers (<[r := ph]>) s) in
  let empty := ig_event_empty (w_mod s) in
  match ph with
  | RCheck => goto (if empty then RPrepare else RTake)
  | RPrepare => goto (RTest false)
  | RTest woken =>
      if negb empty then goto RTake
      else if bool_decide (r ∈ w_signals s) then Some (finish r (- ERESTARTSYS, None) (w_mod s) [] s)
      else goto (RSleep woken)
  | RSleep woken => if woken then goto RPrepare else None
  | RTake => Some (take_step r alloc_ok copy_ok s)
  end.

(** [Call]: a hook has built an event; [Open]: a read with room for an event
    begins; [Signal]: a signal for a reader, which wakes it. *)
Inductive wmove :=
  Call (c : nat) (ev : ig_lkm_event) | Caller (c : nat) | Start | Worker
  | Open (r : nat) | Reader (r : nat) (alloc_ok copy_ok : bool) | Signal (r : nat).

Definition wstep (s : waits) (m : wmove) : option waits :=
  match m with
  | Call c ev => match w_callers s !! c with None => Some (with_callers (<[c := CPut ev]>) s) | _ => None end
  | Caller c => ph ← w_callers s !! c; Some (caller_step c ph s)
  | Start =>
      match w_work s with
      | WIdle => if k_flush (w_mod s)
                 then Some (with_work (Lkm (k_policy (w_mod s)) (k_cache (w_mod s)) (k_fifo (w_mod s)) false) WTest s)
                 else None
      | _ => None
      end
  | Worker => worker_step s
  | Open r => match w_readers s !! r with None => Some (with_readers (<[r := RCheck]>) s) | _ => None end
  | Reader r a c => ph ← w_readers s !! r; reader_step r a c ph s
  | Signal r =>
      ph ← w_readers s !! r;
      let s' := with_readers (<[r := wake ph]>) s in
      Some (Waits (w_mod s') (w_work s') (w_callers s') (w_readers s') ({[r]} ∪ w_signals s') (w_put s') (w_taken s')
              (w_returned s'))
  end.
Definition wrun (ms : list wmove) (s : waits) : option waits := fold_left (λ acc m, s ← acc; wstep s m) ms (Some s).

Definition quiet (m : lkm T) : waits := Waits m WIdle ∅ ∅ ∅ [] [] [].

(** What the kernel does by itself: calls that are under way end, the worker runs. *)
Definition kernel_move (m : wmove) : bool := match m with Caller _ | Start | Worker => true | _ => false end.

(** ** The kernel's moves end *)

Definition caller_cost (ph : caller_phase) : nat := match ph with CPut _ => 5 | CSchedule => 4 end.
Definition callers_cost (m : gmap nat caller_phase) : nat := map_fold (λ _ ph n, caller_cost ph + n)%nat 0%nat m.

(** How many moves the kernel can make at most without a new call. *)
Definition kernel_moves_left (s : waits) : nat :=
  (callers_cost (w_callers s) + (if k_flush (w_mod s) then 3 else 0) +
   match w_work s with WIdle => 0 | WTest => 2 | WWake => 1 end)%nat.

Lemma callers_cost_insert c ph m : m !! c = None → callers_cost (<[c := ph]> m) = (caller_cost ph + callers_cost m)%nat.
Proof. intros Hc. unfold callers_cost. rewrite map_fold_insert_L; [done| |done]. intros. lia. Qed.
Lemma callers_cost_delete c ph m : m !! c = Some ph → callers_cost m = (caller_cost ph + callers_cost (delete c m))%nat.
Proof.
  intros Hc. rewrite <- (callers_cost_insert c ph) by apply lookup_delete_eq. by rewrite insert_delete_id.
Qed.
Lemma callers_cost_replace c ph ph' m : m !! c = Some ph →
  (callers_cost (<[c := ph']> m) + caller_cost ph = caller_cost ph' + callers_cost m)%nat.
Proof.
  intros Hc. rewrite (callers_cost_delete c ph' (<[c := ph']> m)) by apply lookup_insert_eq.
  rewrite delete_insert_eq, (callers_cost_delete c ph m Hc). lia.
Qed.

Lemma kernel_step_measure m s s' : kernel_move m = true → wstep s m = Some s' →
  (kernel_moves_left s' < kernel_moves_left s)%nat.
Proof.
  intros Hm Hs. destruct m as [| c | | | | |]; try done; cbn [wstep] in Hs.
  - destruct (w_callers s !! c) as [ph|] eqn:Hc; [|done]. injection Hs as <-. unfold kernel_moves_left. destruct ph; cbn.
    + pose proof (callers_cost_replace c _ CSchedule _ Hc) as Hr. cbn in Hr. unfold set_fifo. cbn. lia.
    + rewrite (callers_cost_delete _ _ _ Hc). cbn. destruct (k_flush _); lia.
  - unfold kernel_moves_left. destruct (w_work s); try done. destruct (k_flush _); [|done]. injection Hs as <-. cbn. lia.
  - unfold worker_step, kernel_moves_left in *. destruct (w_work s); [done|..]; injection Hs as <-; cbn; [|lia].
    destruct (ig_event_empty _); lia.
Qed.

Lemma wrun_cons m ms s : wrun (m :: ms) s = s' ← wstep s m; wrun ms s'.
Proof. unfold wrun. cbn. destruct (wstep s m); [done|]. by induction ms. Qed.

Lemma kernel_run_bounded ms : ∀ s s', Forall (λ m, kernel_move m = true) ms → wrun ms s = Some s' →
  (length ms + kernel_moves_left s' ≤ kernel_moves_left s)%nat.
Proof.
  induction ms as [|m ms IH]; intros s s' Hms Hr; [injection Hr as ->; cbn; lia|].
  apply Forall_cons in Hms as [Hm Hms]. rewrite wrun_cons in Hr. destruct (wstep s m) as [s1|] eqn:Hs; [|done].
  pose proof (kernel_step_measure _ _ _ Hm Hs). specialize (IH s1 s' Hms Hr). cbn. lia.
Qed.

(** ** The invariant *)

(** Someone will still wake the readers. *)
Definition wake_coming (s : waits) : Prop :=
  k_flush (w_mod s) = true ∨ w_work s ≠ WIdle ∨ ∃ c, w_callers s !! c = Some CSchedule.

Record waits_ok (s : waits) : Prop := {
  wo_bound : (length (k_fifo (w_mod s)) ≤ IG_EVENT_LKM_QUEUE_SIZE)%nat;
  wo_order : w_put s = w_taken s ++ k_fifo (w_mod s);
  wo_wake : ∀ r, w_readers s !! r = Some (RSleep false) → k_fifo (w_mod s) ≠ [] → wake_coming s }.

Lemma quiet_ok m : k_fifo m = [] → waits_ok (quiet m).
Proof. intros Hf. split; cbn; rewrite Hf; [cbn; lia|done|done]. Qed.

Lemma kfifo_in_split ev q : kfifo_in ev q = q ++ drop (length q) (kfifo_in ev q).
Proof. unfold kfifo_in. case_bool_decide; [by rewrite drop_app_length|by rewrite drop_all, app_nil_r]. Qed.

Lemma caller_step_ok c ph s : waits_ok s → w_callers s !! c = Some ph → waits_ok (caller_step c ph s).
Proof.
  intros [Hb Ho Hw] Hc. destruct ph as [ev|]; split; cbn; unfold set_fifo; cbn; try done.
  - by apply fifo_in_length.
  - rewrite Ho, <- app_assoc. f_equal. by rewrite <- kfifo_in_split.
  - intros r _ _. right; right. exists c. cbn. by rewrite lookup_insert_eq.
  - intros r _ _. by left.
Qed.

Lemma empty_fifo (m : lkm T) : ig_event_empty m = true ↔ k_fifo m = [].
Proof. unfold ig_event_empty. by destruct (k_fifo m). Qed.

Lemma worker_step_ok s s' : waits_ok s → worker_step s = Some s' → waits_ok s'.
Proof.
  intros [Hb Ho Hw] Hs. unfold worker_step in Hs. destruct (w_work s) eqn:Ew; [done|..]; injection Hs as <-; split;
    cbn; try done.
  - intros r _ Hf. right; left. cbn. destruct (ig_event_empty _) eqn:He; [|done]. by apply empty_fifo in He.
  - intros r Hr. exfalso. rewrite lookup_fmap in Hr. by destruct (w_readers s !! r) as [[]|].
Qed.

(** What a reader does keeps the promise when it sleeps on an empty fifo only. *)
Lemma readers_ok f s : waits_ok s →
  (∀ r, f (w_readers s) !! r = Some (RSleep false) → w_readers s !! r = Some (RSleep false) ∨ k_fifo (w_mod s) = []) →
  waits_ok (with_readers f s).
Proof.
  intros [Hb Ho Hw] Hf. split; [done..|]. intros r Hr Hq. cbn in Hr, Hq.
  destruct (Hf r Hr) as [Hr'|?]; [|done]. exact (Hw r Hr' Hq).
Qed.

Lemma insert_awake r ph s : waits_ok s → (ph = RSleep false → k_fifo (w_mod s) = []) →
  waits_ok (with_readers (<[r := ph]>) s).
Proof.
  intros Hok Hph. apply readers_ok; [done|]. intros r'. destruct (decide (r' = r)) as [->|Hne].
  - rewrite lookup_insert_eq. intros [= ->]. right. by apply Hph.
  - rewrite lookup_insert_ne by congruence. by left.
Qed.

Lemma finish_ok r res m taken s : waits_ok s → k_fifo (w_mod s) = taken ++ k_fifo m → k_flush m = k_flush (w_mod s) →
  waits_ok (finish r res m taken s).
Proof.
  intros [Hb Ho Hw] Hf Hfl. split; cbn.
  - rewrite Hf, length_app in Hb. lia.
  - by rewrite Ho, Hf, app_assoc.
  - intros r' Hr Hq. rewrite lookup_delete_Some in Hr. destruct Hr as [_ Hr].
    assert (Hq' : k_fifo (w_mod s) ≠ []) by (rewrite Hf; by destruct taken).
    destruct (Hw r' Hr Hq') as [H|H]; [left; cbn; congruence|by right].
Qed.

Lemma take_step_ok r a c s : waits_ok s → waits_ok (take_step r a c s).
Proof.
  intros Hok. unfold take_step. destruct a; cbn [negb]; [|by apply finish_ok].
  destruct (k_fifo (w_mod s)) as [|ev q] eqn:Hf; apply finish_ok; try done; by rewrite Hf.
Qed.

Lemma reader_step_ok r a c ph s s' : waits_ok s → reader_step r a c ph s = Some s' → waits_ok s'.
Proof.
  intros Hok Hs. unfold reader_step in Hs. destruct ph as [| |w|w|].
  - injection Hs as <-. apply insert_awake; [done|]. by destruct (ig_event_empty _).
  - injection Hs as <-. by apply insert_awake.
  - destruct (ig_event_empty _) eqn:He; cbn [negb] in Hs; [|injection Hs as <-; by apply insert_awake].
    case_bool_decide; injection Hs as <-; [by apply finish_ok|]. apply insert_awake; [done|]. intros _. by apply empty_fifo.
  - destruct w; [|done]. injection Hs as <-. by apply insert_awake.
  - injection Hs as <-. by apply take_step_ok.
Qed.

Lemma wstep_ok m s s' : waits_ok s → wstep s m = Some s' → waits_ok s'.
Proof.
  intros Hok Hs. destruct m as [c ev|c| | |r|r a b|r]; cbn [wstep] in Hs.
  - destruct (w_callers s !! c) eqn:Hc; [done|]. injection Hs as <-. destruct Hok as [Hb Ho Hw]. split; [done..|].
    intros r Hr Hq. destruct (Hw r Hr Hq) as [H|[H|[c' Hc']]]; [by left|by right; left|right; right].
    exists c'. cbn. rewrite lookup_insert_ne by congruence. done.
  - destruct (w_callers s !! c) as [ph|] eqn:Hc; [|done]. injection Hs as <-. by apply caller_step_ok.
  - destruct (w_work s) eqn:Ew; try done. destruct (k_flush _); [|done]. injection Hs as <-.
    destruct Hok as [Hb Ho Hw]. split; [done..|]. intros r _ _. right; left. done.
  - by apply worker_step_ok in Hs.
  - destruct (w_readers s !! r); [done|]. injection Hs as <-. by apply insert_awake.
  - destruct (w_readers s !! r) as [ph|]; [|done]. by apply reader_step_ok in Hs.
  - destruct (w_readers s !! r) as [ph|]; [|done]. injection Hs as <-.
    pose proof (insert_awake r (wake ph) s Hok ltac:(by destruct ph)) as [Hb Ho Hw]. by split.
Qed.

Lemma wrun_ok ms : ∀ s s', waits_ok s → wrun ms s = Some s' → waits_ok s'.
Proof.
  induction ms as [|m ms IH]; intros s s' Hok Hr; [by injection Hr as <-|]. rewrite wrun_cons in Hr.
  destruct (wstep s m) as [s1|] eqn:Hs; [|done]. eapply IH; [|exact Hr]. by eapply wstep_ok.
Qed.
(** ** The kernel comes to rest, and nobody sleeps before a full fifo *)

Definition settled (s : waits) : Prop := ∀ k, kernel_move k = true → wstep s k = None.

Lemma settled_or_moves s : settled s ∨ ∃ k s', kernel_move k = true ∧ wstep s k = Some s'.
Proof.
  destruct (decide (w_callers s = ∅)) as [He|Hne].
  - destruct (w_work s) eqn:Ew.
    + destruct (k_flush (w_mod s)) eqn:Ef; [right; exists Start; cbn; rewrite Ew, Ef; by eexists|left].
      intros [| c | | | | |] Hk; try done; cbn; unfold worker_step; by rewrite ?Ew, ?Ef, ?He, ?lookup_empty.
    + right. exists Worker. cbn. unfold worker_step. rewrite Ew. by eexists.
    + right. exists Worker. cbn. unfold worker_step. rewrite Ew. by eexists.
  - apply map_choose in Hne as (c & ph & Hc). right. exists (Caller c). cbn. rewrite Hc. by eexists.
Qed.

Lemma kernel_settles n : ∀ s, (kernel_moves_left s ≤ n)%nat →
  ∃ ks s', Forall (λ k, kernel_move k = true) ks ∧ wrun ks s = Some s' ∧ settled s'.
Proof.
  induction n as [|n IH]; intros s Hn; destruct (settled_or_moves s) as [Hs|(k & s1 & Hk & Hs)].
  1, 3: by exists [], s.
  all: pose proof (kernel_step_measure _ _ _ Hk Hs).
  { lia. }
  destruct (IH s1 ltac:(lia)) as (ks & s' & Hks & Hr & Hq). exists (k :: ks), s'.
  split; [by constructor|]. split; [by rewrite wrun_cons, Hs|done].
Qed.

Lemma settled_no_wake s : settled s → ¬ wake_coming s.
Proof.
  intros Hs [Hf|[Hw|[c Hc]]].
  - specialize (Hs Start eq_refl) as H1. specialize (Hs Worker eq_refl) as H2. cbn in H1, H2. unfold worker_step in H2.
    rewrite Hf in H1. by destruct (w_work s).
  - specialize (Hs Worker eq_refl) as H2. cbn in H2. unfold worker_step in H2. by destruct (w_work s).
  - specialize (Hs (Caller c) eq_refl) as H1. cbn in H1. by rewrite Hc in H1.
Qed.

(** The kernel's moves take no reader out. *)
Lemma kernel_keeps_reader m s s' r : kernel_move m = true → wstep s m = Some s' →
  is_Some (w_readers s !! r) → is_Some (w_readers s' !! r).
Proof.
  intros Hm Hs Hr. destruct m as [| c | | | | |]; try done; cbn [wstep] in Hs.
  - destruct (w_callers s !! c) as [[]|]; [..|done]; by injection Hs as <-.
  - destruct (w_work s); try done. destruct (k_flush _); [|done]. by injection Hs as <-.
  - unfold worker_step in Hs. destruct (w_work s); [done|..]; injection Hs as <-; [done|]. cbn.
    rewrite lookup_fmap. by apply fmap_is_Some.
Qed.

Lemma kernel_run_keeps ms r : ∀ s s', Forall (λ m, kernel_move m = true) ms → wrun ms s = Some s' →
  is_Some (w_readers s !! r) → is_Some (w_readers s' !! r).
Proof.
  induction ms as [|m ms IH]; intros s s' Hms Hr Hin; [by injection Hr as <-|].
  apply Forall_cons in Hms as [Hm Hms]. rewrite wrun_cons in Hr. destruct (wstep s m) as [s1|] eqn:Hs; [|done].
  eapply IH; [exact Hms|exact Hr|]. by eapply kernel_keeps_reader.
Qed.

(** A reader on its own takes the oldest event. *)
Definition takes (s : waits) (r : nat) (ev : ig_lkm_event) (q : list ig_lkm_event) (n : nat) : Prop :=
  ∃ s', wrun (replicate n (Reader r true true)) s = Some s' ∧ k_fifo (w_mod s') = q ∧
    w_taken s' = w_taken s ++ [ev] ∧ w_returned s' = w_returned s ++ [(r, (sizeof_event, Some ev))].

Lemma takes_goto s r ev q n ph ph' : w_readers s !! r = Some ph →
  reader_step r true true ph s = Some (with_readers (<[r := ph']>) s) →
  takes (with_readers (<[r := ph']>) s) r ev q n → takes s r ev q (S n).
Proof.
  intros Hr Hs (s' & Hrun & H1 & H2 & H3). exists s'. split; [|done]. cbn [replicate].
  rewrite wrun_cons. cbn [wstep]. rewrite Hr. cbn [mbind option_bind]. rewrite Hs. exact Hrun.
Qed.

Lemma take_takes s r ev q : w_readers s !! r = Some RTake → k_fifo (w_mod s) = ev :: q → takes s r ev q 1.
Proof.
  intros Hr Hf. eexists. cbn [replicate]. rewrite wrun_cons. cbn [wstep]. rewrite Hr. cbn [mbind option_bind reader_step].
  split; [reflexivity|]. unfold take_step. rewrite Hf. cbn. done.
Qed.

Lemma awake_takes s r ev q ph : w_readers s !! r = Some ph → ph ≠ RSleep false → k_fifo (w_mod s) = ev :: q →
  ∃ n, (n ≤ 4)%nat ∧ takes s r ev q n.
Proof.
  intros Hr Hph Hf.
  assert (Hin : ∀ ph s, w_readers (with_readers (<[r := ph]>) s) !! r = Some ph) by (intros; cbn; apply lookup_insert_eq).
  assert (Hemp : ∀ s, k_fifo (w_mod s) = ev :: q → ig_event_empty (w_mod s) = false)
    by (intros ? Hf'; unfold ig_event_empty; by rewrite Hf').
  assert (Htest : ∀ w s, w_readers s !! r = Some (RTest w) → k_fifo (w_mod s) = ev :: q → takes s r ev q 2).
  { intros w s1 H1 Hf1. eapply (takes_goto _ _ _ _ _ _ RTake); [exact H1|cbn; by rewrite Hemp|].
    apply take_takes; [apply Hin|exact Hf1]. }
  assert (Hprep : ∀ s, w_readers s !! r = Some RPrepare → k_fifo (w_mod s) = ev :: q → takes s r ev q 3).
  { intros s1 H1 Hf1. eapply (takes_goto _ _ _ _ _ _ (RTest false)); [exact H1|done|].
    eapply Htest; [apply Hin|exact Hf1]. }
  destruct ph as [| |w|[]|].
  - exists 2%nat. split; [lia|]. eapply (takes_goto _ _ _ _ _ _ RTake); [exact Hr|cbn; by rewrite Hemp|].
    apply take_takes; [apply Hin|exact Hf].
  - exists 3%nat. split; [lia|]. by apply Hprep.
  - exists 2%nat. split; [lia|]. by eapply Htest.
  - exists 4%nat. split; [lia|]. eapply (takes_goto _ _ _ _ _ _ RPrepare); [exact Hr|done|].
    apply Hprep; [apply Hin|exact Hf].
  - done.
  - exists 1%nat. split; [lia|]. by apply take_takes.
Qed.

Lemma settled_takes s r ev q : waits_ok s → settled s → is_Some (w_readers s !! r) → k_fifo (w_mod s) = ev :: q →
  ∃ n, (n ≤ 4)%nat ∧ takes s r ev q n.
Proof.
  intros [_ _ Hw] Hset [ph Hr] Hf. eapply awake_takes; [exact Hr| |exact Hf]. intros ->.
  apply (settled_no_wake s Hset). apply (Hw r Hr). by rewrite Hf.
Qed.
End wakeup.
Arguments waits : clear implicits.

(** ** The moves of one party, nobody between them, are the operation *)

Lemma call_alone {T} `{PolicyStore T} hash_min env dev ino op blocked (s : waits T) c :
  ix_ok hash_min (k_cache (w_mod s)).1 → ke_alloc_ok env = true → w_callers s !! c = None →
  ∃ ev m s', ig_event_enqueue hash_min env dev ino op blocked (w_mod s) = Some (tt, m) ∧
    reports env (k_policy (w_mod s)) dev ino op blocked ev ∧
    wrun [Call c ev; Caller c; Caller c] s = Some s' ∧ w_callers s' = w_callers s ∧
    k_fifo (w_mod s') = k_fifo m ∧ k_flush (w_mod s') = k_flush m.
Proof.
  intros Hix Halloc Hc. destruct (enqueue_ok hash_min env dev ino op blocked (w_mod s) Hix) as (m & He & _ & _ & Hm).
  rewrite Halloc in Hm. destruct Hm as (Hfl & ev & Hrep & Hf). exists ev, m.
  assert (Hput : ∀ (t : waits T) ph, w_callers t !! c = Some ph → wstep t (Caller c) = Some (caller_step c ph t)).
  { intros t ph Ht. cbn. by rewrite Ht. }
  rewrite wrun_cons. cbn [wstep]. rewrite Hc. cbn [mbind option_bind].
  rewrite wrun_cons, (Hput _ (CPut ev)) by (cbn; apply lookup_insert_eq). cbn [mbind option_bind].
  rewrite wrun_cons, (Hput _ CSchedule) by (cbn; apply lookup_insert_eq). cbn [mbind option_bind].
  eexists. split; [exact He|]. split; [exact Hrep|]. split; [reflexivity|]. cbn. rewrite insert_insert_eq.
  split; [by apply delete_insert_id|]. by rewrite Hf, Hfl.
Qed.

Lemma work_alone {T} (s : waits T) : w_work s = WIdle → k_flush (w_mod s) = true →
  ∃ b m s', ig_event_flush_work (w_mod s) = Some (b, m) ∧
    wrun (Start :: Worker :: if b : bool then [Worker] else []) s = Some s' ∧ w_work s' = WIdle ∧ w_mod s' = m ∧
    w_readers s' = (if b then wake <$> w_readers s else w_readers s).
Proof.
  intros Hw Hf. unfold ig_event_flush_work.
  destruct (ig_event_empty (w_mod s)) eqn:He; eexists _, _, _; (split; [reflexivity|]); cbn [negb];
    rewrite wrun_cons; cbn [wstep]; rewrite Hw, Hf; cbn [mbind option_bind];
    rewrite wrun_cons; cbn [wstep worker_step with_work w_work w_mod mbind option_bind];
    change (ig_event_empty (Lkm _ _ _ false)) with (ig_event_empty (w_mod s)); rewrite He;
    (split; [reflexivity|done]).
Qed.

Lemma read_alone (s : waits (vec (list ig_policy_entry) 256)) r woken alloc_ok copy_ok ev q :
  w_readers s !! r = None → k_fifo (w_mod s) = ev :: q →
  ∃ res m s', ig_read sizeof_event woken alloc_ok copy_ok (w_mod s) = Some (res, m) ∧
    wrun [Open r; Reader r alloc_ok copy_ok; Reader r alloc_ok copy_ok] s = Some s' ∧
    w_mod s' = m ∧ w_returned s' = w_returned s ++ [(r, res)].
Proof.
  intros Hr Hf. assert (He : ig_event_empty (w_mod s) = false) by (unfold ig_event_empty; by rewrite Hf).
  assert (Hread : ig_read sizeof_event woken alloc_ok copy_ok (w_mod s) =
    Some (if alloc_ok then if copy_ok then (sizeof_event, Some ev) else (- EFAULT, None) else (- ENOMEM, None),
          if alloc_ok then set_fifo (λ _, q) (w_mod s) else w_mod s)).
  { unfold ig_read, kbind, kget, ig_event_pop, kret. change (sizeof_event <? sizeof_event) with false. cbv iota.
    cbn [mbind option_bind]. rewrite He. cbn [mbind option_bind].
    destruct alloc_ok; cbn [negb mbind option_bind]; [|done]. rewrite Hf. by destruct copy_ok. }
  eexists _, _. rewrite !wrun_cons. cbn [wstep]. rewrite Hr. cbn [mbind option_bind]. rewrite wrun_cons. cbn [wstep].
  cbn [w_readers with_readers]. rewrite lookup_insert_eq. cbn [mbind option_bind reader_step w_mod with_readers].
  rewrite He. rewrite wrun_cons. cbn [wstep w_readers with_readers]. rewrite lookup_insert_eq.
  cbn [mbind option_bind reader_step]. eexists. split; [exact Hread|]. split; [reflexivity|].
  unfold take_step. destruct alloc_ok; cbn [negb]; [|done]. cbn [w_mod with_readers]. rewrite Hf. done.
Qed.

(** [C23] No wake-up is lost. However hooks, readers and the worker interleave,
    the fifo gives each event it took to one read, in order; and what the kernel
    does by itself ends, after which every read that is under way - asleep, in the
    wait queue or on its way there - returns the oldest event within four moves of its
    own if one is queued. *)
Theorem no_wakeup_is_lost {T} (m : lkm T) (ms : list wmove) (s : waits T)
    (Hempty : k_fifo m = []) (Hreach : wrun ms (quiet m) = Some s) :
  w_put s = w_taken s ++ k_fifo (w_mod s) ∧ (length (k_fifo (w_mod s)) ≤ IG_EVENT_LKM_QUEUE_SIZE)%nat ∧
  (∀ ks s', Forall (λ k, kernel_move k = true) ks → wrun ks s = Some s' → (length ks ≤ kernel_moves_left s)%nat) ∧
  (∃ ks s', Forall (λ k, kernel_move k = true) ks ∧ wrun ks s = Some s' ∧ settled s') ∧
  (∀ ks s' r ev q, Forall (λ k, kernel_move k = true) ks → wrun ks s = Some s' → settled s' →
     is_Some (w_readers s !! r) → k_fifo (w_mod s') = ev :: q → ∃ n, (n ≤ 4)%nat ∧ takes s' r ev q n).
Proof.
  pose proof (wrun_ok ms _ _ (quiet_ok m Hempty) Hreach) as Hok. split; [apply Hok|]. split; [apply Hok|].
  split; [|split; [by eapply kernel_settles|]].
  - intros ks s' Hks Hr. pose proof (kernel_run_bounded ks s s' Hks Hr). lia.
  - intros ks s' r ev q Hks Hr Hset Hin Hf. eapply settled_takes; [by eapply wrun_ok|done| |done].
    by eapply kernel_run_keeps.
Qed.

(** *** Witness: a reader asleep before the call *)

Definition idle_module : lkm (vec (list ig_policy_entry) 256) := Lkm ig_policy_init (pc_index_init, stats_zero) [] false.
Definition an_event : ig_lkm_event := LkmEvent 0x800001 42 2 1 500 0 (lit "sh") (lit "/etc/passwd") 7 0 false [].

(** The reader sleeps, the hook puts its event in and schedules the work. *)
Definition before_the_work : list wmove :=
  [Open 0; Reader 0 true true; Reader 0 true true; Reader 0 true true; Call 0 an_event; Caller 0; Caller 0].

Lemma no_wakeup_is_lost_witness :
  ∃ s, wrun before_the_work (quiet idle_module) = Some s ∧ w_readers s !! 0%nat = Some (RSleep false) ∧
    ∃ s' n, wrun [Start; Worker; Worker] s = Some s' ∧ takes s' 0 an_event [] n.
Proof.
  set (s := default (quiet idle_module) (wrun before_the_work (quiet idle_module))).
  set (s' := default s (wrun [Start; Worker; Worker] s)).
  assert (Hs : wrun before_the_work (quiet idle_module) = Some s) by (vm_compute; reflexivity).
  assert (Hs' : wrun [Start; Worker; Worker] s = Some s') by (vm_compute; reflexivity).
  exists s. split; [exact Hs|]. split; [reflexivity|]. exists s'.
  destruct (proj2 (proj2 (proj2 (proj2 (no_wakeup_is_lost idle_module before_the_work s eq_refl Hs))))
    [Start; Worker; Worker] s' 0%nat an_event []) as (n & _ & Hn).
  - repeat constructor.
  - exact Hs'.
  - intros [| [|c] | | | | |]; done.
  - by eexists.
  - reflexivity.
  - exists n. split; [exact Hs'|exact Hn].
Defined.

(** Two readers woken for one event: the second returns 0, as at the end of a file. *)
Example second_reader_gets_nothing :
  (λ s, w_returned s) <$> wrun
    ([Open 0; Open 1] ++ mjoin (replicate 3 [Reader 0 true true; Reader 1 true true]) ++
     [Call 0 an_event; Caller 0; Caller 0; Start; Worker; Worker] ++
     mjoin (replicate 4 [Reader 0 true true; Reader 1 true true])) (quiet idle_module) =
  Some [(0%nat, (sizeof_event, Some an_event)); (1%nat, (0, None))].
Proof. vm_compute. reflexivity. Qed.
