(* ===== verification/EbpfPrograms.v ===== *)
(** * eBPF LSM programs (ebpf/ig_trace.bpf.c)

    The programs attached to seven LSM hooks and to the scheduler's fork, exec
    and exit tracepoints, over the four BPF maps they share with the loader. *)

From S2P Require Import Prelude Bytes Monitor LkmPolicy LkmAccess.

Local Open Scope Z_scope.

(* @src ebpf/ig_trace.bpf.c:11-16 IG_EBPF_OP_READ *)
Definition IG_EBPF_OP_READ : Z := 1.
Definition IG_EBPF_OP_WRITE : Z := 2.
Definition IG_EBPF_OP_DELETE : Z := 4.
Definition IG_EBPF_OP_ATTR : Z := 8.

(* @src ebpf/ig_trace.bpf.c:18-26 IG_HOOK_FILE_PERMISSION *)
Definition IG_HOOK_FILE_PERMISSION : Z := 1.
Definition IG_HOOK_FILE_OPEN : Z := 2.
Definition IG_HOOK_PATH_UNLINK : Z := 3.
Definition IG_HOOK_PATH_RENAME : Z := 4.
Definition IG_HOOK_PATH_TRUNCATE : Z := 5.
Definition IG_HOOK_PATH_CHMOD : Z := 6.
Definition IG_HOOK_INODE_SETATTR : Z := 7.

Definition MAY_WRITE : Z := 2.
Definition MAY_READ : Z := 4.
Definition FMODE_READ : Z := 1.
Definition FMODE_WRITE : Z := 2.
Definition ATTR_MODE : Z := 1.
Definition ATTR_UID : Z := 2.
Definition ATTR_GID : Z := 4.
Definition ATTR_SIZE : Z := 8.

(** ** Maps *)

(* @src ebpf/ig_trace.bpf.c:64-67 inode_policy *)
Record inode_policy := InodePolicy { ip_mask : Z; ip_block : Z }.

(* @src ebpf/ig_trace.bpf.c:69-79 audit_event *)
Record audit_event := AuditEvent {
  ae_dev : Z; ae_ino : Z; ae_pid : Z; ae_uid : Z; ae_op_mask : Z; ae_hook_id : Z;
  ae_denied : Z; ae_comm : cstring; ae_ts_ns : Z }.

(* @src ebpf/ig_trace.bpf.c:103-114 ig_proc_entry *)
Record ig_proc_entry := ProcEntry {
  pe_pid : Z; pe_ppid : Z; pe_uid : Z; pe_euid : Z; pe_sid : Z;
  pe_comm : cstring; pe_tty : cstring; pe_start_time_ns : Z; pe_cmdline : cstring }.

#[export] Instance inode_policy_eq_dec : EqDecision inode_policy.
Proof. solve_decision. Defined.

(** The maps, the ring buffer oldest first. *)
(* @src ebpf/ig_trace.bpf.c:81-98 policy_map *)
Record bpf_maps := BpfMaps {
  policy_map : gmap (Z * Z) inode_policy;
  audit_rb : list audit_event;
  hook_stats : gmap Z Z;
  proc_map : gmap Z ig_proc_entry }.

Definition POLICY_MAP_MAX : Z := 16384.

(** What one run of a program reads of the kernel: whether the ring buffer has
    room, the current task, the clock, and the entries an LRU update evicts. *)
Record bpf_env := BpfEnv {
  be_reserve_ok : bool; be_pid_tgid : Z; be_uid_gid : Z; be_ktime : Z; be_comm : cstring;
  be_evicted : list Z }.

(** ** LSM programs *)

Section programs.
Variable env : bpf_env.

(* @src ebpf/ig_trace.bpf.c:123-128 count_hook *)
Definition count_hook (hook_id : Z) (m : bpf_maps) : bpf_maps :=
  BpfMaps (policy_map m) (audit_rb m)
    (match hook_stats m !! hook_id with
     | Some n => <[hook_id := u64 (n + 1)]> (hook_stats m)
     | None => hook_stats m
     end) (proc_map m).

(** The inode's device and number, by [BPF_CORE_READ] (0 through null pointers). *)
Definition inode_key (i : kinode) : Z * Z := (default 0 (i_sb i), i_ino i).

(* @src ebpf/ig_trace.bpf.c:130-162 audit_inode *)
Definition audit_inode (inode : kinode) (op_mask hook_id : Z) (m : bpf_maps) : Z * bpf_maps :=
  match policy_map m !! inode_key inode with
  | None => (0, m)
  | Some policy =>
      if has_bits (ip_mask policy) op_mask then
        let m := count_hook hook_id m in
        let verdict := if ip_block policy =? 0 then 0 else - EPERM in
        if be_reserve_ok env then
          let e := AuditEvent (inode_key inode).1 (inode_key inode).2
                     (Z.shiftr (be_pid_tgid env) 32) (Z.land (be_uid_gid env) 0xFFFFFFFF)
                     op_mask hook_id (if ip_block policy =? 0 then 0 else 1)
                     (be_comm env) (be_ktime env) in
          (verdict, BpfMaps (policy_map m) (audit_rb m ++ [e]) (hook_stats m) (proc_map m))
        else (verdict, m)
      else (0, m)
  end.

(** [struct file]: its mode and inode. *)
Record kfile := KFile { f_mode : Z; f_inode : option kinode }.

(* @src ebpf/ig_trace.bpf.c:164-186 check_file_permission *)
Definition check_file_permission (file : option kfile) (mask ret : Z) (m : bpf_maps) : Z * bpf_maps :=
  if negb (ret =? 0) then (ret, m) else
  match file with
  | None => (0, m)
  | Some f =>
      let op_mask := Z.lor (if has_bits mask MAY_READ then IG_EBPF_OP_READ else 0)
                           (if has_bits mask MAY_WRITE then IG_EBPF_OP_WRITE else 0) in
      if op_mask =? 0 then (0, m) else
      match f_inode f with
      | None => (0, m)
      | Some inode => audit_inode inode op_mask IG_HOOK_FILE_PERMISSION m
      end
  end.

(* @src ebpf/ig_trace.bpf.c:188-213 check_file_open *)
Definition check_file_open (file : option kfile) (ret : Z) (m : bpf_maps) : Z * bpf_maps :=
  if negb (ret =? 0) then (ret, m) else
  match file with
  | None => (0, m)
  | Some f =>
      let op_mask := Z.lor (if has_bits (f_mode f) FMODE_READ then IG_EBPF_OP_READ else 0)
                           (if has_bits (f_mode f) FMODE_WRITE then IG_EBPF_OP_WRITE else 0) in
      if op_mask =? 0 then (0, m) else
      match f_inode f with
      | None => (0, m)
      | Some inode => audit_inode inode op_mask IG_HOOK_FILE_OPEN m
      end
  end.

(** A dentry pointer: [None] when null, else the inode it names, if any. *)
Abbreviation dentry := (option (option kinode)).

(* @src ebpf/ig_trace.bpf.c:215-230 check_path_unlink *)
Definition check_path_unlink (d : dentry) (ret : Z) (m : bpf_maps) : Z * bpf_maps :=
  if negb (ret =? 0) then (ret, m) else
  match d with
  | Some (Some inode) => audit_inode inode IG_EBPF_OP_DELETE IG_HOOK_PATH_UNLINK m
  | _ => (0, m)
  end.

(* @src ebpf/ig_trace.bpf.c:232-266 check_path_rename *)
Definition check_path_rename (old_dentry new_dentry : dentry) (ret : Z) (m : bpf_maps)
    : Z * bpf_maps :=
  if negb (ret =? 0) then (ret, m) else
  let (result, m) := match old_dentry with
                     | Some (Some inode) => audit_inode inode IG_EBPF_OP_WRITE IG_HOOK_PATH_RENAME m
                     | _ => (0, m)
                     end in
  if negb (result =? 0) then (result, m) else
  let (result, m) := match new_dentry with
                     | Some (Some inode) => audit_inode inode IG_EBPF_OP_DELETE IG_HOOK_PATH_RENAME m
                     | _ => (0, m)
                     end in
  if negb (result =? 0) then (result, m) else (0, m).

(* @src ebpf/ig_trace.bpf.c:268-283 check_path_truncate *)
Definition check_path_truncate (path : dentry) (ret : Z) (m : bpf_maps) : Z * bpf_maps :=
  if negb (ret =? 0) then (ret, m) else
  match path with
  | Some (Some inode) => audit_inode inode IG_EBPF_OP_WRITE IG_HOOK_PATH_TRUNCATE m
  | _ => (0, m)
  end.

(* @src ebpf/ig_trace.bpf.c:285-300 check_path_chmod *)
Definition check_path_chmod (path : dentry) (ret : Z) (m : bpf_maps) : Z * bpf_maps :=
  if negb (ret =? 0) then (ret, m) else
  match path with
  | Some (Some inode) => audit_inode inode IG_EBPF_OP_ATTR IG_HOOK_PATH_CHMOD m
  | _ => (0, m)
  end.

(* @src ebpf/ig_trace.bpf.c:302-327 check_inode_setattr *)
Definition check_inode_setattr (d : dentry) (attr : option Z) (ret : Z) (m : bpf_maps)
    : Z * bpf_maps :=
  if negb (ret =? 0) then (ret, m) else
  match d, attr with
  | Some inode, Some valid =>
      let op_mask := Z.lor
        (if has_bits valid (Z.lor (Z.lor ATTR_MODE ATTR_UID) ATTR_GID) then IG_EBPF_OP_ATTR else 0)
        (if has_bits valid ATTR_SIZE then IG_EBPF_OP_WRITE else 0) in
      if op_mask =? 0 then (0, m) else
      match inode with
      | None => (0, m)
      | Some inode => audit_inode inode op_mask IG_HOOK_INODE_SETATTR m
      end
  | _, _ => (0, m)
  end.

(** ** Process tree *)

(** What the tracepoints read of a task: thread id, thread group id, ... *)
Record btask := BTask {
  bt_pid : Z; bt_tgid : Z; bt_parent : option Z; bt_uid : Z; bt_euid : Z; bt_sid : Z;
  bt_start : Z; bt_comm : cstring; bt_tty : option cstring;
  bt_mm : option (Z * Z * list Z) (* arg_start, arg_end and the bytes from arg_start *) }.

(* @src ebpf/ig_trace.bpf.c:331-358 fill_entry_from_task *)
Definition fill_entry_from_task (t : btask) : ig_proc_entry :=
  ProcEntry (bt_tgid t) (default 0 (bt_parent t)) (bt_uid t) (bt_euid t) (bt_sid t)
    (strncpy (bt_comm t) 15) (match bt_tty t with Some n => strncpy n 15 | None => [] end)
    (bt_start t) [].

(** [bpf_map_update_elem] on the LRU map. *)
Definition proc_update (key : Z) (e : ig_proc_entry) (m : bpf_maps) : bpf_maps :=
  BpfMaps (policy_map m) (audit_rb m) (hook_stats m)
    (<[key := e]> (foldr delete (proc_map m) (be_evicted env))).

(* @src ebpf/ig_trace.bpf.c:360-371 on_sched_fork *)
Definition on_sched_fork (child : option btask) (m : bpf_maps) : bpf_maps :=
  match child with
  | None => m
  | Some t => proc_update (bt_tgid t) (fill_entry_from_task t) m
  end.

(* @src ebpf/ig_trace.bpf.c:393-415 on_sched_exec *)
Definition exec_update (t : btask) (e : ig_proc_entry) : ig_proc_entry :=
  let cmdline := match bt_mm t with
    | Some (arg_start, arg_end, data) =>
        if arg_end <=? arg_start then pe_cmdline e
        else let len := Z.to_nat (Z.min (arg_end - arg_start) 159) in
             (λ b, if b =? 0 then 32 else b) <$> take len data
    | None => pe_cmdline e
    end in
  ProcEntry (pe_pid e) (pe_ppid e) (pe_uid e) (pe_euid e) (pe_sid e)
    (strncpy (bt_comm t) 15) (pe_tty e) (pe_start_time_ns e) cmdline.

(* @src ebpf/ig_trace.bpf.c:373-417 on_sched_exec *)
Definition on_sched_exec (t : option btask) (m : bpf_maps) : bpf_maps :=
  match t with
  | None => m
  | Some t =>
      let m := match proc_map m !! bt_tgid t with
               | Some _ => m
               | None => proc_update (bt_tgid t) (fill_entry_from_task t) m
               end in
      match proc_map m !! bt_tgid t with
      | None => m
      | Some e => BpfMaps (policy_map m) (audit_rb m) (hook_stats m)
                    (<[bt_tgid t := exec_update t e]> (proc_map m))
      end
  end.

(* @src ebpf/ig_trace.bpf.c:419-427 on_sched_exit *)
Definition on_sched_exit (t : option btask) (m : bpf_maps) : bpf_maps :=
  match t with
  | None => m
  | Some t => BpfMaps (policy_map m) (audit_rb m) (hook_stats m) (delete (bt_tgid t) (proc_map m))
  end.
End programs.

(** ** Specification *)

(** The LSM events, with their arguments. *)
Inductive lsm_event :=
  | FilePermission (file : option kfile) (mask : Z)
  | FileOpen (file : option kfile)
  | PathUnlink (d : option (option kinode))
  | PathRename (old_dentry new_dentry : option (option kinode))
  | PathTruncate (path : option (option kinode))
  | PathChmod (path : option (option kinode))
  | InodeSetattr (d : option (option kinode)) (attr : option Z).

Definition lsm_program (env : bpf_env) (ev : lsm_event) (ret : Z) (m : bpf_maps) : Z * bpf_maps :=
  match ev with
  | FilePermission f mask => check_file_permission env f mask ret m
  | FileOpen f => check_file_open env f ret m
  | PathUnlink d => check_path_unlink env d ret m
  | PathRename o n => check_path_rename env o n ret m
  | PathTruncate p => check_path_truncate env p ret m
  | PathChmod p => check_path_chmod env p ret m
  | InodeSetattr d a => check_inode_setattr env d a ret m
  end.

(** An inode accessed: key, operation bits, hook. *)
Definition bpf_access : Type := (Z * Z) * Z * Z.

Definition access_of (d : option (option kinode)) (op hook : Z) : list bpf_access :=
  match d with Some (Some i) => if op =? 0 then [] else [(inode_key i, op, hook)] | _ => [] end.

Definition rw_ops (v r w : Z) : Z :=
  Z.lor (if has_bits v r then IG_EBPF_OP_READ else 0) (if has_bits v w then IG_EBPF_OP_WRITE else 0).

Definition event_accesses (ev : lsm_event) : list bpf_access :=
  match ev with
  | FilePermission f mask =>
      access_of (f_inode <$> f) (rw_ops mask MAY_READ MAY_WRITE) IG_HOOK_FILE_PERMISSION
  | FileOpen f =>
      match f with
      | Some k => access_of (Some (f_inode k)) (rw_ops (f_mode k) FMODE_READ FMODE_WRITE) IG_HOOK_FILE_OPEN
      | None => []
      end
  | PathUnlink d => access_of d IG_EBPF_OP_DELETE IG_HOOK_PATH_UNLINK
  | PathRename o n => access_of o IG_EBPF_OP_WRITE IG_HOOK_PATH_RENAME ++
                      access_of n IG_EBPF_OP_DELETE IG_HOOK_PATH_RENAME
  | PathTruncate p => access_of p IG_EBPF_OP_WRITE IG_HOOK_PATH_TRUNCATE
  | PathChmod p => access_of p IG_EBPF_OP_ATTR IG_HOOK_PATH_CHMOD
  | InodeSetattr d (Some valid) =>
      access_of d (Z.lor (if has_bits valid (Z.lor (Z.lor ATTR_MODE ATTR_UID) ATTR_GID)
                          then IG_EBPF_OP_ATTR else 0)
                         (if has_bits valid ATTR_SIZE then IG_EBPF_OP_WRITE else 0))
        IG_HOOK_INODE_SETATTR
  | InodeSetattr d None => []
  end.

(** The policy that applies to an access, if any. *)
Definition applies (pm : gmap (Z * Z) inode_policy) (a : bpf_access) : option inode_policy :=
  p ← pm !! a.1.1; if has_bits (ip_mask p) a.1.2 then Some p else None.

Definition denies (pm : gmap (Z * Z) inode_policy) (a : bpf_access) : bool :=
  match applies pm a with Some p => negb (ip_block p =? 0) | None => false end.

(** The accesses reported: those a policy applies to, up to the first denied. *)
Fixpoint reported (pm : gmap (Z * Z) inode_policy) (accs : list bpf_access) : list bpf_access :=
  match accs with
  | [] => []
  | a :: accs =>
      match applies pm a with
      | None => reported pm accs
      | Some _ => a :: (if denies pm a then [] else reported pm accs)
      end
  end.

Definition event_of (env : bpf_env) (pm : gmap (Z * Z) inode_policy) (a : bpf_access) : audit_event :=
  AuditEvent a.1.1.1 a.1.1.2 (Z.shiftr (be_pid_tgid env) 32) (Z.land (be_uid_gid env) 0xFFFFFFFF)
    a.1.2 a.2 (if denies pm a then 1 else 0) (be_comm env) (be_ktime env).

(** What a program did: verdict, log, and nothing to the policies and processes. *)
Definition program_effect (env : bpf_env) (accs : list bpf_access) (m : bpf_maps)
    (r : Z * bpf_maps) : Prop :=
  r.1 = (if existsb (denies (policy_map m)) accs then - EPERM else 0) ∧
  policy_map r.2 = policy_map m ∧ proc_map r.2 = proc_map m ∧
  audit_rb r.2 = audit_rb m ++
    (if be_reserve_ok env then event_of env (policy_map m) <$> reported (policy_map m) accs else []).

Lemma effect_nil env m : program_effect env [] m (0, m).
Proof. repeat split. cbn. by destruct (be_reserve_ok env); rewrite app_nil_r. Qed.

Lemma audit_inode_effect env i op hook m :
  program_effect env [(inode_key i, op, hook)] m (audit_inode env i op hook m).
Proof.
  set (a := (inode_key i, op, hook)). unfold audit_inode.
  assert (Ha : applies (policy_map m) a =
               match policy_map m !! inode_key i with
               | Some p => if has_bits (ip_mask p) op then Some p else None | None => None end).
  { unfold applies. cbn. by destruct (policy_map m !! inode_key i). }
  destruct (policy_map m !! inode_key i) as [p|].
  2:{ unfold program_effect. cbn [existsb reported]. unfold denies. rewrite Ha.
      repeat split. by destruct (be_reserve_ok env); rewrite app_nil_r. }
  destruct (has_bits (ip_mask p) op).
  2:{ unfold program_effect. cbn [existsb reported]. unfold denies. rewrite Ha.
      repeat split. by destruct (be_reserve_ok env); rewrite app_nil_r. }
  assert (Hd : denies (policy_map m) a = negb (ip_block p =? 0)) by (unfold denies; by rewrite Ha).
  unfold program_effect, event_of. cbn [existsb reported]. rewrite Ha, orb_false_r, Hd.
  assert (Hl : (if negb (ip_block p =? 0) then [] else []) = @nil bpf_access) by by destruct (_ =? 0).
  rewrite Hl. cbn [fmap list_fmap map]. rewrite Hd.
  destruct (be_reserve_ok env), (ip_block p =? 0); repeat split; cbn; by rewrite ?app_nil_r.
Qed.

Lemma access_of_effect env d op hook m : op ≠ 0 →
  program_effect env (access_of d op hook) m
    (match d with Some (Some i) => audit_inode env i op hook m | _ => (0, m) end).
Proof.
  intros Hop. apply Z.eqb_neq in Hop.
  destruct d as [[i|]|]; cbn [access_of]; try apply effect_nil. rewrite Hop. apply audit_inode_effect.
Qed.

(** Two checks in a row, the second only when the first allows. *)
Lemma effect_app env accs1 accs2 m r1 r2 :
  program_effect env accs1 m r1 → program_effect env accs2 r1.2 r2 →
  program_effect env (accs1 ++ accs2) m
    (if negb (r1.1 =? 0) then r1 else r2).
Proof.
  intros (Hv1 & Hp1 & Hq1 & Ha1) (Hv2 & Hp2 & Hq2 & Ha2). rewrite Hp1 in Hv2, Hp2, Ha2.
  assert (Hrep : reported (policy_map m) (accs1 ++ accs2) =
    reported (policy_map m) accs1 ++
    (if existsb (denies (policy_map m)) accs1 then [] else reported (policy_map m) accs2)).
  { clear. induction accs1 as [|a accs1 IH]; [done|]. cbn [app reported existsb]. rewrite IH.
    assert (applies (policy_map m) a = None → denies (policy_map m) a = false) as Hn.
    { unfold denies. by intros ->. }
    destruct (applies (policy_map m) a); [|by rewrite Hn].
    destruct (denies (policy_map m) a); by rewrite ?app_nil_r. }
  unfold program_effect. rewrite existsb_app, Hrep, Hv1.
  destruct (existsb (denies (policy_map m)) accs1); cbn [negb Z.eqb orb EPERM Z.opp].
  - rewrite app_nil_r. split; [exact Hv1|]. by split; [|split].
  - split; [exact Hv2|]. rewrite Hp2, Hq2. split; [done|]. split; [done|].
    rewrite Ha2, Ha1, <- app_assoc. by destruct (be_reserve_ok env); rewrite ?fmap_app.
Qed.

Lemma if_zero_effect env d op hook m :
  program_effect env (access_of d op hook) m
    (if op =? 0 then (0, m)
     else match d with Some (Some i) => audit_inode env i op hook m | _ => (0, m) end).
Proof.
  destruct (Z.eqb_spec op 0) as [->|Hop]; [|by apply access_of_effect].
  destruct d as [[i|]|]; apply effect_nil.
Qed.

Lemma program_spec env ev m : program_effect env (event_accesses ev) m (lsm_program env ev 0 m).
Proof.
  destruct ev as [f mask|f|d|o n|p|p|d [valid|]]; cbn [event_accesses lsm_program].
  - unfold check_file_permission. cbn [negb Z.eqb]. destruct f as [k|]; [|apply effect_nil].
    cbn [fmap option_fmap option_map]. exact (if_zero_effect env (Some (f_inode k)) _ _ m).
  - unfold check_file_open. cbn [negb Z.eqb]. destruct f as [k|]; [|apply effect_nil].
    exact (if_zero_effect env (Some (f_inode k)) _ _ m).
  - exact (access_of_effect env d IG_EBPF_OP_DELETE _ m ltac:(by vm_compute)).
  - pose proof (access_of_effect env o IG_EBPF_OP_WRITE IG_HOOK_PATH_RENAME m ltac:(by vm_compute)) as H1.
    unfold check_path_rename. cbn [negb Z.eqb].
    set (r1 := match o with Some (Some i) => _ | _ => _ end) in *.
    pose proof (access_of_effect env n IG_EBPF_OP_DELETE IG_HOOK_PATH_RENAME r1.2 ltac:(by vm_compute)) as H2.
    set (r2 := match n with Some (Some i) => audit_inode env i IG_EBPF_OP_DELETE IG_HOOK_PATH_RENAME r1.2
               | _ => _ end) in H2.
    pose proof (effect_app env _ _ m r1 r2 H1 H2) as H.
    destruct r1 as [v1 m1] eqn:E1. cbn [fst snd] in *. destruct (v1 =? 0); cbn [negb] in *; [|exact H].
    fold r2. destruct r2 as [v2 m2]. cbn [fst snd] in *.
    destruct (Z.eqb_spec v2 0) as [->|]; cbn [negb]; exact H.
  - exact (access_of_effect env p IG_EBPF_OP_WRITE _ m ltac:(by vm_compute)).
  - exact (access_of_effect env p IG_EBPF_OP_ATTR _ m ltac:(by vm_compute)).
  - unfold check_inode_setattr. cbn [negb Z.eqb]. destruct d as [i|].
    + exact (if_zero_effect env (Some i) _ _ m).
    + apply effect_nil.
  - unfold check_inode_setattr. cbn [negb Z.eqb]. destruct d; apply effect_nil.
Qed.

(** ** Properties *)

(** [C12] A program denies with [-EPERM] exactly when an inode of the event has
    a blocking policy for one of its operations, whether or not the ring buffer
    has room: enforcement does not depend on auditing. It reports the accesses a
    policy applies to, up to the one that denied, and changes no policy. *)
Theorem ebpf_program_enforces_policy (env : bpf_env) (ev : lsm_event) (m : bpf_maps) :
  program_effect env (event_accesses ev) m (lsm_program env ev 0 m).
Proof. apply program_spec. Qed.

(** A decision already made by another security module is never changed,
    and such a call is not reported. *)
Theorem ebpf_program_respects_verdict (env : bpf_env) (ev : lsm_event) (ret : Z) (m : bpf_maps)
    (Hret : ret ≠ 0) : lsm_program env ev ret m = (ret, m).
Proof. apply Z.eqb_neq in Hret. destruct ev; cbn; unfold check_file_permission, check_file_open,
  check_path_unlink, check_path_rename, check_path_truncate, check_path_chmod, check_inode_setattr;
  by rewrite Hret. Qed.

(** The process map is keyed by thread group, but the tracepoints fire for
    threads: when one thread of a process exits the whole process is forgotten,
    and when one starts the command line recorded at exec is erased. *)
Theorem threads_corrupt_process_map (env : bpf_env) (leader thread : btask) (m : bpf_maps)
    (e : ig_proc_entry)
    (Hthread : bt_tgid thread = bt_tgid leader) (Hother : bt_pid thread ≠ bt_pid leader)
    (He : proc_map m !! bt_tgid leader = Some e) :
  proc_map (on_sched_exit (Some thread) m) !! bt_tgid leader = None ∧
  ∃ e', proc_map (on_sched_fork env (Some thread) m) !! bt_tgid leader = Some e' ∧
        pe_cmdline e' = [].
Proof.
  cbn [on_sched_exit on_sched_fork proc_update proc_map]. rewrite Hthread. split.
  - by rewrite lookup_delete_eq.
  - rewrite lookup_insert_eq. by eexists.
Qed.

Lemma ebpf_program_respects_verdict_witness :
  lsm_program (BpfEnv true 0 0 0 [] []) (PathUnlink None) (-13) (BpfMaps ∅ [] ∅ ∅) =
  (-13, BpfMaps ∅ [] ∅ ∅).
Proof. apply ebpf_program_respects_verdict. discriminate. Defined.

Lemma threads_corrupt_process_map_witness :
  let leader := BTask 100 100 (Some 1) 0 0 100 5 (lit "nginx") None None in
  let thread := BTask 101 100 (Some 1) 0 0 100 9 (lit "nginx") None None in
  let m := BpfMaps ∅ [] ∅ {[ 100 := ProcEntry 100 1 0 0 100 (lit "nginx") [] 5 (lit "nginx -g x") ]} in
  proc_map (on_sched_exit (Some thread) m) !! 100 = None.
Proof.
  intros leader thread m.
  exact (proj1 (threads_corrupt_process_map (BpfEnv true 0 0 0 [] []) leader thread m
    (ProcEntry 100 1 0 0 100 (lit "nginx") [] 5 (lit "nginx -g x")) eq_refl ltac:(discriminate) eq_refl)).
Defined.
