(* ===== verification/PathCache.v ===== *)
(** * Reverse path cache of the eBPF back end (ebpf/ig_trace.c)

    An open-addressing table of 16384 slots from (device, inode) to path, with
    tombstones, and the lossy table that suppresses repeated events. The static
    arrays are maps from slot number to contents, absent slots being zeroed. *)

From S2P Require Import Prelude Bytes CText Monitor.

Local Open Scope Z_scope.

Definition PATH_CACHE_CAP : Z := 16384.
Definition PATH_CACHE_MASK : Z := PATH_CACHE_CAP - 1.
#[global] Arguments PATH_CACHE_CAP : simpl never.

(* @src ebpf/ig_trace.c:129-131 SLOT_EMPTY *)
Inductive slot_state := SLOT_EMPTY | SLOT_USED | SLOT_DELETED.

(* @src ebpf/ig_trace.c:133-138 path_cache_entry *)
Record path_cache_entry := PathSlot {
  ps_dev : Z; ps_ino : Z; ps_path : cstring; ps_used : slot_state }.

(** [static struct path_cache_entry g_path_cache[PATH_CACHE_CAP]], zeroed. *)
Abbreviation path_cache := (gmap Z path_cache_entry).
Definition slot_zero : path_cache_entry := PathSlot 0 0 [] SLOT_EMPTY.
Definition slot (t : path_cache) (s : Z) : path_cache_entry := default slot_zero (t !! s).

(* @src ebpf/ig_trace.c:143-147 path_cache_hash *)
Definition path_cache_hash (dev ino : Z) : Z :=
  let h := Z.lxor (u64 (dev * 2654435761)) (u64 (ino * 2246822519)) in
  Z.land (Z.lxor h (Z.shiftr h 32)) PATH_CACHE_MASK.

(** The slots the loops visit: [(idx + i) & PATH_CACHE_MASK] for [i] from 0. *)
Definition probes (dev ino : Z) : list Z :=
  (λ i, Z.land (u32 (path_cache_hash dev ino + i)) PATH_CACHE_MASK) <$> seqZ 0 PATH_CACHE_CAP.

Definition is_key (dev ino : Z) (e : path_cache_entry) : bool :=
  (ps_dev e =? dev) && (ps_ino e =? ino).

(* @src ebpf/ig_trace.c:154-178 path_cache_put *)
Fixpoint put_loop (t : path_cache) (dev ino : Z) (path : cstring) (tomb : option Z)
    (l : list Z) : path_cache :=
  match l with
  | [] => t
  | s :: l =>
      let e := slot t s in
      match ps_used e with
      | SLOT_EMPTY => <[default s tomb := PathSlot dev ino (strncpy path 4095) SLOT_USED]> t
      | SLOT_DELETED =>
          put_loop t dev ino path (match tomb with None => Some s | _ => tomb end) l
      | SLOT_USED =>
          if is_key dev ino e
          then <[s := PathSlot (ps_dev e) (ps_ino e) (strncpy path 4095) SLOT_USED]> t
          else put_loop t dev ino path tomb l
      end
  end.

(* @src ebpf/ig_trace.c:149-180 path_cache_put *)
Definition path_cache_put (t : path_cache) (dev ino : Z) (path : cstring) : path_cache :=
  put_loop t dev ino path None (probes dev ino).

(* @src ebpf/ig_trace.c:186-199 path_cache_get *)
Fixpoint get_loop (t : path_cache) (dev ino : Z) (l : list Z) : option cstring :=
  match l with
  | [] => None
  | s :: l =>
      let e := slot t s in
      match ps_used e with
      | SLOT_EMPTY => None
      | SLOT_DELETED => get_loop t dev ino l
      | SLOT_USED => if is_key dev ino e then Some (ps_path e) else get_loop t dev ino l
      end
  end.

(* @src ebpf/ig_trace.c:182-202 path_cache_get *)
Definition path_cache_get (t : path_cache) (dev ino : Z) (out_sz : nat) : cstring :=
  match get_loop t dev ino (probes dev ino) with
  | Some p => strncpy p (out_sz - 1)
  | None => strncpy (lit "<ino=" ++ decimal ino ++ lit ">") (out_sz - 1)
  end.

(* @src ebpf/ig_trace.c:208-219 path_cache_remove *)
Fixpoint remove_loop (t : path_cache) (dev ino : Z) (l : list Z) : path_cache :=
  match l with
  | [] => t
  | s :: l =>
      let e := slot t s in
      match ps_used e with
      | SLOT_EMPTY => t
      | SLOT_DELETED => remove_loop t dev ino l
      | SLOT_USED =>
          if is_key dev ino e
          then <[s := PathSlot (ps_dev e) (ps_ino e) (ps_path e) SLOT_DELETED]> t
          else remove_loop t dev ino l
      end
  end.

(* @src ebpf/ig_trace.c:204-221 path_cache_remove *)
Definition path_cache_remove (t : path_cache) (dev ino : Z) : path_cache :=
  remove_loop t dev ino (probes dev ino).

(** ** The probe sequence *)

Lemma hash_range dev ino : 0 ≤ path_cache_hash dev ino < PATH_CACHE_CAP.
Proof.
  unfold path_cache_hash. change PATH_CACHE_MASK with (Z.ones 14).
  rewrite Z.land_ones by lia. apply (Z.mod_pos_bound _ (2 ^ 14)). lia.
Qed.

Lemma probe_eq dev ino i : 0 ≤ i < PATH_CACHE_CAP →
  Z.land (u32 (path_cache_hash dev ino + i)) PATH_CACHE_MASK =
  (path_cache_hash dev ino + i) mod PATH_CACHE_CAP.
Proof.
  intros Hi. pose proof (hash_range dev ino). unfold PATH_CACHE_CAP in *.
  unfold u32. rewrite wrap_small by (unfold in_width; lia).
  change PATH_CACHE_MASK with (Z.ones 14). by rewrite Z.land_ones by lia.
Qed.

Lemma probes_NoDup dev ino : NoDup (probes dev ino).
Proof.
  unfold probes. apply NoDup_fmap_2_strong; [|apply NoDup_seqZ].
  intros i j Hi Hj. rewrite elem_of_seqZ in Hi, Hj. rewrite !probe_eq by lia.
  unfold PATH_CACHE_CAP in *. intros He. pose proof (hash_range dev ino).
  set (h := path_cache_hash dev ino) in *.
  assert ((h + i - (h + j)) mod 16384 = 0) as Hm.
  { rewrite Zminus_mod, He. by rewrite Z.sub_diag. }
  apply Z.mod_divide in Hm as [q Hq]; [|lia]. nia.
Qed.

Lemma probes_complete dev ino s : 0 ≤ s < PATH_CACHE_CAP → s ∈ probes dev ino.
Proof.
  intros Hs. unfold probes. apply list_elem_of_fmap.
  pose proof (hash_range dev ino). set (h := path_cache_hash dev ino) in *.
  exists ((s - h) mod PATH_CACHE_CAP).
  assert (0 ≤ (s - h) mod PATH_CACHE_CAP < PATH_CACHE_CAP) by (apply Z.mod_pos_bound; done).
  split; [|apply elem_of_seqZ; lia]. unfold h. rewrite probe_eq by (fold h; lia). fold h.
  rewrite Zplus_mod_idemp_r. replace (h + (s - h)) with s by lia.
  by rewrite Z.mod_small.
Qed.

Lemma probes_range dev ino s : s ∈ probes dev ino → 0 ≤ s < PATH_CACHE_CAP.
Proof.
  unfold probes. intros (i & Hs & Hi)%list_elem_of_fmap. apply elem_of_seqZ in Hi.
  rewrite probe_eq in Hs by lia. subst s. apply Z.mod_pos_bound. reflexivity.
Qed.

(** ** Invariant

    No empty slot lies between the start of a key's probes and the slot that
    holds it, and no key is held twice. *)

Definition holds (t : path_cache) (dev ino s : Z) : Prop :=
  ps_used (slot t s) = SLOT_USED ∧ is_key dev ino (slot t s) = true.

Record cache_ok (t : path_cache) : Prop := {
  co_range : ∀ s, ps_used (slot t s) = SLOT_USED → 0 ≤ s < PATH_CACHE_CAP;
  co_reach : ∀ dev ino s pre post, holds t dev ino s → probes dev ino = pre ++ s :: post →
             Forall (λ s', ps_used (slot t s') ≠ SLOT_EMPTY) pre;
  co_uniq : ∀ dev ino s s', holds t dev ino s → holds t dev ino s' → s = s' }.

(** The path held for a key: the abstract map. *)
Definition held (t : path_cache) (dev ino : Z) : option cstring := get_loop t dev ino (probes dev ino).

Lemma get_held t dev ino n : path_cache_get t dev ino n =
  strncpy (default (lit "<ino=" ++ decimal ino ++ lit ">") (held t dev ino)) (n - 1).
Proof. unfold path_cache_get, held. destruct (get_loop t dev ino (probes dev ino)); reflexivity. Qed.

(** A slot the loops walk over. *)
Definition passable (t : path_cache) (dev ino s : Z) : Prop :=
  ps_used (slot t s) ≠ SLOT_EMPTY ∧ ¬ holds t dev ino s.

Lemma slot_insert t s e s' : slot (<[s := e]> t) s' = if decide (s' = s) then e else slot t s'.
Proof.
  unfold slot. destruct (decide (s' = s)) as [->|Hne];
    [by rewrite lookup_insert_eq|by rewrite lookup_insert_ne by congruence].
Qed.

Lemma is_key_spec dev ino e : is_key dev ino e = true ↔ ps_dev e = dev ∧ ps_ino e = ino.
Proof. unfold is_key. by rewrite andb_true_iff, !Z.eqb_eq. Qed.

Lemma get_pass t dev ino pre l : Forall (passable t dev ino) pre →
  get_loop t dev ino (pre ++ l) = get_loop t dev ino l.
Proof.
  induction 1 as [|s pre [He Hh] HF IH]; [done|]. cbn [app get_loop]. unfold holds in Hh.
  destruct (ps_used (slot t s)); [done| |done].
  destruct (is_key dev ino (slot t s)); [by destruct Hh|done].
Qed.

Lemma remove_pass t dev ino pre l : Forall (passable t dev ino) pre →
  remove_loop t dev ino (pre ++ l) = remove_loop t dev ino l.
Proof.
  induction 1 as [|s pre [He Hh] HF IH]; [done|]. cbn [app remove_loop]. unfold holds in Hh.
  destruct (ps_used (slot t s)); [done| |done].
  destruct (is_key dev ino (slot t s)); [by destruct Hh|done].
Qed.

Lemma put_pass t dev ino path pre l : Forall (passable t dev ino) pre → ∀ tomb,
  ∃ tomb', put_loop t dev ino path tomb (pre ++ l) = put_loop t dev ino path tomb' l ∧
    (tomb' = tomb ∨ ∃ p1 d p2, pre = p1 ++ d :: p2 ∧ tomb' = Some d ∧
                     ps_used (slot t d) = SLOT_DELETED).
Proof.
  induction 1 as [|s pre [He Hh] HF IH]; intros tomb; [exists tomb; by split; [|left]|].
  cbn [app put_loop]. unfold holds in Hh. destruct (ps_used (slot t s)) eqn:Hs; [done| |].
  - destruct (is_key dev ino (slot t s)); [by destruct Hh|].
    destruct (IH tomb) as (tomb' & Hp & [->|(p1 & d & p2 & -> & -> & Hd)]).
    + exists tomb. by split; [|left].
    + exists (Some d). split; [done|]. right. by exists (s :: p1), d, p2.
  - destruct (IH (match tomb with None => Some s | _ => tomb end))
      as (tomb' & Hp & [->|(p1 & d & p2 & -> & -> & Hd)]).
    + exists (match tomb with None => Some s | _ => tomb end). split; [done|].
      destruct tomb; [by left|]. right. by exists [], s, pre.
    + exists (Some d). split; [done|]. right. by exists (s :: p1), d, p2.
Qed.

(** The probes of a key up to the slot that holds it. *)
Lemma probes_to_holder t dev ino s : cache_ok t → holds t dev ino s →
  ∃ pre post, probes dev ino = pre ++ s :: post ∧ Forall (passable t dev ino) pre.
Proof.
  intros Hok Hh. destruct (list_elem_of_split _ s (probes_complete dev ino s
    (co_range _ Hok _ (proj1 Hh)))) as (pre & post & Hp).
  exists pre, post. split; [done|]. pose proof (co_reach _ Hok _ _ _ _ _ Hh Hp) as HF.
  apply Forall_forall. intros s' Hs'. split; [by rewrite Forall_forall in HF; apply HF|].
  intros Hh'. assert (s = s') as <- by by eapply co_uniq.
  pose proof (probes_NoDup dev ino) as Hnd. rewrite Hp in Hnd.
  apply NoDup_app in Hnd as (_ & Hd & _). by apply (Hd s Hs'); left.
Qed.

Lemma held_holds t dev ino s : cache_ok t → holds t dev ino s →
  held t dev ino = Some (ps_path (slot t s)).
Proof.
  intros Hok Hh. destruct (probes_to_holder _ _ _ _ Hok Hh) as (pre & post & Hp & HF).
  unfold held. rewrite Hp, get_pass by done. cbn [get_loop]. destruct Hh as [-> ->]. done.
Qed.

Lemma held_absent t dev ino : (∀ s, ¬ holds t dev ino s) → held t dev ino = None.
Proof.
  intros Hn. unfold held. induction (probes dev ino) as [|s l IH]; [done|]. cbn [get_loop].
  specialize (Hn s). unfold holds in Hn. destruct (ps_used (slot t s)); try done.
  destruct (is_key dev ino (slot t s)); [by destruct Hn|done].
Qed.

(** A decision procedure for being held, from the probes. *)
Lemma holder_dec t dev ino : cache_ok t → (∃ s, holds t dev ino s) ∨ (∀ s, ¬ holds t dev ino s).
Proof.
  intros Hok. assert (∀ s, Decision (holds t dev ino s)) as Hdec.
  { intros s. unfold holds. destruct (ps_used (slot t s)), (is_key dev ino (slot t s));
      try (by left); right; by intros []. }
  destruct (Exists_dec (holds t dev ino) (probes dev ino)) as [He|Hn].
  - left. apply Exists_exists in He as (s & _ & Hs). by exists s.
  - right. intros s Hs. apply Hn, Exists_exists. exists s. split; [|done].
    apply probes_complete, (co_range _ Hok), Hs.
Qed.

Lemma held_spec t dev ino : cache_ok t →
  held t dev ino = None ↔ ∀ s, ¬ holds t dev ino s.
Proof.
  intros Hok. split; [|apply held_absent]. intros Hn s Hs. by rewrite (held_holds _ _ _ _ Hok Hs) in Hn.
Qed.

Lemma cache_ok_empty : cache_ok ∅.
Proof.
  split; unfold holds, slot; intros *; rewrite ?lookup_empty; cbn; try done; by intros [].
Qed.

(** Overwriting a slot that is not used, or keeps its key, keeps the reach of
    the others as long as it does not become empty. *)
Lemma cache_ok_write t s e :
  cache_ok t → 0 ≤ s < PATH_CACHE_CAP → ps_used e ≠ SLOT_EMPTY →
  (ps_used e = SLOT_USED → ∀ s', s' ≠ s → ¬ holds t (ps_dev e) (ps_ino e) s') →
  (ps_used e = SLOT_USED → ∀ pre post, probes (ps_dev e) (ps_ino e) = pre ++ s :: post →
     Forall (λ s', ps_used (slot t s') ≠ SLOT_EMPTY) pre) →
  cache_ok (<[s := e]> t).
Proof.
  intros Hok Hs He Hnew Hreach.
  assert (Hne : ∀ l, Forall (λ s', ps_used (slot t s') ≠ SLOT_EMPTY) l →
                Forall (λ s', ps_used (slot (<[s:=e]> t) s') ≠ SLOT_EMPTY) l).
  { intros l HF. apply (Forall_impl _ _ _ HF). intros s'. rewrite slot_insert. by destruct (decide _). }
  split.
  - intros s'. rewrite slot_insert. destruct (decide (s' = s)) as [->|]; [done|apply co_range, Hok].
  - intros dev ino s' pre post Hh Hp. apply Hne. unfold holds in Hh. rewrite slot_insert in Hh.
    destruct (decide (s' = s)) as [->|].
    + destruct Hh as [Hu [<- <-]%is_key_spec]. by eapply Hreach.
    + by eapply co_reach.
  - intros dev ino s1 s2. unfold holds. rewrite !slot_insert.
    destruct (decide (s1 = s)) as [->|], (decide (s2 = s)) as [->|]; [done| | |by apply co_uniq].
    + intros [Hu [<- <-]%is_key_spec] H2. by destruct (Hnew Hu s2).
    + intros H1 [Hu [<- <-]%is_key_spec]. by destruct (Hnew Hu s1).
Qed.

(** The abstract map after a slot that did not hold [(dev, ino)] is overwritten
    by one that does not either. *)
Lemma held_write_other t s e dev ino :
  cache_ok t → cache_ok (<[s := e]> t) → ¬ holds t dev ino s →
  ¬ (ps_used e = SLOT_USED ∧ is_key dev ino e = true) →
  held (<[s := e]> t) dev ino = held t dev ino.
Proof.
  intros Hok Hok' Hs He.
  assert (Hiff : ∀ s', holds (<[s := e]> t) dev ino s' ↔ holds t dev ino s').
  { intros s'. unfold holds in *. rewrite slot_insert. destruct (decide (s' = s)) as [->|]; tauto. }
  destruct (holder_dec t dev ino Hok) as [[s' Hh]|Hn].
  - rewrite (held_holds _ _ _ _ Hok Hh), (held_holds _ _ _ _ Hok' (proj2 (Hiff s') Hh)).
    rewrite slot_insert. destruct (decide (s' = s)) as [->|]; [tauto|done].
  - rewrite !held_absent; [done|done|]. intros s' H%Hiff. by apply Hn in H.
Qed.

Lemma holds_insert_self t s dev ino path :
  holds (<[s := PathSlot dev ino path SLOT_USED]> t) dev ino s.
Proof.
  unfold holds. rewrite slot_insert, decide_True by done. split; [done|]. by apply is_key_spec.
Qed.

(** Storing a path in a slot for a key nothing else holds. *)
Lemma store_ok t s dev ino path pre post :
  cache_ok t → probes dev ino = pre ++ s :: post →
  Forall (λ s', ps_used (slot t s') ≠ SLOT_EMPTY) pre →
  (∀ s', s' ≠ s → ¬ holds t dev ino s') →
  (ps_used (slot t s) = SLOT_USED → is_key dev ino (slot t s) = true) →
  let t' := <[s := PathSlot dev ino path SLOT_USED]> t in
  cache_ok t' ∧ held t' dev ino = Some path ∧
  ∀ d i, (d, i) ≠ (dev, ino) → held t' d i = held t d i.
Proof.
  intros Hok Hp HF Hu Hs t'.
  assert (Hr : 0 ≤ s < PATH_CACHE_CAP).
  { apply (probes_range dev ino). rewrite Hp. apply elem_of_app. right. by left. }
  assert (Hok' : cache_ok t').
  { apply cache_ok_write; try done. cbn [ps_dev ps_ino]. intros _ pre' post' Hp'.
    rewrite Hp in Hp'. pose proof (probes_NoDup dev ino) as Hnd. rewrite Hp in Hnd.
    by destruct (app_cons_inj_NoDup _ _ _ _ _ Hnd Hp') as [-> ->]. }
  split; [done|]. split.
  - rewrite (held_holds _ _ _ s Hok' (holds_insert_self _ _ _ _ _)).
    unfold t'. by rewrite slot_insert, decide_True.
  - intros d i Hne. apply held_write_other; try done.
    + intros [Hused [<- <-]%is_key_spec]. specialize (Hs Hused).
      apply is_key_spec in Hs as [Hd Hi]. by rewrite Hd, Hi in Hne.
    + intros [_ [Hd Hi]%is_key_spec]. cbn in *. by subst.
Qed.

Lemma put_holder t dev ino path s : cache_ok t → holds t dev ino s →
  path_cache_put t dev ino path = <[s := PathSlot dev ino (strncpy path 4095) SLOT_USED]> t.
Proof.
  intros Hok Hh. destruct (probes_to_holder _ _ _ _ Hok Hh) as (pre & post & Hp & HF).
  unfold path_cache_put. rewrite Hp.
  destruct (put_pass t dev ino path pre (s :: post) HF None) as (tomb & -> & _).
  cbn [put_loop]. destruct Hh as [-> Hk]. rewrite Hk.
  apply is_key_spec in Hk as [-> ->]. done.
Qed.

(** The first slot that satisfies a decidable predicate. *)
Lemma first_split (P : Z → Prop) `{!∀ x, Decision (P x)} (l : list Z) :
  Exists P l → ∃ pre s post, l = pre ++ s :: post ∧ P s ∧ Forall (λ x, ¬ P x) pre.
Proof.
  induction l as [|x l IH]; intros He; [by apply Exists_nil in He|].
  destruct (decide (P x)) as [HP|HP]; [by exists [], x, l|].
  apply Exists_cons in He as [?|He]; [done|]. destruct (IH He) as (pre & s & post & -> & Hs & HF).
  exists (x :: pre), s, post. split; [done|]. split; [done|]. by constructor.
Qed.

#[local] Instance slot_state_dec : EqDecision slot_state.
Proof. solve_decision. Defined.

(** A new key goes to the first tombstone before the first empty slot, or to
    that empty slot. *)
Lemma put_new t dev ino path s0 : cache_ok t → (∀ s, ¬ holds t dev ino s) →
  0 ≤ s0 < PATH_CACHE_CAP → ps_used (slot t s0) = SLOT_EMPTY →
  ∃ s pre post, path_cache_put t dev ino path = <[s := PathSlot dev ino (strncpy path 4095) SLOT_USED]> t ∧
    probes dev ino = pre ++ s :: post ∧
    Forall (λ s', ps_used (slot t s') ≠ SLOT_EMPTY) pre ∧ ps_used (slot t s) ≠ SLOT_USED.
Proof.
  intros Hok Hn Hr0 He0.
  destruct (first_split (λ s, ps_used (slot t s) = SLOT_EMPTY) (probes dev ino))
    as (pre & s & post & Hp & Hs & HF).
  { apply Exists_exists. exists s0. split; [by apply probes_complete|done]. }
  assert (HF' : Forall (passable t dev ino) pre).
  { apply (Forall_impl _ _ _ HF). intros x Hx. by split. }
  unfold path_cache_put. rewrite Hp.
  destruct (put_pass t dev ino path pre (s :: post) HF' None)
    as (tomb & -> & [->|(p1 & d & p2 & -> & -> & Hd)]); cbn [put_loop]; rewrite Hs; cbn [default].
  - exists s, pre, post. split; [done|]. split; [done|]. split; [done|]. by rewrite Hs.
  - exists d, p1, (p2 ++ s :: post). split; [done|]. split; [by rewrite <- app_assoc|].
    apply Forall_app in HF as [HF _]. split; [done|]. by rewrite Hd.
Qed.

(** With no empty slot left, a new key is not stored, whatever tombstones there
    are. *)
Lemma put_full t dev ino path : (∀ s, ¬ holds t dev ino s) →
  (∀ s, 0 ≤ s < PATH_CACHE_CAP → ps_used (slot t s) ≠ SLOT_EMPTY) →
  path_cache_put t dev ino path = t.
Proof.
  intros Hn Hfull. unfold path_cache_put. rewrite <- (app_nil_r (probes dev ino)).
  assert (HF : Forall (passable t dev ino) (probes dev ino)).
  { apply Forall_forall. intros s Hs. split; [by eapply Hfull, probes_range|apply Hn]. }
  by destruct (put_pass t dev ino path _ [] HF None) as (tomb & -> & _).
Qed.

(** What [path_cache_put] does to a well-formed table. *)
Lemma put_spec t dev ino path : cache_ok t →
  cache_ok (path_cache_put t dev ino path) ∧
  (held (path_cache_put t dev ino path) dev ino = Some (strncpy path 4095) ∨
   path_cache_put t dev ino path = t ∧ held t dev ino = None ∧
   ∀ s, 0 ≤ s < PATH_CACHE_CAP → ps_used (slot t s) ≠ SLOT_EMPTY) ∧
  ∀ d i, (d, i) ≠ (dev, ino) → held (path_cache_put t dev ino path) d i = held t d i.
Proof.
  intros Hok. destruct (holder_dec t dev ino Hok) as [[s Hh]|Hn].
  - rewrite (put_holder _ _ _ _ s) by done.
    destruct (probes_to_holder _ _ _ _ Hok Hh) as (pre & post & Hp & HF).
    destruct (store_ok t s dev ino (strncpy path 4095) pre post Hok Hp) as (? & ? & ?).
    + apply (Forall_impl _ _ _ HF). by intros x [? _].
    + intros s' Hne Hh'. by apply Hne, (co_uniq _ Hok dev ino).
    + intros _. apply Hh.
    + by split; [|split; [left|]].
  - destruct (Exists_dec (λ s, ps_used (slot t s) = SLOT_EMPTY) (probes dev ino)) as [He|Hfull].
    + apply Exists_exists in He as (s0 & Hin & He0).
      destruct (put_new t dev ino path s0 Hok Hn (probes_range _ _ _ Hin) He0)
        as (s & pre & post & Ht & Hp & HF & Hs). rewrite Ht.
      destruct (store_ok t s dev ino (strncpy path 4095) pre post Hok Hp HF) as (? & ? & ?);
        [by intros ? _|done|]. by split; [|split; [left|]].
    + assert (Hall : ∀ s, 0 ≤ s < PATH_CACHE_CAP → ps_used (slot t s) ≠ SLOT_EMPTY).
      { intros s Hs He. apply Hfull, Exists_exists. exists s. split; [by apply probes_complete|exact He]. }
      rewrite (put_full t dev ino path Hn Hall). split; [exact Hok|]. split; [|reflexivity].
      right. split; [reflexivity|]. split; [by apply held_absent|exact Hall].
Qed.

(** It writes one slot at most, with the key and the path. *)
Lemma put_cases t dev ino path : path_cache_put t dev ino path = t ∨
  ∃ s, path_cache_put t dev ino path = <[s := PathSlot dev ino (strncpy path 4095) SLOT_USED]> t.
Proof.
  unfold path_cache_put. generalize (@None Z). induction (probes dev ino) as [|s l IH]; intros tomb; [by left|].
  cbn [put_loop]. destruct (ps_used (slot t s)); [right; by eexists| |apply IH].
  destruct (is_key dev ino (slot t s)) eqn:Hk; [|apply IH].
  apply is_key_spec in Hk as [-> ->]. right. by eexists.
Qed.

Lemma put_slots t dev ino path s : slot (path_cache_put t dev ino path) s = slot t s ∨
  slot (path_cache_put t dev ino path) s = PathSlot dev ino (strncpy path 4095) SLOT_USED.
Proof.
  destruct (put_cases t dev ino path) as [->|[s' ->]]; [by left|]. rewrite slot_insert.
  destruct (decide _); [by right|by left].
Qed.

Lemma remove_spec t dev ino : cache_ok t →
  cache_ok (path_cache_remove t dev ino) ∧ held (path_cache_remove t dev ino) dev ino = None ∧
  ∀ d i, (d, i) ≠ (dev, ino) → held (path_cache_remove t dev ino) d i = held t d i.
Proof.
  intros Hok. destruct (holder_dec t dev ino Hok) as [[s Hh]|Hn].
  - destruct (probes_to_holder _ _ _ _ Hok Hh) as (pre & post & Hp & HF).
    unfold path_cache_remove. rewrite Hp, remove_pass by done. cbn [remove_loop].
    pose proof Hh as [Hu Hk]. rewrite Hu, Hk. apply is_key_spec in Hk as [-> ->].
    set (e := PathSlot _ _ _ SLOT_DELETED).
    assert (Hok' : cache_ok (<[s := e]> t)).
    { apply cache_ok_write; try done. by apply (co_range _ Hok), Hh. }
    split; [done|]. split.
    + apply held_absent. intros s'. unfold holds. rewrite slot_insert.
      destruct (decide (s' = s)) as [->|Hne]; [by intros []|]. intros Hh'.
      by apply Hne, (co_uniq _ Hok dev ino).
    + intros d i Hne. apply held_write_other; try done; [|by intros []].
      intros [_ Hk']. destruct Hh as [_ Hk]. apply is_key_spec in Hk as [<- <-], Hk' as [<- <-]. done.
  - assert (path_cache_remove t dev ino = t) as ->; [|by rewrite held_absent].
    unfold path_cache_remove. induction (probes dev ino) as [|s l IH]; [done|].
    cbn [remove_loop]. specialize (Hn s). unfold holds in Hn.
    destruct (ps_used (slot t s)); [done| |done].
    destruct (is_key dev ino (slot t s)); [by destruct Hn|done].
Qed.

(** ** Suppression of repeated events *)

Definition HOOK_DEDUP_CAP : Z := 4096.
Definition HOOK_DEDUP_MASK : Z := HOOK_DEDUP_CAP - 1.
Definition HOOK_DEDUP_WIN_NS : Z := 200000000.

(* @src ebpf/ig_trace.c:236-242 hook_dedup_entry *)
Record hook_dedup_entry := DedupEntry {
  hd_dev : Z; hd_ino : Z; hd_op_mask : Z; hd_used : bool; hd_last_ts_ns : Z }.

Abbreviation dedup_table := (gmap Z hook_dedup_entry).
Definition dedup_zero : hook_dedup_entry := DedupEntry 0 0 0 false 0.

(* @src ebpf/ig_trace.c:247-251 hook_dedup_hash *)
Definition hook_dedup_hash (dev ino op_mask : Z) : Z :=
  let h := Z.lxor (Z.lxor (u64 (dev * 2654435761)) (u64 (ino * 2246822519)))
             (u64 (op_mask * 374761393)) in
  Z.land (Z.lxor h (Z.shiftr h 32)) HOOK_DEDUP_MASK.

(** [true]: suppress. *)
(* @src ebpf/ig_trace.c:254-275 hook_dedup_check *)
Definition hook_dedup_check (g : dedup_table) (dev ino op_mask ts_ns : Z) : bool * dedup_table :=
  let slot := hook_dedup_hash dev ino op_mask in
  let e := default dedup_zero (g !! slot) in
  let suppress := hd_used e && (hd_dev e =? dev) && (hd_ino e =? ino) &&
                  (hd_op_mask e =? op_mask) &&
                  (u64 (ts_ns - hd_last_ts_ns e) <? HOOK_DEDUP_WIN_NS) in
  (suppress, if suppress then g else <[slot := DedupEntry dev ino op_mask true ts_ns]> g).

(** The events let through, in order, among those of a trace. *)
Fixpoint dedup_run (g : dedup_table) (evs : list (Z * Z * Z * Z)) : list (Z * Z * Z * Z) :=
  match evs with
  | [] => []
  | (dev, ino, op, ts) :: evs =>
      let (suppress, g) := hook_dedup_check g dev ino op ts in
      if suppress then dedup_run g evs else (dev, ino, op, ts) :: dedup_run g evs
  end.

Definition dedup_key (e : Z * Z * Z * Z) : Z * Z * Z := e.1.

(** Every used entry of the table is an event that was let through. *)
Definition dedup_from (g : dedup_table) (out : list (Z * Z * Z * Z)) : Prop :=
  ∀ s e, g !! s = Some e → hd_used e = true →
    (hd_dev e, hd_ino e, hd_op_mask e, hd_last_ts_ns e) ∈ out.

Lemma dedup_run_covered evs : ∀ g out, dedup_from g out →
  ∀ e, e ∈ evs → ∃ e', e' ∈ out ++ dedup_run g evs ∧ dedup_key e' = dedup_key e ∧
    (e' = e ∨ u64 (e.2 - e'.2) < HOOK_DEDUP_WIN_NS).
Proof.
  induction evs as [|[[[dev ino] op] ts] evs IH]; intros g out Hg e He; [by apply elem_of_nil in He|].
  cbn [dedup_run]. unfold hook_dedup_check.
  set (s := hook_dedup_hash dev ino op). set (d := default dedup_zero (g !! s)).
  destruct (hd_used d && _ && _ && _ && _) eqn:Hsup.
  - apply elem_of_cons in He as [->|He]; [|by apply (IH g out Hg)].
    rewrite !andb_true_iff, !Z.eqb_eq, Z.ltb_lt in Hsup.
    destruct Hsup as ((((Hu & Hd) & Hi) & Ho) & Hw).
    exists (hd_dev d, hd_ino d, hd_op_mask d, hd_last_ts_ns d).
    split; [|split; [unfold dedup_key; cbn; congruence|by right]]. apply elem_of_app. left.
    unfold d in *. destruct (g !! s) as [d'|] eqn:Hg'; [|done]. by apply (Hg s d').
  - set (g' := <[s := DedupEntry dev ino op true ts]> g).
    assert (Hg' : dedup_from g' (out ++ [(dev, ino, op, ts)])).
    { intros s' d' [[<- <-]|[Hne Hd']]%lookup_insert_Some Hu; apply elem_of_app; [right; by left|].
      left. by apply (Hg s'). }
    apply elem_of_cons in He as [->|He].
    + exists (dev, ino, op, ts). split; [|by split; [|left]]. apply elem_of_app. right. by left.
    + destruct (IH g' _ Hg' e He) as (e' & Hin & Hk & Hw). exists e'.
      by rewrite <- app_assoc in Hin.
Qed.

(** ** Properties *)

(** [C39] The table is a map from (device, inode) to path: a stored path is
    found again (cut to 4095 bytes), a removed one is not, and the other keys
    are unaffected; only a new key offered to a table without an empty slot is
    not stored. *)
Theorem path_cache_refines_map (t : path_cache) (dev ino : Z) (path : cstring) (Hok : cache_ok t) :
  let t' := path_cache_put t dev ino path in
  let t'' := path_cache_remove t dev ino in
  cache_ok t' ∧ cache_ok t'' ∧
  (held t' dev ino = Some (strncpy path 4095) ∨
   t' = t ∧ held t dev ino = None ∧
     ∀ s, 0 ≤ s < PATH_CACHE_CAP → ps_used (slot t s) ≠ SLOT_EMPTY) ∧
  held t'' dev ino = None ∧
  (∀ d i, (d, i) ≠ (dev, ino) → held t' d i = held t d i ∧ held t'' d i = held t d i) ∧
  ∀ d i n, path_cache_get t d i n =
    strncpy (default (lit "<ino=" ++ decimal i ++ lit ">") (held t d i)) (n - 1).
Proof.
  intros t' t''. destruct (remove_spec t dev ino Hok) as (Hok'' & Hrem & Hro).
  destruct (put_spec t dev ino path Hok) as (Hok' & Hput & Hpo). fold t' in Hok', Hput, Hpo.
  split; [exact Hok'|]. split; [exact Hok''|].
  split; [exact Hput|]. split; [exact Hrem|].
  split; [intros d i Hne; split; [by apply Hpo|by apply Hro]|].
  intros d i n. apply get_held.
Qed.

(** Tombstones never become empty again, so once every slot has been used
    no new path is remembered, even when all of them have been removed: the
    event is reported with the placeholder. *)
Theorem tombstones_exhaust_path_cache (t : path_cache) (dev ino : Z) (path : cstring)
    (Hdel : ∀ s, 0 ≤ s < PATH_CACHE_CAP → ps_used (slot t s) = SLOT_DELETED) (Hok : cache_ok t) :
  path_cache_put t dev ino path = t ∧
  path_cache_get (path_cache_put t dev ino path) dev ino 4096 =
    strncpy (lit "<ino=" ++ decimal ino ++ lit ">") 4095.
Proof.
  assert (Hn : ∀ s, ¬ holds t dev ino s).
  { intros s Hh. pose proof (co_range _ Hok s (proj1 Hh)) as Hr. destruct Hh as [Hu _].
    by rewrite Hdel in Hu. }
  assert (Hput : path_cache_put t dev ino path = t).
  { apply put_full; [done|]. intros s Hs. by rewrite Hdel. }
  split; [done|]. by rewrite Hput, get_held, held_absent.
Qed.

(** An event is suppressed only when an event for the same inode and
    operation was let through less than 200 ms (modulo 2^64 ns) before it. *)
Theorem dedup_loses_only_repeats (evs : list (Z * Z * Z * Z)) (e : Z * Z * Z * Z) (Hin : e ∈ evs) :
  ∃ e', e' ∈ dedup_run ∅ evs ∧ dedup_key e' = dedup_key e ∧
    (e' = e ∨ u64 (e.2 - e'.2) < HOOK_DEDUP_WIN_NS).
Proof.
  apply (dedup_run_covered evs ∅ []); [|done]. intros s d Hs. by rewrite lookup_empty in Hs.
Qed.

Lemma path_cache_refines_map_witness :
  held (path_cache_put ∅ 8 42 (lit "/etc/passwd")) 8 43 = held ∅ 8 43.
Proof.
  destruct (path_cache_refines_map ∅ 8 42 (lit "/etc/passwd") cache_ok_empty)
    as (_ & _ & _ & _ & H & _).
  exact (proj1 (H 8 43 ltac:(intros [= E]))).
Defined.

(** A table whose first [n] slots hold [e]. *)
Definition filled (n : Z) (e : path_cache_entry) : path_cache :=
  list_to_map ((λ s, (s, e)) <$> seqZ 0 n).

Lemma filled_lookup n e s e' : filled n e !! s = Some e' ↔ 0 ≤ s < n ∧ e' = e.
Proof.
  unfold filled. split.
  - intros Hs. apply elem_of_list_to_map_2, list_elem_of_fmap in Hs as (s' & [= -> ->] & Hs).
    apply elem_of_seqZ in Hs. split; [lia|done].
  - intros [Hs ->]. apply elem_of_list_to_map_1'.
    + by intros y (s' & [= _ ->] & _)%list_elem_of_fmap.
    + apply list_elem_of_fmap. exists s. split; [done|]. apply elem_of_seqZ. lia.
Qed.

Lemma filled_slot n e s : 0 ≤ s < n → slot (filled n e) s = e.
Proof. intros Hs. unfold slot. by rewrite (proj2 (filled_lookup n e s e)). Qed.

Lemma filled_ok n e : ps_used e = SLOT_DELETED → cache_ok (filled n e).
Proof.
  intros Hd. assert (Hn : ∀ s, ps_used (slot (filled n e) s) ≠ SLOT_USED).
  { intros s. unfold slot. destruct (filled n e !! s) as [e'|] eqn:He; [|done].
    apply filled_lookup in He as [_ ->]. cbn. by rewrite Hd. }
  split.
  - by intros s Hs%Hn.
  - by intros dev ino s pre post [Hs%Hn _].
  - by intros dev ino s s' [Hs%Hn _].
Qed.

Definition all_deleted : path_cache := filled PATH_CACHE_CAP (PathSlot 0 0 [] SLOT_DELETED).

Lemma tombstones_exhaust_path_cache_witness :
  path_cache_put all_deleted 8 42 (lit "/etc/passwd") = all_deleted.
Proof.
  apply (tombstones_exhaust_path_cache all_deleted 8 42 (lit "/etc/passwd")).
  - intros s Hs. unfold all_deleted. by rewrite filled_slot.
  - apply filled_ok. reflexivity.
Defined.

Lemma dedup_loses_only_repeats_witness :
  ∃ e', e' ∈ dedup_run ∅ [(8, 42, 2, 100); (8, 42, 2, 200)] ∧ dedup_key e' = (8, 42, 2) ∧
    (e' = (8, 42, 2, 200) ∨ u64 (200 - e'.2) < HOOK_DEDUP_WIN_NS).
Proof.
  apply (dedup_loses_only_repeats [(8, 42, 2, 100); (8, 42, 2, 200)] (8, 42, 2, 200)).
  right. by left.
Defined.
