(* ===== verification/EbpfTrace.v ===== *)
(** * eBPF loader and event handler (ebpf/ig_trace.c)

    The user-space half of the eBPF back end: policies put into and taken out of
    the BPF map by path, and audit events turned into queue events. The file
    system and [/proc] are parameters; the BPF programs are those of
    EbpfPrograms, the queue that of EventQueue. *)

From S2P Require Import Prelude Bytes Monitor Walker EventQueue LkmPolicy LkmAccess.
From S2P Require Import EbpfPrograms PathCache LkmChardev.

Local Open Scope Z_scope.

(** [lstat]: device, inode and mode. *)
Record kstat := KStat { st_dev : Z; st_ino : Z; st_mode : Z }.

(* @src ebpf/ig_trace.c:433-446 ig_mono_to_real_offset_ns *)
Record offset_state := OffsetState { off_cached : Z; off_ctr : Z }.

(** The module's statics: the skeleton ([g_skel], with its maps), the path cache,
    the suppression table, the clock offset; the queue is the handler's context. *)
(* @src ebpf/ig_trace.c:50-51 g_skel *)
Record trace_state := TraceState {
  tr_skel : option bpf_maps; tr_cache : gmap Z path_cache_entry;
  tr_dedup : gmap Z hook_dedup_entry; tr_offset : offset_state; tr_queue : option ig_event_queue }.

Definition set_skel (f : bpf_maps → bpf_maps) (s : trace_state) : trace_state :=
  TraceState (f <$> tr_skel s) (tr_cache s) (tr_dedup s) (tr_offset s) (tr_queue s).
Definition set_cache (f : gmap Z path_cache_entry → gmap Z path_cache_entry) (s : trace_state) : trace_state :=
  TraceState (tr_skel s) (f (tr_cache s)) (tr_dedup s) (tr_offset s) (tr_queue s).
Definition set_dedup (g : gmap Z hook_dedup_entry) (s : trace_state) : trace_state :=
  TraceState (tr_skel s) (tr_cache s) g (tr_offset s) (tr_queue s).

Definition set_policies (f : gmap (Z * Z) inode_policy → gmap (Z * Z) inode_policy) (m : bpf_maps) : bpf_maps :=
  BpfMaps (f (policy_map m)) (audit_rb m) (hook_stats m) (proc_map m).

Definition policies (s : trace_state) : gmap (Z * Z) inode_policy :=
  match tr_skel s with Some m => policy_map m | None => ∅ end.

Section trace.
Context `{ProcSource}.
Variable lstat : cstring → option kstat.
Variable readdir : cstring → option (list cstring).

(** ** Policies *)

(** The map refuses a new key when it holds [max_entries]. *)
Definition map_full (m : gmap (Z * Z) inode_policy) (k : Z * Z) : bool :=
  bool_decide (m !! k = None) && bool_decide (POLICY_MAP_MAX ≤ Z.of_nat (size m)).

(* @src ebpf/ig_trace.c:302-322 add_policy_inode *)
Definition add_policy_inode (s : trace_state) (dev ino mask block : Z) : Z * trace_state :=
  match tr_skel s with
  | None => (-1, s)
  | Some m =>
      if map_full (policy_map m) (dev, ino) then (-1, s)
      else (0, set_skel (set_policies (<[(dev, ino) := InodePolicy mask block]>)) s)
  end.

(* @src ebpf/ig_trace.c:324-340 remove_policy_inode *)
Definition remove_policy_inode (s : trace_state) (dev ino : Z) : Z * trace_state :=
  match tr_skel s with
  | None => (-1, s)
  | Some m =>
      match policy_map m !! (dev, ino) with
      | None => (-1, s)
      | Some _ => (0, set_skel (set_policies (delete (dev, ino))) s)
      end
  end.

(** [snprintf(child, sizeof(child), "%s/%s", path, name)] *)
Definition child_path (path name : cstring) : cstring := take 4095 (path ++ 47 :: name).

(** [fuel] bounds the depth of the recursion; [None] when it runs out. *)
(* @src ebpf/ig_trace.c:376-420 add_path_internal *)
Fixpoint add_path_internal (fuel : nat) (s : trace_state) (path : cstring) (mask block : Z)
    (recursive : bool) : option (Z * trace_state) :=
  match lstat path with
  | None => Some (-1, s)
  | Some st =>
      let kdev := stat_dev_to_kernel (st_dev st) in
      let kino := st_ino st in
      let (rc, s1) := add_policy_inode s kdev kino mask block in
      let s1 := if rc =? 0 then set_cache (λ t, path_cache_put t kdev kino path) s1 else s1 in
      if negb recursive || negb (S_ISDIR (st_mode st)) then Some (0, s1)
      else
        match readdir path, fuel with
        | None, _ => Some (-1, s1)
        | Some _, O => None
        | Some names, S fuel =>
            s2 ← fold_left (λ acc name, s ← acc;
                   if dot_entry name then Some s
                   else '(_, s) ← add_path_internal fuel s (child_path path name) mask block true; Some s)
                 names (Some s1);
            Some (0, s2)
        end
  end.

(* @src ebpf/ig_trace.c:342-374 remove_path_internal *)
Fixpoint remove_path_internal (fuel : nat) (s : trace_state) (path : cstring) (recursive : bool)
    : option (Z * trace_state) :=
  match lstat path with
  | None => Some (-1, s)
  | Some st =>
      let kdev := stat_dev_to_kernel (st_dev st) in
      let kino := st_ino st in
      let s1 := set_cache (λ t, path_cache_remove t kdev kino) s in
      let s1 := (remove_policy_inode s1 kdev kino).2 in
      if negb recursive || negb (S_ISDIR (st_mode st)) then Some (0, s1)
      else
        match readdir path, fuel with
        | None, _ => Some (-1, s1)
        | Some _, O => None
        | Some names, S fuel =>
            s2 ← fold_left (λ acc name, s ← acc;
                   if dot_entry name then Some s
                   else '(_, s) ← remove_path_internal fuel s (child_path path name) true; Some s)
                 names (Some s1);
            Some (0, s2)
        end
  end.

(* @src ebpf/ig_trace.c:594-612 ebpf_policy_add_path *)
Definition ebpf_policy_add_path (s : trace_state) (path : cstring) (mask block : Z) :=
  add_path_internal 0 s path mask block false.
Definition ebpf_policy_remove_path (s : trace_state) (path : cstring) :=
  remove_path_internal 0 s path false.

(** The result code, with the mask and block mode found. *)
(* @src ebpf/ig_trace.c:614-640 ebpf_policy_has_path *)
Definition ebpf_policy_has_path (s : trace_state) (path : cstring) : Z * option (Z * Z) :=
  match tr_skel s with
  | None => (-1, None)
  | Some m =>
      match lstat path with
      | None => (-1, None)
      | Some st =>
          match policy_map m !! (stat_dev_to_kernel (st_dev st), st_ino st) with
          | None => (0, None)
          | Some p => (1, Some (ip_mask p, ip_block p))
          end
      end
  end.

(** ** Events *)

(* @src ebpf/ig_trace.c:422-428 op_to_ig_type *)
Definition op_to_ig_type (op_mask : Z) : ig_event_type :=
  if has_bits op_mask IG_EBPF_OP_DELETE then IG_EVENT_DELETE
  else if has_bits op_mask IG_EBPF_OP_WRITE then IG_EVENT_MODIFY
  else if has_bits op_mask IG_EBPF_OP_ATTR then IG_EVENT_ATTRIB
  else IG_EVENT_ACCESS.

(** [clocks]: realtime and monotonic seconds and nanoseconds, [None] when
    [clock_gettime] fails. *)
(* @src ebpf/ig_trace.c:433-446 ig_mono_to_real_offset_ns *)
Definition ig_mono_to_real_offset_ns (o : offset_state) (clocks : option (Z * Z * Z * Z))
    : Z * offset_state :=
  let cached :=
    if Z.land (off_ctr o) 0x3FF =? 0 then
      match clocks with
      | Some (rt_s, rt_ns, mono_s, mono_ns) => (rt_s - mono_s) * 1000000000 + (rt_ns - mono_ns)
      | None => off_cached o
      end
    else off_cached o in
  (cached, OffsetState cached (u64 (off_ctr o + 1))).

(* @src ebpf/ig_trace.c:92-104 ig_ebpf_chain_collect *)
Definition info_of_entry (e : ig_proc_entry) : ig_proc_info :=
  pa_enrich (ProcInfo (s32 (EbpfPrograms.pe_pid e)) (s32 (EbpfPrograms.pe_ppid e))
               (EbpfPrograms.pe_uid e) (EbpfPrograms.pe_euid e) (s32 (EbpfPrograms.pe_sid e))
               (strncpy (EbpfPrograms.pe_tty e) 31) (take 15 (EbpfPrograms.pe_comm e)) []
               (strncpy (EbpfPrograms.pe_cmdline e) 511) 0 (EbpfPrograms.pe_start_time_ns e)).

(** The entries filled from [cur] on and the truncation flag. *)
(* @src ebpf/ig_trace.c:82-119 ig_ebpf_chain_collect *)
Fixpoint chain_loop (fuel : nat) (procs : gmap Z ig_proc_entry) (cur : Z) : list ig_proc_info * bool :=
  match fuel with
  | O => ([], false)
  | S fuel =>
      let o := match procs !! u32 cur with
               | Some e => Some (info_of_entry e)
               | None => pa_resolve cur
               end in
      match o with
      | None => ([], true)
      | Some o =>
          if (pi_ppid o <=? 1) || (pi_ppid o =? cur) then ([o], false)
          else let (os, tr) := chain_loop fuel procs (pi_ppid o) in
               (o :: os, match fuel with O => true | _ => tr end)
      end
  end.

(* @src ebpf/ig_trace.c:71-120 ig_ebpf_chain_collect *)
Definition ig_ebpf_chain_collect (s : trace_state) (start_pid : Z) : ig_pid_chain :=
  if start_pid <=? 0 then pid_chain_zero
  else
    let (os, tr) := chain_loop IG_PA_MAX_DEPTH
                      (match tr_skel s with Some m => proc_map m | None => ∅ end) start_pid in
    PidChain (Z.of_nat (length os)) (if tr : bool then 1 else 0)
      (os ++ replicate (IG_PA_MAX_DEPTH - length os) proc_info_zero).

(** [strrchr(path, '/')]: what follows the last slash, or the whole path. *)
Fixpoint basename (path acc : cstring) : cstring :=
  match path with
  | [] => acc
  | c :: p => if c =? 47 then basename p p else basename p acc
  end.

(** The queue event built from an audit event. *)
(* @src ebpf/ig_trace.c:489-508 handle_audit_event *)
Definition event_of_audit (e : audit_event) (path : cstring) (chain : ig_pid_chain) (offset : Z) : ig_event :=
  Event (op_to_ig_type (ae_op_mask e)) IG_SOURCE_EBPF (strncpy path 4095)
    (strncpy (basename path path) 255)
    (Z.quot (s64 (s64 (ae_ts_ns e) + offset)) 1000000000)
    (ae_dev e) (ae_ino e) (s32 (ae_denied e)) (s32 (ae_pid e)) (ae_uid e)
    (match ch_chain chain with i :: _ => if 0 <? ch_depth chain then pi_sid i else 0 | [] => 0 end)
    (strncpy (ae_comm e) 15) chain.

(* @src ebpf/ig_trace.c:448-514 handle_audit_event *)
Definition handle_audit_event (s : trace_state) (data : option audit_event)
    (clocks : option (Z * Z * Z * Z)) : trace_state :=
  match data with
  | None => s (* data_sz < sizeof( *e) *)
  | Some e =>
      let (suppress, g) := hook_dedup_check (tr_dedup s) (ae_dev e) (ae_ino e) (ae_op_mask e) (ae_ts_ns e) in
      if suppress then set_dedup g s
      else
        let s := set_dedup g s in
        let path := path_cache_get (tr_cache s) (ae_dev e) (ae_ino e) 4096 in
        let chain := ig_ebpf_chain_collect s (s32 (ae_pid e)) in
        let s := if (ae_hook_id e =? IG_HOOK_PATH_UNLINK) && (ae_denied e =? 0)
                 then set_cache (λ t, path_cache_remove t (ae_dev e) (ae_ino e))
                        (remove_policy_inode s (ae_dev e) (ae_ino e)).2
                 else s in
        match tr_queue s with
        | None => s
        | Some q =>
            let (offset, o) := ig_mono_to_real_offset_ns (tr_offset s) clocks in
            TraceState (tr_skel s) (tr_cache s) (tr_dedup s) o
              (Some (ig_queue_push q (event_of_audit e path chain offset)))
        end
  end.
(** ** Lemmas *)

(** The key has the given policy, or the map has no room left. *)
Definition covered (p : inode_policy) (s : trace_state) (k : Z * Z) : Prop :=
  policies s !! k = Some p ∨ POLICY_MAP_MAX ≤ Z.of_nat (size (policies s)).

(** Adding only: what is covered stays covered and the skeleton stays loaded. *)
Definition extends (p : inode_policy) (s s' : trace_state) : Prop :=
  (is_Some (tr_skel s) → is_Some (tr_skel s')) ∧ ∀ k, covered p s k → covered p s' k.

Lemma extends_refl p s : extends p s s.
Proof. by split. Qed.

Lemma extends_trans p s1 s2 s3 : extends p s1 s2 → extends p s2 s3 → extends p s1 s3.
Proof. intros [H1 H1'] [H2 H2']. split; auto. Qed.

Lemma set_cache_extends p f s : extends p s (set_cache f s).
Proof. by split. Qed.

Lemma size_insert_ge (m : gmap (Z * Z) inode_policy) k p : (size m ≤ size (<[k := p]> m))%nat.
Proof.
  rewrite map_size_insert. destruct (m !! k); cbn; lia.
Qed.

Lemma add_policy_inode_spec s dev ino mask block : is_Some (tr_skel s) →
  extends (InodePolicy mask block) s (add_policy_inode s dev ino mask block).2 ∧
  covered (InodePolicy mask block) (add_policy_inode s dev ino mask block).2 (dev, ino).
Proof.
  intros [m Hm]. unfold add_policy_inode. rewrite Hm.
  destruct (map_full (policy_map m) (dev, ino)) eqn:Hf; cbn [snd].
  - apply andb_true_iff in Hf as [_ Hf%bool_decide_eq_true]. split; [apply extends_refl|].
    right. unfold policies. by rewrite Hm.
  - split.
    + split; [intros _; unfold set_skel; cbn; rewrite Hm; by eexists|].
      intros k. unfold covered, policies, set_skel. cbn. rewrite Hm. cbn.
      pose proof (size_insert_ge (policy_map m) (dev, ino) (InodePolicy mask block)).
      intros [Hk|Hs]; [|right; lia]. left.
      destruct (decide ((dev, ino) = k)) as [<-|]; [by rewrite lookup_insert_eq|].
      by rewrite lookup_insert_ne.
    + left. unfold policies, set_skel. cbn. rewrite Hm. cbn. by rewrite lookup_insert_eq.
Qed.

(** The paths a recursive call visits. *)
Inductive reach (root : cstring) : cstring → Prop :=
  | reach_root : reach root root
  | reach_child p st names name :
      reach root p → lstat p = Some st → S_ISDIR (st_mode st) = true →
      readdir p = Some names → name ∈ names → dot_entry name = false →
      reach root (child_path p name).

Lemma reach_step root st names p : lstat root = Some st → S_ISDIR (st_mode st) = true →
  readdir root = Some names → reach root p →
  p = root ∨ ∃ name, name ∈ names ∧ dot_entry name = false ∧ reach (child_path root name) p.
Proof.
  intros Hl Hd Hr. induction 1 as [|p st' names' name Hp IH Hl' Hd' Hr' Hin Hdot]; [by left|].
  right. destruct IH as [->|(n & Hn & Hndot & Hreach)].
  - assert (names' = names) as -> by congruence. exists name. split; [done|]. split; [done|].
    apply reach_root.
  - exists n. split; [done|]. split; [done|]. by eapply reach_child.
Qed.

(** A fold over the entries of a directory, given what one entry's call does. *)
Lemma fold_entries_spec (pol : inode_policy) (f : trace_state → cstring → option (Z * trace_state))
    (Q : cstring → trace_state → Prop) names :
  (∀ name s s', Q name s → extends pol s s' → Q name s') →
  ∀ s, is_Some (tr_skel s) →
  (∀ name s, name ∈ names → dot_entry name = false → is_Some (tr_skel s) →
     ∃ rc s', f s name = Some (rc, s') ∧ extends pol s s' ∧ Q name s') →
  ∃ s', fold_left (λ acc name, s ← acc; if dot_entry name then Some s
                     else '(_, s) ← f s name; Some s) names (Some s) = Some s' ∧
    extends pol s s' ∧ ∀ name, name ∈ names → dot_entry name = false → Q name s'.
Proof.
  intros Hmono. induction names as [|name names IH]; intros s Hs Hf.
  { exists s. split; [done|]. split; [apply extends_refl|]. by intros n ?%elem_of_nil. }
  assert (Hf' : ∀ n s, n ∈ names → dot_entry n = false → is_Some (tr_skel s) →
            ∃ rc s', f s n = Some (rc, s') ∧ extends pol s s' ∧ Q n s').
  { intros n s0 Hn. apply Hf. by right. }
  cbn [fold_left mbind option_bind]. destruct (dot_entry name) eqn:Hd.
  - destruct (IH s Hs Hf') as (s' & Hfold & He & Hq). exists s'. split; [done|]. split; [done|].
    intros n [->|Hn]%elem_of_cons Hnd; [congruence|by apply Hq].
  - destruct (Hf name s (list_elem_of_here _ _) Hd Hs) as (rc & s1 & H1 & He1 & Hq1).
    rewrite H1. cbn [mbind option_bind].
    destruct (IH s1 (proj1 He1 Hs) Hf') as (s2 & Hfold & He2 & Hq2). exists s2.
    split; [done|]. split; [by eapply extends_trans|].
    intros n [->|Hn]%elem_of_cons Hnd; [by eapply Hmono|by apply Hq2].
Qed.

Section recursive.
(** The directory tree is finite: a depth that decreases at every level. *)
Variable depth : cstring → nat.
Hypothesis depth_child : ∀ p names name, readdir p = Some names → name ∈ names →
  dot_entry name = false → (depth (child_path p name) < depth p)%nat.

Lemma reach_leaf root p :
  (∀ st names, lstat root = Some st → S_ISDIR (st_mode st) = true → readdir root ≠ Some names) →
  reach root p → p = root.
Proof.
  intros Hleaf. induction 1 as [|p st names name Hp IH Hl Hd Hr Hin Hdot]; [done|].
  subst p. by destruct (Hleaf st names).
Qed.

Lemma add_recursive_spec fuel : ∀ path s mask block, (depth path < fuel)%nat → is_Some (tr_skel s) →
  ∃ rc s', add_path_internal fuel s path mask block true = Some (rc, s') ∧
    extends (InodePolicy mask block) s s' ∧
    ∀ p st, reach path p → lstat p = Some st →
      covered (InodePolicy mask block) s' (stat_dev_to_kernel (st_dev st), st_ino st).
Proof.
  induction fuel as [|fuel IH]; intros path s mask block Hfuel Hs; [lia|].
  cbn [add_path_internal]. destruct (lstat path) as [st|] eqn:Hl.
  2:{ eexists _, s. split; [reflexivity|]. split; [apply extends_refl|]. intros p st Hr Hp.
      apply reach_leaf in Hr as ->; [congruence|]. intros st' names Hl'. congruence. }
  set (kdev := stat_dev_to_kernel (st_dev st)). set (pol := InodePolicy mask block).
  destruct (add_policy_inode s kdev (st_ino st) mask block) as [rc s1] eqn:Ha.
  destruct (add_policy_inode_spec s kdev (st_ino st) mask block Hs) as [He1 Hc1].
  rewrite Ha in He1, Hc1. cbn [snd] in He1, Hc1. fold pol in He1, Hc1.
  set (s2 := if rc =? 0 then _ else s1).
  assert (He2 : extends pol s s2) by (unfold s2; destruct (rc =? 0); exact He1).
  assert (Hc2 : covered pol s2 (kdev, st_ino st)) by (unfold s2; destruct (rc =? 0); exact Hc1).
  assert (Hleaf : (∀ st' names, lstat path = Some st' → S_ISDIR (st_mode st') = true →
                     readdir path ≠ Some names) →
            ∀ p st', reach path p → lstat p = Some st' →
              covered pol s2 (stat_dev_to_kernel (st_dev st'), st_ino st')).
  { intros Hno p st' Hr Hp. apply reach_leaf in Hr as ->; [|done].
    assert (st' = st) as -> by congruence. exact Hc2. }
  destruct (S_ISDIR (st_mode st)) eqn:Hdir; cbn [negb orb].
  2:{ eexists _, s2. split; [reflexivity|]. split; [exact He2|]. apply Hleaf. intros st' names. congruence. }
  destruct (readdir path) as [names|] eqn:Hrd.
  2:{ eexists _, s2. split; [reflexivity|]. split; [exact He2|]. apply Hleaf. intros st' names. congruence. }
  destruct (fold_entries_spec pol (λ s name, add_path_internal fuel s (child_path path name) mask block true)
    (λ name s', ∀ p st', reach (child_path path name) p → lstat p = Some st' →
       covered pol s' (stat_dev_to_kernel (st_dev st'), st_ino st')) names)
    with (s := s2) as (s3 & Hfold & He3 & Hq3).
  - intros name s0 s' Hq He p st' Hr Hp. by apply He, Hq with p.
  - by apply He2.
  - intros name s0 Hin Hdot Hs0. apply IH; [|done]. pose proof (depth_child _ _ _ Hrd Hin Hdot). lia.
  - rewrite Hfold. cbn [mbind option_bind]. eexists _, s3. split; [reflexivity|].
    split; [by eapply extends_trans|]. intros p st' Hr Hp.
    destruct (reach_step _ _ _ _ Hl Hdir Hrd Hr) as [->|(name & Hin & Hdot & Hreach)].
    + assert (st' = st) as -> by congruence. by apply He3.
    + by apply (Hq3 name Hin Hdot p).
Qed.

(** A recursive add returns once the fuel exceeds the depth of the tree,
    and then every file and directory below the path has the policy, unless the
    policy map is full. *)
Theorem recursive_add_covers_tree (fuel : nat) (path : cstring) (s : trace_state) (mask block : Z)
    (Hfuel : (depth path < fuel)%nat) (Hload : is_Some (tr_skel s)) :
  ∃ rc s', add_path_internal fuel s path mask block true = Some (rc, s') ∧
    ∀ p st, reach path p → lstat p = Some st →
      policies s' !! (stat_dev_to_kernel (st_dev st), st_ino st) = Some (InodePolicy mask block) ∨
      POLICY_MAP_MAX ≤ Z.of_nat (size (policies s')).
Proof.
  destruct (add_recursive_spec fuel path s mask block Hfuel Hload) as (rc & s' & Ha & _ & Hc).
  by exists rc, s'.
Qed.
End recursive.

(** ** Properties *)

(** A path added with a blocking policy is reported by [has_path], and
    from then on the kernel program denies the operations of its mask on that
    inode. *)
Theorem ebpf_added_path_enforced (s : trace_state) (m : bpf_maps) (path : cstring) (st : kstat)
    (mask block : Z) (env : bpf_env) (inode : kinode) (op hook : Z)
    (Hload : tr_skel s = Some m) (Hst : lstat path = Some st)
    (Hroom : map_full (policy_map m) (stat_dev_to_kernel (st_dev st), st_ino st) = false)
    (Hblock : block ≠ 0) (Hmask : has_bits mask op = true)
    (Hinode : inode_key inode = (stat_dev_to_kernel (st_dev st), st_ino st)) :
  ∃ s' m', ebpf_policy_add_path s path mask block = Some (0, s') ∧ tr_skel s' = Some m' ∧
    ebpf_policy_has_path s' path = (1, Some (mask, block)) ∧
    (audit_inode env inode op hook m').1 = - EPERM.
Proof.
  unfold ebpf_policy_add_path. cbn [add_path_internal]. rewrite Hst.
  unfold add_policy_inode. rewrite Hload, Hroom. cbn [Z.eqb negb orb].
  eexists _, _. split; [reflexivity|]. split; [cbn; rewrite Hload; reflexivity|]. split.
  - unfold ebpf_policy_has_path. cbn [tr_skel set_cache set_skel]. rewrite Hload, Hst.
    cbn [fmap option_fmap option_map set_policies policy_map]. by rewrite lookup_insert_eq.
  - unfold audit_inode. cbn [set_policies policy_map]. rewrite Hinode, lookup_insert_eq.
    cbn [ip_mask ip_block]. rewrite Hmask. apply Z.eqb_neq in Hblock. rewrite Hblock.
    by destruct (be_reserve_ok env).
Qed.

(** An allowed deletion that is not suppressed as a repeat makes the agent
    forget the inode, policy and path, and queues exactly one event for it. *)
Theorem unlinked_inode_forgotten (s : trace_state) (m : bpf_maps) (q : ig_event_queue)
    (e : audit_event) (clocks : option (Z * Z * Z * Z))
    (Hload : tr_skel s = Some m) (Hq : tr_queue s = Some q) (Hok : cache_ok (tr_cache s))
    (Hhook : ae_hook_id e = IG_HOOK_PATH_UNLINK) (Hallow : ae_denied e = 0)
    (Hnew : (hook_dedup_check (tr_dedup s) (ae_dev e) (ae_ino e) (ae_op_mask e) (ae_ts_ns e)).1 = false) :
  let s' := handle_audit_event s (Some e) clocks in
  policies s' !! (ae_dev e, ae_ino e) = None ∧ held (tr_cache s') (ae_dev e) (ae_ino e) = None ∧
  ∃ ev, tr_queue s' = Some (ig_queue_push q ev) ∧ ev_dev ev = ae_dev e ∧ ev_ino ev = ae_ino e ∧
    ev_source ev = IG_SOURCE_EBPF ∧ ev_blocked ev = 0.
Proof.
  intros s'. unfold s', handle_audit_event. destruct (hook_dedup_check _ _ _ _ _) as [sup g].
  cbn [fst] in Hnew. subst sup. rewrite Hhook, Hallow. cbn [Z.eqb andb IG_HOOK_PATH_UNLINK Pos.eqb].
  destruct (remove_spec (tr_cache s) (ae_dev e) (ae_ino e) Hok) as (_ & Hheld & _).
  assert (Hrm : ∀ s0 : trace_state, tr_skel s0 = Some m →
            let s1 := (remove_policy_inode s0 (ae_dev e) (ae_ino e)).2 in
            policies s1 !! (ae_dev e, ae_ino e) = None ∧ tr_cache s1 = tr_cache s0 ∧
            tr_queue s1 = tr_queue s0).
  { intros s0 H0. unfold remove_policy_inode. rewrite H0.
    destruct (policy_map m !! (ae_dev e, ae_ino e)) eqn:E; cbn [snd]; unfold policies; cbn [tr_skel set_skel].
    - rewrite H0. cbn. by rewrite lookup_delete_eq.
    - by rewrite H0, E. }
  destruct (Hrm (set_dedup g s) Hload) as (Hp & Hc & Hqq).
  set (s1 := (remove_policy_inode (set_dedup g s) (ae_dev e) (ae_ino e)).2) in *.
  change (tr_queue (set_cache ?f s1)) with (tr_queue s1). rewrite Hqq.
  change (tr_queue (set_dedup g s)) with (tr_queue s). rewrite Hq.
  destruct (ig_mono_to_real_offset_ns _ clocks) as [off o].
  split; [exact Hp|]. split; [cbn [tr_cache set_cache]; rewrite Hc; exact Hheld|].
  eexists. split; [reflexivity|]. unfold event_of_audit. cbn. rewrite Hallow. done.
Qed.

(** A file destroyed by an allowed rename over it is reported as a DELETE,
    but its policy stays in the map: only the unlink hook removes it. *)
Theorem overwritten_inode_keeps_policy (s : trace_state) (e : audit_event)
    (clocks : option (Z * Z * Z * Z)) (Hhook : ae_hook_id e = IG_HOOK_PATH_RENAME) :
  policies (handle_audit_event s (Some e) clocks) = policies s.
Proof.
  unfold handle_audit_event. destruct (hook_dedup_check _ _ _ _ _) as [sup g].
  destruct sup; [done|]. rewrite Hhook. cbn [Z.eqb andb IG_HOOK_PATH_RENAME IG_HOOK_PATH_UNLINK Pos.eqb].
  change (tr_queue (set_dedup g s)) with (tr_queue s). destruct (tr_queue s); [|done].
  by destruct (ig_mono_to_real_offset_ns _ clocks).
Qed.

(** When the policy map is full the path is not protected, yet the call
    returns 0, the same as success. *)
Theorem full_map_add_reports_success (s : trace_state) (m : bpf_maps) (path : cstring) (st : kstat)
    (mask block : Z) (Hload : tr_skel s = Some m) (Hst : lstat path = Some st)
    (Hfull : map_full (policy_map m) (stat_dev_to_kernel (st_dev st), st_ino st) = true) :
  ebpf_policy_add_path s path mask block = Some (0, s) ∧ ebpf_policy_has_path s path = (0, None).
Proof.
  unfold ebpf_policy_add_path, ebpf_policy_has_path. cbn [add_path_internal].
  unfold add_policy_inode. rewrite Hload, Hst, Hfull. cbn [Z.eqb negb orb].
  split; [by destruct s|]. apply andb_true_iff in Hfull as [->%bool_decide_eq_true _]. done.
Qed.
End trace.

(** *** Witnesses *)

#[local] Existing Instance no_proc.

(** A directory with one file. *)
Definition etc_lstat (p : cstring) : option kstat :=
  if decide (p = lit "/etc") then Some (KStat 0x801 2 0x41ED)
  else if decide (p = lit "/etc/passwd") then Some (KStat 0x801 7 0x81A4) else None.
Definition etc_readdir (p : cstring) : option (list cstring) :=
  if decide (p = lit "/etc") then Some [lit "."; lit ".."; lit "passwd"] else None.
Definition etc_depth (p : cstring) : nat := if decide (p = lit "/etc") then 1 else 0.

Definition no_maps : bpf_maps := BpfMaps ∅ [] ∅ ∅.
Definition trace_zero : trace_state :=
  TraceState (Some no_maps) ∅ ∅ (OffsetState 0 0) (Some ig_queue_init).

Lemma etc_depth_child p names name : etc_readdir p = Some names → name ∈ names →
  dot_entry name = false → (etc_depth (child_path p name) < etc_depth p)%nat.
Proof.
  intros Hr Hin Hdot. unfold etc_readdir in Hr. unfold etc_depth.
  destruct (decide (p = lit "/etc")) as [->|]; [|discriminate]. injection Hr as <-.
  rewrite !elem_of_cons, elem_of_nil in Hin. destruct Hin as [->|[->|[->|[]]]]; try discriminate.
  vm_compute. lia.
Qed.

Lemma etc_passwd_reached : reach etc_lstat etc_readdir (lit "/etc") (lit "/etc/passwd").
Proof.
  apply (reach_child _ _ _ (lit "/etc") (KStat 0x801 2 0x41ED) [lit "."; lit ".."; lit "passwd"] (lit "passwd"));
    try reflexivity; [apply reach_root|]. right. right. by left.
Qed.

Lemma recursive_add_covers_tree_witness :
  ∃ rc s', add_path_internal etc_lstat etc_readdir 2 trace_zero (lit "/etc") 6 1 true = Some (rc, s') ∧
    (policies s' !! (0x800001, 7) = Some (InodePolicy 6 1) ∨
     POLICY_MAP_MAX ≤ Z.of_nat (size (policies s'))).
Proof.
  destruct (recursive_add_covers_tree etc_lstat etc_readdir etc_depth) with (fuel := 2%nat)
    (path := lit "/etc") (s := trace_zero) (mask := 6) (block := 1) as (rc & s' & Ha & Hc).
  - exact etc_depth_child.
  - vm_compute. lia.
  - by eexists.
  - exists rc, s'. split; [exact Ha|].
    apply (Hc (lit "/etc/passwd") (KStat 0x801 7 0x81A4) etc_passwd_reached). reflexivity.
Defined.

Lemma ebpf_added_path_enforced_witness :
  ∃ s' m', ebpf_policy_add_path etc_lstat etc_readdir trace_zero (lit "/etc/passwd") 6 1 = Some (0, s') ∧
    tr_skel s' = Some m' ∧
    ebpf_policy_has_path etc_lstat s' (lit "/etc/passwd") = (1, Some (6, 1)) ∧
    (audit_inode (BpfEnv false 0 0 0 [] []) (KInode (Some 0x800001) 7 0x81A4) IG_EBPF_OP_WRITE 2 m').1 = - EPERM.
Proof.
  apply (ebpf_added_path_enforced etc_lstat etc_readdir trace_zero no_maps (lit "/etc/passwd")
           (KStat 0x801 7 0x81A4)); try reflexivity. discriminate.
Defined.

Definition unlink_event (hook : Z) : audit_event := AuditEvent 0x800001 7 200 0 4 hook 0 (lit "rm") 1000.

Lemma unlinked_inode_forgotten_witness :
  policies (handle_audit_event trace_zero (Some (unlink_event 3)) None) !! (0x800001, 7) = None.
Proof.
  exact (proj1 (unlinked_inode_forgotten trace_zero no_maps ig_queue_init (unlink_event 3) None
                  eq_refl eq_refl cache_ok_empty eq_refl eq_refl eq_refl)).
Defined.

Lemma overwritten_inode_keeps_policy_witness :
  policies (handle_audit_event trace_zero (Some (unlink_event 4)) None) = ∅.
Proof. rewrite (overwritten_inode_keeps_policy trace_zero (unlink_event 4) None eq_refl). reflexivity. Defined.

(** [n] policies on device 0. *)
Definition n_policies (n : Z) : gmap (Z * Z) inode_policy :=
  list_to_map ((λ i, ((0, i), InodePolicy 6 1)) <$> seqZ 0 n).

Lemma n_policies_size n : 0 ≤ n → Z.of_nat (size (n_policies n)) = n.
Proof.
  intros Hn. unfold n_policies. rewrite map_size_list_to_map.
  - rewrite length_fmap, length_seqZ. lia.
  - rewrite <- list_fmap_compose. apply NoDup_fmap_2_strong; [|apply NoDup_seqZ].
    by intros x y _ _ [= ->].
Qed.

Lemma n_policies_other n d i : d ≠ 0 → n_policies n !! (d, i) = None.
Proof.
  intros Hd. apply not_elem_of_list_to_map_1. rewrite <- list_fmap_compose.
  by intros (x & [= E _] & _)%list_elem_of_fmap.
Qed.

Lemma full_map_add_reports_success_witness :
  let m := BpfMaps (n_policies POLICY_MAP_MAX) [] ∅ ∅ in
  let s := TraceState (Some m) ∅ ∅ (OffsetState 0 0) None in
  ebpf_policy_add_path etc_lstat etc_readdir s (lit "/etc/passwd") 6 1 = Some (0, s).
Proof.
  intros m s.
  refine (proj1 (full_map_add_reports_success etc_lstat etc_readdir s m (lit "/etc/passwd")
                   (KStat 0x801 7 0x81A4) 6 1 eq_refl eq_refl _)).
  unfold map_full, m. cbn [policy_map]. apply andb_true_iff. split; apply bool_decide_eq_true.
  - by apply n_policies_other.
  - rewrite n_policies_size by done. reflexivity.
Defined.
