(* ===== verification/EbpfLoader.v ===== *)
(** * Life cycle of the eBPF back end (ebpf/ig_trace.c, main.c)

    Loading and attaching the programs, the polling thread, stopping and cleaning
    up, and what SIGHUP does to the policies. libbpf's answers are arguments. *)

From S2P Require Import Prelude Bytes CText Monitor Walker EventQueue LkmPolicy LkmAccess.
From S2P Require Import EbpfPrograms PathCache LkmChardev EbpfTrace.

Local Open Scope Z_scope.

(** Whether the four libbpf calls succeed. *)
Record bpf_calls := BpfCalls { bc_open : bool; bc_load : bool; bc_attach : bool; bc_ring : bool }.

(** [g_skel] and its maps are [tr_skel] of the trace state; [g_rb], [g_running],
    and the number of skeleton objects that exist. *)
(* @src ebpf/ig_trace.c:121-121 g_rb *)
Record loader := Loader { ld_trace : trace_state; ld_rb : bool; ld_running : Z; ld_objects : Z }.

Definition with_skel (m : option bpf_maps) (q : option ig_event_queue) (s : trace_state) : trace_state :=
  TraceState m (tr_cache s) (tr_dedup s) (tr_offset s) q.
Definition empty_maps : bpf_maps := BpfMaps ∅ [] ∅ ∅.

(** [ig_trace_bpf__destroy(g_skel); g_skel = NULL;] *)
Definition destroy (s : loader) : loader :=
  Loader (with_skel None None (ld_trace s)) (ld_rb s) (ld_running s) (ld_objects s - 1).

(* @src ebpf/ig_trace.c:516-555 ebpf_policy_init *)
Definition ebpf_policy_init (c : bpf_calls) (queue : ig_event_queue) (s : loader) : Z * loader :=
  if negb (bc_open c) then (-1, Loader (with_skel None None (ld_trace s)) (ld_rb s) (ld_running s) (ld_objects s))
  else
    let s := Loader (with_skel (Some empty_maps) None (ld_trace s)) (ld_rb s) (ld_running s) (ld_objects s + 1) in
    if negb (bc_load c) then (-1, destroy s)
    else if negb (bc_attach c) then (-1, destroy s)
    else if negb (bc_ring c) then (-1, Loader (ld_trace (destroy s)) false (ld_running s) (ld_objects (destroy s)))
    else (0, Loader (with_skel (tr_skel (ld_trace s)) (Some queue) (ld_trace s)) true (ld_running s) (ld_objects s)).

(* @src ebpf/ig_trace.c:574-577 ebpf_policy_stop *)
Definition ebpf_policy_stop (s : loader) : loader := Loader (ld_trace s) (ld_rb s) 0 (ld_objects s).

(* @src ebpf/ig_trace.c:579-592 ebpf_policy_cleanup *)
Definition ebpf_policy_cleanup (s : loader) : loader :=
  let s := if ld_rb s then Loader (ld_trace s) false (ld_running s) (ld_objects s) else s in
  match tr_skel (ld_trace s) with Some _ => destroy s | None => s end.

Definition EINTR : Z := 4.

(** One turn of the thread: whether [ebpf_policy_stop] ran before its test, the
    records the poll delivers, and what the poll returns. *)
Record poll_turn := PollTurn {
  pt_stop : bool; pt_records : list (option audit_event * option (Z * Z * Z * Z)); pt_err : Z }.

Section loading.
Context `{ProcSource}.
Variable lstat : cstring → option kstat.
Variable readdir : cstring → option (list cstring).

Definition handle_all (l : list (option audit_event * option (Z * Z * Z * Z))) (s : trace_state) : trace_state :=
  fold_left (λ s r, handle_audit_event s r.1 r.2) l s.

(* @src ebpf/ig_trace.c:557-572 ebpf_poll_thread *)
Fixpoint ebpf_poll_thread (turns : list poll_turn) (s : loader) : loader :=
  match turns with
  | [] => s
  | t :: turns =>
      let s := if pt_stop t then ebpf_policy_stop s else s in
      if ld_running s =? 0 then s
      else
        let s := Loader (handle_all (pt_records t) (ld_trace s)) (ld_rb s) (ld_running s) (ld_objects s) in
        if pt_err t =? - EINTR then ebpf_poll_thread turns s
        else if pt_err t <? 0 then s
        else ebpf_poll_thread turns s
  end.

(** ** Reload: the difference of the watch lists *)

Definition watched (path : cstring) (ws : list watch) : bool := existsb (λ w : watch, bool_decide (w.1 = path)) ws.

(* @src main.c:346-346 reload_config *)
Definition protect_mask : Z := Z.lor (Z.lor IG_EBPF_OP_WRITE IG_EBPF_OP_DELETE) IG_EBPF_OP_ATTR.

(** [fuel] bounds the depth of the directory walks. *)
(* @src main.c:348-360 reload_config *)
Definition reload_removed (fuel : nat) (old new : list watch) (s : trace_state) : option trace_state :=
  fold_left (λ acc (w : watch), s ← acc;
    if watched w.1 new then Some s
    else '(_, s) ← remove_path_internal lstat readdir fuel s w.1 true; Some s) old (Some s).

(* @src main.c:362-375 reload_config *)
Definition reload_added (fuel : nat) (old new : list watch) (block : Z) (s : trace_state) : option trace_state :=
  fold_left (λ acc (w : watch), s ← acc;
    if watched w.1 old then Some s
    else '(_, s) ← add_path_internal lstat readdir fuel s w.1 protect_mask block true; Some s) new (Some s).

(* @src main.c:345-376 reload_config *)
Definition reload_ebpf (fuel : nat) (old new : list watch) (block : Z) (s : trace_state) : option trace_state :=
  s ← reload_removed fuel old new s; reload_added fuel old new block s.

(** The policies of the configured watches at start-up, added whole whatever
    their [recursive] flag; a path that fails is skipped. *)
(* @src main.c:934-946 main *)
Definition startup_policies (fuel : nat) (ws : list watch) (block : Z) (s : trace_state) : option trace_state :=
  fold_left (λ acc (w : watch), s ← acc;
    '(_, s) ← add_path_internal lstat readdir fuel s w.1 protect_mask block true; Some s) ws (Some s).
End loading.

(** ** Removal only removes *)

Section loading_facts.
Context `{ProcSource}.
Variable lstat : cstring → option kstat.
Variable readdir : cstring → option (list cstring).

Definition inode_key_of (st : kstat) : Z * Z := (stat_dev_to_kernel (st_dev st), st_ino st).

(** Only policies of the first state are left, and the skeleton stays as it is. *)
Definition shrinks (s s' : trace_state) : Prop := policies s' ⊆ policies s.

#[export] Instance shrinks_preorder : PreOrder shrinks.
Proof. split; [intros s|intros a b c H1 H2]; unfold shrinks in *; [done|by transitivity (policies b)]. Qed.

Lemma shrinks_None s s' k : shrinks s s' → policies s !! k = None → policies s' !! k = None.
Proof. intros Hs Hk. by eapply lookup_weaken_None. Qed.

Lemma remove_policy_inode_spec s dev ino :
  shrinks s (remove_policy_inode s dev ino).2 ∧
  policies (remove_policy_inode s dev ino).2 !! (dev, ino) = None.
Proof.
  unfold shrinks, remove_policy_inode, policies. destruct (tr_skel s) as [m|] eqn:E; cbn [snd].
  2:{ rewrite E. by split. }
  destruct (policy_map m !! (dev, ino)) eqn:Ek; cbn [snd set_skel tr_skel]; rewrite E; [|by split].
  cbn. split; [apply delete_subseteq|apply lookup_delete_eq].
Qed.

Lemma fold_entries_shrink (f : trace_state → cstring → option (Z * trace_state)) names : ∀ s s',
  (∀ name s rc s', name ∈ names → dot_entry name = false → f s name = Some (rc, s') → shrinks s s') →
  fold_left (λ acc name, s ← acc; if dot_entry name then Some s
                     else '(_, s) ← f s name; Some s) names (Some s) = Some s' →
  shrinks s s' ∧ ∀ name, name ∈ names → dot_entry name = false →
    ∃ s1 rc s2, shrinks s s1 ∧ f s1 name = Some (rc, s2) ∧ shrinks s2 s'.
Proof.
  induction names as [|name names IH]; intros s s' Hf; cbn [fold_left mbind option_bind].
  { intros [= <-]. split; [done|]. by intros n ?%elem_of_nil. }
  assert (Hnone : fold_left (λ acc name, s ← acc; if dot_entry name then Some s
                     else '(_, s) ← f s name; Some s) names None = None).
  { clear. by induction names. }
  assert (Hf' : ∀ n s rc s', n ∈ names → dot_entry n = false → f s n = Some (rc, s') → shrinks s s')
    by (intros n s1 rc s2 Hn; apply Hf; by right).
  destruct (dot_entry name) eqn:Hd.
  - intros Hfold. destruct (IH s s' Hf' Hfold) as [Hs Hin]. split; [done|].
    intros n [->|Hn]%elem_of_cons Hnd; [congruence|by apply Hin].
  - destruct (f s name) as [[rc s1]|] eqn:E; cbn [mbind option_bind]; [|by rewrite Hnone].
    intros Hfold. pose proof (Hf name s rc s1 ltac:(by left) Hd E) as H1.
    destruct (IH s1 s' Hf' Hfold) as [Hs Hin]. split; [by etrans|].
    intros n [->|Hn]%elem_of_cons Hnd; [by exists s, rc, s1|].
    destruct (Hin n Hn Hnd) as (a & r & b & Ha & Hb & Hc). exists a, r, b. split_and!; try done.
    by etrans.
Qed.

Lemma remove_path_spec fuel : ∀ s path rc s', remove_path_internal lstat readdir fuel s path true = Some (rc, s') →
  shrinks s s' ∧ ∀ p st, reach lstat readdir path p → lstat p = Some st → policies s' !! inode_key_of st = None.
Proof.
  induction fuel as [|fuel IH]; intros s path rc s'; cbn [remove_path_internal];
    (destruct (lstat path) as [st|] eqn:Hl;
      [|intros [= _ <-]; split; [done|]; intros p st Hr Hp; apply reach_leaf in Hr as ->; [congruence|];
        intros; congruence]);
    set (s0 := set_cache _ s); set (s1 := (remove_policy_inode s0 _ _).2);
    destruct (remove_policy_inode_spec s0 (stat_dev_to_kernel (st_dev st)) (st_ino st)) as [Hs1 Hk1];
    fold s1 in Hs1, Hk1; change (shrinks s s1) in Hs1;
    (assert (Hleaf : (∀ st' names, lstat path = Some st' → S_ISDIR (st_mode st') = true → readdir path ≠ Some names) →
       ∀ p st', reach lstat readdir path p → lstat p = Some st' → policies s1 !! inode_key_of st' = None);
     [intros Hno p st' Hr Hp; apply reach_leaf in Hr as ->; [|done];
      assert (st' = st) as -> by congruence; exact Hk1|]);
    cbn [negb orb]; destruct (S_ISDIR (st_mode st)) eqn:Hdir; cbn [negb];
    try (intros E; apply (inj Some) in E; apply pair_eq in E as [_ <-]; split; [done|];
         apply Hleaf; intros st' names; congruence);
    destruct (readdir path) as [names|] eqn:Hrd; try discriminate;
    try (intros E; apply (inj Some) in E; apply pair_eq in E as [_ <-]; split; [done|];
         apply Hleaf; intros st' names; congruence).
  destruct (fold_left _ _ _) as [s2|] eqn:Hfold; cbn [mbind option_bind]; [|done].
  intros E. apply (inj Some) in E. apply pair_eq in E as [_ <-].
  destruct (fold_entries_shrink (λ s name, remove_path_internal lstat readdir fuel s (child_path path name) true)
    names s1 s2) as [Hs2 Hin]; [|exact Hfold|].
  { intros name a r b _ _ Hab. apply IH in Hab as [Hab _]. exact Hab. }
  split; [by etrans|]. intros p st' Hr Hp.
  destruct (reach_step _ _ _ _ _ _ Hl Hdir Hrd Hr) as [->|(name & Hn & Hdot & Hreach)].
  - assert (st' = st) as -> by congruence. by apply (shrinks_None s1).
  - destruct (Hin name Hn Hdot) as (a & r & b & _ & Hab & Hb). apply (shrinks_None b); [done|].
    apply IH in Hab as [_ Hab]. by apply (Hab p).
Qed.
End loading_facts.

(** ** Walks end *)

Section walks_end.
Context `{ProcSource}.
Variable lstat : cstring → option kstat.
Variable readdir : cstring → option (list cstring).
(** The directory tree is finite. *)
Variable depth : cstring → nat.
Hypothesis depth_child : ∀ p names name, readdir p = Some names → name ∈ names →
  dot_entry name = false → (depth (child_path p name) < depth p)%nat.

Lemma walk_entries_return (f : trace_state → cstring → option (Z * trace_state)) names s :
  (∀ s name, name ∈ names → dot_entry name = false → is_Some (f s name)) →
  is_Some (fold_left (λ acc name, s ← acc; if dot_entry name then Some s
                        else '(_, s) ← f s name; Some s) names (Some s)).
Proof.
  intros Hf. apply (fold_option_total (λ s name, if dot_entry name then Some s else '(_, s) ← f s name; Some s)).
  intros a name Hin. destruct (dot_entry name) eqn:Hd; [by eexists|].
  destruct (Hf a name Hin Hd) as [[rc b] ->]. by eexists.
Qed.

Lemma remove_path_returns fuel : ∀ s path, (depth path < fuel)%nat →
  is_Some (remove_path_internal lstat readdir fuel s path true).
Proof.
  induction fuel as [|fuel IH]; intros s path Hd; [lia|]. cbn [remove_path_internal].
  destruct (lstat path) as [st|]; [|by eexists]. destruct (_ || _); [by eexists|].
  destruct (readdir path) as [names|] eqn:Hr; [|by eexists].
  edestruct (walk_entries_return (λ s name, remove_path_internal lstat readdir fuel s (child_path path name) true)
    names) as [s2 Hs2]; [|rewrite Hs2; by eexists].
  intros a name Hin Hdot. apply IH. pose proof (depth_child _ _ _ Hr Hin Hdot). lia.
Qed.

Lemma add_path_returns mask block fuel : ∀ s path, (depth path < fuel)%nat →
  is_Some (add_path_internal lstat readdir fuel s path mask block true).
Proof.
  induction fuel as [|fuel IH]; intros s path Hd; [lia|]. cbn [add_path_internal].
  destruct (lstat path) as [st|]; [|by eexists]. destruct (add_policy_inode _ _ _ _ _) as [rc s1].
  destruct (_ || _); [by eexists|]. destruct (readdir path) as [names|] eqn:Hr; [|by eexists].
  edestruct (walk_entries_return (λ s name, add_path_internal lstat readdir fuel s (child_path path name) mask block true)
    names) as [s2 Hs2]; [|rewrite Hs2; by eexists].
  intros a name Hin Hdot. apply IH. pose proof (depth_child _ _ _ Hr Hin Hdot). lia.
Qed.

Lemma reload_ebpf_returns fuel old new block s : (∀ p, depth p < fuel)%nat →
  is_Some (reload_ebpf lstat readdir fuel old new block s).
Proof.
  intros Hd. unfold reload_ebpf, reload_removed, reload_added.
  edestruct (fold_option_total (λ s (w : watch), if watched w.1 new then Some s
    else '(_, s) ← remove_path_internal lstat readdir fuel s w.1 true; Some s) old) as [s1 ->].
  { intros a w _. destruct (watched _ _); [by eexists|].
    destruct (remove_path_returns fuel a w.1 (Hd _)) as [[rc b] ->]. by eexists. }
  cbn [mbind option_bind].
  apply (fold_option_total (λ s (w : watch), if watched w.1 old then Some s
    else '(_, s) ← add_path_internal lstat readdir fuel s w.1 protect_mask block true; Some s)).
  intros a w _. destruct (watched _ _); [by eexists|].
  destruct (add_path_returns protect_mask block fuel a w.1 (Hd _)) as [[rc b] ->]. by eexists.
Qed.
End walks_end.

(** ** Properties *)

Section loading_properties.
Context `{ProcSource}.
Variable lstat : cstring → option kstat.
Variable readdir : cstring → option (list cstring).

Lemma watched_spec p ws : watched p ws = true ↔ ∃ r, (p, r) ∈ ws.
Proof.
  unfold watched. rewrite existsb_exists. split.
  - intros ([q r] & Hin%list_elem_of_In & Hq%bool_decide_eq_true). cbn in Hq. subst q. by exists r.
  - intros [r Hin]. exists (p, r). split; [by apply list_elem_of_In|by apply bool_decide_eq_true].
Qed.

Lemma reload_removed_spec fuel old new : ∀ s s', reload_removed lstat readdir fuel old new s = Some s' →
  shrinks s s' ∧ ∀ p r, (p, r) ∈ old → watched p new = false →
    ∀ q st, reach lstat readdir p q → lstat q = Some st → policies s' !! inode_key_of st = None.
Proof.
  unfold reload_removed. induction old as [|[p r] old IH]; intros s s'; cbn [fold_left mbind option_bind fst].
  { intros [= <-]. split; [done|]. by intros p r ?%elem_of_nil. }
  destruct (watched p new) eqn:Hw.
  - intros Hf. destruct (IH _ _ Hf) as [Hs Hin]. split; [done|].
    intros p' r' [[= -> ->]|Hp]%elem_of_cons Hw'; [congruence|]. by eapply Hin.
  - destruct (remove_path_internal lstat readdir fuel s p true) as [[rc s1]|] eqn:E; cbn [mbind option_bind];
      [|intros Hf; rewrite fold_none in Hf; discriminate].
    intros Hf. destruct (IH _ _ Hf) as [Hs Hin].
    destruct (remove_path_spec lstat readdir fuel s p rc s1 E) as [H1 Hk]. split; [by transitivity s1|].
    intros p' r' [[= -> ->]|Hp]%elem_of_cons Hw'; [|by eapply Hin].
    intros q st Hr Hq. apply (shrinks_None s1); [done|]. by apply (Hk q).
Qed.

(** [C26] Reloading takes the protection off a path that is still watched: when a
    directory leaves the watch list and a path below it stays, the recursive
    removal deletes the policies of everything below the directory, and the path
    that stays is not added again because it was in the old list too. *)
Theorem reload_unprotects_kept_path (fuel : nat) (old new : list watch) (block : Z) (s s' : trace_state)
    (dir kept : cstring) (r1 r2 r3 : bool) (st : kstat)
    (Hdir : (dir, r1) ∈ old) (Hgone : watched dir new = false)
    (Hkept_old : (kept, r2) ∈ old) (Hkept_new : (kept, r3) ∈ new)
    (Hsub : ∀ p, watched p new = true → watched p old = true)
    (Hbelow : reach lstat readdir dir kept) (Hst : lstat kept = Some st)
    (Hrun : reload_ebpf lstat readdir fuel old new block s = Some s') :
  policies s' !! inode_key_of st = None ∧
  ∀ m env inode op hook, tr_skel s' = Some m → inode_key inode = inode_key_of st →
    (audit_inode env inode op hook m).1 = 0.
Proof.
  unfold reload_ebpf in Hrun. destruct (reload_removed _ _ _ _ _ _) as [s1|] eqn:E; [|done]. cbn in Hrun.
  destruct (reload_removed_spec fuel old new s s1 E) as [_ Hk].
  assert (Hadd : ∀ ws, (∀ p r, (p, r) ∈ ws → watched p old = true) →
            fold_left (λ acc (w : watch), s ← acc;
              if watched w.1 old then Some s
              else '(_, s) ← add_path_internal lstat readdir fuel s w.1 protect_mask block true; Some s)
              ws (Some s1) = Some s1).
  { induction ws as [|[p r] ws IH]; intros Hws; [done|]. cbn [fold_left mbind option_bind fst].
    rewrite (Hws p r) by left. apply IH. intros p' r' Hp. apply (Hws p' r'). by right. }
  unfold reload_added in Hrun. rewrite Hadd in Hrun.
  2:{ intros p r Hp. apply Hsub, watched_spec. by exists r. }
  apply (inj Some) in Hrun as <-.
  assert (Hnone : policies s1 !! inode_key_of st = None) by (by apply (Hk dir r1 Hdir Hgone kept st)).
  split; [done|]. intros m env inode op hook Hm Hi. unfold policies in Hnone. rewrite Hm in Hnone.
  unfold audit_inode. by rewrite Hi, Hnone.
Qed.

(** Loading is all or nothing and is undone by cleaning up: a failure at any
    step - open, load, attach, ring buffer - leaves no program loaded and no
    skeleton behind; success leaves exactly one, with the queue as the handler's
    context, and cleaning up frees it, the ring buffer first. *)
Theorem ebpf_init_all_or_nothing (c : bpf_calls) (q : ig_event_queue) (s : loader)
    (Hidle : tr_skel (ld_trace s) = None ∧ ld_rb s = false) :
  let '(rc, s') := ebpf_policy_init c q s in
  (rc = 0 ↔ bc_open c && bc_load c && bc_attach c && bc_ring c = true) ∧
  (rc ≠ 0 → rc = -1 ∧ tr_skel (ld_trace s') = None ∧ ld_rb s' = false ∧ ld_objects s' = ld_objects s) ∧
  (rc = 0 → tr_skel (ld_trace s') = Some empty_maps ∧ tr_queue (ld_trace s') = Some q ∧ ld_rb s' = true ∧
            ld_objects s' = ld_objects s + 1) ∧
  tr_skel (ld_trace (ebpf_policy_cleanup s')) = None ∧ ld_rb (ebpf_policy_cleanup s') = false ∧
  ld_objects (ebpf_policy_cleanup s') = ld_objects s.
Proof.
  destruct Hidle as [Hs Hr]. destruct c as [[] [] [] []]; destruct s as [t rb run n]; cbn in Hs, Hr; subst rb; cbn;
    split_and!; try done; try (intros; split_and!; done || lia); lia.
Qed.

(** The polling thread reads on over interrupted polls and ends on the first
    turn after [ebpf_policy_stop]: up to there every record of every turn goes
    through the handler, once and in order. *)
Theorem poll_thread_handles_until_stop (turns rest : list poll_turn) (t : poll_turn) (s : loader)
    (Hrun : ld_running s ≠ 0) (Hgo : Forall (λ t, pt_stop t = false ∧ (pt_err t = - EINTR ∨ 0 ≤ pt_err t)) turns)
    (Hstop : pt_stop t = true) :
  let s' := ebpf_poll_thread (turns ++ t :: rest) s in
  ld_trace s' = handle_all (turns ≫= pt_records) (ld_trace s) ∧ ld_running s' = 0.
Proof.
  cbv zeta. revert s Hrun. induction Hgo as [|u turns [Hu He] _ IH]; intros s Hrun; cbn [app ebpf_poll_thread].
  { rewrite Hstop. done. }
  rewrite Hu, (proj2 (Z.eqb_neq _ _) Hrun).
  set (s1 := Loader _ _ _ _). destruct (IH s1 Hrun) as [Ht Hr].
  assert (Hcont : (if pt_err u =? - EINTR then ebpf_poll_thread (turns ++ t :: rest) s1
            else if pt_err u <? 0 then s1 else ebpf_poll_thread (turns ++ t :: rest) s1) =
            ebpf_poll_thread (turns ++ t :: rest) s1).
  { destruct (Z.eqb_spec (pt_err u) (- EINTR)); [done|]. destruct (Z.ltb_spec (pt_err u) 0); [lia|done]. }
  rewrite Hcont. split; [|done]. rewrite Ht. cbn [mbind list_bind]. unfold handle_all. by rewrite fold_left_app.
Qed.
End loading_properties.

(** ** Typing of what the handler queues *)

Section typing.
Context `{HP : ProcSource} {HL : ProcSourceLaws HP}.

(** The records the programs write: strings of bytes, 64-bit identities. *)
Definition wf_audit (e : audit_event) : Prop := in_width 64 (ae_dev e) ∧ in_width 64 (ae_ino e) ∧ bytes (ae_comm e).
Definition wf_proc_entry (e : ig_proc_entry) : Prop :=
  in_width 64 (pe_start_time_ns e) ∧ bytes (pe_comm e) ∧ bytes (pe_tty e) ∧ bytes (pe_cmdline e).

Definition trace_wf (s : trace_state) : Prop :=
  (∀ i e, tr_cache s !! i = Some e → bytes (ps_path e)) ∧
  (∀ m, tr_skel s = Some m → ∀ k e, proc_map m !! k = Some e → wf_proc_entry e) ∧
  (∀ q, tr_queue s = Some q → queue_wf q).

Lemma info_of_entry_wf e : wf_proc_entry e → wf_proc_info (info_of_entry e).
Proof.
  intros (Hs & Hc & Ht & Hl). apply pa_enrich_wf. unfold wf_proc_info. cbn -[strncpy].
  split; [done|]. split; [by apply Forall_take|]. split; [by apply Forall_take, bytes_cstr|].
  split; [constructor|by apply Forall_take, bytes_cstr].
Qed.

Lemma chain_loop_wf fuel procs : (∀ k e, procs !! k = Some e → wf_proc_entry e) → ∀ cur,
  Forall wf_proc_info (chain_loop fuel procs cur).1 ∧ (length (chain_loop fuel procs cur).1 ≤ fuel)%nat.
Proof.
  intros Hp. induction fuel as [|fuel IH]; intros cur; cbn [chain_loop]; [by split; [constructor|]|].
  set (o := match procs !! _ with Some e => _ | None => _ end).
  assert (Ho : ∀ i, o = Some i → wf_proc_info i).
  { intros i. unfold o. destruct (procs !! u32 cur) as [e|] eqn:E.
    - intros Hi. apply (inj Some) in Hi as <-. apply info_of_entry_wf. by eapply Hp.
    - apply pa_resolve_wf. }
  destruct o as [i|]; [|by split; [constructor|cbn; lia]]. specialize (Ho i eq_refl).
  destruct (_ || _); [by split; [constructor|cbn; lia]|].
  specialize (IH (pi_ppid i)). destruct (chain_loop fuel procs (pi_ppid i)) as [os tr]. cbn [fst length] in *.
  destruct IH as [H1 H2]. split; [by constructor|lia].
Qed.

Lemma chain_collect_wf s pid : trace_wf s → wf_chain (ig_ebpf_chain_collect s pid).
Proof.
  intros (_ & Hp & _). unfold ig_ebpf_chain_collect. destruct (pid <=? 0); [apply wf_pid_chain_zero|].
  set (procs := match tr_skel s with Some m => proc_map m | None => ∅ end).
  assert (Hprocs : ∀ k e, procs !! k = Some e → wf_proc_entry e).
  { unfold procs. destruct (tr_skel s) as [m|] eqn:E; [by apply Hp|]. intros k e H. by rewrite lookup_empty in H. }
  destruct (chain_loop_wf IG_PA_MAX_DEPTH procs Hprocs pid) as [H1 H2].
  destruct (chain_loop IG_PA_MAX_DEPTH procs pid) as [os tr]. cbn [fst] in *. unfold wf_chain.
  cbn [ch_chain ch_depth]. split; [rewrite length_app, length_replicate; lia|].
  split; [unfold IG_PA_MAX_DEPTH in *; lia|]. apply Forall_app. split; [done|].
  apply Forall_replicate, wf_proc_info_zero.
Qed.

Lemma get_loop_bytes (t : gmap Z path_cache_entry) dev ino l p :
  (∀ i e, t !! i = Some e → bytes (ps_path e)) → get_loop t dev ino l = Some p → bytes p.
Proof.
  intros Ht. induction l as [|x l IH]; cbn [get_loop]; [done|]. unfold slot.
  destruct (t !! x) as [e|] eqn:E; cbn [default from_option id]; [|done].
  destruct (ps_used e); [done| |done]. destruct (is_key dev ino e); [|done].
  intros [= <-]. by eapply Ht.
Qed.

Lemma path_cache_get_bytes (t : gmap Z path_cache_entry) dev ino n :
  (∀ i e, t !! i = Some e → bytes (ps_path e)) → in_width 64 ino → bytes (path_cache_get t dev ino n).
Proof.
  intros Ht Hi. unfold path_cache_get. destruct (get_loop _ _ _ _) as [p|] eqn:E; apply Forall_take, bytes_cstr.
  - by eapply get_loop_bytes.
  - apply Forall_app. split; [apply bytes_lit|]. apply Forall_app. split; [|apply bytes_lit].
    destruct (decimal_spec ino Hi) as (d & ds & -> & Hd & _). eapply Forall_impl; [exact Hd|].
    intros c Hc%isdigit_range. unfold is_byte. lia.
Qed.

Lemma remove_loop_paths (t : gmap Z path_cache_entry) dev ino l :
  (∀ i e, t !! i = Some e → bytes (ps_path e)) →
  ∀ i e, remove_loop t dev ino l !! i = Some e → bytes (ps_path e).
Proof.
  intros Ht. induction l as [|x l IH]; cbn [remove_loop]; [done|]. unfold slot.
  destruct (t !! x) as [e|] eqn:E; cbn [default from_option id]; [|done].
  destruct (ps_used e); [done| |done]. destruct (is_key dev ino e); [|done].
  intros i e' [[_ <-]|[_ H]]%lookup_insert_Some; [by apply (Ht x e)|by eapply Ht].
Qed.

Lemma basename_bytes p : ∀ acc, bytes p → bytes acc → bytes (basename p acc).
Proof.
  induction p as [|c p IH]; intros acc Hp Ha; cbn [basename]; [done|]. inversion_clear Hp.
  destruct (c =? 47); by apply IH.
Qed.

Lemma event_of_audit_wf e path chain offset : wf_audit e → bytes path → wf_chain chain →
  wf_event (event_of_audit e path chain offset).
Proof.
  intros (Hd & Hi & Hc) Hp Hch. unfold wf_event, event_of_audit. cbn -[strncpy wf_chain basename].
  pose proof (strncpy_length path 4095). pose proof (strncpy_length (basename path path) 255).
  repeat match goal with |- _ ∧ _ => split end; try assumption; try lia; apply Forall_take, bytes_cstr; [done| |done].
  by apply basename_bytes.
Qed.

Lemma handle_audit_event_wf s data clocks : trace_wf s → (∀ e, data = Some e → wf_audit e) →
  trace_wf (handle_audit_event s data clocks).
Proof.
  intros Hs Hdata. unfold handle_audit_event. destruct data as [e|]; [|done]. specialize (Hdata e eq_refl).
  destruct (hook_dedup_check _ _ _ _ _) as [sup g]. destruct sup; [done|].
  set (s1 := set_dedup g s). assert (Hs1 : trace_wf s1) by done.
  set (path := path_cache_get _ _ _ _). assert (Hpath : bytes path).
  { apply path_cache_get_bytes; [apply Hs1|apply Hdata]. }
  pose proof (chain_collect_wf s1 (s32 (ae_pid e)) Hs1) as Hch. set (chain := ig_ebpf_chain_collect _ _) in *.
  set (s2 := if (_ && _) : bool then _ else s1). assert (Hs2 : trace_wf s2).
  { unfold s2. destruct (_ && _); [|done]. destruct Hs1 as (H1 & H2 & H3). split; [|split].
    - cbn [set_cache tr_cache]. unfold remove_policy_inode.
      destruct (tr_skel s1); [destruct (_ !! _)|]; cbn [snd set_skel tr_cache]; by apply remove_loop_paths.
    - intros m Hm. unfold remove_policy_inode in Hm. cbn [set_cache tr_skel] in Hm.
      destruct (tr_skel s1) as [m1|] eqn:E; [|cbn [snd] in Hm; congruence].
      destruct (_ !! _); cbn [snd set_skel tr_skel] in Hm; rewrite E in Hm; cbn in Hm;
        apply (inj Some) in Hm as <-; exact (H2 m1 eq_refl).
    - cbn [set_cache tr_queue]. unfold remove_policy_inode.
      destruct (tr_skel s1); [destruct (_ !! _)|]; cbn [snd set_skel tr_queue]; done. }
  destruct (tr_queue s2) as [q|] eqn:Eq; [|done]. destruct (ig_mono_to_real_offset_ns _ _) as [off o].
  destruct Hs2 as (H1 & H2 & H3). split; [done|]. split; [done|]. cbn [tr_queue]. intros q' Hq'.
  apply (inj Some) in Hq' as <-. apply queue_push_wf; [by apply H3|]. by apply event_of_audit_wf.
Qed.

(** [C25] What the eBPF thread queues is well typed: for any turns of the thread,
    over any records whose fields have their widths, every event in the queue
    keeps its strings inside their arrays, its integers in width and its chain
    within its 16 slots, whatever [/proc] gives for the processes the kernel
    side does not know. *)
Theorem poll_thread_queues_typed (turns : list poll_turn) (s : loader)
    (Hs : trace_wf (ld_trace s))
    (Hturns : Forall (λ t, Forall (λ r, ∀ e, r.1 = Some e → wf_audit e) (pt_records t)) turns) :
  trace_wf (ld_trace (ebpf_poll_thread turns s)) ∧
  ∀ q, tr_queue (ld_trace (ebpf_poll_thread turns s)) = Some q → queue_ok q ∧ Forall wf_event (contents q).
Proof.
  assert (Hall : ∀ l t, trace_wf t → Forall (λ r : option audit_event * _, ∀ e, r.1 = Some e → wf_audit e) l →
            trace_wf (handle_all l t)).
  { induction l as [|r l IH]; intros t Ht Hl; [done|]. inversion_clear Hl. cbn. apply IH; [|done].
    by apply handle_audit_event_wf. }
  assert (H : trace_wf (ld_trace (ebpf_poll_thread turns s))).
  { revert s Hs. induction Hturns as [|t turns Ht _ IH]; intros s Hs; [done|]. cbn [ebpf_poll_thread].
    set (s1 := if pt_stop t then _ else s). assert (Hs1 : trace_wf (ld_trace s1)) by (unfold s1; by destruct (pt_stop t)).
    destruct (_ =? 0); [done|]. set (s2 := Loader _ _ _ _). assert (Hs2 : trace_wf (ld_trace s2)) by (by apply Hall).
    destruct (_ =? _); [by apply IH|]. destruct (_ <? _); [done|by apply IH]. }
  split; [done|]. intros q Hq. destruct H as (_ & _ & H). exact (H q Hq).
Qed.
End typing.

(** *** Witnesses *)

#[local] Existing Instance no_proc.

Definition srv_old : list watch := [(lit "/etc", true); (lit "/etc/passwd", false)].
Definition srv_new : list watch := [(lit "/etc/passwd", false)].

(** Both paths protected, as at start-up. *)
Definition srv_trace : trace_state :=
  TraceState (Some (BpfMaps {[(0x800001, 2) := InodePolicy 14 1; (0x800001, 7) := InodePolicy 14 1]} [] ∅ ∅)) ∅ ∅
    (OffsetState 0 0) None.

Lemma reload_unprotects_kept_path_witness :
  policies srv_trace !! (0x800001, 7) = Some (InodePolicy 14 1) ∧
  ∃ s', reload_ebpf etc_lstat etc_readdir 2 srv_old srv_new 1 srv_trace = Some s' ∧
    policies s' !! (0x800001, 7) = None.
Proof.
  split; [reflexivity|]. eexists. split; [reflexivity|].
  eapply (proj1 (reload_unprotects_kept_path etc_lstat etc_readdir 2 srv_old srv_new 1 srv_trace _
    (lit "/etc") (lit "/etc/passwd") true false false (KStat 0x801 7 0x81A4)
    ltac:(by left) ltac:(reflexivity) ltac:(right; by left) ltac:(by left)
    ltac:(intros p [r [[= -> _]|[]%elem_of_nil]%elem_of_cons]%watched_spec; by vm_compute)
    ltac:(apply (reach_child _ _ _ (lit "/etc") (KStat 0x801 2 0x41ED) [lit "."; lit ".."; lit "passwd"] (lit "passwd"));
          try reflexivity; [apply reach_root|right; right; by left])
    ltac:(reflexivity) ltac:(reflexivity))).
Defined.

Lemma ebpf_init_all_or_nothing_witness :
  let s := Loader (TraceState None ∅ ∅ (OffsetState 0 0) None) false 1 0 in
  (ebpf_policy_init (BpfCalls true true false true) ig_queue_init s).1 = -1 ∧
  ld_objects (ebpf_policy_init (BpfCalls true true false true) ig_queue_init s).2 = 0.
Proof.
  intros s. destruct (ebpf_init_all_or_nothing (BpfCalls true true false true) ig_queue_init s) as (_ & H & _);
    [by split|]. destruct (H ltac:(discriminate)) as (H1 & _ & _ & H4). by split.
Defined.

Lemma poll_thread_handles_until_stop_witness :
  let turns := [PollTurn false [] 0; PollTurn false [(None, None)] (- EINTR); PollTurn false [] 3] in
  let s := Loader srv_trace true 1 1 in
  ld_running (ebpf_poll_thread (turns ++ PollTurn true [] 0 :: []) s) = 0.
Proof.
  intros turns s.
  apply (poll_thread_handles_until_stop turns [] (PollTurn true [] 0) s).
  - discriminate.
  - repeat constructor; cbn; unfold EINTR; lia.
  - reflexivity.
Defined.

Lemma poll_thread_queues_typed_witness :
  let s := Loader (TraceState (Some no_maps) ∅ ∅ (OffsetState 0 0) (Some ig_queue_init)) true 1 1 in
  let s' := ebpf_poll_thread [PollTurn false [(Some (unlink_event 3), None)] 1] s in
  trace_wf (ld_trace s') ∧
  ∀ q, tr_queue (ld_trace s') = Some q → queue_ok q ∧ Forall wf_event (contents q).
Proof.
  intros s s'. pose proof no_proc_laws.
  apply (poll_thread_queues_typed [PollTurn false [(Some (unlink_event 3), None)] 1] s).
  - split; [|split].
    + intros i e He. cbn in He. by rewrite lookup_empty in He.
    + intros m [= <-] k e He. cbn in He. by rewrite lookup_empty in He.
    + intros q Hq. cbn in Hq. apply (inj Some) in Hq as <-. apply queue_init_wf.
  - constructor; [|constructor]. constructor; [|constructor]. intros e [= <-].
    unfold wf_audit. split; [unfold in_width; cbn; lia|]. split; [unfold in_width; cbn; lia|].
    apply (bytes_lit _).
Defined.
