(* ===== verification/TlsContext.v ===== *)
(** * TLS context and one connection (transport/tls_context.c, tcp_client.c)

    The OpenSSL objects the agent makes - a context, a session - and the socket
    and address list of one connection, kept in a heap, so that what each
    function allocates and releases can be stated. OpenSSL's part of a handshake
    is a parameter with its documented guarantee. TcpClient works on the
    connection that results. *)

From S2P Require Import Prelude Bytes.

Local Open Scope Z_scope.

(** ** OpenSSL objects *)

Inductive tls_proto := SSL2 | SSL3 | TLS1_0 | TLS1_1 | TLS1_2 | TLS1_3.

#[export] Instance tls_proto_eq_dec : EqDecision tls_proto.
Proof. solve_decision. Defined.

(** What an [SSL_CTX] holds: the versions it may negotiate, the CA file, whether
    the peer must be verified, the certificate and the key. *)
Record ssl_ctx := SslCtx {
  cx_protos : list tls_proto; cx_ca : option cstring; cx_verify_peer : bool;
  cx_cert : option cstring; cx_key : option cstring }.

(** A session has a copy of its context's settings. *)
Record ssl := Ssl { ss_ctx : ssl_ctx; ss_fd : Z; ss_version : option tls_proto }.

Record tls_heap := TlsHeap {
  th_ctxs : gmap positive ssl_ctx; th_ssls : gmap positive ssl; th_fds : gset Z; th_addrinfo : nat }.

Definition put_ctx (id : positive) (c : ssl_ctx) (h : tls_heap) : tls_heap :=
  TlsHeap (<[id := c]> (th_ctxs h)) (th_ssls h) (th_fds h) (th_addrinfo h).
Definition SSL_CTX_free (id : positive) (h : tls_heap) : tls_heap :=
  TlsHeap (delete id (th_ctxs h)) (th_ssls h) (th_fds h) (th_addrinfo h).
Definition put_ssl (id : positive) (s : ssl) (h : tls_heap) : tls_heap :=
  TlsHeap (th_ctxs h) (<[id := s]> (th_ssls h)) (th_fds h) (th_addrinfo h).
Definition SSL_free (id : positive) (h : tls_heap) : tls_heap :=
  TlsHeap (th_ctxs h) (delete id (th_ssls h)) (th_fds h) (th_addrinfo h).
Definition open_fd (fd : Z) (h : tls_heap) : tls_heap :=
  TlsHeap (th_ctxs h) (th_ssls h) ({[fd]} ∪ th_fds h) (th_addrinfo h).
Definition close_fd (fd : Z) (h : tls_heap) : tls_heap :=
  TlsHeap (th_ctxs h) (th_ssls h) (th_fds h ∖ {[fd]}) (th_addrinfo h).
Definition add_addrinfo (h : tls_heap) : tls_heap :=
  TlsHeap (th_ctxs h) (th_ssls h) (th_fds h) (S (th_addrinfo h)).
Definition freeaddrinfo (h : tls_heap) : tls_heap :=
  TlsHeap (th_ctxs h) (th_ssls h) (th_fds h) (pred (th_addrinfo h)).

(** [TLS_client_method] of OpenSSL 1.1, [SSLv23_client_method] of 1.0. *)
Definition client_method (new_api : bool) : list tls_proto :=
  if new_api then [SSL3; TLS1_0; TLS1_1; TLS1_2; TLS1_3] else [SSL2; SSL3; TLS1_0; TLS1_1; TLS1_2].

Definition below_tls12 : list tls_proto := [SSL2; SSL3; TLS1_0; TLS1_1].

(** Both [SSL_CTX_set_min_proto_version(TLS1_2_VERSION)] and the four
    [SSL_OP_NO_*] options take these versions away. *)
Definition without_old (c : ssl_ctx) : ssl_ctx :=
  SslCtx (filter (λ v, v ∉ below_tls12) (cx_protos c)) (cx_ca c) (cx_verify_peer c) (cx_cert c) (cx_key c).
Definition set_ca (ca : cstring) (c : ssl_ctx) : ssl_ctx :=
  SslCtx (cx_protos c) (Some ca) (cx_verify_peer c) (cx_cert c) (cx_key c).
Definition set_verify (c : ssl_ctx) : ssl_ctx :=
  SslCtx (cx_protos c) (cx_ca c) true (cx_cert c) (cx_key c).
Definition set_cert (p : cstring) (c : ssl_ctx) : ssl_ctx :=
  SslCtx (cx_protos c) (cx_ca c) (cx_verify_peer c) (Some p) (cx_key c).
Definition set_key (p : cstring) (c : ssl_ctx) : ssl_ctx :=
  SslCtx (cx_protos c) (cx_ca c) (cx_verify_peer c) (cx_cert c) (Some p).

(** What the calls of the initialisation meet: memory, the minimum version, and
    which files load; [tf_pair]: a key belongs to a certificate. *)
Record tls_files := TlsFiles {
  tf_new : bool; tf_min : bool; tf_ca : cstring → bool; tf_cert : cstring → bool; tf_key : cstring → bool;
  tf_pair : cstring → cstring → bool }.

Section tls.
(** OpenSSL 1.1.0 or later. *)
Variable new_api : bool.
Variable files : tls_files.

(** The result, [out->ctx] after the call, the heap. *)
(* @src transport/tls_context.c:21-83 tls_context_init *)
Definition tls_context_init (out : option positive) (ca_crt agent_crt agent_key : cstring) (h : tls_heap)
    : Z * option positive * tls_heap :=
  if negb (tf_new files) then (-1, out, h)
  else
    let ctx := fresh (dom (th_ctxs h)) in
    let c := SslCtx (client_method new_api) None false None None in
    let h := put_ctx ctx c h in
    if new_api && negb (tf_min files) then (-1, out, SSL_CTX_free ctx h)
    else
      let c := without_old c in
      let h := put_ctx ctx c h in
      if negb (tf_ca files ca_crt) then (-1, out, SSL_CTX_free ctx h)
      else
        let c := set_verify (set_ca ca_crt c) in
        let h := put_ctx ctx c h in
        if negb (tf_cert files agent_crt) then (-1, out, SSL_CTX_free ctx h)
        else
          let c := set_cert agent_crt c in
          let h := put_ctx ctx c h in
          if negb (tf_key files agent_key) then (-1, out, SSL_CTX_free ctx h)
          else
            let c := set_key agent_key c in
            let h := put_ctx ctx c h in
            if negb (tf_pair files agent_crt agent_key) then (-1, out, SSL_CTX_free ctx h)
            else (0, Some ctx, h).

(* @src transport/tls_context.c:111-117 tls_context_free *)
Definition tls_context_free (ctx : option (option positive)) (h : tls_heap) : option (option positive) * tls_heap :=
  match ctx with
  | Some (Some id) => (Some None, SSL_CTX_free id h)
  | _ => (ctx, h)
  end.
End tls.

(** ** One connection *)

Section connection.
(** The servers one can reach, and what [SSL_connect] does with one. *)
Context {peer : Type}.
Variable handshake : ssl_ctx → peer → option tls_proto.

(** What one attempt meets; the peer is the one that answered on the socket. *)
Record connect_env := ConnectEnv {
  ce_dns : bool; ce_socket : option Z; ce_connects : bool; ce_ssl_new : bool; ce_peer : peer }.

(** [None] if the context is not one of the heap's. *)
(* @src transport/tls_context.c:85-109 ig_tls_wrap *)
Definition ig_tls_wrap (e : connect_env) (ctx : option (option positive)) (fd : Z) (h : tls_heap)
    : option (option positive * tls_heap) :=
  match ctx with
  | Some (Some id) =>
      c ← th_ctxs h !! id;
      if negb (ce_ssl_new e) then Some (None, h)
      else
        let s := fresh (dom (th_ssls h)) in
        match handshake c (ce_peer e) with
        | None => Some (None, SSL_free s (put_ssl s (Ssl c fd None) h))
        | Some v => Some (Some s, put_ssl s (Ssl c fd (Some v)) h)
        end
  | _ => Some (None, h)
  end.

(** [tls]: [cli->tls], NULL or a context. The descriptor and session of the
    client afterwards. *)
(* @src transport/tcp_client.c:172-228 ig_tcp_connect_locked *)
Definition tcp_connect (e : connect_env) (tls : option (option positive)) (h : tls_heap)
    : option (option (Z * positive) * tls_heap) :=
  match tls with
  | None => Some (None, h)
  | Some _ =>
      if negb (ce_dns e) then Some (None, h)
      else
        let h := add_addrinfo h in
        match ce_socket e with
        | None => Some (None, freeaddrinfo h)
        | Some fd =>
            let h := open_fd fd h in
            if negb (ce_connects e) then Some (None, freeaddrinfo (close_fd fd h))
            else
              let h := freeaddrinfo h in
              '(s, h) ← ig_tls_wrap e tls fd h;
              Some (match s with None => (None, close_fd fd h) | Some s => (Some (fd, s), h) end)
        end
  end.

(* @src transport/tcp_client.c:241-264 ig_tcp_disconnect_locked *)
Definition tcp_disconnect (held : option (Z * positive)) (h : tls_heap) : option (Z * positive) * tls_heap :=
  match held with
  | Some (fd, s) => (None, close_fd fd (SSL_free s h))
  | None => (None, h)
  end.
End connection.

(** ** Lemmas *)

Lemma put_put_ctx id c c' h : put_ctx id c (put_ctx id c' h) = put_ctx id c h.
Proof. unfold put_ctx. cbn. by rewrite insert_insert_eq. Qed.

Lemma free_put_ctx id c h : th_ctxs h !! id = None → SSL_CTX_free id (put_ctx id c h) = h.
Proof. intros H. destruct h. unfold SSL_CTX_free, put_ctx. cbn in *. by rewrite delete_insert_id. Qed.

Lemma free_put_ssl id s h : th_ssls h !! id = None → SSL_free id (put_ssl id s h) = h.
Proof. intros H. destruct h. unfold SSL_free, put_ssl. cbn in *. by rewrite delete_insert_id. Qed.

Lemma close_open_fd fd h : fd ∉ th_fds h → close_fd fd (open_fd fd h) = h.
Proof.
  intros H. destruct h as [ctxs ssls fds n]. unfold close_fd, open_fd. cbn in *. f_equal. set_solver.
Qed.

Lemma fresh_key {A} (m : gmap positive A) : m !! fresh (dom m) = None.
Proof. apply not_elem_of_dom, is_fresh. Qed.

(** The settings a context must have to be used. *)
Definition mutual_tls (ca crt key : cstring) (new_api : bool) : ssl_ctx :=
  SslCtx (if new_api then [TLS1_2; TLS1_3] else [TLS1_2]) (Some ca) true (Some crt) (Some key).

Definition files_ok (new_api : bool) (f : tls_files) (ca crt key : cstring) : bool :=
  tf_new f && (negb new_api || tf_min f) && tf_ca f ca && tf_cert f crt && tf_key f key && tf_pair f crt key.

Lemma init_spec new_api f out ca crt key h :
  tls_context_init new_api f out ca crt key h =
  if files_ok new_api f ca crt key
  then (0, Some (fresh (dom (th_ctxs h))), put_ctx (fresh (dom (th_ctxs h))) (mutual_tls ca crt key new_api) h)
  else (-1, out, h).
Proof.
  unfold tls_context_init, files_ok. pose proof (fresh_key (th_ctxs h)) as Hf.
  set (id := fresh (dom (th_ctxs h))) in *. destruct (tf_new f); cbn [negb andb]; [|done].
  rewrite !put_put_ctx, !free_put_ctx by done.
  destruct new_api, (tf_min f), (tf_ca f ca), (tf_cert f crt), (tf_key f key), (tf_pair f crt key); cbn [negb andb orb];
    reflexivity.
Qed.

Section facts.
Context {peer : Type}.
Variable handshake : ssl_ctx → peer → option tls_proto.
(** The certificate chain of a peer verifies against a CA file. *)
Variable verifies : cstring → peer → Prop.
(** [SSL_connect]: it negotiates one of the context's versions, and with
    [SSL_VERIFY_PEER] it fails unless the chain verifies. *)
Hypothesis handshake_doc : ∀ c p v, handshake c p = Some v →
  v ∈ cx_protos c ∧ (cx_verify_peer c = true → ∀ ca, cx_ca c = Some ca → verifies ca p).

(** The session a connection ends with. *)
Lemma connect_spec e id c h : th_ctxs h !! id = Some c → (∀ fd, ce_socket e = Some fd → fd ∉ th_fds h) →
  tcp_connect handshake e (Some (Some id)) h =
  Some (match ce_socket e, handshake c (ce_peer e) with
        | Some fd, Some v =>
            if ce_dns e && ce_connects e && ce_ssl_new e
            then (Some (fd, fresh (dom (th_ssls h))),
                  put_ssl (fresh (dom (th_ssls h))) (Ssl c fd (Some v)) (open_fd fd h))
            else (None, h)
        | _, _ => (None, h)
        end).
Proof.
  intros Hc Hfd. assert (Ha : freeaddrinfo (add_addrinfo h) = h) by by destruct h.
  unfold tcp_connect, ig_tls_wrap. destruct (ce_dns e); cbn [negb andb].
  2:{ by destruct (ce_socket e), (handshake c (ce_peer e)). }
  destruct (ce_socket e) as [fd|] eqn:Hs; [|by rewrite Ha].
  specialize (Hfd fd eq_refl).
  change (freeaddrinfo (close_fd fd (open_fd fd (add_addrinfo h))))
    with (close_fd fd (open_fd fd (freeaddrinfo (add_addrinfo h)))).
  change (freeaddrinfo (open_fd fd (add_addrinfo h))) with (open_fd fd (freeaddrinfo (add_addrinfo h))).
  rewrite Ha, close_open_fd by done. destruct (ce_connects e); cbn [negb andb].
  2:{ by destruct (handshake c (ce_peer e)). }
  cbn [th_ctxs open_fd th_ssls]. rewrite Hc. cbn [mbind option_bind]. destruct (ce_ssl_new e); cbn [negb].
  2:{ cbn. rewrite close_open_fd by done. by destruct (handshake c (ce_peer e)). }
  pose proof (fresh_key (th_ssls h)) as Hf.
  destruct (handshake c (ce_peer e)) as [v|]; [done|].
  rewrite free_put_ssl by done. cbn [mbind option_bind]. by rewrite close_open_fd.
Qed.

(** [C32] Every session of the agent is authenticated: after a successful
    initialisation a connection either leaves everything as it was, or ends with
    exactly one new socket and session, negotiated at TLS 1.2 or later with a
    server whose certificate verifies against the configured CA, offering the
    agent's certificate and key; a failed initialisation leaves no context, and
    disconnecting and freeing give everything back. *)
Theorem tls_sessions_authenticated (new_api : bool) (f : tls_files) (ca crt key : cstring)
    (e : connect_env (peer := peer)) (h : tls_heap) (Hfd : ∀ fd, ce_socket e = Some fd → fd ∉ th_fds h) :
  let '(rc, ctx, h1) := tls_context_init new_api f None ca crt key h in
  (rc = -1 ∧ ctx = None ∧ h1 = h) ∨
  (rc = 0 ∧ ∃ held h2, tcp_connect handshake e (Some ctx) h1 = Some (held, h2) ∧
     (tls_context_free (Some ctx) (tcp_disconnect held h2).2).2 = h ∧
     match held with
     | None => h2 = h1
     | Some (fd, s) => fd ∈ th_fds h2 ∧ ∃ ss v, th_ssls h2 !! s = Some ss ∧ th_ssls h !! s = None ∧ ss_fd ss = fd ∧
         ss_version ss = Some v ∧ v ∈ [TLS1_2; TLS1_3] ∧ verifies ca (ce_peer e) ∧
         cx_cert (ss_ctx ss) = Some crt ∧ cx_key (ss_ctx ss) = Some key
     end).
Proof.
  rewrite init_spec. destruct (files_ok new_api f ca crt key); [right|by left].
  set (id := fresh (dom (th_ctxs h))). set (c := mutual_tls ca crt key new_api). split; [done|].
  pose proof (fresh_key (th_ctxs h)) as Hid. pose proof (fresh_key (th_ssls h)) as Hs.
  rewrite (connect_spec e id c) by (done || apply lookup_insert_eq).
  cbn [th_ssls put_ctx]. set (s := fresh (dom (th_ssls h))).
  assert (Hfree : SSL_CTX_free id (put_ctx id c h) = h) by by apply free_put_ctx.
  destruct (ce_socket e) as [fd|]; [|by eexists _, _].
  destruct (handshake c (ce_peer e)) as [v|] eqn:Hh; [|by eexists _, _].
  destruct (_ && _); [|by eexists _, _]. eexists _, _. split; [reflexivity|]. split.
  - cbn [tcp_disconnect snd tls_context_free]. rewrite free_put_ssl by done.
    rewrite close_open_fd by by apply Hfd. exact Hfree.
  - destruct (handshake_doc _ _ _ Hh) as [Hv Hver]. split; [cbn; set_solver|].
    exists (Ssl c fd (Some v)), v. split; [apply lookup_insert_eq|]. split; [done|]. split; [done|].
    split; [done|]. split; [|split; [by apply Hver|done]].
    unfold c, mutual_tls in Hv. cbn [cx_protos] in Hv. destruct new_api; [done|].
    apply list_elem_of_singleton in Hv as ->. by left.
Qed.
End facts.

(** A server whose certificate the CA file signs, and one without. *)
Definition toy_handshake (c : ssl_ctx) (signed : bool) : option tls_proto :=
  if cx_verify_peer c && negb signed then None else last (cx_protos c).

Lemma tls_sessions_authenticated_witness :
  let f := TlsFiles true true (λ _, true) (λ _, true) (λ _, true) (λ _ _, true) in
  let e := ConnectEnv true (Some 5) true true true in
  let h := TlsHeap ∅ ∅ ∅ 0 in
  let '(rc, ctx, h1) := tls_context_init true f None [1] [2] [3] h in
  (rc = -1 ∧ ctx = None ∧ h1 = h) ∨
  (rc = 0 ∧ ∃ held h2, tcp_connect toy_handshake e (Some ctx) h1 = Some (held, h2) ∧
     (tls_context_free (Some ctx) (tcp_disconnect held h2).2).2 = h ∧
     match held with
     | None => h2 = h1
     | Some (fd, s) => fd ∈ th_fds h2 ∧ ∃ ss v, th_ssls h2 !! s = Some ss ∧ th_ssls h !! s = None ∧ ss_fd ss = fd ∧
         ss_version ss = Some v ∧ v ∈ [TLS1_2; TLS1_3] ∧ (λ _ p, p = true) [1] (ce_peer e) ∧
         cx_cert (ss_ctx ss) = Some [2] ∧ cx_key (ss_ctx ss) = Some [3]
     end).
Proof.
  intros f e h. apply (tls_sessions_authenticated toy_handshake (λ _ p, p = true)).
  - intros c p v Hh. unfold toy_handshake in Hh. destruct (cx_verify_peer c), p; cbn in Hh; try discriminate;
      (split; [apply last_Some_elem_of in Hh; exact Hh|]); (reflexivity || discriminate).
  - intros fd _. apply not_elem_of_empty.
Defined.
