(* ===== verification/TcpClient.v ===== *)
(** * TCP/TLS client (transport/tcp_client.c, transport/heartbeat.c)

    The connection state machine: framing with sequence numbers, failure
    counting, reconnection with backoff and re-registration, events and
    heartbeats turned into frames. OpenSSL and the network are the results of
    [SSL_write], [SSL_read] and [connect], given to the model; the conn_lock
    makes every public call atomic. *)

From S2P Require Import Prelude Bytes Monitor Protocol Collector.

Local Open Scope Z_scope.

Definition IG_RECONNECT_INIT_SEC : Z := 1.
Definition IG_RECONNECT_MAX_SEC : Z := 60.
Definition IG_RECONNECT_MULTIPLIER : Z := 2.
Definition IG_RECONNECT_JITTER_PCT : Z := 25.
Definition IG_RECONNECT_MAX_RETRIES : nat := 20.
Definition IG_SEND_MAX_RETRIES : Z := 3.
Definition IG_HEARTBEAT_DEFAULT_SEC : Z := 30.
#[global] Arguments IG_RECONNECT_MAX_RETRIES : simpl never.

(** A TLS connection: the bytes the peer has been sent and is sending, and the
    results the coming [SSL_write]s and [SSL_read]s will have (none left: error). *)
Record conn := Conn { c_out : list Z; c_writes : list Z; c_in : list Z; c_reads : list Z }.

(** The registration data kept for reconnecting. *)
Record reg_data := RegData { rd_hostname : cstring; rd_ip : cstring; rd_monitor_type : Z; rd_os : cstring }.

(** [ssl] is the connection; [fd] and [ssl] are set and cleared together. *)
(* @src transport/tcp_client.h:28-49 ig_tcp_client_t *)
Record ig_tcp_client := TcpClient {
  cli_ssl : option conn; cli_connected : bool; cli_host : cstring; cli_port : Z;
  cli_seq_num : Z; cli_agent_id : Z; cli_send_failures : Z; cli_reg : option reg_data }.

Definition set_ssl (c : option conn) (s : ig_tcp_client) : ig_tcp_client :=
  TcpClient c (cli_connected s) (cli_host s) (cli_port s) (cli_seq_num s) (cli_agent_id s)
    (cli_send_failures s) (cli_reg s).
Definition set_seq (n : Z) (s : ig_tcp_client) : ig_tcp_client :=
  TcpClient (cli_ssl s) (cli_connected s) (cli_host s) (cli_port s) n (cli_agent_id s)
    (cli_send_failures s) (cli_reg s).
Definition set_failures (n : Z) (s : ig_tcp_client) : ig_tcp_client :=
  TcpClient (cli_ssl s) (cli_connected s) (cli_host s) (cli_port s) (cli_seq_num s) (cli_agent_id s)
    n (cli_reg s).
Definition set_agent (id : Z) (r : reg_data) (s : ig_tcp_client) : ig_tcp_client :=
  TcpClient (cli_ssl s) (cli_connected s) (cli_host s) (cli_port s) (cli_seq_num s) id
    (cli_send_failures s) (Some r).

(** ** Byte transfer *)

(** [fuel] is the number of bytes left, at least one moves per call. *)
(* @src transport/tcp_client.c:44-53 ssl_write_all *)
Fixpoint ssl_write_loop (fuel : nat) (c : conn) (buf : list Z) : Z * conn :=
  match buf, fuel with
  | [], _ => (0, c)
  | _, O => (-1, c)
  | _, S fuel =>
      match c_writes c with
      | [] => (-1, c)
      | n :: ws =>
          let c := Conn (c_out c) ws (c_in c) (c_reads c) in
          if n <=? 0 then (-1, c)
          else let k := Z.to_nat (Z.min n (Z.of_nat (length buf))) in
               ssl_write_loop fuel (Conn (c_out c ++ take k buf) ws (c_in c) (c_reads c)) (drop k buf)
      end
  end.
Definition ssl_write_all (c : conn) (buf : list Z) : Z * conn := ssl_write_loop (length buf) c buf.

(** A read delivers at most what was asked and what the peer has sent. *)
(* @src transport/tcp_client.c:55-64 ssl_read_all *)
Fixpoint ssl_read_loop (fuel : nat) (c : conn) (want : nat) (acc : list Z) : option (list Z) * conn :=
  match want, fuel with
  | O, _ => (Some acc, c)
  | _, O => (None, c)
  | _, S fuel =>
      match c_reads c with
      | [] => (None, c)
      | n :: rs =>
          let k := Nat.min (Z.to_nat n) (Nat.min want (length (c_in c))) in
          if bool_decide (k = 0)%nat then (None, Conn (c_out c) (c_writes c) (c_in c) rs)
          else ssl_read_loop fuel (Conn (c_out c) (c_writes c) (drop k (c_in c)) rs)
                 (want - k) (acc ++ take k (c_in c))
      end
  end.
Definition ssl_read_all (c : conn) (want : nat) : option (list Z) * conn := ssl_read_loop want c want [].

(** ** Frames *)

(* @src transport/tcp_client.c:15-21 next_seq *)
Definition next_seq (s : ig_tcp_client) : Z * ig_tcp_client :=
  let n := u32 (cli_seq_num s + 1) in (n, set_seq n s).

(** The bytes an encoder writes into a buffer of [n] bytes: [Some None] when it
    reports an error, [None] when it faults. *)
Definition run_writer (n : nat) (m : writer unit) : option (option (list Z)) :=
  match m (WState n []) with
  | Ok _ w => Some (Some (w_out w))
  | Fail _ => Some None
  | Fault => None
  end.

(* @src transport/tcp_client.c:323-372 ig_tcp_send_frame_locked *)
Definition ig_tcp_send_frame_locked (s : ig_tcp_client) (type : Z) (payload : list Z)
    : option (Z * ig_tcp_client) :=
  let payload_len := Z.of_nat (length payload) in
  if IG_MAX_FRAME_SIZE <? payload_len then Some (-1, s)
  else
    match cli_connected s, cli_ssl s with
    | true, Some c =>
        let (seq, s) := next_seq s in
        hdr_buf ← run_writer IG_FRAME_HEADER_SIZE
                    (ig_frame_header_encode (FrameHeader payload_len type seq));
        let (ret, c) := ssl_write_all c (default [] hdr_buf) in
        let (ret, c) := if (ret =? 0) && (0 <? payload_len)
                        then ssl_write_all c payload else (ret, c) in
        let s := set_ssl (Some c) s in
        if ret <? 0 then
          let f := cli_send_failures s + 1 in
          if IG_SEND_MAX_RETRIES <=? f then Some (-2, set_failures 0 s)
          else Some (-1, set_failures f s)
        else Some (0, set_failures 0 s)
    | _, _ => Some (-1, s)
    end.

(** The header and payload received, [None] on any error; [alloc_ok]: whether
    [malloc] succeeds. *)
(* @src transport/tcp_client.c:387-425 ig_tcp_recv_frame_locked *)
Definition ig_tcp_recv_frame_locked (s : ig_tcp_client) (alloc_ok : bool)
    : option (ig_frame_header * list Z) * ig_tcp_client :=
  match cli_connected s, cli_ssl s with
  | true, Some c =>
      match ssl_read_all c IG_FRAME_HEADER_SIZE with
      | (None, c) => (None, set_ssl (Some c) s)
      | (Some hdr_buf, c) =>
          match ig_frame_header_decode (RState hdr_buf 0 0) with
          | Ok hdr _ =>
              if IG_MAX_FRAME_SIZE <? fh_length hdr then (None, set_ssl (Some c) s)
              else if 0 <? fh_length hdr then
                if alloc_ok then
                  match ssl_read_all c (Z.to_nat (fh_length hdr)) with
                  | (Some payload, c) => (Some (hdr, payload), set_ssl (Some c) s)
                  | (None, c) => (None, set_ssl (Some c) s)
                  end
                else (None, set_ssl (Some c) s)
              else (Some (hdr, []), set_ssl (Some c) s)
          | _ => (None, set_ssl (Some c) s)
          end
      end
  | _, _ => (None, s)
  end.

(** ** Connection *)

(* @src transport/tcp_client.c:152-170 ig_tcp_init *)
Definition ig_tcp_init (host : cstring) (port : Z) : ig_tcp_client :=
  TcpClient None false (strncpy host 255) port 0 0 0 None.

(** [net]: the TLS connection obtained, [None] when any step fails. *)
(* @src transport/tcp_client.c:172-228 ig_tcp_connect_locked *)
Definition ig_tcp_connect_locked (s : ig_tcp_client) (net : option conn) : Z * ig_tcp_client :=
  match net with
  | None => (-1, s)
  | Some c => (0, TcpClient (Some c) true (cli_host s) (cli_port s) 0 (cli_agent_id s) 0 (cli_reg s))
  end.

(* @src transport/tcp_client.c:241-264 ig_tcp_disconnect_locked *)
Definition ig_tcp_disconnect_locked (s : ig_tcp_client) : ig_tcp_client :=
  TcpClient None false (cli_host s) (cli_port s) 0 (cli_agent_id s) 0 (cli_reg s).

(** [inet_pton]: dotted quad to a host-order address. *)
Section registration.
Variable inet_pton : cstring → option Z.

(* @src transport/tcp_client.c:78-150 ig_tcp_register_internal_locked *)
Definition ig_tcp_register_internal_locked (s : ig_tcp_client) (r : reg_data) (alloc_ok : bool)
    : option (Z * ig_tcp_client) :=
  if negb (cli_connected s) then Some (-1, s)
  else
    match inet_pton (rd_ip r) with
    | None => Some (-1, s)
    | Some ip =>
        let msg := MsgRegister (u16 (Z.of_nat (length (rd_hostname r)))) (Some (rd_hostname r)) ip
                     (rd_monitor_type r) (u16 (Z.of_nat (length (rd_os r)))) (Some (rd_os r)) in
        enc ← run_writer 1024 (ig_register_encode msg);
        match enc with
        | None => Some (-1, s)
        | Some buf =>
            '(rc, s) ← ig_tcp_send_frame_locked s IG_MSG_REGISTER buf;
            if rc <? 0 then Some (-1, s)
            else
              match ig_tcp_recv_frame_locked s alloc_ok with
              | (None, s) => Some (-1, s)
              | (Some (hdr, payload), s) =>
                  if (fh_length hdr <? 8) || negb (fh_type hdr =? IG_MSG_REGISTER) then Some (-1, s)
                  else
                    let hi := u32 (be_val (take 4 payload)) in
                    let lo := u32 (be_val (take 4 (drop 4 payload))) in
                    let id := Z.lor (Z.shiftl hi 32) lo in
                    Some (0, set_agent id (RegData (strncpy (rd_hostname r) 255) (strncpy (rd_ip r) 63)
                                             (rd_monitor_type r) (strncpy (rd_os r) 63)) s)
              end
        end
    end.

(** One attempt: the random number of the jitter, the network, the ACK's [malloc]. *)
Record attempt := Attempt { at_rand : Z; at_net : option conn; at_alloc : bool }.

(** The wait, in hundredths of a second. *)
(* @src transport/tcp_client.c:66-70 apply_jitter *)
Definition apply_jitter (base rand : Z) : Z :=
  base * (100 + (rand mod (IG_RECONNECT_JITTER_PCT * 2) - IG_RECONNECT_JITTER_PCT)).

(* @src transport/tcp_client.c:282-315 ig_tcp_reconnect *)
Fixpoint reconnect_loop (retries : nat) (delay : Z) (attempts : list attempt) (s : ig_tcp_client)
    : option (Z * ig_tcp_client * list Z) :=
  match retries with
  | O => Some (-1, s, [])
  | S retries =>
      let a := default (Attempt 0 None true) (head attempts) in
      let wait := apply_jitter delay (at_rand a) in
      let delay' := Z.min (delay * IG_RECONNECT_MULTIPLIER) IG_RECONNECT_MAX_SEC in
      let (rc, s) := ig_tcp_connect_locked s (at_net a) in
      if rc =? 0 then
        '(rc, s) ← match cli_reg s with
                   | None => Some (0, s)
                   | Some r => ig_tcp_register_internal_locked s r (at_alloc a)
                   end;
        if rc =? 0 then Some (0, s, [wait])
        else '(rc, s, waits) ← reconnect_loop retries delay' (tail attempts) (ig_tcp_disconnect_locked s);
             Some (rc, s, wait :: waits)
      else '(rc, s, waits) ← reconnect_loop retries delay' (tail attempts) s;
           Some (rc, s, wait :: waits)
  end.

(** The result code and the waits before each attempt. *)
(* @src transport/tcp_client.c:275-321 ig_tcp_reconnect *)
Definition ig_tcp_reconnect (s : ig_tcp_client) (attempts : list attempt)
    : option (Z * ig_tcp_client * list Z) :=
  reconnect_loop IG_RECONNECT_MAX_RETRIES IG_RECONNECT_INIT_SEC attempts (ig_tcp_disconnect_locked s).

(** ** Events and heartbeats *)

(* @src transport/tcp_client.c:448-458 map_event_type *)
Definition map_event_type (t : ig_event_type) : Z :=
  match t with
  | IG_EVENT_CREATE => IG_EVT_CREATE | IG_EVENT_MODIFY => IG_EVT_MODIFY
  | IG_EVENT_DELETE => IG_EVT_DELETE | IG_EVENT_ATTRIB => IG_EVT_ATTRIB
  | IG_EVENT_MOVE => IG_EVT_MOVE | _ => IG_EVT_MODIFY
  end.

(* @src transport/tcp_client.c:460-472 map_source *)
Definition map_source (s : ig_event_source) : Z :=
  match s with
  | IG_SOURCE_EBPF => IG_MON_EBPF | IG_SOURCE_LKM => IG_MON_LKM
  | IG_SOURCE_FANOTIFY => IG_MON_FANOTIFY | _ => 0
  end.

(* @src transport/tcp_client.c:496-515 ig_tcp_send_event *)
Definition message_of_event (agent_id : Z) (ev : ig_event) : ig_msg_file_event :=
  MsgFileEvent agent_id (map_event_type (ev_type ev))
    (u16 (Z.of_nat (length (ev_path ev)))) (Some (ev_path ev))
    (u16 (Z.of_nat (length (ev_filename ev)))) (Some (ev_filename ev))
    0 (map_source (ev_source ev)) (u32 (ev_pid ev)) (u32 (ev_timestamp ev))
    (ev_dev ev) (ev_ino ev) (if ev_blocked ev =? 0 then 0 else 1) (u32 (ev_uid ev)) (u32 (ev_sid ev))
    (u16 (Z.of_nat (strnlen (ev_comm ev) 16))) (Some (ev_comm ev)) (Some (ev_chain ev)).

(* @src transport/tcp_client.c:492-536 ig_tcp_send_event *)
Definition ig_tcp_send_event (s : ig_tcp_client) (ev : ig_event) : option (Z * ig_tcp_client) :=
  if negb (cli_connected s) then Some (-1, s)
  else
    let msg := message_of_event (cli_agent_id s) ev in
    if me_detected_by msg =? 0 then Some (0, s)
    else
      enc ← run_writer (Z.to_nat IG_MAX_PAYLOAD) (ig_file_event_encode msg);
      match enc with
      | None => Some (-1, s)
      | Some buf => ig_tcp_send_frame_locked s IG_MSG_FILE_EVENT buf
      end.

(** One turn of the heartbeat loop, after the sleep; the boolean is [running]. *)
(* @src transport/heartbeat.c:23-47 ig_heartbeat_thread *)
Definition heartbeat_turn (s : ig_tcp_client) (now : Z) (attempts : list attempt)
    : option (bool * ig_tcp_client) :=
  let msg := MsgHeartbeat (cli_agent_id s) IG_STATUS_HEALTHY (u32 now) in
  enc ← run_writer 13 (ig_heartbeat_encode msg);
  match enc with
  | None => Some (true, s)
  | Some buf =>
      '(rc, s) ← ig_tcp_send_frame_locked s IG_MSG_HEARTBEAT buf;
      if rc =? -2 then
        '(rc, s, _) ← ig_tcp_reconnect s attempts;
        Some (negb (rc <? 0), s)
      else Some (true, s)
  end.

End registration.

(** ** Transfers *)

Lemma run_writer_encodes m w n : encodes m w →
  run_writer n m = Some (if bool_decide (length w ≤ n)%nat then Some w else None).
Proof.
  intros [He Hf]. unfold run_writer. case_bool_decide as H.
  - by rewrite He.
  - destruct (Hf n [] ltac:(lia)) as [s ->]. done.
Qed.

Lemma run_writer_header h :
  run_writer IG_FRAME_HEADER_SIZE (ig_frame_header_encode h) = Some (Some (wire_frame_header h)).
Proof. unfold run_writer. by rewrite frame_header_emits. Qed.

(** A write either sends the whole buffer or reports an error after a strict prefix. *)
Lemma ssl_write_loop_spec fuel c buf : (length buf ≤ fuel)%nat →
  let '(ret, c') := ssl_write_loop fuel c buf in
  c_in c' = c_in c ∧ c_reads c' = c_reads c ∧
  ((ret = 0 ∧ c_out c' = c_out c ++ buf) ∨
   (ret = -1 ∧ ∃ k, (k < length buf)%nat ∧ c_out c' = c_out c ++ take k buf)).
Proof.
  revert c buf. induction fuel as [|fuel IH]; intros c [|b buf] Hl; cbn [length] in *; try lia.
  1,2: cbn; split_and!; [done..|left; by rewrite app_nil_r].
  cbn [ssl_write_loop]. destruct (c_writes c) as [|n ws].
  { split_and!; [done..|]. right. split; [done|]. exists 0%nat. cbn. rewrite app_nil_r. split; [lia|done]. }
  destruct (Z.leb_spec n 0) as [Hn|Hn].
  { split_and!; [done..|]. right. split; [done|]. exists 0%nat. cbn. rewrite app_nil_r. split; [lia|done]. }
  set (k := Z.to_nat (Z.min n (Z.of_nat (length (b :: buf))))).
  assert (Hk : (1 ≤ k ≤ length (b :: buf))%nat) by (subst k; cbn [length]; lia).
  set (c1 := Conn _ _ _ _).
  specialize (IH c1 (drop k (b :: buf))). rewrite length_drop in IH.
  specialize (IH ltac:(cbn [length] in *; lia)).
  destruct (ssl_write_loop fuel c1 _) as [ret c']. destruct IH as (Hi & Hr & H).
  split_and!; [done..|]. destruct H as [[-> Ho]|(-> & j & Hj & Ho)]; [left|right]; (split; [done|]).
  - rewrite Ho. cbn. by rewrite <- app_assoc, take_drop.
  - exists (k + j)%nat. cbn [length] in *. split; [lia|].
    rewrite Ho. cbn [c_out c1]. rewrite <- app_assoc, take_take_drop. done.
Qed.

Lemma ssl_write_all_spec c buf :
  let '(ret, c') := ssl_write_all c buf in
  c_in c' = c_in c ∧ c_reads c' = c_reads c ∧
  ((ret = 0 ∧ c_out c' = c_out c ++ buf) ∨
   (ret = -1 ∧ ∃ k, (k < length buf)%nat ∧ c_out c' = c_out c ++ take k buf)).
Proof. by apply ssl_write_loop_spec. Qed.

(** The peer delivers: every [SSL_read] returns something until all bytes are read. *)
Definition delivers (c : conn) : Prop :=
  Forall (λ n, 0 < n) (c_reads c) ∧ (length (c_in c) ≤ length (c_reads c))%nat.

Lemma ssl_read_loop_spec fuel c want acc :
  (want ≤ fuel)%nat → (want ≤ length (c_in c))%nat → delivers c →
  ∃ c', ssl_read_loop fuel c want acc = (Some (acc ++ take want (c_in c)), c') ∧
        c_in c' = drop want (c_in c) ∧ c_out c' = c_out c ∧ delivers c'.
Proof.
  revert c want acc. induction fuel as [|fuel IH]; intros c [|want] acc Hf Hw [HF Hl]; try lia.
  1,2: exists c; cbn; rewrite app_nil_r; done.
  cbn [ssl_read_loop]. destruct (c_reads c) as [|n rs] eqn:Er; [cbn in Hl; lia|].
  apply Forall_cons in HF as [Hn HF].
  set (k := Nat.min (Z.to_nat n) (Nat.min (S want) (length (c_in c)))).
  assert (Hk : (1 ≤ k ≤ S want)%nat) by (subst k; lia).
  rewrite bool_decide_eq_false_2 by lia.
  destruct (IH (Conn (c_out c) (c_writes c) (drop k (c_in c)) rs) (S want - k)%nat
              (acc ++ take k (c_in c))) as (c' & -> & Hi & Ho & Hd).
  - lia.
  - cbn. rewrite length_drop. lia.
  - split; [done|]. cbn in *. rewrite length_drop. lia.
  - exists c'. cbn in *. rewrite <- app_assoc, take_take_drop, drop_drop in *.
    replace (k + (S want - k))%nat with (S want) in * by lia. done.
Qed.

Lemma ssl_read_all_spec c w rest : c_in c = w ++ rest → delivers c →
  ∃ c', ssl_read_all c (length w) = (Some w, c') ∧
        c_in c' = rest ∧ c_out c' = c_out c ∧ delivers c'.
Proof.
  intros Hc Hd. destruct (ssl_read_loop_spec (length w) c (length w) []) as (c' & H & Hi & Ho & Hd').
  - done.
  - rewrite Hc, length_app. lia.
  - done.
  - exists c'. unfold ssl_read_all. rewrite H, Hi, Hc, take_app_length, drop_app_length. done.
Qed.

(** ** One frame *)

Definition wire_frame (type seq : Z) (payload : list Z) : list Z :=
  wire_frame_header (FrameHeader (Z.of_nat (length payload)) type seq) ++ payload.

(** Everything a send can do on a live connection. *)
Lemma send_frame_cases s c type payload :
  cli_connected s = true → cli_ssl s = Some c → Z.of_nat (length payload) ≤ IG_MAX_FRAME_SIZE →
  let seq := u32 (cli_seq_num s + 1) in
  ∃ c' k,
    c_in c' = c_in c ∧ c_reads c' = c_reads c ∧
    c_out c' = c_out c ++ take k (wire_frame type seq payload) ∧
    ig_tcp_send_frame_locked s type payload =
      (if bool_decide (length (wire_frame type seq payload) ≤ k)%nat
       then Some (0, set_failures 0 (set_ssl (Some c') (set_seq seq s)))
       else if IG_SEND_MAX_RETRIES <=? cli_send_failures s + 1
       then Some (-2, set_failures 0 (set_ssl (Some c') (set_seq seq s)))
       else Some (-1, set_failures (cli_send_failures s + 1) (set_ssl (Some c') (set_seq seq s)))).
Proof.
  intros Hcon Hssl Hlen seq. unfold ig_tcp_send_frame_locked.
  rewrite (proj2 (Z.ltb_ge _ _)) by done. rewrite Hcon, Hssl. unfold next_seq. cbv zeta beta iota.
  fold seq. rewrite run_writer_header. cbn [mbind option_bind].
  set (h := wire_frame_header _). change (default [] (Some h)) with h.
  pose proof (ssl_write_all_spec c h) as Hw. destruct (ssl_write_all c h) as [r1 c1].
  destruct Hw as (Hi1 & Hr1 & [[-> Ho1]|(-> & k & Hk & Ho1)]).
  - destruct (Z.ltb_spec 0 (Z.of_nat (length payload))) as [Hp|Hp]; cbn [andb Z.eqb].
    + pose proof (ssl_write_all_spec c1 payload) as Hw. destruct (ssl_write_all c1 payload) as [r2 c2].
      destruct Hw as (Hi2 & Hr2 & [[-> Ho2]|(-> & k & Hk & Ho2)]).
      * exists c2, (length (wire_frame type seq payload)). split_and!; [congruence..| |].
        { rewrite take_ge by done. rewrite Ho2, Ho1. by rewrite <- app_assoc. }
        by rewrite bool_decide_eq_true_2.
      * exists c2, (length h + k)%nat. split_and!; [congruence..| |].
        { rewrite Ho2, Ho1, <- app_assoc. unfold wire_frame. fold h. by rewrite take_app_add. }
        unfold wire_frame. fold h. rewrite bool_decide_eq_false_2; [done|]. rewrite length_app. lia.
    + assert (payload = []) as -> by (destruct payload; [done|cbn in Hp; lia]).
      exists c1, (length (wire_frame type seq [])). split_and!; [done..| |].
      { rewrite take_ge by done. unfold wire_frame. fold h. by rewrite app_nil_r. }
      by rewrite bool_decide_eq_true_2.
  - exists c1, k. split_and!; [done..| |].
    { rewrite Ho1. unfold wire_frame. fold h. by rewrite take_app_le by lia. }
    unfold wire_frame. fold h. rewrite bool_decide_eq_false_2; [done|]. rewrite length_app. lia.
Qed.

(** ** Streams of frames *)

(** Consecutive calls of [ig_tcp_send_frame]: the result codes and final state. *)
Fixpoint send_frames (s : ig_tcp_client) (msgs : list (Z * list Z)) : option (list Z * ig_tcp_client) :=
  match msgs with
  | [] => Some ([], s)
  | (t, p) :: msgs =>
      '(rc, s) ← ig_tcp_send_frame_locked s t p;
      '(rcs, s) ← send_frames s msgs;
      Some (rc :: rcs, s)
  end.

(** Consecutive calls of [ig_tcp_recv_frame]. *)
Fixpoint recv_frames (n : nat) (s : ig_tcp_client) : list (option (ig_frame_header * list Z)) * ig_tcp_client :=
  match n with
  | O => ([], s)
  | S n => let (r, s) := ig_tcp_recv_frame_locked s true in
           let (rs, s) := recv_frames n s in (r :: rs, s)
  end.

(** The frames of the messages, numbered from the one after [seq]. *)
Fixpoint numbered (seq : Z) (msgs : list (Z * list Z)) : list (ig_frame_header * list Z) :=
  match msgs with
  | [] => []
  | (t, p) :: msgs =>
      let n := u32 (seq + 1) in (FrameHeader (Z.of_nat (length p)) t n, p) :: numbered n msgs
  end.

Definition wire_frames (l : list (ig_frame_header * list Z)) : list Z :=
  mjoin ((λ f, wire_frame_header f.1 ++ f.2) <$> l).

Definition wf_msg (m : Z * list Z) : Prop :=
  in_width 8 m.1 ∧ bytes m.2 ∧ Z.of_nat (length m.2) ≤ IG_MAX_FRAME_SIZE.

(** A live connection. *)
Definition live (s : ig_tcp_client) (c : conn) : Prop := cli_connected s = true ∧ cli_ssl s = Some c.

Lemma send_frames_out msgs s s' c rcs :
  live s c → Forall wf_msg msgs → send_frames s msgs = Some (rcs, s') → Forall (λ rc, rc = 0) rcs →
  ∃ c', live s' c' ∧ c_out c' = c_out c ++ wire_frames (numbered (cli_seq_num s) msgs).
Proof.
  revert s c rcs. induction msgs as [|[t p] msgs IH]; intros s c rcs [Hcon Hssl] Hwf Hsend Hok.
  { simplify_eq/=. exists c. split; [done|]. by rewrite app_nil_r. }
  apply Forall_cons in Hwf as [(_ & _ & Hlen) Hwf]. cbn [send_frames] in Hsend.
  destruct (send_frame_cases s c t p Hcon Hssl Hlen) as (c1 & k & _ & _ & Ho & Hs).
  rewrite Hs in Hsend. case_bool_decide as Hk; cbn [mbind option_bind] in Hsend.
  - rewrite take_ge in Ho by done. set (s1 := set_failures 0 _) in Hsend.
    destruct (send_frames s1 msgs) as [[rcs1 s2]|] eqn:Hrest; [|done]. simplify_eq/=.
    apply Forall_cons in Hok as [_ Hok].
    destruct (IH s1 c1 rcs1 ltac:(done) Hwf Hrest Hok) as (c' & Hl & Ho').
    exists c'. split; [done|]. rewrite Ho', Ho, <- app_assoc. done.
  - exfalso. destruct (IG_SEND_MAX_RETRIES <=? _); cbn [mbind option_bind] in Hsend;
      (destruct (send_frames _ msgs) as [[? ?]|]; simplify_eq/=; by apply Forall_cons in Hok as [? _]).
Qed.

Lemma recv_frame_spec s c h p rest :
  live s c → wf_frame_header h → fh_length h = Z.of_nat (length p) → fh_length h ≤ IG_MAX_FRAME_SIZE →
  c_in c = wire_frame_header h ++ p ++ rest → delivers c →
  ∃ s' c', ig_tcp_recv_frame_locked s true = (Some (h, p), s') ∧ live s' c' ∧ c_in c' = rest ∧ delivers c'.
Proof.
  intros [Hcon Hssl] Hwf Hl Hmax Hin Hd. unfold ig_tcp_recv_frame_locked. rewrite Hcon, Hssl.
  destruct (ssl_read_all_spec c _ _ Hin Hd) as (c1 & Hr & Hi1 & _ & Hd1).
  change IG_FRAME_HEADER_SIZE with (length (wire_frame_header h)). rewrite Hr.
  pose proof (parses_frame_header h Hwf [] 0%nat 0%nat) as Hp. rewrite app_nil_r in Hp. rewrite Hp.
  rewrite (proj2 (Z.ltb_ge _ _)) by done. destruct (Z.ltb_spec 0 (fh_length h)) as [Hpos|Hz].
  - rewrite Hl, Nat2Z.id. destruct (ssl_read_all_spec c1 _ _ Hi1 Hd1) as (c2 & -> & Hi2 & _ & Hd2).
    eexists _, c2. done.
  - assert (p = []) as -> by (destruct p; [done|cbn in Hl; lia]).
    eexists _, c1. done.
Qed.

Lemma recv_frames_spec msgs seq s c rest :
  live s c → Forall wf_msg msgs → c_in c = wire_frames (numbered seq msgs) ++ rest → delivers c →
  ∃ s' c', recv_frames (length msgs) s = (Some <$> numbered seq msgs, s') ∧
           live s' c' ∧ c_in c' = rest ∧ delivers c'.
Proof.
  revert seq s c. induction msgs as [|[t p] msgs IH]; intros seq s c Hlive Hwf Hin Hd.
  { exists s, c. done. }
  apply Forall_cons in Hwf as [(Ht & Hb & Hlen) Hwf]. cbn [numbered] in Hin. unfold IG_MAX_FRAME_SIZE in Hlen.
  cbn in Ht, Hb, Hlen.
  destruct (recv_frame_spec s c (FrameHeader (Z.of_nat (length p)) t (u32 (seq + 1))) p
    (wire_frames (numbered (u32 (seq + 1)) msgs) ++ rest)) as (s1 & c1 & H1 & Hl1 & Hi1 & Hd1).
  - done.
  - split_and!; cbn; [unfold in_width; lia|done|apply (wrap_range 32); lia].
  - done.
  - done.
  - rewrite Hin. unfold wire_frames. cbn. by rewrite <- !app_assoc.
  - done.
  - destruct (IH (u32 (seq + 1)) s1 c1 Hl1 Hwf Hi1 Hd1) as (s2 & c2 & H2 & Hl2 & Hi2 & Hd2).
    exists s2, c2. split; [|done]. cbn [recv_frames length numbered fmap list_fmap]. by rewrite H1, H2.
Qed.

(** ** The connection invariant

    The TLS session exists exactly while the state says connected; the sequence
    number has its width; the failure count is below the escalation limit. *)
Definition wf_reg (r : reg_data) : Prop :=
  bytes (rd_hostname r) ∧ bytes (rd_os r) ∧ in_width 8 (rd_monitor_type r).

Definition client_ok (s : ig_tcp_client) : Prop :=
  cli_connected s = bool_decide (is_Some (cli_ssl s)) ∧
  in_width 32 (cli_seq_num s) ∧ 0 ≤ cli_send_failures s < IG_SEND_MAX_RETRIES ∧
  (cli_connected s = false → cli_send_failures s = 0) ∧
  in_width 64 (cli_agent_id s) ∧
  match cli_reg s with Some r => wf_reg r | None => True end.

(** Agreement on what a transfer never touches. *)
Definition same_client (s s' : ig_tcp_client) : Prop :=
  cli_connected s' = cli_connected s ∧ cli_host s' = cli_host s ∧ cli_port s' = cli_port s ∧
  cli_agent_id s' = cli_agent_id s ∧ cli_reg s' = cli_reg s.

#[export] Instance same_client_preorder : PreOrder same_client.
Proof. split; [done|]. unfold same_client. intros ???; naive_solver congruence. Qed.

Lemma client_ok_live s c : client_ok s → cli_ssl s = Some c → live s c.
Proof. intros [Hc _] Hs. split; [|done]. rewrite Hc, Hs. by apply bool_decide_eq_true_2. Qed.

Lemma client_ok_ssl s : client_ok s → cli_connected s = true → ∃ c, live s c.
Proof.
  intros [Hc _] H. rewrite H in Hc. symmetry in Hc. apply bool_decide_eq_true in Hc as [c Hc].
  exists c. by split.
Qed.

Lemma client_ok_off s : client_ok s → cli_connected s = false → cli_ssl s = None.
Proof.
  intros [Hc _] H. rewrite H in Hc. symmetry in Hc. apply bool_decide_eq_false in Hc.
  by destruct (cli_ssl s); [destruct Hc|].
Qed.

(** Replacing the session of a live client and its counters. *)
Lemma client_ok_update s c c' f n :
  client_ok s → live s c → in_width 32 n → 0 ≤ f < IG_SEND_MAX_RETRIES →
  client_ok (set_failures f (set_ssl (Some c') (set_seq n s))).
Proof.
  intros (_ & _ & _ & _ & Hid & Hr) [Hcon _] Hn Hf. unfold client_ok. cbn. rewrite Hcon. split_and!; first [done | lia].
Qed.

Lemma send_frame_ok s t p : client_ok s → ∃ rc s',
  ig_tcp_send_frame_locked s t p = Some (rc, s') ∧ client_ok s' ∧ same_client s s' ∧
  (rc = 0 ∨ rc = -1 ∨ rc = -2) ∧ (cli_connected s = false → rc = -1 ∧ s' = s).
Proof.
  intros Hok. destruct (Z.leb_spec (Z.of_nat (length p)) IG_MAX_FRAME_SIZE) as [Hl|Hl].
  2: { exists (-1), s. unfold ig_tcp_send_frame_locked. rewrite (proj2 (Z.ltb_lt _ _)) by done.
       split_and!; auto; done. }
  destruct (cli_connected s) eqn:Hcon.
  - destruct (client_ok_ssl s Hok Hcon) as [c Hc].
    destruct (send_frame_cases s c t p Hcon (proj2 Hc) Hl) as (c' & k & _ & _ & _ & ->).
    pose proof Hok as (_ & _ & Hf & _).
    assert (Hseq : in_width 32 (u32 (cli_seq_num s + 1))) by (apply (wrap_range 32); lia).
    unfold IG_SEND_MAX_RETRIES in *.
    case_bool_decide; [|destruct (Z.leb_spec 3 (cli_send_failures s + 1))]; eexists _, _;
      (split; [done|]; split; [eapply client_ok_update; unfold IG_SEND_MAX_RETRIES; done || lia|];
       split; [done|]; split; [auto|done]).
  - exists (-1), s. unfold ig_tcp_send_frame_locked. rewrite (proj2 (Z.ltb_ge _ _)) by done.
    rewrite Hcon. split_and!; auto; done.
Qed.

Lemma recv_frame_ok s a : client_ok s →
  let '(r, s') := ig_tcp_recv_frame_locked s a in client_ok s' ∧ same_client s s'.
Proof.
  intros Hok. unfold ig_tcp_recv_frame_locked. destruct (cli_connected s) eqn:Hcon; [|done].
  destruct (client_ok_ssl s Hok Hcon) as [c Hc]. rewrite (proj2 Hc).
  pose proof Hok as (_ & Hseq & Hf & Hz & Hid & Hr).
  assert (H : ∀ c', client_ok (set_ssl (Some c') s) ∧ same_client s (set_ssl (Some c') s)).
  { intros c'. split; [|done]. unfold client_ok. cbn. rewrite Hcon in *.
    split_and!; first [done | lia]. }
  repeat (case_match; simplify_eq; try apply H).
Qed.

(** ** Registration and reconnection *)

Lemma ok_str_full l : bytes l → ok_str (Some l) (u16 (Z.of_nat (length l))).
Proof.
  intros Hb. split; [apply (wrap_range 16); lia|]. split; [|done]. intros _. cbn.
  unfold u16, wrap. apply Z.mod_le; lia.
Qed.

Section reconnection.
Variable inet_pton : cstring → option Z.
Hypothesis inet_pton_width : ∀ s ip, inet_pton s = Some ip → in_width 32 ip.

Definition cached (r : reg_data) : reg_data :=
  RegData (strncpy (rd_hostname r) 255) (strncpy (rd_ip r) 63) (rd_monitor_type r) (strncpy (rd_os r) 63).

Lemma wf_cached r : wf_reg r → wf_reg (cached r).
Proof. intros (H1 & H2 & H3). split_and!; try done; by apply Forall_take, bytes_cstr. Qed.

Lemma agent_id_range hi lo : in_width 32 hi → in_width 32 lo → in_width 64 (Z.lor (Z.shiftl hi 32) lo).
Proof.
  unfold in_width. intros Hh Hl. rewrite Z.shiftl_mul_pow2 by lia.
  split; [apply Z.lor_nonneg; lia|].
  pose proof (Z.add_lor_land (hi * 2 ^ 32) lo). pose proof (proj2 (Z.land_nonneg (hi * 2 ^ 32) lo)). lia.
Qed.

Lemma register_ok s r a : client_ok s → wf_reg r → ∃ rc s',
  ig_tcp_register_internal_locked inet_pton s r a = Some (rc, s') ∧
  client_ok s' ∧ cli_connected s' = cli_connected s ∧
  ((rc = 0 ∧ cli_connected s = true ∧ cli_reg s' = Some (cached r)) ∨ (rc = -1 ∧ cli_reg s' = cli_reg s)).
Proof.
  intros Hok Hr. unfold ig_tcp_register_internal_locked.
  destruct (cli_connected s) eqn:Hcon; cbn [negb]; [|by exists (-1), s; split_and!; auto].
  destruct (inet_pton (rd_ip r)) as [ip|] eqn:Hip; [|by exists (-1), s; split_and!; auto].
  set (m := MsgRegister _ _ _ _ _ _).
  assert (Hm : wf_register m).
  { destruct Hr as (H1 & H2 & H3). split_and!; cbn;
      [by apply ok_str_full|by eapply inet_pton_width|done|by apply ok_str_full]. }
  rewrite (run_writer_encodes _ _ _ (register_encodes m Hm)). cbn [mbind option_bind].
  case_bool_decide; [|by exists (-1), s; split_and!; auto].
  destruct (send_frame_ok s IG_MSG_REGISTER (wire_register m) Hok) as (rc & s1 & -> & Hok1 & Hs1 & _).
  cbn [mbind option_bind]. pose proof Hs1 as (Hc1 & _ & _ & _ & Hr1).
  destruct (rc <? 0); [exists (-1), s1; split_and!; try done; [congruence|by right]|].
  pose proof (recv_frame_ok s1 a Hok1) as H2.
  destruct (ig_tcp_recv_frame_locked s1 a) as [[[hdr payload]|] s2]; destruct H2 as [Hok2 Hs2];
    pose proof Hs2 as (Hc2 & _ & _ & _ & Hr2).
  - destruct (_ || _).
    + exists (-1), s2. split_and!; try done; [congruence|right; split; congruence].
    + eexists 0, _. split; [done|]. split.
      { destruct Hok2 as (A & B & C & D & _). split_and!; try done;
          first [apply C|by apply wf_cached|apply agent_id_range; apply (wrap_range 32); lia]. }
      split; [cbn; congruence|]. left. done.
  - exists (-1), s2. split_and!; try done; [congruence|right; split; congruence].
Qed.

(** The base delay before attempt [i]. *)
Definition backoff (i : nat) : Z := Z.min (2 ^ Z.of_nat i) IG_RECONNECT_MAX_SEC.

Lemma backoff_step i : Z.min (backoff i * IG_RECONNECT_MULTIPLIER) IG_RECONNECT_MAX_SEC = backoff (S i).
Proof.
  unfold backoff, IG_RECONNECT_MULTIPLIER, IG_RECONNECT_MAX_SEC.
  rewrite Nat2Z.inj_succ, Z.pow_succ_r by lia. lia.
Qed.

Definition no_attempt : attempt := Attempt 0 None true.

(** The outcome of reconnecting: what holds after success and after giving up. *)
Definition reconnected (s s' : ig_tcp_client) (rc : Z) : Prop :=
  (rc = 0 ∧ cli_connected s' = true) ∨
  (rc = -1 ∧ cli_connected s' = false ∧ cli_ssl s' = None).

Lemma disconnect_ok s : client_ok s → client_ok (ig_tcp_disconnect_locked s).
Proof. intros (_ & _ & _ & _ & Hid & Hr). split_and!; done. Qed.

Lemma connect_ok s net : client_ok s →
  let '(rc, s') := ig_tcp_connect_locked s net in
  client_ok s' ∧ cli_reg s' = cli_reg s ∧
  ((rc = 0 ∧ cli_connected s' = true) ∨ (rc = -1 ∧ s' = s ∧ net = None)).
Proof.
  intros (Hc & H1 & H2 & H3 & Hid & Hr). destruct net as [c|]; cbn.
  - split; [|by auto]. split_and!; done.
  - split; [|by auto]. split_and!; try done; lia.
Qed.

(** What [n] attempts from number [i] on may end in. *)
Definition loop_outcome (n i : nat) (attempts : list attempt) (s : ig_tcp_client)
    (r : option (Z * ig_tcp_client * list Z)) : Prop :=
  ∃ rc s' waits, r = Some (rc, s', waits) ∧ client_ok s' ∧ reconnected s s' rc ∧
    (length waits ≤ n)%nat ∧ (rc = -1 → length waits = n) ∧ (rc = 0 → waits ≠ []) ∧
    ∀ j w, waits !! j = Some w →
      w = apply_jitter (backoff (i + j)) (at_rand (default no_attempt (attempts !! j))).

Lemma waits_cons i attempts waits :
  (∀ j w, waits !! j = Some w →
     w = apply_jitter (backoff (S i + j)) (at_rand (default no_attempt (tail attempts !! j)))) →
  ∀ j w, (apply_jitter (backoff i) (at_rand (default no_attempt (head attempts))) :: waits) !! j = Some w →
    w = apply_jitter (backoff (i + j)) (at_rand (default no_attempt (attempts !! j))).
Proof.
  intros H [|j] w Hj; simplify_eq/=.
  - rewrite Nat.add_0_r. by destruct attempts.
  - rewrite (H j w Hj). destruct attempts; cbn; by replace (i + S j)%nat with (S (i + j)) by lia.
Qed.

(** The attempt succeeds: the loop stops. *)
Lemma loop_stop n i attempts s s' : client_ok s' → cli_connected s' = true →
  loop_outcome (S n) i attempts s
    (Some (0, s', [apply_jitter (backoff i) (at_rand (default no_attempt (head attempts)))])).
Proof.
  intros Hok Hcon. eexists 0, s', _. split; [done|]. split; [done|]. split; [by left|].
  cbn [length]. split; [lia|]. split; [done|]. split; [done|]. by apply waits_cons.
Qed.

(** The attempt fails: the next one follows. *)
Lemma loop_again n i attempts s s1 r :
  loop_outcome n (S i) (tail attempts) s1 r →
  loop_outcome (S n) i attempts s
    ('(rc, s, waits) ← r;
     Some (rc, s, apply_jitter (backoff i) (at_rand (default no_attempt (head attempts))) :: waits)).
Proof.
  intros (rc & s' & waits & -> & Hok & Hrec & Hl & Hf & _ & Hw).
  eexists rc, s', _. cbn [mbind option_bind]. split; [done|]. split; [done|]. split; [done|].
  cbn [length]. split; [lia|]. split; [intros Hrc; by rewrite Hf|]. split; [done|]. by apply waits_cons.
Qed.

Lemma reconnect_loop_spec n i attempts s : client_ok s → cli_connected s = false →
  loop_outcome n i attempts s (reconnect_loop inet_pton n (backoff i) attempts s).
Proof.
  revert i attempts s. induction n as [|n IH]; intros i attempts s Hok Hoff.
  { exists (-1), s, []. cbn. split_and!; try done. right. auto using client_ok_off. }
  cbn [reconnect_loop]. fold no_attempt. set (a := default no_attempt (head attempts)).
  rewrite backoff_step. pose proof (connect_ok s (at_net a) Hok) as Hcn.
  destruct (ig_tcp_connect_locked s (at_net a)) as [rc1 s1].
  destruct Hcn as (Hok1 & Hreg1 & [[-> Hcon1]|(-> & -> & _)]); cbn [Z.eqb]; [|by eapply loop_again, IH].
  destruct (cli_reg s1) as [r|] eqn:Hr; [|by apply loop_stop].
  destruct (register_ok s1 r (at_alloc a) Hok1) as (rc2 & s2 & -> & Hok2 & Hcon2 & Hcase).
  { destruct Hok1 as (_ & _ & _ & _ & _ & Hw). by rewrite Hr in Hw. }
  cbn [mbind option_bind]. destruct Hcase as [(-> & _)|(-> & _)]; cbn [Z.eqb].
  - apply loop_stop; congruence.
  - by eapply loop_again, IH; [apply disconnect_ok|].
Qed.

(** [C36] Reconnection backs off and gives up: it makes between one and twenty
    attempts; attempt [i] (from 0) waits min(2^i, 60) seconds with its random
    jitter; it either ends connected, or, after exactly twenty attempts,
    disconnected without a session. It always terminates without a fault, and
    the connection invariant holds in both cases. *)
Theorem reconnect_backs_off_and_stops (s : ig_tcp_client) (attempts : list attempt) (Hok : client_ok s) :
  ∃ rc s' waits,
    ig_tcp_reconnect inet_pton s attempts = Some (rc, s', waits) ∧ client_ok s' ∧
    reconnected s s' rc ∧ (1 ≤ length waits ≤ 20)%nat ∧ (rc = -1 → length waits = 20%nat) ∧
    ∀ i w, waits !! i = Some w →
      w = apply_jitter (Z.min (2 ^ Z.of_nat i) 60) (at_rand (default no_attempt (attempts !! i))).
Proof.
  destruct (reconnect_loop_spec 20 0 attempts (ig_tcp_disconnect_locked s))
    as (rc & s' & waits & H & Hok' & Hrec & Hl & Hf & Hz & Hw); [by apply disconnect_ok|done|].
  exists rc, s', waits. split; [exact H|]. split; [done|]. split; [exact Hrec|].
  split; [|split; [exact Hf|exact Hw]].
  split; [|done]. destruct waits; [|cbn; lia]. exfalso.
  destruct Hrec as [[-> _]|(-> & _)]; [by apply Hz|by specialize (Hf eq_refl)].
Qed.
End reconnection.

(** ** Events *)

Lemma map_event_type_range t : in_width 8 (map_event_type t).
Proof. by destruct t. Qed.
Lemma map_source_range s : in_width 8 (map_source s).
Proof. by destruct s. Qed.

Lemma message_of_event_wf id ev : in_width 64 id → wf_event ev → wf_file_event (message_of_event id ev).
Proof.
  intros Hid (_ & Hp & _ & Hn & Hc & Hd & Hi & Hch). unfold wf_file_event, message_of_event. cbn -[u32 u16].
  repeat match goal with |- _ ∧ _ => split end; try done; try (apply (wrap_range 32); lia);
    try by apply ok_str_full.
  - apply map_event_type_range.
  - apply map_source_range.
  - destruct (ev_blocked ev =? 0); done.
  - pose proof (strnlen_le_l (ev_comm ev) 16). pose proof (strnlen_le (ev_comm ev) 16).
    unfold u16. rewrite wrap_small by (unfold in_width; lia).
    split; [unfold in_width; lia|]. split; [cbn; lia|done].
Qed.

Lemma wire_chain_entry_length e : (length (wire_chain_entry e) ≤ 852)%nat.
Proof.
  unfold wire_chain_entry. rewrite !length_app, !be_bytes_length, !wire_cstr_length.
  pose proof (strnlen_le_l (pi_comm e) IG_PA_COMM_LEN). pose proof (strnlen_le_l (pi_tty e) IG_PA_TTY_LEN).
  pose proof (strnlen_le_l (pi_exe e) IG_PA_EXE_LEN). pose proof (strnlen_le_l (pi_cmdline e) IG_PA_CMDLINE_LEN).
  unfold IG_PA_COMM_LEN, IG_PA_TTY_LEN, IG_PA_EXE_LEN, IG_PA_CMDLINE_LEN in *. lia.
Qed.

Lemma wire_entries_length l : (length (mjoin (wire_chain_entry <$> l)) ≤ 852 * length l)%nat.
Proof.
  induction l as [|e l IH]; [done|].
  change (mjoin (wire_chain_entry <$> e :: l)) with (wire_chain_entry e ++ mjoin (wire_chain_entry <$> l)).
  rewrite length_app. pose proof (wire_chain_entry_length e). cbn [length]. lia.
Qed.

Lemma wire_event_fits id ev : in_width 64 id → wf_event ev →
  Z.of_nat (length (wire_file_event (message_of_event id ev))) ≤ IG_MAX_PAYLOAD.
Proof.
  intros Hid Hev. pose proof (message_of_event_wf id ev Hid Hev) as
    (_ & _ & Hp & Hn & _ & _ & _ & _ & _ & _ & _ & _ & _ & Hc & Hch).
  apply wire_str_length in Hp, Hn, Hc. destruct Hev as (Lp & _ & Ln & _ & _ & _ & _ & Hch').
  unfold wire_file_event, wire_event_base, wire_chain, wire_chain_meta.
  rewrite !length_app, !be_bytes_length.
  pose proof (wire_entries_length (chain_sent (me_chain (message_of_event id ev)))) as He.
  pose proof (chain_sent_length (me_chain (message_of_event id ev)) Hch) as Hl.
  pose proof (chain_depth_range (me_chain (message_of_event id ev)) Hch) as Hr.
  assert (me_file_path_len (message_of_event id ev) ≤ 4096) by
    (cbn -[u16]; unfold u16, wrap; pose proof (Z.mod_le (Z.of_nat (length (ev_path ev))) (2 ^ 16)); lia).
  assert (me_file_name_len (message_of_event id ev) ≤ 256) by
    (cbn -[u16]; unfold u16, wrap; pose proof (Z.mod_le (Z.of_nat (length (ev_filename ev))) (2 ^ 16)); lia).
  assert (me_comm_len (message_of_event id ev) ≤ 16) by
    (cbn -[u16]; unfold u16, wrap; pose proof (strnlen_le_l (ev_comm ev) 16);
     pose proof (Z.mod_le (Z.of_nat (strnlen (ev_comm ev) 16)) (2 ^ 16)); lia).
  unfold IG_MAX_PAYLOAD. lia.
Qed.

(** ** Properties *)

(** The result codes a run may show: a failure is [-1] until the third in a
    row, which is [-2] and starts the count again, as does every success. *)
Fixpoint well_escalated (failures : Z) (rcs : list Z) : bool :=
  match rcs with
  | [] => true
  | rc :: rcs =>
      if rc =? 0 then well_escalated 0 rcs
      else if rc =? -1 then (failures + 1 <? IG_SEND_MAX_RETRIES) && well_escalated (failures + 1) rcs
      else (rc =? -2) && (failures + 1 =? IG_SEND_MAX_RETRIES) && well_escalated 0 rcs
  end.

(** [C11] Frames cross the connection: when a run of [ig_tcp_send_frame] calls
    all succeed, the bytes written are exactly the frames, numbered
    consecutively from the sequence number; and a peer running
    [ig_tcp_recv_frame] reads back those headers and payloads, one per call, in
    order, however TLS cuts the stream into records, leaving what follows. *)
Theorem frames_cross_the_connection (s s' : ig_tcp_client) (c : conn) (msgs : list (Z * list Z)) (rcs : list Z)
    (Hlive : live s c) (Hwf : Forall wf_msg msgs)
    (Hsend : send_frames s msgs = Some (rcs, s')) (Hok : Forall (λ rc, rc = 0) rcs) :
  ∃ c' wire, live s' c' ∧ c_out c' = c_out c ++ wire ∧
    ∀ p cp rest, live p cp → c_in cp = wire ++ rest → delivers cp →
      ∃ p' cp', recv_frames (length msgs) p = (Some <$> numbered (cli_seq_num s) msgs, p') ∧
                live p' cp' ∧ c_in cp' = rest.
Proof.
  destruct (send_frames_out msgs s s' c rcs Hlive Hwf Hsend Hok) as (c' & Hl' & Ho).
  exists c', (wire_frames (numbered (cli_seq_num s) msgs)). split; [done|]. split; [done|].
  intros p cp rest Hp Hin Hd.
  destruct (recv_frames_spec msgs (cli_seq_num s) p cp rest Hp Hwf Hin Hd) as (p' & cp' & H & Hl & Hi & _).
  by exists p', cp'.
Qed.

(** Failure accounting: on a live connection every send returns, and the
    codes of any run of sends are [-1] for the first and second failure in a
    row and [-2] (the request to reconnect) for the third exactly. *)
Theorem send_failures_escalate (s : ig_tcp_client) (msgs : list (Z * list Z))
    (Hok : client_ok s) (Hcon : cli_connected s = true) (Hwf : Forall wf_msg msgs) :
  ∃ rcs s', send_frames s msgs = Some (rcs, s') ∧ length rcs = length msgs ∧
    well_escalated (cli_send_failures s) rcs = true ∧ client_ok s'.
Proof.
  revert s Hok Hcon. induction Hwf as [|[t p] msgs (_ & _ & Hl) Hwf IH]; intros s Hok Hcon.
  { by exists [], s. }
  destruct (client_ok_ssl s Hok Hcon) as [c Hc].
  destruct (send_frame_ok s t p Hok) as (rc & s1 & Hs1 & Hok1 & (Hc1 & _) & _).
  destruct (IH s1 Hok1 ltac:(congruence)) as (rcs & s2 & Hs2 & Hlen & Hesc & Hok2).
  exists (rc :: rcs), s2. cbn [send_frames]. rewrite Hs1. cbn [mbind option_bind]. rewrite Hs2.
  split; [done|]. split; [cbn; congruence|]. split; [|done].
  destruct (send_frame_cases s c t p Hcon (proj2 Hc) Hl) as (c' & k & _ & _ & _ & Hcase).
  rewrite Hs1 in Hcase. pose proof Hok as (_ & _ & Hf & _). unfold IG_SEND_MAX_RETRIES in *.
  cbn [well_escalated].
  case_bool_decide; [by simplify_eq|].
  destruct (Z.leb_spec 3 (cli_send_failures s + 1)); simplify_eq; cbn in Hesc |- *; rewrite Hesc, andb_true_r.
  - unfold IG_SEND_MAX_RETRIES. apply Z.eqb_eq. lia.
  - unfold IG_SEND_MAX_RETRIES. apply Z.ltb_lt. lia.
Qed.

(** An event leaves as one frame the collector understands: for every
    well-formed queue event of a reportable source, [ig_tcp_send_event] on a
    connected client never fails to serialise; it is exactly one FILE_EVENT
    frame send, whose payload fits the buffer and is decoded by the collector
    into the event's fields and process chain. *)
Theorem sent_event_reaches_collector (s : ig_tcp_client) (ev : ig_event)
    (Hev : wf_event ev) (Hid : in_width 64 (cli_agent_id s)) (Hcon : cli_connected s = true)
    (Hsrc : map_source (ev_source ev) ≠ 0) :
  ∃ payload,
    ig_tcp_send_event s ev = ig_tcp_send_frame_locked s IG_MSG_FILE_EVENT payload ∧
    Z.of_nat (length payload) ≤ IG_MAX_PAYLOAD ∧
    DecodeFileEvent (RState payload 0 0) =
      Ok (event_seen (message_of_event (cli_agent_id s) ev)) (RState [] 0 0).
Proof.
  pose proof (message_of_event_wf _ _ Hid Hev) as Hwf. pose proof (wire_event_fits _ _ Hid Hev) as Hfit.
  exists (wire_file_event (message_of_event (cli_agent_id s) ev)).
  split; [|split; [done|by apply DecodeFileEvent_wire]].
  unfold ig_tcp_send_event. rewrite Hcon. cbn [negb].
  rewrite (proj2 (Z.eqb_neq (me_detected_by _) 0)) by done.
  rewrite (run_writer_encodes _ _ _ (file_event_encodes _ Hwf)).
  rewrite bool_decide_eq_true_2; [done|]. lia.
Qed.

(** ** A connection that takes what is sent *)

(** Every [SSL_write] moves something, and there are [n] of them to come. *)
Definition accepts (c : conn) (n : nat) : Prop := Forall (λ n, 0 < n) (c_writes c) ∧ (n ≤ length (c_writes c))%nat.

Lemma accepts_le c n m : accepts c n → (m ≤ n)%nat → accepts c m.
Proof. intros [H1 H2] Hm. split; [done|lia]. Qed.

Lemma write_loop_accepts fuel c buf n : (length buf ≤ fuel)%nat → accepts c (length buf + n) →
  ∃ c', ssl_write_loop fuel c buf = (0, c') ∧ c_out c' = c_out c ++ buf ∧ accepts c' n ∧
    c_in c' = c_in c ∧ c_reads c' = c_reads c.
Proof.
  revert c buf. induction fuel as [|fuel IH]; intros c [|b buf] Hl [HF Hn]; cbn [length] in *; try lia.
  1,2: exists c; split; [done|]; split; [by rewrite app_nil_r|]; split; [by split|done].
  cbn [ssl_write_loop]. destruct (c_writes c) as [|w ws] eqn:E; [cbn in Hn; lia|].
  apply Forall_cons in HF as [Hw HF]. destruct (Z.leb_spec w 0); [lia|].
  set (k := Z.to_nat (Z.min w (Z.of_nat (length (b :: buf))))).
  assert (Hk : (1 ≤ k ≤ length (b :: buf))%nat) by (subst k; cbn [length]; lia).
  destruct (IH (Conn (c_out c ++ take k (b :: buf)) ws (c_in c) (c_reads c)) (drop k (b :: buf)))
    as (c' & H1 & H2 & H3 & H4).
  - rewrite length_drop. cbn [length] in *. lia.
  - split; [exact HF|]. cbn [c_writes]. rewrite length_drop. cbn [length] in *. lia.
  - exists c'. split; [exact H1|]. split; [|by split].
    rewrite H2. cbn [c_out]. by rewrite <- app_assoc, take_drop.
Qed.

Lemma send_frame_accepts s c type payload n : live s c → Z.of_nat (length payload) ≤ IG_MAX_FRAME_SIZE →
  accepts c (IG_FRAME_HEADER_SIZE + length payload + n) →
  let seq := u32 (cli_seq_num s + 1) in
  ∃ c', ig_tcp_send_frame_locked s type payload = Some (0, set_failures 0 (set_ssl (Some c') (set_seq seq s))) ∧
    c_out c' = c_out c ++ wire_frame type seq payload ∧ accepts c' n ∧ c_in c' = c_in c ∧ c_reads c' = c_reads c.
Proof.
  intros [Hcon Hssl] Hlen Hacc seq. unfold ig_tcp_send_frame_locked.
  rewrite (proj2 (Z.ltb_ge _ _)) by done. rewrite Hcon, Hssl. unfold next_seq. cbv zeta beta iota.
  fold seq. rewrite run_writer_header. cbn [mbind option_bind].
  set (h := wire_frame_header _). change (default [] (Some h)) with h.
  change IG_FRAME_HEADER_SIZE with (length h) in Hacc. rewrite <- Nat.add_assoc in Hacc.
  destruct (write_loop_accepts (length h) c h (length payload + n) ltac:(done) Hacc) as (c1 & H1 & Ho1 & Hacc1 & Hi1 & Hr1).
  unfold ssl_write_all at 1. rewrite H1. cbn [Z.eqb andb].
  destruct (Z.ltb_spec 0 (Z.of_nat (length payload))) as [Hp|Hp].
  - destruct (write_loop_accepts (length payload) c1 payload n ltac:(done) Hacc1) as (c2 & H2 & Ho2 & Hacc2 & Hi2 & Hr2).
    exists c2. unfold ssl_write_all. rewrite H2. split; [done|]. split; [by rewrite Ho2, Ho1, <- app_assoc|].
    split; [done|]. split; congruence.
  - assert (payload = []) as -> by (destruct payload; [done|cbn in Hp; lia]).
    exists c1. split; [done|]. split; [|by split].
    rewrite Ho1. unfold wire_frame. fold h. by rewrite app_nil_r.
Qed.

(** Receiving leaves what was sent, and what can be, alone. *)
Lemma read_loop_keeps fuel c want acc :
  let c' := (ssl_read_loop fuel c want acc).2 in c_out c' = c_out c ∧ c_writes c' = c_writes c.
Proof.
  revert c want acc. induction fuel as [|fuel IH]; intros c [|want] acc; cbn [ssl_read_loop snd]; try done.
  destruct (c_reads c) as [|n rs]; [done|]. case_bool_decide; [done|].
  match goal with |- context [ssl_read_loop fuel ?c1 ?w ?a] => exact (IH c1 w a) end.
Qed.

Lemma recv_frame_keeps s c a : live s c →
  let s' := (ig_tcp_recv_frame_locked s a).2 in
  ∃ c', live s' c' ∧ c_out c' = c_out c ∧ c_writes c' = c_writes c ∧
    cli_seq_num s' = cli_seq_num s ∧ cli_agent_id s' = cli_agent_id s.
Proof.
  intros [Hcon Hssl]. unfold ig_tcp_recv_frame_locked. rewrite Hcon, Hssl.
  pose proof (read_loop_keeps IG_FRAME_HEADER_SIZE c IG_FRAME_HEADER_SIZE []) as [Ho Hw].
  unfold ssl_read_all. destruct (ssl_read_loop IG_FRAME_HEADER_SIZE c _ []) as [[hdr|] c1]; cbn [snd] in Ho, Hw.
  2:{ exists c1. by split_and!. }
  destruct (ig_frame_header_decode _) as [h st|st|]; try (exists c1; by split_and!).
  destruct (_ <? fh_length h); [exists c1; by split_and!|].
  destruct (0 <? fh_length h); [|exists c1; by split_and!]. destruct a; [|exists c1; by split_and!].
  pose proof (read_loop_keeps (Z.to_nat (fh_length h)) c1 (Z.to_nat (fh_length h)) []) as [Ho2 Hw2].
  destruct (ssl_read_loop _ c1 _ []) as [[p|] c2]; cbn [snd] in Ho2, Hw2; exists c2; cbn [snd];
    (split; [done|]); split; (congruence || (split; [congruence|done])).
Qed.

(** The frame that carries a queued event. *)
Definition event_frame (s : ig_tcp_client) (ev : ig_event) : ig_frame_header * list Z :=
  let payload := wire_file_event (message_of_event (cli_agent_id s) ev) in
  (FrameHeader (Z.of_nat (length payload)) IG_MSG_FILE_EVENT (u32 (cli_seq_num s + 1)), payload).

(** An event the agent sends: well typed, of a source the collector knows. *)
Definition reportable (ev : ig_event) : Prop := wf_event ev ∧ map_source (ev_source ev) ≠ 0.

(** It leaves the agent as one frame. *)
Lemma reportable_sent s ev : reportable ev → in_width 64 (cli_agent_id s) → cli_connected s = true →
  ig_tcp_send_event s ev = ig_tcp_send_frame_locked s IG_MSG_FILE_EVENT (event_frame s ev).2 ∧
  Z.of_nat (length (event_frame s ev).2) ≤ IG_MAX_PAYLOAD ∧
  DecodeFileEvent (RState (event_frame s ev).2 0 0) =
    Ok (event_seen (message_of_event (cli_agent_id s) ev)) (RState [] 0 0).
Proof.
  intros [Hev Hsrc] Hid Hcon.
  pose proof (message_of_event_wf _ _ Hid Hev) as Hwf. pose proof (wire_event_fits _ _ Hid Hev) as Hfit.
  split; [|split; [exact Hfit|by apply DecodeFileEvent_wire]].
  unfold ig_tcp_send_event. rewrite Hcon. cbn [negb].
  rewrite (proj2 (Z.eqb_neq (me_detected_by _) 0)) by done.
  rewrite (run_writer_encodes _ _ _ (file_event_encodes _ Hwf)).
  rewrite bool_decide_eq_true_2; [done|]. lia.
Qed.

(** ** Sample runs *)

Definition sample_conn : conn := Conn [] [5; 100; 100; 3; 100; 100] [] [].
Definition sample_client : ig_tcp_client := TcpClient (Some sample_conn) true (lit "ig.local") 9000 0 7 0 None.
Definition sample_msgs : list (Z * list Z) := [(2, [1; 2; 3]); (3, [])].
Definition sample_peer : ig_tcp_client :=
  TcpClient (Some (Conn [] [] [] [])) true [] 0 0 0 0 None.

Lemma sample_msgs_wf : Forall wf_msg sample_msgs.
Proof. repeat constructor; by vm_compute. Qed.

Lemma frames_cross_the_connection_witness :
  ∃ s', send_frames sample_client sample_msgs = Some ([0; 0], s') ∧
  ∃ c' wire, live s' c' ∧ c_out c' = [] ++ wire ∧
    ∀ p cp rest, live p cp → c_in cp = wire ++ rest → delivers cp →
      ∃ p' cp', recv_frames 2 p = (Some <$> numbered 0 sample_msgs, p') ∧ live p' cp' ∧ c_in cp' = rest.
Proof.
  eexists. split; [vm_compute; reflexivity|].
  apply (frames_cross_the_connection sample_client _ sample_conn sample_msgs [0; 0]).
  - done.
  - exact sample_msgs_wf.
  - vm_compute; reflexivity.
  - repeat constructor.
Defined.

(** Every write fails. *)
Definition dead_client : ig_tcp_client :=
  TcpClient (Some (Conn [] [] [] [])) true (lit "ig.local") 9000 0 7 0 None.
Definition four_sends : list (Z * list Z) := [(2, [1]); (2, [1]); (2, [1]); (2, [1])].

Lemma send_failures_escalate_witness :
  (fst <$> send_frames dead_client four_sends) = Some [-1; -1; -2; -1] ∧
  ∃ rcs s', send_frames dead_client four_sends = Some (rcs, s') ∧ length rcs = 4%nat ∧
    well_escalated 0 rcs = true ∧ client_ok s'.
Proof.
  split; [vm_compute; reflexivity|].
  apply (send_failures_escalate dead_client four_sends).
  - split_and!; first [done | by vm_compute | unfold in_width; cbn; lia].
  - done.
  - repeat constructor; by vm_compute.
Defined.

Definition file_ev : ig_event :=
  Event IG_EVENT_MODIFY IG_SOURCE_LKM (lit "/etc/passwd") (lit "passwd") 1700000000 8388609 131 1 4242 0 4242
    (lit "vi") sample_chain.
Lemma file_ev_wf : wf_event file_ev.
Proof.
  split_and!; try (cbn; lia); try (apply bytesb_spec; vm_compute; reflexivity);
    try (apply fits_in_width; vm_compute; reflexivity); unfold wf_chain; wf_closed.
Qed.

Lemma sent_event_reaches_collector_witness :
  ∃ payload,
    ig_tcp_send_event sample_client file_ev =
      ig_tcp_send_frame_locked sample_client IG_MSG_FILE_EVENT payload ∧
    Z.of_nat (length payload) ≤ IG_MAX_PAYLOAD ∧
    DecodeFileEvent (RState payload 0 0) = Ok (event_seen (message_of_event 7 file_ev)) (RState [] 0 0).
Proof.
  apply (sent_event_reaches_collector sample_client file_ev file_ev_wf); [|done|by vm_compute].
  apply fits_in_width; vm_compute; reflexivity.
Defined.

(** A server that is down for two attempts and then takes the connection. *)
Definition outage : list attempt :=
  [Attempt 10 None true; Attempt 30 None true; Attempt 25 (Some sample_conn) true].

Lemma reconnect_backs_off_and_stops_witness :
  client_ok sample_client ∧
  (snd <$> ig_tcp_reconnect (λ _, Some 0) sample_client outage) = Some [85; 210; 400] ∧
  ∃ rc s' waits,
    ig_tcp_reconnect (λ _, Some 0) sample_client outage = Some (rc, s', waits) ∧ client_ok s' ∧
    reconnected sample_client s' rc ∧ (1 ≤ length waits ≤ 20)%nat ∧ (rc = -1 → length waits = 20%nat) ∧
    ∀ i w, waits !! i = Some w →
      w = apply_jitter (Z.min (2 ^ Z.of_nat i) 60) (at_rand (default no_attempt (outage !! i))).
Proof.
  assert (Hok : client_ok sample_client)
    by (split_and!; first [done | by vm_compute | unfold in_width; cbn; lia]).
  split; [done|]. split; [vm_compute; reflexivity|].
  apply (reconnect_backs_off_and_stops (λ _, Some 0)); [|done].
  intros _ ip [= <-]. unfold in_width. lia.
Defined.
