(* ===== verification/Session.v ===== *)
(** * The collector's session (Backend/internal/collector)

    One goroutine per connected agent: frames read from the TLS connection,
    sequence numbers checked, REGISTER, HEARTBEAT and FILE_EVENT handled, the
    table of current sessions kept. The database is a parameter that answers; the
    calls made, the events published and the bytes sent are recorded in order.

    A closed TLS connection still delivers what the library had decrypted before
    the close: [buffered] bytes of the input, any number. *)

From S2P Require Import Prelude Bytes CText Monitor Protocol Collector TcpClient.

Local Open Scope Z_scope.

(** ** Text *)

(** [range] over a string: the runes, an invalid byte being U+FFFD; [fuel] is the
    length. *)
Definition cont (b lo hi : Z) : bool := (lo <=? b) && (b <=? hi).
Fixpoint runes (fuel : nat) (s : list Z) : list Z :=
  match fuel, s with
  | O, _ | _, [] => []
  | S fuel, b0 :: t =>
      let bad := 0xFFFD :: runes fuel t in
      if b0 <? 0x80 then b0 :: runes fuel t
      else if cont b0 0xC2 0xDF then
        match t with
        | b1 :: t1 => if cont b1 0x80 0xBF
                      then ((b0 - 0xC0) * 64 + (b1 - 0x80)) :: runes fuel t1 else bad
        | _ => bad
        end
      else if cont b0 0xE0 0xEF then
        match t with
        | b1 :: b2 :: t2 =>
            if cont b1 (if b0 =? 0xE0 then 0xA0 else 0x80) (if b0 =? 0xED then 0x9F else 0xBF) && cont b2 0x80 0xBF
            then (((b0 - 0xE0) * 64 + (b1 - 0x80)) * 64 + (b2 - 0x80)) :: runes fuel t2 else bad
        | _ => bad
        end
      else if cont b0 0xF0 0xF4 then
        match t with
        | b1 :: b2 :: b3 :: t3 =>
            if cont b1 (if b0 =? 0xF0 then 0x90 else 0x80) (if b0 =? 0xF4 then 0x8F else 0xBF) &&
               cont b2 0x80 0xBF && cont b3 0x80 0xBF
            then ((((b0 - 0xF0) * 64 + (b1 - 0x80)) * 64 + (b2 - 0x80)) * 64 + (b3 - 0x80)) :: runes fuel t3 else bad
        | _ => bad
        end
      else bad
  end.

(** [%02x] of a byte and [%04o] of a 16-bit number. *)
Definition hex_digit (d : Z) : Z := if d <? 10 then 48 + d else 87 + d.
Definition hex02 (t : Z) : cstring := [hex_digit (t / 16); hex_digit (t mod 16)].
Definition octal_digits (perm : Z) : cstring := (λ i, 48 + (perm / 8 ^ i) mod 8) <$> [5; 4; 3; 2; 1; 0].
(* @go Backend/internal/collector/protocol.go:570-573 PermString *)
Definition PermString (perm : Z) : cstring :=
  let ds := octal_digits perm in
  if perm <? 8 ^ 4 then drop 2 ds else if perm <? 8 ^ 5 then drop 1 ds else ds.

(* @go Backend/internal/collector/protocol.go:520-536 EventTypeName *)
Definition EventTypeName (t : Z) : cstring :=
  if t =? 1 then lit "CREATE" else if t =? 2 then lit "MODIFY" else if t =? 3 then lit "DELETE"
  else if t =? 4 then lit "ATTRIB" else if t =? 5 then lit "MOVE" else lit "UNKNOWN(0x" ++ hex02 t ++ lit ")".

(* @go Backend/internal/collector/protocol.go:538-550 MonitorTypeName *)
Definition MonitorTypeName (t : Z) : cstring :=
  if t =? 2 then lit "lkm" else if t =? 3 then lit "ebpf" else if t =? 4 then lit "fanotify"
  else lit "unknown(0x" ++ hex02 t ++ lit ")".

(** The four bytes of an IPv4 address, [None] when [To4] gives nil. *)
(* @go Backend/internal/collector/protocol.go:575-589 GenerateAgentID *)
Definition GenerateAgentID (hostname : list Z) (ip4 : option (list Z)) : Z :=
  let h := fold_left (λ h c, u64 (h * 31 + c)) (runes (length hostname) hostname) 0 in
  let h := match ip4 with Some ip => u64 (h * 31 + be_val ip) | None => h end in
  if h =? 0 then 1 else h.

(** [net.IP.String] of an IPv4 address. *)
Definition ip_string (ip : list Z) : cstring :=
  match ip with
  | [a; b; c; d] => decimal a ++ lit "." ++ decimal b ++ lit "." ++ decimal c ++ lit "." ++ decimal d
  | _ => []
  end.

(** ** Frames and messages *)

(* @go Backend/internal/collector/protocol.go:21-25 MsgRegister *)
Definition MsgRegister_t : Z := 0x01.
Definition MsgHeartbeat_t : Z := 0x02.
Definition MsgFileEvent_t : Z := 0x03.

(* @go Backend/internal/collector/protocol.go:57-61 FrameHeader *)
Record FrameHeader_go := GoHeader { gh_Length : Z; gh_Type : Z; gh_SeqNum : Z }.

(** The frame and what is left of the stream; [None]: an error, everything read. *)
(* @go Backend/internal/collector/protocol.go:246-272 ReadFrame *)
Definition ReadFrame (inp : list Z) : option (FrameHeader_go * list Z) * list Z :=
  if bool_decide (length inp < 9)%nat then (None, [])
  else
    let hdr := GoHeader (be_val (take 4 inp)) (be_val (take 1 (drop 4 inp))) (be_val (take 4 (drop 5 inp))) in
    let rest := drop 9 inp in
    if 65535 <? gh_Length hdr then (None, rest)
    else
      let n := Z.to_nat (gh_Length hdr) in
      if bool_decide (length rest < n)%nat then (None, []) else (Some (hdr, take n rest), drop n rest).

(* @go Backend/internal/collector/protocol.go:274-290 WriteFrame *)
Definition WriteFrame (msgType seqNum : Z) (payload : list Z) : list Z :=
  be_bytes 4 (Z.of_nat (length payload)) ++ u8 msgType :: be_bytes 4 seqNum ++ payload.

(* @go Backend/internal/collector/protocol.go:511-516 EncodeRegisterResp *)
Definition EncodeRegisterResp (agentID : Z) : list Z :=
  be_bytes 4 (u32 (Z.shiftr agentID 32)) ++ be_bytes 4 (Z.land agentID 0xFFFFFFFF).

(* @go Backend/internal/collector/protocol.go:78-83 HeartbeatMsg *)
Record HeartbeatMsg := { hb_agent_id : Z; hb_status : Z; hb_timestamp : Z }.

(* @go Backend/internal/collector/protocol.go:326-341 DecodeHeartbeat *)
Definition DecodeHeartbeat : reader HeartbeatMsg :=
  n ← remaining;
  _ ← require (bool_decide (13 ≤ n)%nat);
  agentID ← readU64; status ← readU8; timestamp ← readU32;
  mret {| hb_agent_id := agentID; hb_status := status; hb_timestamp := timestamp |}.

(** [Decode...(payload)]: the message or an error. *)
Definition decoded {A} (r : reader A) (payload : list Z) : option A :=
  match r (RState payload 0 0) with Ok a _ => Some a | _ => None end.

(** ** What the session hands on *)

(* @go Backend/internal/interfaces.go:19-24 RegisterPayload *)
Record RegisterPayload := { rp_Hostname : cstring; rp_IP : cstring; rp_OS : cstring; rp_MonitorType : cstring }.

(* @go Backend/internal/interfaces.go:27-33 AgentCertificate *)
Record AgentCertificate := {
  ac_AgentID : cstring; ac_CertSubjectHash : cstring; ac_CertFingerprint : cstring; ac_IssuedAt : Z; ac_ExpiresAt : Z }.

(* @go Backend/internal/interfaces.go:36-47 ProcessInfo *)
Record ProcessInfo := {
  pr_PID : Z; pr_PPID : Z; pr_UID : Z; pr_EUID : Z; pr_SID : Z; pr_TTY : cstring; pr_Comm : cstring;
  pr_Exe : cstring; pr_Cmdline : cstring; pr_StartTimeNS : Z }.

(** The actor's ten fields are kept as a [ProcessInfo]. *)
(* @go Backend/internal/interfaces.go:49-74 FileEventPayload *)
Record FileEventPayload := {
  fp_AgentID : cstring; fp_EventType : cstring; fp_FilePath : cstring; fp_FileName : cstring;
  fp_FilePermission : cstring; fp_DetectedBy : cstring; fp_Pid : Z; fp_Timestamp : Z; fp_TargetDev : Z;
  fp_TargetIno : Z; fp_Blocked : bool; fp_Actor : ProcessInfo; fp_ChainDepth : Z; fp_ChainTruncated : bool;
  fp_Chain : list ProcessInfo }.

(* @go Backend/internal/collector/agent_session.go:308-328 convertProcessChain *)
Definition convertProcessChain (entries : list ProcessInfoMsg) : list ProcessInfo :=
  (λ e, {| pr_PID := gp_pid e; pr_PPID := gp_ppid e; pr_UID := gp_uid e; pr_EUID := gp_euid e; pr_SID := gp_sid e;
           pr_TTY := gp_tty e; pr_Comm := gp_comm e; pr_Exe := gp_exe e; pr_Cmdline := gp_cmdline e;
           pr_StartTimeNS := gp_start_time_ns e |}) <$> entries.

(* @go Backend/internal/collector/agent_session.go:227-265 handleFileEvent *)
Definition event_payload (ev : FileEventMsg) : FileEventPayload :=
  let chain := convertProcessChain (gc_entries (ge_chain ev)) in
  let actor := match chain with
               | a :: _ => a
               | [] => {| pr_PID := ge_pid ev; pr_PPID := 0; pr_UID := ge_uid ev; pr_EUID := 0; pr_SID := ge_sid ev;
                          pr_TTY := []; pr_Comm := ge_comm ev; pr_Exe := []; pr_Cmdline := []; pr_StartTimeNS := 0 |}
               end in
  {| fp_AgentID := decimal (ge_agent_id ev); fp_EventType := EventTypeName (ge_event_type ev);
     fp_FilePath := ge_file_path ev; fp_FileName := ge_file_name ev;
     fp_FilePermission := PermString (ge_file_permission ev); fp_DetectedBy := MonitorTypeName (ge_detected_by ev);
     fp_Pid := ge_pid ev; fp_Timestamp := ge_timestamp ev; fp_TargetDev := ge_target_dev ev;
     fp_TargetIno := ge_target_ino ev; fp_Blocked := ge_blocked ev; fp_Actor := actor;
     fp_ChainDepth := gc_depth (ge_chain ev); fp_ChainTruncated := gc_truncated (ge_chain ev); fp_Chain := chain |}.

(** The errors [RegisterAgentWithCertificate] tells apart. *)
Inductive store_error := ErrAgentCertificateMismatch | ErrAgentCertificateRevoked | ErrStore.

(** What a session does, in order. [Published] and [Notified] carry the payload
    with its time: [FileEvent] copies every other field. *)
Inductive effect :=
  | Registered (agentID : cstring) (p : RegisterPayload) (cert : AgentCertificate)
  | RefusedRegister (agentID : cstring) (err : store_error)
  | Beat (agentID : cstring) (seen : Z)
  | Saved (p : FileEventPayload)
  | Published (p : FileEventPayload)
  | Notified (agentID : cstring) (p : FileEventPayload)
  | Sent (bytes : list Z)
  | SetOffline (agentID : cstring).


(** ** The session *)

(* @go Backend/internal/collector/agent_session.go:16-35 AgentSession *)
Record AgentSession := Session {
  as_AgentID : cstring; as_agentNum : Z; as_certSubject : cstring; as_certSubjectHash : cstring;
  as_certFingerprint : cstring; as_certIssuedAt : Z; as_certExpiresAt : Z; as_lastSeq : Z }.

Definition set_identity (id : cstring) (num : Z) (s : AgentSession) : AgentSession :=
  Session id num (as_certSubject s) (as_certSubjectHash s) (as_certFingerprint s) (as_certIssuedAt s)
    (as_certExpiresAt s) (as_lastSeq s).
Definition set_lastSeq (n : Z) (s : AgentSession) : AgentSession :=
  Session (as_AgentID s) (as_agentNum s) (as_certSubject s) (as_certSubjectHash s) (as_certFingerprint s)
    (as_certIssuedAt s) (as_certExpiresAt s) n.

(** The table of current sessions, by connection number; the connections closed;
    what was done, in order. *)
(* @go Backend/internal/collector/tcp_server.go:14-24 Server *)
Record server := Server { sv_sessions : gmap cstring nat; sv_closed : gset nat; sv_log : list effect }.

Definition close (c : nat) (v : server) : server := Server (sv_sessions v) ({[c]} ∪ sv_closed v) (sv_log v).
Definition set_sessions (f : gmap cstring nat → gmap cstring nat) (v : server) : server :=
  Server (f (sv_sessions v)) (sv_closed v) (sv_log v).
Definition emit (e : effect) (v : server) : server := Server (sv_sessions v) (sv_closed v) (sv_log v ++ [e]).

Definition agentIdentityPrefix : cstring := lit "spiffe://kn-ig/agent/".

(** [strings.TrimPrefix] *)
Definition TrimPrefix (s p : cstring) : cstring := if is_prefix p s then drop (length p) s else s.

(* @go Backend/internal/collector/tls_config.go:108-111 isAgentIdentity *)
Definition isAgentIdentity (identity : cstring) : bool :=
  let suffix := TrimPrefix identity agentIdentityPrefix in
  negb (bool_decide (suffix = identity)) && negb (bool_decide (suffix = [])).

(* @go Backend/internal/collector/agent_session.go:192-197 certificateIdentityMatchesAgent *)
Definition certificateIdentityMatchesAgent (s : AgentSession) : bool :=
  isAgentIdentity (as_certSubject s) &&
  bool_decide (TrimPrefix (as_certSubject s) agentIdentityPrefix = as_AgentID s).

Section session.
(** This connection; whether the server has an [onEvent]; what the library still
    delivers of this connection after a close. *)
Variable me : nat.
Variable onEvent : bool.
Variable buffered : nat.
(** The answers of the database and of the network, from what was done before. *)
Variable register_answer : list effect → cstring → RegisterPayload → AgentCertificate → option store_error.
Variable save_ok : list effect → FileEventPayload → bool.
Variable write_ok : list effect → bool.

(* @go Backend/internal/collector/agent_session.go:39-56 validateAgentIdentity *)
Definition validateAgentIdentity (agentNum : Z) (s : AgentSession) (v : server) : bool * server :=
  if (as_agentNum s =? 0) || bool_decide (as_AgentID s = []) then (false, close me v)
  else if negb (agentNum =? as_agentNum s) then (false, close me v)
  else (true, v).

(* @go Backend/internal/collector/agent_session.go:139-152 handleRegister *)
Definition register_payload (reg : RegisterMsg) : RegisterPayload :=
  {| rp_Hostname := rm_hostname reg; rp_IP := ip_string (rm_ip reg); rp_OS := rm_os reg;
     rp_MonitorType := MonitorTypeName (rm_monitor_type reg) |}.
Definition session_cert (s : AgentSession) : AgentCertificate :=
  {| ac_AgentID := as_AgentID s; ac_CertSubjectHash := as_certSubjectHash s;
     ac_CertFingerprint := as_certFingerprint s; ac_IssuedAt := as_certIssuedAt s; ac_ExpiresAt := as_certExpiresAt s |}.

(** The current session of the agent is replaced and its connection closed. *)
(* @go Backend/internal/collector/agent_session.go:174-181 handleRegister *)
Definition take_over (id : cstring) (v : server) : server :=
  let v := match sv_sessions v !! id with
           | Some old => close old (set_sessions (delete id) v)
           | None => v
           end in
  set_sessions (<[id := me]>) v.

(* @go Backend/internal/collector/agent_session.go:112-190 handleRegister *)
Definition handleRegister (seqNum : Z) (payload : list Z) (s : AgentSession) (v : server) : AgentSession * server :=
  if negb (bool_decide (as_AgentID s = [])) then (s, close me v)
  else
    match decoded DecodeRegister payload with
    | None => (s, v)
    | Some reg =>
        if bool_decide (as_certSubjectHash s = []) || bool_decide (as_certFingerprint s = []) then (s, close me v)
        else
          let num := GenerateAgentID (rm_hostname reg) (Some (rm_ip reg)) in
          let s := set_identity (decimal num) num s in
          if negb (certificateIdentityMatchesAgent s) then (s, close me v)
          else
            match register_answer (sv_log v) (as_AgentID s) (register_payload reg) (session_cert s) with
            | Some ErrStore => (s, emit (RefusedRegister (as_AgentID s) ErrStore) v)
            | Some err => (s, close me (emit (RefusedRegister (as_AgentID s) err) v))
            | None =>
                let v := emit (Registered (as_AgentID s) (register_payload reg) (session_cert s)) v in
                let v := take_over (as_AgentID s) v in
                (s, if write_ok (sv_log v) && bool_decide (me ∉ sv_closed v)
                    then emit (Sent (WriteFrame MsgRegister_t seqNum (EncodeRegisterResp num))) v else v)
            end
    end.

(* @go Backend/internal/collector/agent_session.go:200-214 handleHeartbeat *)
Definition handleHeartbeat (payload : list Z) (s : AgentSession) (v : server) : server :=
  match decoded DecodeHeartbeat payload with
  | None => v
  | Some hb =>
      let (ok, v) := validateAgentIdentity (hb_agent_id hb) s v in
      if ok then emit (Beat (decimal (hb_agent_id hb)) (hb_timestamp hb)) v else v
  end.

(* @go Backend/internal/collector/agent_session.go:217-306 handleFileEvent *)
Definition handleFileEvent (payload : list Z) (s : AgentSession) (v : server) : server :=
  match decoded DecodeFileEvent payload with
  | None => v
  | Some ev =>
      let (ok, v) := validateAgentIdentity (ge_agent_id ev) s v in
      if negb ok then v
      else
        let p := event_payload ev in
        if save_ok (sv_log v) p then
          let v := emit (Published p) (emit (Saved p) v) in
          if onEvent then emit (Notified (fp_AgentID p) p) v else v
        else v
  end.

(* @go Backend/internal/collector/agent_session.go:96-107 Run *)
Definition dispatch (hdr : FrameHeader_go) (payload : list Z) (s : AgentSession) (v : server) : AgentSession * server :=
  if gh_Type hdr =? MsgRegister_t then handleRegister (gh_SeqNum hdr) payload s v
  else if gh_Type hdr =? MsgHeartbeat_t then (s, handleHeartbeat payload s v)
  else if gh_Type hdr =? MsgFileEvent_t then (s, handleFileEvent payload s v)
  else (s, v).

(** What the connection still delivers after a step: a close cuts it. *)
Definition remaining_input (v v' : server) (rest : list Z) : list Z :=
  if bool_decide (me ∈ sv_closed v) then rest
  else if bool_decide (me ∈ sv_closed v') then take buffered rest else rest.

(** A frame of the wrong number ends the session; [fuel] bounds the frames. *)
(* @go Backend/internal/collector/agent_session.go:82-108 Run *)
Fixpoint run_loop (fuel : nat) (inp : list Z) (s : AgentSession) (v : server) : AgentSession * server :=
  match fuel with
  | O => (s, v)
  | S fuel =>
      match ReadFrame inp with
      | (None, _) => (s, v)
      | (Some (hdr, payload), rest) =>
          if (0 <? as_lastSeq s) && negb (gh_SeqNum hdr =? u32 (as_lastSeq s + 1)) then (s, v)
          else
            let (s', v') := dispatch hdr payload (set_lastSeq (gh_SeqNum hdr) s) v in
            run_loop fuel (remaining_input v v' rest) s' v'
      end
  end.

(** The deferred function: only the current session takes the agent offline. *)
(* @go Backend/internal/collector/agent_session.go:61-80 Run *)
Definition cleanup (s : AgentSession) (v : server) : server :=
  let current := (0 <? as_agentNum s) && negb (bool_decide (as_AgentID s = [])) &&
                 bool_decide (sv_sessions v !! as_AgentID s = Some me) in
  let v := if current then emit (SetOffline (as_AgentID s)) (set_sessions (delete (as_AgentID s)) v) else v in
  close me v.

(* @go Backend/internal/collector/agent_session.go:58-109 Run *)
Definition Run (inp : list Z) (s : AgentSession) (v : server) : server :=
  let (s, v) := run_loop (S (length inp)) inp s v in cleanup s v.
End session.

(** A new session, after the handshake. *)
(* @go Backend/internal/collector/tcp_server.go:96-109 handleConn *)
Definition new_session (subject subjectHash fingerprint : cstring) (issued expires : Z) : AgentSession :=
  Session [] 0 subject subjectHash fingerprint issued expires 0.

(** ** Reading what the agent writes *)

Definition go_header (h : ig_frame_header) : FrameHeader_go := GoHeader (fh_length h) (fh_type h) (fh_seq_num h).

Lemma header_fields (a b c t : list Z) : length a = 4%nat → length b = 1%nat → length c = 4%nat →
  let l := a ++ b ++ c ++ t in
  take 4 l = a ∧ take 1 (drop 4 l) = b ∧ take 4 (drop 5 l) = c ∧ drop 9 l = t ∧ (9 ≤ length l)%nat.
Proof.
  intros Ha Hb Hc. destruct a as [|a1 [|a2 [|a3 [|a4 [|]]]]]; try discriminate Ha.
  destruct b as [|b1 [|]]; try discriminate Hb. destruct c as [|c1 [|c2 [|c3 [|c4 [|]]]]]; try discriminate Hc.
  cbn. do 4 (split; [reflexivity|]). lia.
Qed.

(** The server reads the frame the agent wrote and leaves what follows. *)
Lemma ReadFrame_wire h p rest : wf_frame_header h → fh_length h = Z.of_nat (length p) → fh_length h ≤ 65535 →
  ReadFrame (wire_frame_header h ++ p ++ rest) = (Some (go_header h, p), rest).
Proof.
  intros (Hl & Ht & Hs) Hlen Hmax. unfold ReadFrame, wire_frame_header. rewrite <- !app_assoc.
  destruct (header_fields (be_bytes 4 (fh_length h)) (be_bytes 1 (fh_type h)) (be_bytes 4 (fh_seq_num h)) (p ++ rest))
    as (-> & -> & -> & -> & H9); try apply be_bytes_length.
  rewrite bool_decide_eq_false_2 by lia. rewrite !be_val_be_bytes by (cbn; done). cbn [gh_Length].
  rewrite (proj2 (Z.ltb_ge _ _)) by lia. rewrite Hlen, Nat2Z.id.
  rewrite bool_decide_eq_false_2 by (rewrite length_app; lia).
  rewrite take_app_length, drop_app_length. unfold go_header. by rewrite Hlen.
Qed.

Lemma ReadFrame_short inp : (length inp < 9)%nat → ReadFrame inp = (None, []).
Proof. intros H. unfold ReadFrame. by rewrite bool_decide_eq_true_2. Qed.

(** Every frame read shortens the stream. *)
Lemma ReadFrame_shrinks inp f rest : ReadFrame inp = (Some f, rest) → (length rest < length inp)%nat.
Proof.
  unfold ReadFrame. case_bool_decide; [done|]. destruct (_ <? _); [done|]. case_bool_decide; [done|].
  intros [= _ <-]. rewrite !length_drop. lia.
Qed.

(** The acknowledgement holds the agent number. *)
Lemma EncodeRegisterResp_bytes id : in_width 64 id → EncodeRegisterResp id = be_bytes 8 id.
Proof.
  intros [H0 H1]. unfold EncodeRegisterResp. change 8%nat with (4 + 4)%nat. rewrite be_bytes_app.
  change (8 * Z.of_nat 4) with 32. change 0xFFFFFFFF with (Z.ones 32). rewrite be_bytes_land by lia.
  unfold u32. rewrite wrap_small; [done|]. unfold in_width. rewrite Z.shiftr_div_pow2 by lia.
  split; [apply Z.div_pos; lia|]. apply Z.div_lt_upper_bound; lia.
Qed.

Lemma DecodeHeartbeat_wire m : wf_heartbeat m →
  decoded DecodeHeartbeat (wire_heartbeat m) =
  Some {| hb_agent_id := mh_agent_id m; hb_status := mh_status m; hb_timestamp := mh_timestamp m |}.
Proof.
  intros (H1 & H2 & H3). unfold decoded, DecodeHeartbeat, wire_heartbeat.
  rewrite (check_end 13 _ _ (Ok {| hb_agent_id := mh_agent_id m; hb_status := mh_status m;
    hb_timestamp := mh_timestamp m |} (RState [] 0 0))); [done|rewrite !length_app, !be_bytes_length; lia|].
  do 2 (eapply parses_bind_end; [go_field|]). rewrite <- (app_nil_r (be_bytes 4 _)).
  eapply parses_bind_end; [go_field|]. done.
Qed.

(** ** Serving a registered agent *)

(** What an agent reports once registered. *)
Inductive report := REvent (ev : ig_event) | RBeat (now : Z).

Definition report_msg (id : Z) (r : report) : Z * list Z :=
  match r with
  | REvent ev => (IG_MSG_FILE_EVENT, wire_file_event (message_of_event id ev))
  | RBeat now => (IG_MSG_HEARTBEAT, wire_heartbeat (MsgHeartbeat id IG_STATUS_HEALTHY (u32 now)))
  end.

Definition wf_report (r : report) : Prop := match r with REvent ev => reportable ev | RBeat _ => True end.

Definition seen_payload (id : Z) (ev : ig_event) : FileEventPayload := event_payload (event_seen (message_of_event id ev)).

Definition report_effects (onEvent : bool) (id : Z) (r : report) : list effect :=
  match r with
  | REvent ev => [Saved (seen_payload id ev); Published (seen_payload id ev)] ++
                 (if onEvent then [Notified (decimal id) (seen_payload id ev)] else [])
  | RBeat now => [Beat (decimal id) (u32 now)]
  end.

(** The session of agent [id], its last frame numbered [seq]. *)
Definition serves (id seq : Z) (s : AgentSession) : Prop :=
  as_agentNum s = id ∧ as_AgentID s = decimal id ∧ as_lastSeq s = seq.

Definition emit_all (l : list effect) (v : server) : server := Server (sv_sessions v) (sv_closed v) (sv_log v ++ l).

Lemma decimal_nonempty z : in_width 64 z → decimal z ≠ [].
Proof. intros (d & ds & -> & _)%decimal_spec. done. Qed.

Lemma emit_all_app l l' v : emit_all l' (emit_all l v) = emit_all (l ++ l') v.
Proof. unfold emit_all. cbn. by rewrite app_assoc. Qed.

Lemma emit_all_nil v : emit_all [] v = v.
Proof. unfold emit_all. rewrite app_nil_r. by destruct v. Qed.

Section serving.
Variable me : nat.
Variable onEvent : bool.
Variable buffered : nat.
Variable register_answer : list effect → cstring → RegisterPayload → AgentCertificate → option store_error.
Variable save_ok : list effect → FileEventPayload → bool.
Variable write_ok : list effect → bool.
#[local] Abbreviation loop := (run_loop me onEvent buffered register_answer save_ok write_ok).
#[local] Abbreviation step := (dispatch me onEvent register_answer save_ok write_ok).

(** A well-formed frame with the next number is dispatched. *)
Lemma loop_frame fuel h p rest s v : wf_frame_header h → fh_length h = Z.of_nat (length p) → fh_length h ≤ 65535 →
  as_lastSeq s = 0 ∨ fh_seq_num h = u32 (as_lastSeq s + 1) →
  loop (S fuel) (wire_frame_header h ++ p ++ rest) s v =
  (let (s', v') := step (go_header h) p (set_lastSeq (fh_seq_num h) s) v in
   loop fuel (remaining_input me buffered v v' rest) s' v').
Proof.
  intros Hh Hl Hm Hs. cbn [run_loop]. rewrite ReadFrame_wire by done. cbn [go_header gh_SeqNum].
  destruct Hs as [->| ->]; [done|]. by rewrite Z.eqb_refl, andb_false_r.
Qed.

(** Only a close cuts the input. *)
Lemma remaining_same v v' rest : sv_closed v' = sv_closed v → remaining_input me buffered v v' rest = rest.
Proof. intros H. unfold remaining_input. rewrite H. by destruct (bool_decide _). Qed.

Lemma wire_frames_count seq msgs : (length msgs ≤ length (wire_frames (numbered seq msgs)))%nat.
Proof.
  revert seq. induction msgs as [|[t p] msgs IH]; intros seq; [cbn; lia|]. cbn [numbered]. cbv zeta.
  set (f := (FrameHeader _ t _, p)). change (wire_frames (f :: ?l)) with ((wire_frame_header f.1 ++ f.2) ++ wire_frames l).
  specialize (IH (u32 (seq + 1))). unfold wire_frame_header. rewrite !length_app, !be_bytes_length.
  cbn [length]. lia.
Qed.

Lemma validate_ok id seq s v : serves id seq s → in_width 64 id → id ≠ 0 → validateAgentIdentity me id s v = (true, v).
Proof.
  intros (Hn & Hi & _) Hw Hid. unfold validateAgentIdentity. rewrite Hn, Hi, (proj2 (Z.eqb_neq _ _) Hid).
  rewrite bool_decide_eq_false_2 by by apply decimal_nonempty. by rewrite Z.eqb_refl.
Qed.

Lemma report_frame id r seq : in_width 64 id → wf_report r →
  let m := report_msg id r in
  wf_frame_header (FrameHeader (Z.of_nat (length m.2)) m.1 (u32 seq)) ∧ Z.of_nat (length m.2) ≤ 65535.
Proof.
  intros Hid Hr. assert (H : Z.of_nat (length (report_msg id r).2) ≤ 65535 ∧ in_width 8 (report_msg id r).1).
  { destruct r as [ev|now]; cbn [report_msg fst snd wf_report] in *; (split; [|unfold in_width; done]).
    - pose proof (wire_event_fits id ev Hid (proj1 Hr)). unfold IG_MAX_PAYLOAD in *. lia.
    - unfold wire_heartbeat. rewrite !length_app, !be_bytes_length. lia. }
  destruct H as [H1 H2]. split; [|done]. split_and!; cbn [fh_length fh_type fh_seq_num]; [unfold in_width; lia|done|].
  apply (wrap_range 32). lia.
Qed.

(** One report has its effects and leaves the session serving the agent. *)
Lemma step_report id r seq s v h : in_width 64 id → id ≠ 0 → wf_report r → serves id seq s →
  (∀ p, save_ok (sv_log v) p = true) → gh_Type h = (report_msg id r).1 →
  step h (report_msg id r).2 s v = (s, emit_all (report_effects onEvent id r) v).
Proof.
  intros Hid Hnz Hr Hs Hsave Ht. unfold dispatch. rewrite Ht. destruct r as [ev|now]; cbn [report_msg fst snd].
  - change (IG_MSG_FILE_EVENT =? MsgRegister_t) with false. change (IG_MSG_FILE_EVENT =? MsgHeartbeat_t) with false.
    change (IG_MSG_FILE_EVENT =? MsgFileEvent_t) with true. cbv iota. f_equal. unfold handleFileEvent, decoded.
    rewrite DecodeFileEvent_wire by (apply message_of_event_wf; [done|apply Hr]). cbv iota.
    change (ge_agent_id (event_seen (message_of_event id ev))) with id.
    rewrite (validate_ok id seq) by done. cbn [negb]. rewrite Hsave. fold (seen_payload id ev).
    change (fp_AgentID (seen_payload id ev)) with (decimal id).
    unfold emit, emit_all. destruct onEvent; cbn; by rewrite <- !app_assoc.
  - change (IG_MSG_HEARTBEAT =? MsgRegister_t) with false. change (IG_MSG_HEARTBEAT =? MsgHeartbeat_t) with true.
    cbv iota. f_equal. unfold handleHeartbeat. rewrite DecodeHeartbeat_wire.
    2:{ split_and!; cbn; [done|done|apply (wrap_range 32); lia]. }
    cbn [hb_agent_id mh_agent_id mh_timestamp hb_timestamp]. by rewrite (validate_ok id seq).
Qed.

(** A run of reports, numbered from the session's last frame. *)
Lemma loop_reports id rs : ∀ seq s v fuel, in_width 64 id → id ≠ 0 → Forall wf_report rs → serves id seq s →
  (∀ l p, save_ok l p = true) → (length rs < fuel)%nat →
  ∃ s', loop fuel (wire_frames (numbered seq (report_msg id <$> rs))) s v =
          (s', emit_all (mjoin (report_effects onEvent id <$> rs)) v) ∧
        as_agentNum s' = id ∧ as_AgentID s' = decimal id.
Proof.
  induction rs as [|r rs IH]; intros seq s v fuel Hid Hnz Hrs Hs Hsave Hfuel.
  { destruct fuel as [|fuel]; [cbn in Hfuel; lia|]. exists s. cbn [fmap list_fmap map numbered].
    change (wire_frames []) with (@nil Z). cbn [run_loop]. rewrite ReadFrame_short by (cbn; lia).
    change (mjoin (@nil (list effect))) with (@nil effect). rewrite emit_all_nil. split; [done|]. split; apply Hs. }
  apply Forall_cons in Hrs as [Hr Hrs]. destruct fuel as [|fuel]; [cbn in Hfuel; lia|].
  destruct (report_frame id r (seq + 1) Hid Hr) as [Hh Hlen].
  rewrite fmap_cons. destruct (report_msg id r) as [t p] eqn:Em. cbn [fst snd] in Hh, Hlen. cbn [numbered]. cbv zeta.
  set (h := FrameHeader _ t _) in *.
  change (wire_frames ((h, p) :: numbered (u32 (seq + 1)) (report_msg id <$> rs)))
    with ((wire_frame_header h ++ p) ++ wire_frames (numbered (u32 (seq + 1)) (report_msg id <$> rs))).
  rewrite <- app_assoc. rewrite loop_frame; [|done|done|done|right; by rewrite (proj2 (proj2 Hs))].
  assert (Hs1 : serves id (u32 (seq + 1)) (set_lastSeq (fh_seq_num h) s)) by (split; [apply Hs|split; [apply Hs|done]]).
  pose proof (step_report id r _ _ v (go_header h) Hid Hnz Hr Hs1 (Hsave _)) as Hstep. rewrite Em in Hstep.
  cbn [fst snd] in Hstep. rewrite Hstep by done. rewrite remaining_same by done.
  destruct (IH (u32 (seq + 1)) _ (emit_all (report_effects onEvent id r) v) fuel Hid Hnz Hrs Hs1 Hsave
    ltac:(cbn in Hfuel; lia)) as (s' & Hrun & H1 & H2).
  exists s'. rewrite Hrun, emit_all_app. by split.
Qed.

(** The end of the stream takes the current session's agent offline. *)
Lemma cleanup_current id s v : as_agentNum s = id → as_AgentID s = decimal id → in_width 64 id → id ≠ 0 →
  sv_sessions v !! decimal id = Some me → sv_log (cleanup me s v) = sv_log v ++ [SetOffline (decimal id)].
Proof.
  intros Hn Hi Hid Hnz Hs. unfold cleanup. rewrite Hn, Hi, Hs.
  rewrite (proj2 (Z.ltb_lt _ _)) by (unfold in_width in Hid; lia).
  rewrite bool_decide_eq_false_2 by by apply decimal_nonempty. by rewrite bool_decide_eq_true_2.
Qed.
End serving.

(** ** The agent and its session *)

(** The frame of an acknowledgement. *)
Definition ack_frame (seq id : Z) : list Z := WriteFrame MsgRegister_t seq (EncodeRegisterResp id).

Lemma ack_frame_wire seq id : in_width 64 id →
  ack_frame seq id = wire_frame_header (FrameHeader 8 IG_MSG_REGISTER seq) ++ be_bytes 8 id.
Proof.
  intros Hid. unfold ack_frame, WriteFrame. rewrite EncodeRegisterResp_bytes, be_bytes_length by done.
  unfold wire_frame_header. cbn [fh_length fh_type fh_seq_num]. rewrite <- !app_assoc. reflexivity.
Qed.

Lemma fold_u64_range l h : in_width 64 h → in_width 64 (fold_left (λ h c, u64 (h * 31 + c)) l h).
Proof.
  revert h. induction l as [|c l IH]; intros h Hh; [done|]. cbn. apply IH. apply (wrap_range 64). lia.
Qed.

Lemma GenerateAgentID_range hn ip : in_width 64 (GenerateAgentID hn ip) ∧ GenerateAgentID hn ip ≠ 0.
Proof.
  unfold GenerateAgentID. set (h := fold_left _ _ _). set (h' := match ip with Some _ => _ | None => _ end).
  assert (in_width 64 h').
  { unfold h'. destruct ip; [apply (wrap_range 64); lia|]. apply fold_u64_range. unfold in_width. lia. }
  destruct (Z.eqb_spec h' 0); [split; [unfold in_width; lia|done]|done].
Qed.

Lemma identity_matches id s : as_certSubject s = agentIdentityPrefix ++ decimal id → as_AgentID s = decimal id →
  in_width 64 id → certificateIdentityMatchesAgent s = true.
Proof.
  intros Hsub Hid Hw. unfold certificateIdentityMatchesAgent, isAgentIdentity, TrimPrefix.
  assert (Hp : is_prefix agentIdentityPrefix (agentIdentityPrefix ++ decimal id) = true).
  { apply is_prefix_spec. by eexists. }
  rewrite Hsub, Hp, drop_app_length, Hid. cbv zeta.
  rewrite (bool_decide_eq_false_2 (decimal id = agentIdentityPrefix ++ decimal id)).
  2:{ intros H. apply (f_equal length) in H. rewrite length_app in H. vm_compute (length agentIdentityPrefix) in H. lia. }
  rewrite (bool_decide_eq_false_2 (decimal id = [])) by by apply decimal_nonempty.
  by rewrite bool_decide_eq_true_2.
Qed.

Lemma be_val_take4 l : bytes l → in_width 32 (be_val (take 4 l)).
Proof.
  intros Hl. pose proof (be_val_range (take 4 l) (Forall_take _ _ _ Hl)) as [H0 H1]. split; [done|].
  eapply Z.lt_le_trans; [exact H1|]. change (2 ^ 32) with (256 ^ 4). apply Z.pow_le_mono_r; [lia|].
  rewrite length_take. lia.
Qed.

Section agreement.
Variable inet_pton : cstring → option Z.

(** Sending a report: an event by the main loop, a heartbeat by its thread. *)
Definition send_report (s : ig_tcp_client) (r : report) : option ig_tcp_client :=
  match r with
  | REvent ev => '(rc, s) ← ig_tcp_send_event s ev; if rc =? 0 then Some s else None
  | RBeat now => '(run, s) ← heartbeat_turn inet_pton s now []; if run : bool then Some s else None
  end.
Definition send_reports (s : ig_tcp_client) (rs : list report) : option ig_tcp_client :=
  fold_left (λ acc r, s ← acc; send_report s r) rs (Some s).

Definition report_room : nat := IG_FRAME_HEADER_SIZE + Z.to_nat IG_MAX_PAYLOAD.

Lemma send_report_accepts s c r n : live s c → wf_report r → in_width 64 (cli_agent_id s) →
  accepts c (report_room + n) →
  ∃ s' c', send_report s r = Some s' ∧ live s' c' ∧ cli_agent_id s' = cli_agent_id s ∧
    cli_seq_num s' = u32 (cli_seq_num s + 1) ∧ accepts c' n ∧
    c_out c' = c_out c ++ wire_frame (report_msg (cli_agent_id s) r).1 (u32 (cli_seq_num s + 1))
                            (report_msg (cli_agent_id s) r).2.
Proof.
  intros Hlive Hr Hid Hacc. set (m := report_msg (cli_agent_id s) r).
  assert (Hfit : Z.of_nat (length m.2) ≤ IG_MAX_PAYLOAD).
  { destruct r as [ev|now]; cbn; [by apply wire_event_fits; [|apply Hr]|].
    unfold wire_heartbeat. rewrite !length_app, !be_bytes_length. unfold IG_MAX_PAYLOAD. lia. }
  destruct (send_frame_accepts s c m.1 m.2 n Hlive) as (c' & Hsend & Hout & Hacc' & _).
  { unfold IG_MAX_FRAME_SIZE, IG_MAX_PAYLOAD in *. lia. }
  { eapply accepts_le; [exact Hacc|]. unfold report_room. lia. }
  eexists _, c'. split.
  - destruct r as [ev|now]; cbn [send_report].
    + destruct (reportable_sent s ev Hr Hid (proj1 Hlive)) as (-> & _).
      change IG_MSG_FILE_EVENT with m.1. change (event_frame s ev).2 with m.2. rewrite Hsend. reflexivity.
    + unfold heartbeat_turn.
      rewrite (run_writer_encodes _ _ _ (heartbeat_encodes (MsgHeartbeat (cli_agent_id s) IG_STATUS_HEALTHY (u32 now)))).
      rewrite bool_decide_eq_true_2 by (unfold wire_heartbeat; rewrite !length_app, !be_bytes_length; lia).
      subst m. cbn [report_msg fst snd] in Hsend. cbn [mbind option_bind]. rewrite Hsend. reflexivity.
  - split; [split; [apply Hlive|done]|]. by split_and!.
Qed.

Lemma send_reports_accepts rs : ∀ s c n, live s c → Forall wf_report rs → in_width 64 (cli_agent_id s) →
  accepts c (report_room * length rs + n) →
  ∃ s' c', send_reports s rs = Some s' ∧ live s' c' ∧
    c_out c' = c_out c ++ wire_frames (numbered (cli_seq_num s) (report_msg (cli_agent_id s) <$> rs)).
Proof.
  induction rs as [|r rs IH]; intros s c n Hlive Hrs Hid Hacc.
  { exists s, c. split; [done|]. split; [done|]. by rewrite app_nil_r. }
  apply Forall_cons in Hrs as [Hr Hrs].
  destruct (send_report_accepts s c r (report_room * length rs + n) Hlive Hr Hid) as (s1 & c1 & H1 & Hl1 & Hid1 & Hseq1 & Ha1 & Ho1).
  { eapply accepts_le; [exact Hacc|]. cbn [length]. lia. }
  destruct (IH s1 c1 n Hl1 Hrs ltac:(congruence) Ha1) as (s2 & c2 & H2 & Hl2 & Ho2).
  exists s2, c2. split; [|split; [done|]].
  - unfold send_reports. cbn [fold_left mbind option_bind]. rewrite H1. exact H2.
  - rewrite Ho2, Ho1, Hid1, Hseq1, fmap_cons. destruct (report_msg (cli_agent_id s) r) as [t p].
    cbn [numbered fst snd]. cbv zeta. unfold wire_frame. by rewrite <- app_assoc.
Qed.

(** The agent registers: it sends its REGISTER frame and adopts the number it
    reads in the acknowledgement. *)
Lemma register_accepts s c r ip id q n : live s c → wf_reg r → inet_pton (rd_ip r) = Some ip → in_width 32 ip →
  in_width 64 id → in_width 32 q → c_in c = ack_frame q id → delivers c →
  let m := MsgRegister (u16 (Z.of_nat (length (rd_hostname r)))) (Some (rd_hostname r)) ip
             (rd_monitor_type r) (u16 (Z.of_nat (length (rd_os r)))) (Some (rd_os r)) in
  (length (wire_register m) ≤ 1024)%nat → accepts c (IG_FRAME_HEADER_SIZE + length (wire_register m) + n) →
  ∃ s' c', ig_tcp_register_internal_locked inet_pton s r true = Some (0, s') ∧ live s' c' ∧
    cli_agent_id s' = id ∧ cli_seq_num s' = u32 (cli_seq_num s + 1) ∧ accepts c' n ∧
    c_out c' = c_out c ++ wire_frame IG_MSG_REGISTER (u32 (cli_seq_num s + 1)) (wire_register m).
Proof.
  intros Hlive Hr Hip Hipw Hid Hq Hin Hdel m Hlen Hacc. unfold ig_tcp_register_internal_locked.
  rewrite (proj1 Hlive), Hip. cbn [negb]. cbv zeta. fold m.
  assert (Hm : wf_register m).
  { destruct Hr as (H1 & H2 & H3). split_and!; cbn; [by apply ok_str_full|done|done|by apply ok_str_full]. }
  rewrite (run_writer_encodes _ _ _ (register_encodes m Hm)). cbn [mbind option_bind].
  rewrite bool_decide_eq_true_2 by done.
  destruct (send_frame_accepts s c IG_MSG_REGISTER (wire_register m) n Hlive) as (c1 & Hsend & Hout & Ha1 & Hi1 & Hr1).
  { unfold IG_MAX_FRAME_SIZE. lia. } { done. }
  rewrite Hsend. cbn [mbind option_bind]. change (0 <? 0) with false. cbv iota.
  set (s1 := set_failures 0 _). assert (Hl1 : live s1 c1) by (split; [apply Hlive|done]).
  set (h := FrameHeader 8 IG_MSG_REGISTER q).
  destruct (recv_frame_spec s1 c1 h (be_bytes 8 id) [] Hl1) as (s2 & c2 & Hrecv & Hl2 & _); try done.
  { rewrite Hi1, Hin, (ack_frame_wire q id Hid), app_nil_r. reflexivity. }
  { destruct Hdel as [Hd1 Hd2]. split; rewrite ?Hr1, ?Hi1; done. }
  pose proof (recv_frame_keeps s1 c1 true Hl1) as (c2' & Hl2' & Ho2 & Hw2 & Hs2 & Hid2). rewrite Hrecv in *.
  cbn [snd] in *. assert (c2' = c2) as -> by (destruct Hl2, Hl2'; congruence).
  change (fh_length h <? 8) with false. change (fh_type h =? IG_MSG_REGISTER) with true. cbn [orb negb].
  eexists _, c2. split; [reflexivity|]. split; [exact Hl2|]. cbn [set_agent cli_agent_id cli_seq_num].
  split.
  { unfold u32. rewrite !wrap_small; [by apply be_val_halves|..]; apply be_val_take4; auto with ig.
    apply Forall_drop. auto with ig. }
  split; [rewrite Hs2; reflexivity|]. split; [|by rewrite Ho2, Hout].
  destruct Ha1 as [A1 A2]. split; by rewrite Hw2.
Qed.
End agreement.

Section exchange.
Variable inet_pton : cstring → option Z.
Variable me : nat.
Variable onEvent : bool.
Variable buffered : nat.
Variable register_answer : list effect → cstring → RegisterPayload → AgentCertificate → option store_error.
Variable save_ok : list effect → FileEventPayload → bool.
Variable write_ok : list effect → bool.

(** The message an agent registers with, and the number it is given. *)
Definition register_msg (r : reg_data) (ip : Z) : ig_msg_register :=
  MsgRegister (u16 (Z.of_nat (length (rd_hostname r)))) (Some (rd_hostname r)) ip
    (rd_monitor_type r) (u16 (Z.of_nat (length (rd_os r)))) (Some (rd_os r)).
Definition agent_number (r : reg_data) (ip : Z) : Z := GenerateAgentID (rd_hostname r) (Some (be_bytes 4 ip)).

Lemma register_msg_wf r ip : wf_reg r → in_width 32 ip → wf_register (register_msg r ip).
Proof. intros (H1 & H2 & H3) Hip. split_and!; cbn; [by apply ok_str_full|done|done|by apply ok_str_full]. Qed.

(** The strings fit the agent's own buffers. *)
Definition short_reg (r : reg_data) : Prop := (length (rd_hostname r) ≤ 255)%nat ∧ (length (rd_os r) ≤ 63)%nat.

Lemma register_msg_hostname r ip : short_reg r → rm_hostname (register_seen (register_msg r ip)) = rd_hostname r.
Proof.
  intros [Hh _]. cbn [register_seen rm_hostname register_msg mr_hostname mr_hostname_len].
  unfold sent_str, src_bytes, u16. rewrite wrap_small by (unfold in_width; lia). rewrite Nat2Z.id. by apply take_ge.
Qed.

Lemma register_msg_length r ip : wf_reg r → in_width 32 ip → short_reg r →
  (length (wire_register (register_msg r ip)) ≤ 327)%nat.
Proof.
  intros Hr Hip [H1 H2]. pose proof (register_msg_wf r ip Hr Hip) as (Hh & _ & _ & Ho).
  pose proof (wire_str_length _ _ Hh) as L1. pose proof (wire_str_length _ _ Ho) as L2.
  cbn [register_msg mr_hostname mr_hostname_len mr_os mr_os_len] in L1, L2.
  unfold wire_register. rewrite !length_app, !be_bytes_length.
  cbn [register_msg mr_hostname mr_hostname_len mr_os mr_os_len].
  unfold u16 in *. rewrite !wrap_small in * by (unfold in_width; lia). lia.
Qed.

(** The agent's REGISTER in a session without an identity: it is decoded, and the
    number goes into the session before anything is compared. *)
Lemma handleRegister_fresh r ip s v seq : wf_reg r → in_width 32 ip → short_reg r →
  as_AgentID s = [] → as_certSubjectHash s ≠ [] → as_certFingerprint s ≠ [] →
  let id := agent_number r ip in
  let reg := register_seen (register_msg r ip) in
  let s' := set_identity (decimal id) id s in
  handleRegister me register_answer write_ok seq (wire_register (register_msg r ip)) s v =
  if negb (certificateIdentityMatchesAgent s') then (s', close me v)
  else
    match register_answer (sv_log v) (decimal id) (register_payload reg) (session_cert s') with
    | Some ErrStore => (s', emit (RefusedRegister (decimal id) ErrStore) v)
    | Some err => (s', close me (emit (RefusedRegister (decimal id) err) v))
    | None =>
        let v := take_over me (decimal id) (emit (Registered (decimal id) (register_payload reg) (session_cert s')) v) in
        (s', if write_ok (sv_log v) && bool_decide (me ∉ sv_closed v)
             then emit (Sent (ack_frame seq id)) v else v)
    end.
Proof.
  intros Hr Hip Hs Hun Hh Hf id reg s'. unfold handleRegister. rewrite bool_decide_eq_true_2 by done.
  cbn [negb]. unfold decoded. rewrite DecodeRegister_wire by by apply register_msg_wf.
  rewrite !bool_decide_eq_false_2 by done. cbn [orb]. rewrite register_msg_hostname by done.
  reflexivity.
Qed.

(** A session whose certificate names the agent registers it. *)
Lemma step_register r ip s v seq : wf_reg r → in_width 32 ip → short_reg r →
  let id := agent_number r ip in
  as_AgentID s = [] → as_certSubject s = agentIdentityPrefix ++ decimal id →
  as_certSubjectHash s ≠ [] → as_certFingerprint s ≠ [] →
  (∀ l i p c, register_answer l i p c = None) → (∀ l, write_ok l = true) →
  me ∉ sv_closed v → sv_sessions v !! decimal id ≠ Some me →
  ∃ s' v', handleRegister me register_answer write_ok seq (wire_register (register_msg r ip)) s v = (s', v') ∧
    serves id (as_lastSeq s) s' ∧ sv_sessions v' !! decimal id = Some me ∧ me ∉ sv_closed v' ∧
    sv_log v' = sv_log v ++ [Registered (decimal id) (register_payload (register_seen (register_msg r ip)))
                               (session_cert (set_identity (decimal id) id s)); Sent (ack_frame seq id)].
Proof.
  intros Hr Hip Hs id Hun Hsub Hh Hf Hans Hwr Hme Hno. rewrite handleRegister_fresh by done. fold id. cbv zeta.
  destruct (GenerateAgentID_range (rd_hostname r) (Some (be_bytes 4 ip))) as [Hid _]. fold (agent_number r ip) in Hid.
  rewrite (identity_matches id) by done. cbn [negb]. rewrite Hans.
  set (reg := Registered _ _ _). set (v1 := take_over me _ _).
  assert (Hv1 : sv_sessions v1 !! decimal id = Some me ∧ me ∉ sv_closed v1 ∧ sv_log v1 = sv_log v ++ [reg]).
  { unfold v1, take_over. change (sv_sessions (emit reg v)) with (sv_sessions v).
    destruct (sv_sessions v !! decimal id) as [old|] eqn:Eo; cbn [set_sessions close sv_sessions sv_closed sv_log emit].
    - split; [apply lookup_insert_eq|]. split; [|done]. rewrite elem_of_union, elem_of_singleton. intros [->|?]; done.
    - split; [apply lookup_insert_eq|]. by split. }
  destruct Hv1 as (H1 & H2 & H3). rewrite Hwr, bool_decide_eq_true_2 by done. cbn [andb].
  eexists _, _. split; [reflexivity|]. split; [by split|]. split; [exact H1|]. split; [exact H2|].
  cbn [emit sv_log]. rewrite H3, <- app_assoc. reflexivity.
Qed.

(** The stream of an agent: its REGISTER frame, then its reports. *)
Definition agent_stream (r : reg_data) (ip : Z) (rs : list report) : list Z :=
  wire_frame IG_MSG_REGISTER 1 (wire_register (register_msg r ip)) ++
  wire_frames (numbered 1 (report_msg (agent_number r ip) <$> rs)).

(** A session that carries the agent's identity after the first frame, however
    it came by it, takes every report. *)
Lemma run_after_register r ip rs s v s' v' :
  wf_reg r → in_width 32 ip → short_reg r → Forall wf_report rs → (∀ l p, save_ok l p = true) →
  let id := agent_number r ip in
  let tail := wire_frames (numbered 1 (report_msg id <$> rs)) in
  as_lastSeq s = 0 →
  handleRegister me register_answer write_ok 1 (wire_register (register_msg r ip)) (set_lastSeq 1 s) v = (s', v') →
  serves id 1 s' → remaining_input me buffered v v' tail = tail →
  ∃ s3, run_loop me onEvent buffered register_answer save_ok write_ok (S (length (agent_stream r ip rs)))
          (agent_stream r ip rs) s v = (s3, emit_all (mjoin (report_effects onEvent id <$> rs)) v') ∧
    as_agentNum s3 = id ∧ as_AgentID s3 = decimal id.
Proof.
  intros Hr Hipw Hshort Hrs Hsave id tail Hseq Hstep Hserves Hrem.
  destruct (GenerateAgentID_range (rd_hostname r) (Some (be_bytes 4 ip))) as [Hid Hnz].
  fold (agent_number r ip) in Hid, Hnz. fold id in Hid, Hnz.
  pose proof (register_msg_length r ip Hr Hipw Hshort) as Hlen. set (m := register_msg r ip) in *.
  set (h := FrameHeader (Z.of_nat (length (wire_register m))) IG_MSG_REGISTER 1).
  assert (Hh : wf_frame_header h) by (split_and!; cbn; [unfold in_width; lia|done|unfold in_width; lia]).
  set (fuel := length (agent_stream r ip rs)).
  assert (Hw : agent_stream r ip rs = wire_frame_header h ++ wire_register m ++ tail)
    by (unfold agent_stream, wire_frame; by rewrite <- app_assoc).
  rewrite Hw, loop_frame by (done || (cbn; lia) || by left). change (set_lastSeq (fh_seq_num h) s) with (set_lastSeq 1 s).
  change (dispatch me onEvent register_answer save_ok write_ok (go_header h) (wire_register m) (set_lastSeq 1 s) v)
    with (handleRegister me register_answer write_ok 1 (wire_register m) (set_lastSeq 1 s) v).
  rewrite Hstep, Hrem.
  apply (loop_reports me onEvent buffered register_answer save_ok write_ok id rs 1 s' v' fuel Hid Hnz Hrs Hserves Hsave).
  pose proof (wire_frames_count 1 (report_msg id <$> rs)) as Hcount. fold tail in Hcount.
  rewrite length_fmap in Hcount. unfold fuel. rewrite Hw, !length_app. unfold wire_frame_header.
  rewrite !length_app, !be_bytes_length. lia.
Qed.

(** What a session makes of everything a registered agent sends. *)
Lemma session_serves_stream r ip rs subjectHash fingerprint issued expires v :
  wf_reg r → in_width 32 ip → short_reg r → Forall wf_report rs → subjectHash ≠ [] → fingerprint ≠ [] →
  (∀ l i p c, register_answer l i p c = None) → (∀ l p, save_ok l p = true) → (∀ l, write_ok l = true) →
  me ∉ sv_closed v → sv_sessions v !! decimal (agent_number r ip) ≠ Some me →
  let id := agent_number r ip in
  let sess := new_session (agentIdentityPrefix ++ decimal id) subjectHash fingerprint issued expires in
  sv_log (Run me onEvent buffered register_answer save_ok write_ok (agent_stream r ip rs) sess v) =
    sv_log v ++
    [Registered (decimal id) (register_payload (register_seen (register_msg r ip)))
       (session_cert (set_identity (decimal id) id sess)); Sent (ack_frame 1 id)] ++
    mjoin (report_effects onEvent id <$> rs) ++ [SetOffline (decimal id)].
Proof.
  intros Hr Hipw Hshort Hrs Hhash Hfp Hans Hsave Hwrite Hopen Hnew id sess.
  destruct (GenerateAgentID_range (rd_hostname r) (Some (be_bytes 4 ip))) as [Hid Hnz].
  fold (agent_number r ip) in Hid, Hnz. fold id in Hid, Hnz.
  destruct (step_register r ip (set_lastSeq 1 sess) v 1 Hr Hipw Hshort) as (s' & v' & Hstep & Hserves & Hsess & Hme & Hlog);
    try done.
  destruct (run_after_register r ip rs sess v s' v' Hr Hipw Hshort Hrs Hsave) as (s3 & Hrun & Hn3 & Hi3); try done.
  { unfold remaining_input. by rewrite !bool_decide_eq_false_2. }
  unfold Run. rewrite Hrun, (cleanup_current me id) by done.
  cbn [emit_all sv_log]. rewrite Hlog, <- !app_assoc. reflexivity.
Qed.

(** [C5] An agent and its session agree. An agent that connects with the certificate
    issued for its host name and address, and then sends heartbeats and any events the
    agent may report (well-formed ones of a back end that reports; the others it
    drops itself), is registered under its number; the acknowledgement it reads is
    the one the session sends, so it reports under that number; the session takes
    every frame: each event is saved, published and, when the session has an
    [onEvent] handler, handed on once, in order, each heartbeat recorded, and the end
    of the stream takes the agent offline. That is the undisturbed exchange: the
    database registers the agent and saves every event, every socket write of the
    session succeeds, the agent's connection takes all it writes and brings it the
    acknowledgement whole, the agent has the memory for it, its address parses, its
    strings fit its own buffers, and both ends number their frames afresh over a
    session that is open and not registered yet. *)
Theorem registered_agent_is_served (s : ig_tcp_client) (c : conn) (r : reg_data) (ip : Z) (rs : list report)
    (subjectHash fingerprint : cstring) (issued expires : Z) (v : server)
    (Hlive : live s c) (Hseq : cli_seq_num s = 0) (Hr : wf_reg r) (Hshort : short_reg r)
    (Hip : inet_pton (rd_ip r) = Some ip) (Hipw : in_width 32 ip)
    (Hin : c_in c = ack_frame 1 (agent_number r ip)) (Hdel : delivers c)
    (Hacc : accepts c (report_room * S (length rs))) (Hrs : Forall wf_report rs)
    (Hhash : subjectHash ≠ []) (Hfp : fingerprint ≠ [])
    (Hans : ∀ l i p c, register_answer l i p c = None) (Hsave : ∀ l p, save_ok l p = true)
    (Hwrite : ∀ l, write_ok l = true)
    (Hopen : me ∉ sv_closed v) (Hnew : sv_sessions v !! decimal (agent_number r ip) ≠ Some me) :
  let id := agent_number r ip in
  let sess := new_session (agentIdentityPrefix ++ decimal id) subjectHash fingerprint issued expires in
  ∃ s1 s2 c2 wire,
    ig_tcp_register_internal_locked inet_pton s r true = Some (0, s1) ∧ cli_agent_id s1 = id ∧
    send_reports inet_pton s1 rs = Some s2 ∧ live s2 c2 ∧ c_out c2 = c_out c ++ wire ∧
    sv_log (Run me onEvent buffered register_answer save_ok write_ok wire sess v) =
      sv_log v ++
      [Registered (decimal id) (register_payload (register_seen (register_msg r ip)))
         (session_cert (set_identity (decimal id) id sess)); Sent (c_in c)] ++
      mjoin (report_effects onEvent id <$> rs) ++ [SetOffline (decimal id)].
Proof.
  intros id sess. destruct (GenerateAgentID_range (rd_hostname r) (Some (be_bytes 4 ip))) as [Hid Hnz].
  fold (agent_number r ip) in Hid, Hnz. fold id in Hid, Hnz.
  pose proof (register_msg_length r ip Hr Hipw Hshort) as Hlen. set (m := register_msg r ip) in *.
  destruct (register_accepts inet_pton s c r ip id 1 (report_room * length rs) Hlive Hr Hip Hipw Hid)
    as (s1 & c1 & Hreg & Hl1 & Hid1 & Hseq1 & Ha1 & Ho1); [unfold in_width; lia|exact Hin|exact Hdel| | |].
  { fold (register_msg r ip). fold m. lia. }
  { fold (register_msg r ip). fold m. eapply accepts_le; [exact Hacc|]. unfold report_room, IG_MAX_PAYLOAD. lia. }
  fold (register_msg r ip) in Ho1. fold m in Ho1. rewrite Hseq in Hseq1, Ho1. change (u32 (0 + 1)) with 1 in Hseq1, Ho1.
  destruct (send_reports_accepts inet_pton rs s1 c1 0 Hl1 Hrs) as (s2 & c2 & Hsend & Hl2 & Ho2);
    [by rewrite Hid1|by rewrite Nat.add_0_r|]. rewrite Hid1, Hseq1 in Ho2.
  exists s1, s2, c2, (agent_stream r ip rs).
  split; [exact Hreg|]. split; [exact Hid1|]. split; [exact Hsend|]. split; [exact Hl2|].
  split; [by rewrite Ho2, Ho1, <- app_assoc|]. rewrite Hin. by apply session_serves_stream.
Qed.
End exchange.

(** ** A session speaks for its certificate only *)

Section binding.
Variable me : nat.
Variable onEvent : bool.
Variable buffered : nat.
Variable register_answer : list effect → cstring → RegisterPayload → AgentCertificate → option store_error.
Variable save_ok : list effect → FileEventPayload → bool.
Variable write_ok : list effect → bool.
Variable subject : cstring.
Variable log0 : list effect.

(** The effect concerns the agent the certificate names. *)
Definition names (id : cstring) : Prop := subject = agentIdentityPrefix ++ id.
Definition named (e : effect) : Prop :=
  match e with
  | Registered id _ cert => names id ∧ ac_AgentID cert = id
  | RefusedRegister id _ | Beat id _ | Notified id _ | SetOffline id => names id
  | Saved p | Published p => names (fp_AgentID p)
  | Sent _ => True
  end.

(** A refusal of the certificate itself. *)
Definition refusal (e : effect) : bool :=
  match e with
  | RefusedRegister _ ErrAgentCertificateMismatch | RefusedRegister _ ErrAgentCertificateRevoked => true
  | _ => false
  end.

Definition unlisted (v : server) : Prop := ∀ id, sv_sessions v !! id ≠ Some me.

(** While the connection is open. *)
Record open_ok (s : AgentSession) (v : server) : Prop := {
  oo_subject : as_certSubject s = subject;
  oo_open : me ∉ sv_closed v;
  oo_sessions : ∀ id, sv_sessions v !! id = Some me → names id;
  oo_identity : (as_AgentID s = [] ∧ unlisted v) ∨ (names (as_AgentID s) ∧ as_AgentID s = decimal (as_agentNum s) ∧ as_AgentID s ≠ []);
  oo_log : ∃ new, sv_log v = log0 ++ new ∧ Forall named new ∧ Forall (λ e, refusal e = false) new }.

(** Once it is closed: a refusal, if any, was the last thing. *)
Record closed_ok (v : server) : Prop := {
  co_closed : me ∈ sv_closed v;
  co_sessions : ∀ id, sv_sessions v !! id = Some me → names id;
  co_log : ∃ new last, sv_log v = log0 ++ new ++ last ∧ Forall named (new ++ last) ∧
           Forall (λ e, refusal e = false) new ∧ (last = [] ∨ (∃ x, last = [x]) ∧ unlisted v) }.

Lemma open_emit s v e : open_ok s v → named e → refusal e = false → open_ok s (emit e v).
Proof.
  intros [H1 H2 H3 H4 (new & Hl & Hn & Hr)] He Hre. split; try done. exists (new ++ [e]). cbn.
  rewrite Hl, app_assoc. split; [done|]. split; by apply Forall_app; split; try (constructor; [|constructor]).
Qed.

Lemma open_close s v : open_ok s v → closed_ok (close me v).
Proof.
  intros [H1 H2 H3 H4 (new & Hl & Hn & Hr)]. split; [cbn; set_solver|done|].
  exists new, []. rewrite !app_nil_r. split_and!; try done. by left.
Qed.

Lemma matches_names s : as_certSubject s = subject → certificateIdentityMatchesAgent s = true → names (as_AgentID s).
Proof.
  intros Hsub. unfold certificateIdentityMatchesAgent, isAgentIdentity, TrimPrefix, names.
  intros [H1 H2%bool_decide_eq_true_1]%andb_true_iff. apply andb_true_iff in H1 as [H1 _].
  apply negb_true_iff, bool_decide_eq_false_1 in H1.
  destruct (is_prefix agentIdentityPrefix (as_certSubject s)) eqn:Hp; [|done].
  apply is_prefix_spec in Hp as [k Hk]. rewrite Hk, drop_app_length in H2. by rewrite <- Hsub, Hk, H2.
Qed.

Lemma validate_inv num s v : open_ok s v →
  let '(ok, v') := validateAgentIdentity me num s v in
  if ok : bool then v' = v ∧ names (decimal num) else closed_ok v'.
Proof.
  intros Hs. unfold validateAgentIdentity.
  destruct ((as_agentNum s =? 0) || bool_decide (as_AgentID s = [])) eqn:E; [by eapply open_close|].
  apply orb_false_iff in E as [_ Hid%bool_decide_eq_false_1].
  destruct (Z.eqb_spec num (as_agentNum s)) as [->|]; cbn [negb]; [|by eapply open_close].
  split; [done|]. destruct (oo_identity _ _ Hs) as [[? _]|(Hn & <- & _)]; done.
Qed.

(** A refused certificate: nothing more is done. *)
Lemma open_refuse s v e : open_ok s v → unlisted v → named e → closed_ok (close me (emit e v)).
Proof.
  intros [H1 H2 H3 H4 (new & Hl & Hn & Hr)] Hun He. split; [cbn; set_solver|done|].
  exists new, [e]. cbn. rewrite Hl, <- app_assoc. split; [done|]. split; [|split; [done|right; split; [by eexists|done]]].
  apply Forall_app. split; [done|by constructor].
Qed.

Lemma take_over_ok s v id : open_ok s v → names id → as_AgentID s = id → as_AgentID s = decimal (as_agentNum s) → id ≠ [] →
  unlisted v → open_ok s (take_over me id v).
Proof.
  intros [H1 H2 H3 H4 H5] Hn <- Hd Hne Hun. unfold take_over.
  destruct (sv_sessions v !! as_AgentID s) as [old|] eqn:Eo.
  - assert (old ≠ me) by (intros ->; by apply (Hun (as_AgentID s))).
    split; [done|cbn; set_solver| |by right|exact H5].
    cbn [set_sessions close sv_sessions]. intros id [[<- _]|[_ Hi]]%lookup_insert_Some; [done|].
    apply lookup_delete_Some in Hi as [_ Hi]. by apply H3.
  - split; [done|exact H2| |by right|exact H5].
    cbn [set_sessions sv_sessions]. intros id [[<- _]|[_ Hi]]%lookup_insert_Some; [done|by apply H3].
Qed.

Definition next_ok (r : AgentSession * server) : Prop := open_ok r.1 r.2 ∨ closed_ok r.2.

Lemma register_inv q p s v : open_ok s v → next_ok (handleRegister me register_answer write_ok q p s v).
Proof.
  intros Hs. unfold handleRegister. case_bool_decide as Hid; cbn [negb]; [|right; by eapply open_close].
  destruct (decoded DecodeRegister p) as [reg|]; [|by left]. case_bool_decide; [right; by eapply open_close|].
  cbn [orb]. case_bool_decide; [right; by eapply open_close|]. cbv zeta. set (num := GenerateAgentID _ _).
  set (s' := set_identity (decimal num) num s).
  destruct (certificateIdentityMatchesAgent s') eqn:Hm; cbn [negb]; [|right; by eapply open_close].
  assert (Hn : names (as_AgentID s')) by (apply matches_names; [apply Hs|done]).
  assert (Hne : as_AgentID s' ≠ []) by (by apply decimal_nonempty, GenerateAgentID_range).
  destruct (oo_identity _ _ Hs) as [[_ Hun]|(_ & _ & Hbad)]; [|done].
  assert (Ho : open_ok s' v) by (destruct Hs; split; try done; by right).
  destruct (register_answer _ _ _ _) as [err|].
  - destruct err; [right; by eapply open_refuse|right; by eapply open_refuse|left; by apply open_emit].
  - left. cbn [fst snd]. set (v1 := take_over me _ _).
    assert (open_ok s' v1) by (apply take_over_ok; try done; by apply open_emit).
    destruct (_ && _); [|done]. by apply open_emit.
Qed.

Lemma dispatch_inv h p s v : open_ok s v → next_ok (dispatch me onEvent register_answer save_ok write_ok h p s v).
Proof.
  intros Hs. unfold dispatch. destruct (_ =? _); [by apply register_inv|]. destruct (_ =? _).
  - unfold handleHeartbeat. destruct (decoded DecodeHeartbeat p) as [hb|]; [|by left].
    pose proof (validate_inv (hb_agent_id hb) s v Hs) as Hv.
    destruct (validateAgentIdentity me _ s v) as [[] v']; [|by right]. destruct Hv as [-> Hn]. left. by apply open_emit.
  - destruct (_ =? _); [|by left]. unfold handleFileEvent. destruct (decoded DecodeFileEvent p) as [ev|]; [|by left].
    pose proof (validate_inv (ge_agent_id ev) s v Hs) as Hv.
    destruct (validateAgentIdentity me _ s v) as [[] v']; [|by right]. destruct Hv as [-> Hn]. left. cbn [negb snd fst].
    destruct (save_ok _ _); [|done].
    assert (open_ok s (emit (Published (event_payload ev)) (emit (Saved (event_payload ev)) v)))
      by (apply open_emit; [by apply open_emit|done|done]).
    destruct onEvent; [by apply open_emit|done].
Qed.

Lemma loop_inv fuel : (buffered < 9)%nat → ∀ inp s v, open_ok s v →
  next_ok (run_loop me onEvent buffered register_answer save_ok write_ok fuel inp s v).
Proof.
  intros Hbuf. induction fuel as [|fuel IH]; intros inp s v Hs; [by left|]. cbn [run_loop].
  destruct (ReadFrame inp) as [[[h p]|] rest]; [|by left]. destruct (_ && _); [by left|].
  assert (Hs1 : open_ok (set_lastSeq (gh_SeqNum h) s) v) by (destruct Hs; by split).
  pose proof (dispatch_inv h p _ v Hs1) as Hn. destruct (dispatch _ _ _ _ _ h p _ v) as [s' v'].
  unfold remaining_input. rewrite bool_decide_eq_false_2 by apply Hs. destruct Hn as [Ho|Hc]; cbn [fst snd] in *.
  - rewrite bool_decide_eq_false_2 by apply Ho. by apply IH.
  - rewrite bool_decide_eq_true_2 by apply Hc. destruct fuel as [|fuel]; [by right|]. cbn [run_loop].
    rewrite ReadFrame_short; [by right|]. rewrite length_take. lia.
Qed.

Lemma cleanup_log s v : (∀ id, sv_sessions v !! id = Some me → names id) →
  sv_log (cleanup me s v) = sv_log v ∨
  (sv_sessions v !! as_AgentID s = Some me ∧ names (as_AgentID s) ∧
   sv_log (cleanup me s v) = sv_log v ++ [SetOffline (as_AgentID s)]).
Proof.
  intros Hs. unfold cleanup. destruct (_ && _ && bool_decide _) eqn:E; [|by left].
  apply andb_true_iff in E as [_ E%bool_decide_eq_true_1]. right. split; [done|]. split; [by apply Hs|done].
Qed.

End binding.

(** Only the last effect can be a refusal. *)
Lemma refusal_last new last a x b : Forall (λ e, refusal e = false) new → (last = [] ∨ ∃ y, last = [y]) →
  new ++ last = a ++ x :: b → refusal x = true → b = [].
Proof.
  intros Hr Hlast Hab Hx. destruct b as [|z b _] using rev_ind; [done|]. exfalso.
  assert (Hin : x ∈ new).
  { destruct Hlast as [->|[y ->]].
    - rewrite app_nil_r in Hab. rewrite Hab. set_solver.
    - rewrite app_comm_cons, app_assoc in Hab. apply app_inj_tail in Hab as [-> _]. set_solver. }
  rewrite Forall_forall in Hr. specialize (Hr x Hin). congruence.
Qed.

(** [C6] A session speaks for its certificate only: whatever bytes a client sends,
    everything the session does - registration, heartbeats, events saved,
    published or handed on, taking the agent offline - is for the one agent whose
    identity the certificate carries, and when the database refuses the
    certificate as another agent's or as revoked, nothing is done after that;
    provided the TLS library delivers less than a frame header of a connection
    once it is closed. *)
Theorem session_bound_to_certificate (me : nat) (onEvent : bool) (buffered : nat)
    (register_answer : list effect → cstring → RegisterPayload → AgentCertificate → option store_error)
    (save_ok : list effect → FileEventPayload → bool) (write_ok : list effect → bool)
    (subject subjectHash fingerprint : cstring) (issued expires : Z) (inp : list Z) (v : server)
    (Hbuf : (buffered < 9)%nat) (Hopen : me ∉ sv_closed v) (Hnew : unlisted me v) :
  ∃ new, sv_log (Run me onEvent buffered register_answer save_ok write_ok inp
                   (new_session subject subjectHash fingerprint issued expires) v) = sv_log v ++ new ∧
    Forall (named subject) new ∧
    ∀ a x b, new = a ++ x :: b → refusal x = true → b = [].
Proof.
  set (s := new_session _ _ _ _ _). unfold Run.
  assert (Hs : open_ok me subject (sv_log v) s v).
  { split; [done|done| |by left|]; [intros id Hi; by destruct (Hnew id)|]. exists []. by rewrite app_nil_r. }
  pose proof (loop_inv me onEvent buffered register_answer save_ok write_ok subject (sv_log v) (S (length inp)) Hbuf inp s v Hs) as Hn.
  destruct (run_loop _ _ _ _ _ _ _ inp s v) as [s' v']. destruct Hn as [Ho|Hc]; cbn [fst snd] in *.
  - destruct (oo_log _ _ _ _ _ Ho) as (new & Hl & Hnm & Hr).
    destruct (cleanup_log me subject s' v' (oo_sessions _ _ _ _ _ Ho)) as [->|(_ & Hid & ->)]; rewrite Hl.
    + exists new. split; [done|]. split; [done|]. intros a x b Hab.
      apply (refusal_last new [] a x b Hr (or_introl eq_refl)). by rewrite app_nil_r.
    + exists (new ++ [SetOffline (as_AgentID s')]). rewrite app_assoc. split; [done|].
      split; [apply Forall_app; split; [done|by constructor]|]. intros a x b. apply refusal_last; [done|right; by eexists].
  - destruct (co_log _ _ _ _ Hc) as (new & last & Hl & Hnm & Hr & Hlast).
    destruct (cleanup_log me subject s' v' (co_sessions _ _ _ _ Hc)) as [->|(Hme & Hid & ->)]; rewrite Hl.
    + exists (new ++ last). split; [done|]. split; [done|]. intros a x b.
      apply refusal_last; [done|]. destruct Hlast as [->|[Hx _]]; [by left|by right].
    + destruct Hlast as [->|[_ Hun]]; [|by destruct (Hun (as_AgentID s'))]. rewrite app_nil_r in *.
      exists (new ++ [SetOffline (as_AgentID s')]). rewrite <- app_assoc. split; [done|].
      split; [apply Forall_app; split; [done|by constructor]|]. intros a x b. apply refusal_last; [done|right; by eexists].
Qed.

(** ** What a rejection leaves open *)

Section rejected.
Variable me : nat.
Variable onEvent : bool.
Variable buffered : nat.
Variable register_answer : list effect → cstring → RegisterPayload → AgentCertificate → option store_error.
Variable save_ok : list effect → FileEventPayload → bool.
Variable write_ok : list effect → bool.

(** A session that carries an identity without being the current one. *)
Lemma unlisted_identity_log r ip rs s v s' v' :
  wf_reg r → in_width 32 ip → short_reg r → Forall wf_report rs → (∀ l p, save_ok l p = true) →
  let id := agent_number r ip in
  let tail := wire_frames (numbered 1 (report_msg id <$> rs)) in
  as_lastSeq s = 0 →
  handleRegister me register_answer write_ok 1 (wire_register (register_msg r ip)) (set_lastSeq 1 s) v = (s', v') →
  serves id 1 s' → remaining_input me buffered v v' tail = tail → unlisted me v' →
  sv_log (Run me onEvent buffered register_answer save_ok write_ok (agent_stream r ip rs) s v) =
    sv_log v' ++ mjoin (report_effects onEvent id <$> rs).
Proof.
  intros Hr Hipw Hshort Hrs Hsave id tail Hseq Hstep Hserves Hrem Hun.
  destruct (run_after_register me onEvent buffered register_answer save_ok write_ok r ip rs s v s' v') as (s3 & Hrun & _ & Hi3);
    try done.
  unfold Run. rewrite Hrun. unfold cleanup. cbn [emit_all sv_sessions].
  rewrite (bool_decide_eq_false_2 (_ = Some me)) by apply Hun. by rewrite andb_false_r.
Qed.

(** A rejected session goes on for what is buffered: REGISTER under a foreign
    host name stores that agent's number in the session before the certificate
    is compared; the connection is closed and nothing is registered, but the
    frames the TLS library already holds are still read, and events among them
    are saved and published as the other agent's. *)
Theorem rejected_identity_is_used (r : reg_data) (ip : Z) (rs : list report) (v : server)
    (subject subjectHash fingerprint : cstring) (issued expires : Z)
    (Hr : wf_reg r) (Hip : in_width 32 ip) (Hshort : short_reg r) (Hrs : Forall wf_report rs)
    (Hsave : ∀ l p, save_ok l p = true) (Hhash : subjectHash ≠ []) (Hfp : fingerprint ≠ [])
    (Hforeign : subject ≠ agentIdentityPrefix ++ decimal (agent_number r ip))
    (Hopen : me ∉ sv_closed v) (Hnew : unlisted me v)
    (Hbuf : (length (wire_frames (numbered 1 (report_msg (agent_number r ip) <$> rs))) ≤ buffered)%nat) :
  sv_log (Run me onEvent buffered register_answer save_ok write_ok (agent_stream r ip rs)
            (new_session subject subjectHash fingerprint issued expires) v) =
    sv_log v ++ mjoin (report_effects onEvent (agent_number r ip) <$> rs).
Proof.
  set (id := agent_number r ip). set (sess := new_session _ _ _ _ _).
  apply (unlisted_identity_log r ip rs sess v (set_identity (decimal id) id (set_lastSeq 1 sess)) (close me v)); try done.
  - rewrite handleRegister_fresh by done. fold id. cbv zeta.
    destruct (certificateIdentityMatchesAgent _) eqn:E; [|done].
    exfalso. apply Hforeign. by apply (matches_names subject) in E.
  - unfold remaining_input. rewrite bool_decide_eq_false_2 by done. rewrite bool_decide_eq_true_2 by (cbn; set_solver).
    by apply take_ge.
Qed.

(** A session whose registration the database could not record serves all the
    same: it is not acknowledged and not the agent's current session, but its
    identity is set, and every event it sends is saved and published. *)
Theorem unrecorded_session_is_served (r : reg_data) (ip : Z) (rs : list report) (v : server)
    (subjectHash fingerprint : cstring) (issued expires : Z)
    (Hr : wf_reg r) (Hip : in_width 32 ip) (Hshort : short_reg r) (Hrs : Forall wf_report rs)
    (Hsave : ∀ l p, save_ok l p = true) (Hans : ∀ l i p c, register_answer l i p c = Some ErrStore)
    (Hhash : subjectHash ≠ []) (Hfp : fingerprint ≠ []) (Hopen : me ∉ sv_closed v) (Hnew : unlisted me v) :
  let id := agent_number r ip in
  sv_log (Run me onEvent buffered register_answer save_ok write_ok (agent_stream r ip rs)
            (new_session (agentIdentityPrefix ++ decimal id) subjectHash fingerprint issued expires) v) =
    sv_log v ++ RefusedRegister (decimal id) ErrStore :: mjoin (report_effects onEvent id <$> rs).
Proof.
  intros id. set (sess := new_session _ _ _ _ _).
  rewrite (unlisted_identity_log r ip rs sess v (set_identity (decimal id) id (set_lastSeq 1 sess))
    (emit (RefusedRegister (decimal id) ErrStore) v)); try done.
  - cbn [emit sv_log]. by rewrite <- app_assoc.
  - rewrite handleRegister_fresh by done. fold id. cbv zeta.
    rewrite (identity_matches id) by (done || by apply GenerateAgentID_range). by rewrite Hans.
  - unfold remaining_input. by rewrite !bool_decide_eq_false_2.
Qed.
End rejected.

(** ** Agent numbers *)

Definition ascii (c : Z) : Prop := 0 ≤ c < 0x80.

Lemma runes_ascii l : Forall ascii l → runes (length l) l = l.
Proof.
  induction 1 as [|c l [_ H] _ IH]; [done|]. cbn [length runes]. rewrite (proj2 (Z.ltb_lt _ _)) by lia. by rewrite IH.
Qed.

Lemma hash_step h c : u64 (u64 h * 31 + c) = u64 (h * 31 + c).
Proof. unfold u64, wrap. by rewrite <- Zplus_mod_idemp_l, Zmult_mod_idemp_l, Zplus_mod_idemp_l. Qed.

(** Two agents of one number: the host name's last character one later and the
    address 31 lower. Their certificates name the same identity, so either takes
    the other's session over. *)
Theorem agent_numbers_collide (h : list Z) (c ip : Z)
    (Hh : Forall ascii h) (Hc : 0 ≤ c < 0x7F) (Hip : 31 ≤ ip < 2 ^ 32) :
  GenerateAgentID (h ++ [c + 1]) (Some (be_bytes 4 (ip - 31))) = GenerateAgentID (h ++ [c]) (Some (be_bytes 4 ip)).
Proof.
  unfold GenerateAgentID. rewrite !runes_ascii by (apply Forall_app; split; [done|]; repeat constructor; lia).
  rewrite !fold_left_app. cbn [fold_left]. rewrite !be_val_be_bytes by (unfold in_width; cbn; lia).
  rewrite !hash_step. set (x := fold_left _ _ _).
  by replace ((x * 31 + (c + 1)) * 31 + (ip - 31)) with ((x * 31 + c) * 31 + ip) by lia.
Qed.

(** [web1] at 10.0.0.40 and [web2] at 10.0.0.9. *)
Lemma agent_numbers_collide_witness :
  GenerateAgentID (lit "web2") (Some [10; 0; 0; 9]) = GenerateAgentID (lit "web1") (Some [10; 0; 0; 40]).
Proof.
  apply (agent_numbers_collide (lit "web") 49 (10 * 2 ^ 24 + 40)); [|lia|lia].
  change (lit "web") with [119; 101; 98]. repeat (constructor; [unfold ascii; lia|]). constructor.
Defined.

(** ** Sample sessions *)

Definition vm1_reg : reg_data := RegData (lit "vm1") (lit "10.0.0.5") 2 (lit "Linux").
Definition vm1_ip : Z := 0x0A000005.
Definition vm1_id : Z := Eval vm_compute in agent_number vm1_reg vm1_ip.
Definition vm1_reports : list report := [RBeat 1700000000; REvent file_ev].
Definition vm1_conn : conn := Conn [] (replicate (report_room * 3) 65535) (ack_frame 1 vm1_id) (replicate 17 1).
Definition vm1_client : ig_tcp_client := TcpClient (Some vm1_conn) true (lit "ig.local") 9000 0 0 0 None.
Definition empty_server : server := Server ∅ ∅ [].
Definition vm1_cert : cstring := agentIdentityPrefix ++ decimal vm1_id.
Definition records (l : list effect) (id : cstring) (p : RegisterPayload) (c : AgentCertificate) : option store_error := None.
Definition forgets (l : list effect) (id : cstring) (p : RegisterPayload) (c : AgentCertificate) : option store_error := Some ErrStore.

Lemma vm1_reg_wf : wf_reg vm1_reg.
Proof.
  split; [|split]; [apply (bytesb_spec (lit "vm1"))|apply (bytesb_spec (lit "Linux"))|apply fits_in_width]; vm_compute; reflexivity.
Qed.
Lemma vm1_short : short_reg vm1_reg.
Proof. split; cbn; lia. Qed.
Lemma vm1_reports_wf : Forall wf_report vm1_reports.
Proof.
  constructor; [exact I|]. constructor; [|constructor]. split; [exact file_ev_wf|done].
Qed.

Lemma registered_agent_is_served_witness :
  ∃ s1 s2 c2 wire,
    ig_tcp_register_internal_locked (λ _, Some vm1_ip) vm1_client vm1_reg true = Some (0, s1) ∧ cli_agent_id s1 = vm1_id ∧
    send_reports (λ _, Some vm1_ip) s1 vm1_reports = Some s2 ∧ live s2 c2 ∧ c_out c2 = [] ++ wire ∧
    sv_log (Run 5 true 0 records (λ _ _, true) (λ _, true) wire (new_session vm1_cert [1] [2] 0 0) empty_server) =
      [] ++
      [Registered (decimal vm1_id) (register_payload (register_seen (register_msg vm1_reg vm1_ip)))
         (session_cert (set_identity (decimal vm1_id) vm1_id (new_session vm1_cert [1] [2] 0 0))); Sent (ack_frame 1 vm1_id)] ++
      mjoin (report_effects true vm1_id <$> vm1_reports) ++ [SetOffline (decimal vm1_id)].
Proof.
  assert (Hid : vm1_id = agent_number vm1_reg vm1_ip) by (vm_compute; reflexivity).
  assert (Hip : in_width 32 vm1_ip) by (apply fits_in_width; vm_compute; reflexivity).
  assert (Hdel : delivers vm1_conn) by (split; [apply Forall_replicate; lia|vm_compute; lia]).
  assert (Hacc : accepts vm1_conn (report_room * S (length vm1_reports))).
  { split; [apply Forall_replicate; lia|]. change (c_writes vm1_conn) with (replicate (report_room * 3) 65535).
    by rewrite length_replicate. }
  assert (Hin : c_in vm1_conn = ack_frame 1 (agent_number vm1_reg vm1_ip)) by (rewrite <- Hid; reflexivity).
  pose proof (registered_agent_is_served (λ _, Some vm1_ip) 5 true 0 records (λ _ _, true) (λ _, true)
    vm1_client vm1_conn vm1_reg vm1_ip vm1_reports [1] [2] 0 0 empty_server (conj eq_refl eq_refl) eq_refl
    vm1_reg_wf vm1_short eq_refl Hip Hin Hdel Hacc vm1_reports_wf ltac:(done) ltac:(done) ltac:(done)
    ltac:(done) ltac:(done) ltac:(apply not_elem_of_empty) ltac:(done)) as H.
  rewrite <- Hid in H. exact H.
Defined.

(** A session under vm1's certificate that sends a REGISTER as vm1 and as vm2. *)
Definition double_register : list Z :=
  wire_frame IG_MSG_REGISTER 1 (wire_register (register_msg vm1_reg vm1_ip)) ++
  wire_frame IG_MSG_REGISTER 2 (wire_register (register_msg vm1_reg 1)).

Lemma session_bound_to_certificate_witness :
  ∃ new, sv_log (Run 5 true 8 records (λ _ _, true) (λ _, true) double_register
                   (new_session vm1_cert [1] [2] 0 0) empty_server) = [] ++ new ∧
    Forall (named vm1_cert) new ∧
    ∀ a x b, new = a ++ x :: b → refusal x = true → b = [].
Proof.
  apply (session_bound_to_certificate 5 true 8 records (λ _ _, true) (λ _, true) vm1_cert [1] [2] 0 0 double_register
    empty_server); [lia|apply not_elem_of_empty|done].
Defined.

(** The certificate is vm2's, the REGISTER vm1's. *)
Lemma rejected_identity_is_used_witness :
  sv_log (Run 5 false 65536 records (λ _ _, true) (λ _, true) (agent_stream vm1_reg vm1_ip vm1_reports)
            (new_session (agentIdentityPrefix ++ lit "2") [1] [2] 0 0) empty_server) =
    [] ++ mjoin (report_effects false (agent_number vm1_reg vm1_ip) <$> vm1_reports).
Proof.
  apply (rejected_identity_is_used 5 false 65536 records (λ _ _, true) (λ _, true) vm1_reg vm1_ip vm1_reports empty_server
    (agentIdentityPrefix ++ lit "2") [1] [2] 0 0 vm1_reg_wf).
  - apply fits_in_width; vm_compute; reflexivity.
  - exact vm1_short.
  - apply vm1_reports_wf.
  - done.
  - done.
  - done.
  - intros H. apply (f_equal length) in H. vm_compute in H. discriminate.
  - apply not_elem_of_empty.
  - done.
  - apply Nat.leb_le. vm_compute. reflexivity.
Defined.

Lemma unrecorded_session_is_served_witness :
  sv_log (Run 5 false 0 forgets (λ _ _, true) (λ _, true) (agent_stream vm1_reg vm1_ip vm1_reports)
            (new_session (agentIdentityPrefix ++ decimal (agent_number vm1_reg vm1_ip)) [1] [2] 0 0) empty_server) =
    [] ++ RefusedRegister (decimal (agent_number vm1_reg vm1_ip)) ErrStore ::
      mjoin (report_effects false (agent_number vm1_reg vm1_ip) <$> vm1_reports).
Proof.
  apply (unrecorded_session_is_served 5 false 0 forgets (λ _ _, true) (λ _, true) vm1_reg vm1_ip vm1_reports empty_server
    [1] [2] 0 0 vm1_reg_wf);
    first [done | exact vm1_short | apply vm1_reports_wf | apply fits_in_width; vm_compute; reflexivity].
Defined.
