(* ===== verification/SessionTable.v ===== *)
(** * Concurrent sessions of one agent (Backend/internal/collector/agent_session.go)

    Every connection has a goroutine of its own; those of one agent share its entry
    in the server's table and its row in the database. Session runs one of them
    alone; here the accesses of several interleave, each one a step. *)

From S2P Require Import Prelude Bytes Protocol Collector Session.
From stdpp Require Import relations.

Local Open Scope Z_scope.

(** Where the goroutine of a connection is: before the database accepts its
    REGISTER, before [LoadAndDelete], before [Store], in its loop, after the
    comparison that found it current, after its [Delete], returned. *)
Inductive phase := Handshaken | Accepted | Cleared | Serving | Current | Removed | Ended.

#[export] Instance phase_eq_dec : EqDecision phase.
Proof. solve_decision. Defined.

(** The agent's entry in the table, its status in the database, the connections
    closed by another session, and the goroutines. *)
Record sessions := Sessions {
  ss_entry : option nat; ss_online : bool; ss_cut : gset nat; ss_phase : gmap nat phase }.

Definition set_phase (c : nat) (p : phase) (s : sessions) : sessions :=
  Sessions (ss_entry s) (ss_online s) (ss_cut s) (<[c := p]> (ss_phase s)).
Definition set_entry (e : option nat) (s : sessions) : sessions :=
  Sessions e (ss_online s) (ss_cut s) (ss_phase s).
Definition set_online (b : bool) (s : sessions) : sessions :=
  Sessions (ss_entry s) b (ss_cut s) (ss_phase s).
Definition cut (e : option nat) (s : sessions) : sessions :=
  match e with
  | Some c => Sessions (ss_entry s) (ss_online s) ({[c]} ∪ ss_cut s) (ss_phase s)
  | None => s
  end.

(** ** The accesses *)

(** [RegisterAgentWithCertificate] accepts: the row says online. *)
(* @go Backend/internal/collector/agent_session.go:154-172 handleRegister *)
Definition accept (c : nat) (s : sessions) : sessions := set_phase c Accepted (set_online true s).

(* @go Backend/internal/collector/agent_session.go:176-179 handleRegister *)
Definition load_and_delete (c : nat) (s : sessions) : sessions :=
  set_phase c Cleared (set_entry None (cut (ss_entry s) s)).

(* @go Backend/internal/collector/agent_session.go:180 handleRegister *)
Definition store (c : nat) (s : sessions) : sessions := set_phase c Serving (set_entry (Some c) s).

(* @go Backend/internal/store/agent_store.go:204-209 UpdateHeartbeat *)
Definition heartbeat (s : sessions) : sessions := set_online true s.

(* @go Backend/internal/collector/agent_session.go:64-66 Run *)
Definition compare_entry (c : nat) (s : sessions) : sessions :=
  set_phase c (if decide (ss_entry s = Some c) then Current else Ended) s.

(* @go Backend/internal/collector/agent_session.go:67-68 Run *)
Definition delete_entry (c : nat) (s : sessions) : sessions := set_phase c Removed (set_entry None s).

(* @go Backend/internal/collector/agent_session.go:71-77 Run *)
Definition set_offline (c : nat) (s : sessions) : sessions := set_phase c Ended (set_online false s).

(** Any goroutine may take its next step. *)
Inductive sstep : sessions → sessions → Prop :=
  | step_connect c s : ss_phase s !! c = None → sstep s (set_phase c Handshaken s)
  | step_accept c s : ss_phase s !! c = Some Handshaken → sstep s (accept c s)
  | step_take c s : ss_phase s !! c = Some Accepted → sstep s (load_and_delete c s)
  | step_store c s : ss_phase s !! c = Some Cleared → sstep s (store c s)
  | step_heartbeat c s : ss_phase s !! c = Some Serving → c ∉ ss_cut s → sstep s (heartbeat s)
  | step_compare c s : ss_phase s !! c = Some Serving → sstep s (compare_entry c s)
  | step_delete c s : ss_phase s !! c = Some Current → sstep s (delete_entry c s)
  | step_offline c s : ss_phase s !! c = Some Removed → sstep s (set_offline c s).

(** The same with the accesses of a registration, and those of a return, in one
    step: what the table is meant to do. *)
Definition register (c : nat) (s : sessions) : sessions := store c (load_and_delete c (accept c s)).
Definition finish (c : nat) (s : sessions) : sessions :=
  let s := compare_entry c s in
  if decide (ss_phase s !! c = Some Current) then set_offline c (delete_entry c s) else s.

Inductive astep : sessions → sessions → Prop :=
  | astep_connect c s : ss_phase s !! c = None → astep s (set_phase c Handshaken s)
  | astep_register c s : ss_phase s !! c = Some Handshaken → astep s (register c s)
  | astep_heartbeat c s : ss_phase s !! c = Some Serving → c ∉ ss_cut s → astep s (heartbeat s)
  | astep_finish c s : ss_phase s !! c = Some Serving → astep s (finish c s).

Definition start : sessions := Sessions None false ∅ ∅.

(** A session whose frames are still read. *)
Definition live (s : sessions) (c : nat) : Prop := ss_phase s !! c = Some Serving ∧ c ∉ ss_cut s.

(** ** The contract, and what it takes *)

(** The agent is online iff it has a session; there is at most one, and the table
    knows it. *)
Definition consistent (s : sessions) : Prop :=
  (∀ c, live s c ↔ ss_entry s = Some c) ∧ (ss_online s = true ↔ is_Some (ss_entry s)).

(** Connections that are not registered were never closed by another session. *)
Record orderly (s : sessions) : Prop := {
  ord_consistent : consistent s;
  ord_phases c p : ss_phase s !! c = Some p → p = Handshaken ∨ p = Serving ∨ p = Ended;
  ord_cut c : c ∈ ss_cut s → ss_phase s !! c = Some Serving ∨ ss_phase s !! c = Some Ended }.

Lemma orderly_start : orderly start.
Proof.
  unfold start. split; cbn.
  - split; [|by split; [|intros [? ?]]]. intros c. unfold live. cbn. rewrite lookup_empty. split; [by intros [? _]|done].
  - intros c p. by rewrite lookup_empty.
  - intros c. by intros ?%elem_of_empty.
Qed.

(** Case analysis on a phase after updates. *)
Ltac phases :=
  repeat match goal with
  | |- context [<[?c := _]> _ !! ?d] =>
      first [rewrite (lookup_insert_eq _ c) | destruct (decide (d = c)) as [->|];
             [rewrite ?lookup_insert_eq|rewrite ?lookup_insert_ne by done]]
  | H : context [<[?c := _]> _ !! ?d] |- _ =>
      first [rewrite (lookup_insert_eq _ c) in H | destruct (decide (d = c)) as [->|];
             [rewrite ?lookup_insert_eq in H|rewrite ?lookup_insert_ne in H by done]]
  end.

Lemma orderly_connect c s : ss_phase s !! c = None → orderly s → orderly (set_phase c Handshaken s).
Proof.
  intros Hc [[Hlive Hon] Hp Hcut]. split; cbn.
  - split; [|exact Hon]. intros d. rewrite <- (Hlive d). unfold live. cbn. phases; [|done]. rewrite Hc.
    by split; intros [? _].
  - intros d p. cbn. phases; [|by apply Hp]. intros [= <-]. by left.
  - intros d Hd. cbn. phases; [|by apply Hcut]. by destruct (Hcut c Hd); simplify_eq.
Qed.

Lemma orderly_register c s : ss_phase s !! c = Some Handshaken → orderly s → orderly (register c s).
Proof.
  intros Hc [[Hlive Hon] Hp Hcut].
  assert (Hnew : c ∉ ss_cut s) by (intros Hd; by destruct (Hcut c Hd); simplify_eq).
  assert (Hold : ss_entry s ≠ Some c) by (intros [Hs _]%Hlive; simplify_eq).
  set (cut' := match ss_entry s with Some o => {[o]} ∪ ss_cut s | None => ss_cut s end).
  assert (Hphase : ∀ d, ss_phase (register c s) !! d = if decide (d = c) then Some Serving else ss_phase s !! d).
  { intros d. unfold register, store, load_and_delete, accept, cut. destruct (ss_entry _); cbn;
      (destruct (decide (d = c)) as [->|]; [by rewrite lookup_insert_eq|by rewrite !lookup_insert_ne by done]). }
  assert (Hc' : ss_cut (register c s) = cut').
  { unfold cut', register, store, load_and_delete, accept, cut, set_phase, set_entry, set_online. cbn. by destruct (ss_entry s). }
  assert (He : ss_entry (register c s) = Some c ∧ ss_online (register c s) = true).
  { unfold register, store, load_and_delete, accept, cut, set_phase, set_entry, set_online. cbn. by destruct (ss_entry s). }
  destruct He as [He Ho]. clearbody cut'.
  assert (Hin : ∀ d, d ∈ cut' ↔ ss_entry s = Some d ∨ d ∈ ss_cut s).
  { rewrite <- Hc'. intros d. unfold register, store, load_and_delete, accept, cut, set_phase, set_entry, set_online. cbn.
    destruct (ss_entry s) as [o|]; cbn; [rewrite elem_of_union, elem_of_singleton; naive_solver|naive_solver]. }
  split.
  - split; [|by rewrite He, Ho]. intros d. unfold live. rewrite Hphase, Hc', He, Hin.
    destruct (decide (d = c)) as [->|Hne].
    + split; [done|]. intros _. split; [done|]. by intros [?|?].
    + split; [|congruence]. intros [Hs Hn]. exfalso. apply Hn. left. apply Hlive. split; [done|]. naive_solver.
  - intros d p. rewrite Hphase. destruct (decide (d = c)); [intros [= <-]; by right; left|apply Hp].
  - intros d. rewrite Hphase, Hc', Hin. destruct (decide (d = c)); [by left|].
    intros [[Hs _]%Hlive|Hd]; [by left|by apply Hcut].
Qed.

Lemma orderly_heartbeat c s : ss_phase s !! c = Some Serving → c ∉ ss_cut s → orderly s → orderly (heartbeat s).
Proof.
  intros Hc Hn [[Hlive Hon] Hp Hcut]. split; [|exact Hp|exact Hcut]. split; [exact Hlive|]. cbn.
  split; [|done]. intros _. exists c. by apply Hlive.
Qed.

Lemma orderly_finish c s : ss_phase s !! c = Some Serving → orderly s → orderly (finish c s).
Proof.
  intros Hc [[Hlive Hon] Hp Hcut]. unfold finish, compare_entry. cbn. rewrite lookup_insert_eq.
  destruct (decide (ss_entry s = Some c)) as [He|He].
  - rewrite decide_True by done. split; cbn.
    + split; [|by split; [|intros [? ?]]]. intros d. unfold live. cbn. phases; [by split; [intros [? _]|]|].
      split; [|done]. intros Hd. apply Hlive in Hd. congruence.
    + intros d p. cbn. phases; [intros [= <-]; by right; right|]. apply Hp.
    + intros d Hd. cbn. phases; [by right|by apply Hcut].
  - rewrite decide_False by done. split; cbn.
    + split; [|exact Hon]. intros d. unfold live. cbn. phases; [by split; [intros [? _]|]|]. apply Hlive.
    + intros d p. cbn. phases; [intros [= <-]; by right; right|apply Hp].
    + intros d Hd. cbn. phases; [by right|by apply Hcut].
Qed.

(** Were registration and return atomic, the contract would hold at every moment:
    at most one live session, the one in the table, and online iff there is one. *)
Theorem atomic_sessions_consistent (s : sessions) (Hs : rtc astep start s) : consistent s.
Proof.
  apply ord_consistent. revert s Hs. apply (rtc_ind_r (λ s, orderly s)); [exact orderly_start|].
  intros s1 s2 _ Hst Hord. destruct Hst.
  - by apply orderly_connect.
  - by apply orderly_register.
  - by eapply orderly_heartbeat.
  - by apply orderly_finish.
Qed.

(** As written, one half of it remains: the table never names a session that has
    returned, nor one that is not registered. *)
Theorem table_names_open_session (s : sessions) (c : nat) (Hs : rtc sstep start s) :
  ss_entry s = Some c → ss_phase s !! c = Some Serving ∨ ss_phase s !! c = Some Current.
Proof.
  revert s Hs c. apply (rtc_ind_r (λ s, ∀ c, ss_entry s = Some c →
    ss_phase s !! c = Some Serving ∨ ss_phase s !! c = Some Current)); [done|].
  intros s1 s2 _ Hst IH c. destruct Hst as [d s Hd|d s Hd|d s Hd|d s Hd|d s Hd Hc|d s Hd|d s Hd|d s Hd]; cbn.
  all: try done.
  all: try (intros He; phases; [destruct (IH _ He); simplify_eq|by apply IH]).
  - intros [= <-]. phases. by left.
  - by apply IH.
  - rewrite decide_True by done. by right.
Qed.

(** A return that overlaps the agent's next registration takes the new session
    out of the table and sets the agent offline while it is served; the
    registration after that does not find it, and two sessions of one agent are
    live. *)
Theorem reconnect_races_with_return (s : sessions) (a b d : nat) (Hentry : ss_entry s = Some a)
    (Ha : ss_phase s !! a = Some Serving) (Hb : ss_phase s !! b = None) (Hd : ss_phase s !! d = None)
    (Hfresh : b ∉ ss_cut s ∧ d ∉ ss_cut s) (Hbd : b ≠ d) :
  ∃ s1 s2, rtc sstep s s1 ∧ live s1 b ∧ ss_entry s1 = None ∧ ss_online s1 = false ∧
    rtc sstep s1 s2 ∧ live s2 b ∧ live s2 d.
Proof.
  assert (Hab : a ≠ b) by congruence. assert (Had : a ≠ d) by congruence.
  set (s0 := load_and_delete b (accept b (compare_entry a (set_phase b Handshaken s)))).
  assert (H0 : s0 = Sessions None true ({[a]} ∪ ss_cut s)
    (<[b:=Cleared]> (<[b:=Accepted]> (<[a:=Current]> (<[b:=Handshaken]> (ss_phase s)))))).
  { unfold s0, compare_entry, accept, load_and_delete, cut, set_phase, set_entry, set_online. cbn. rewrite Hentry.
    by rewrite decide_True. }
  set (s1 := set_offline a (delete_entry a (store b s0))).
  assert (Hp1 : ∀ x, ss_phase s1 !! x =
    if decide (x = a) then Some Ended else if decide (x = b) then Some Serving else ss_phase s !! x).
  { intros x. subst s1. rewrite H0. cbn. destruct (decide (x = a)) as [->|]; [by rewrite lookup_insert_eq|].
    rewrite !(lookup_insert_ne _ a x) by done.
    destruct (decide (x = b)) as [->|]; [by rewrite lookup_insert_eq|by rewrite !lookup_insert_ne by done]. }
  assert (Hs1 : ss_entry s1 = None ∧ ss_online s1 = false ∧ ss_cut s1 = {[a]} ∪ ss_cut s) by (subst s1; by rewrite H0).
  destruct Hs1 as (He1 & Ho1 & Hc1).
  assert (Hrun1 : rtc sstep s s1).
  { apply (rtc_l _ _ (set_phase b Handshaken s)); [by apply step_connect|].
    apply (rtc_l _ _ (compare_entry a (set_phase b Handshaken s))).
    { apply step_compare. cbn. by rewrite lookup_insert_ne. }
    apply (rtc_l _ _ (accept b (compare_entry a (set_phase b Handshaken s)))).
    { apply step_accept. cbn. by rewrite lookup_insert_ne, lookup_insert_eq by done. }
    apply (rtc_l _ _ s0); [apply step_take; cbn; by rewrite lookup_insert_eq|].
    apply (rtc_l _ _ (store b s0)); [apply step_store; rewrite H0; cbn; by rewrite lookup_insert_eq|].
    apply (rtc_l _ _ (delete_entry a (store b s0))).
    { apply step_delete. rewrite H0. cbn. by rewrite !lookup_insert_ne, lookup_insert_eq by done. }
    apply rtc_once, step_offline. cbn. by rewrite lookup_insert_eq. }
  clearbody s1. set (s2 := register d (set_phase d Handshaken s1)).
  assert (H2 : s2 = Sessions (Some d) true (ss_cut s1)
    (<[d:=Serving]> (<[d:=Cleared]> (<[d:=Accepted]> (<[d:=Handshaken]> (ss_phase s1)))))).
  { unfold s2, register, store, load_and_delete, accept, cut, set_phase, set_entry, set_online. cbn. by rewrite He1. }
  exists s1, s2. destruct Hfresh as [Hfb Hfd]. split_and!; [exact Hrun1| |exact He1|exact Ho1| | |].
  - unfold live. rewrite Hp1, Hc1, decide_False, decide_True by done. set_solver.
  - apply (rtc_l _ _ (set_phase d Handshaken s1)).
    { apply step_connect. by rewrite Hp1, !decide_False by done. }
    apply (rtc_l _ _ (accept d (set_phase d Handshaken s1))).
    { apply step_accept. cbn. by rewrite lookup_insert_eq. }
    apply (rtc_l _ _ (load_and_delete d (accept d (set_phase d Handshaken s1)))).
    { apply step_take. cbn. by rewrite lookup_insert_eq. }
    apply rtc_once, step_store. cbn. by rewrite lookup_insert_eq.
  - unfold live. rewrite H2. cbn. rewrite !lookup_insert_ne, Hp1, Hc1, decide_False, decide_True by done. set_solver.
  - unfold live. rewrite H2. cbn. rewrite lookup_insert_eq, Hc1. set_solver.
Qed.

(** ** The same accesses in Session *)

(** A session run alone does the atomic registration to its table. *)
Lemma register_is_take_over c id v s :
  ss_entry s = sv_sessions v !! id → (∀ x, x ∈ ss_cut s ↔ x ∈ sv_closed v) →
  ss_entry (register c s) = sv_sessions (take_over c id v) !! id ∧
  ∀ x, x ∈ ss_cut (register c s) ↔ x ∈ sv_closed (take_over c id v).
Proof.
  intros He Hcut. unfold register, store, load_and_delete, accept, take_over, cut, set_phase, set_entry, set_online. cbn.
  rewrite He. destruct (sv_sessions v !! id) as [o|]; cbn; rewrite lookup_insert_eq; (split; [done|]); [|exact Hcut].
  intros x. by rewrite !elem_of_union, Hcut.
Qed.

(** And the atomic return: it goes offline exactly when the table named it. *)
Lemma finish_is_cleanup c (a : AgentSession) v s : 0 < as_agentNum a → as_AgentID a ≠ [] →
  ss_entry s = sv_sessions v !! as_AgentID a →
  ss_entry (finish c s) = sv_sessions (cleanup c a v) !! as_AgentID a ∧
  sv_log (cleanup c a v) = sv_log v ++ (if decide (ss_entry s = Some c) then [SetOffline (as_AgentID a)] else []) ∧
  ss_online (finish c s) = if decide (ss_entry s = Some c) then false else ss_online s.
Proof.
  intros Hnum Hid He. unfold finish, compare_entry, cleanup. cbn. rewrite lookup_insert_eq, <- He.
  rewrite (proj2 (Z.ltb_lt _ _)), (bool_decide_eq_false_2 (as_AgentID a = [])) by done. cbn.
  destruct (decide (ss_entry s = Some c)) as [Hc|Hc].
  - rewrite bool_decide_eq_true_2, decide_True by done. cbn. by rewrite lookup_delete_eq.
  - rewrite bool_decide_eq_false_2, decide_False by done. cbn. by rewrite He, app_nil_r.
Qed.

(** *** Witnesses *)

(** Connection 1 is served. *)
Definition one_session : sessions := register 1 (set_phase 1 Handshaken start).

Lemma one_session_reached : rtc astep start one_session.
Proof.
  apply (rtc_l _ _ (set_phase 1 Handshaken start)); [by apply astep_connect|].
  apply rtc_once, astep_register. by vm_compute.
Qed.

Lemma atomic_sessions_consistent_witness : consistent one_session ∧ live one_session 1 ∧ ss_online one_session = true.
Proof.
  split; [exact (atomic_sessions_consistent one_session one_session_reached)|].
  split; [split; [by vm_compute|by vm_compute]|reflexivity].
Defined.

Lemma reconnect_races_with_return_witness :
  ∃ s1 s2, rtc sstep one_session s1 ∧ live s1 2 ∧ ss_entry s1 = None ∧ ss_online s1 = false ∧
    rtc sstep s1 s2 ∧ live s2 2 ∧ live s2 3.
Proof.
  apply (reconnect_races_with_return one_session 1 2 3); [reflexivity..| |done]. by split; vm_compute.
Defined.
