(* ===== verification/Baseline.v ===== *)
(** * Integrity baseline (scanner/baseline.c)

    The table of file hashes: the scan that fills it, the integrity check and
    the updates that follow events. File contents, [stat] and OpenSSL's SHA-256
    are parameters; the rwlock makes each operation atomic. *)

From S2P Require Import Prelude Bytes Monitor Walker.

Local Open Scope Z_scope.

(** What the file system and the memory answer at one moment. [d_contents]: [None]
    when the file cannot be opened or hashed; [d_realloc]: whether [realloc] gives
    so many bytes when room is wanted for the entry of a path. *)
Record disk := Disk {
  d_lstat : cstring → option file_stat;
  d_stat : cstring → option file_stat;
  d_readdir : cstring → option (list cstring);
  d_contents : cstring → option (list Z);
  d_realloc : cstring → Z → bool }.

(** [realloc] fails for more than [PTRDIFF_MAX] bytes. *)
Definition bounded_memory (d : disk) : Prop := ∀ p n, 2 ^ 63 ≤ n → d_realloc d p n = false.

(* @src scanner/baseline.h:8-14 ig_scan_entry_t *)
Record ig_scan_entry := ScanEntry { se_path : cstring; se_hash : cstring; se_mtime : Z; se_size : Z }.

(** [count] is the length of [sr_entries]. *)
(* @src scanner/baseline.h:16-22 ig_scan_result_t *)
Record ig_scan_result := ScanResult { sr_entries : list ig_scan_entry; sr_capacity : Z; sr_errors : Z }.

(* @src scanner/baseline.h:30-36 ig_integrity_result_t *)
Inductive ig_integrity_result :=
  | IG_INTEGRITY_MATCH | IG_INTEGRITY_MISMATCH | IG_INTEGRITY_NEW | IG_INTEGRITY_ERROR.

#[export] Instance ig_integrity_result_eq_dec : EqDecision ig_integrity_result.
Proof. solve_decision. Defined.

Definition sr_count (r : ig_scan_result) : Z := Z.of_nat (length (sr_entries r)).

(** "%02x" *)
Definition hex_digit (n : Z) : Z := if n <? 10 then 48 + n else 87 + n.
Definition hex_byte (b : Z) : list Z := [hex_digit (b / 16); hex_digit (b mod 16)].
Definition hex (digest : list Z) : cstring := mjoin (hex_byte <$> digest).

Section baseline.
Variable sha256 : list Z → list Z.

(* @src scanner/baseline.c:26-55 ig_sha256_file *)
Definition ig_sha256_file (d : disk) (path : cstring) : option cstring :=
  (λ c, hex (sha256 c)) <$> d_contents d path.

(** ** Scanning *)

(** [sizeof(ig_scan_entry_t)] on a 64-bit machine. *)
Definition sizeof_entry : Z := 4184.

(** The capacity is an [int], the size a [size_t]; a doubling that leaves the [int]
    wraps. *)
Definition grown (cap : Z) : Z := if cap =? 0 then 256 else s32 (cap * 2).
Definition grown_bytes (cap : Z) : Z := u64 (u64 (grown cap) * sizeof_entry).

(* @src scanner/baseline.c:59-67 result_grow *)
Definition result_grow (d : disk) (path : cstring) (r : ig_scan_result) : Z * ig_scan_result :=
  if d_realloc d path (grown_bytes (sr_capacity r))
  then (0, ScanResult (sr_entries r) (grown (sr_capacity r)) (sr_errors r)) else (-1, r).

(** Room for one more entry. *)
Definition make_room (d : disk) (path : cstring) (r : ig_scan_result) : Z * ig_scan_result :=
  if sr_capacity r <=? sr_count r then result_grow d path r else (0, r).

Definition scan_error (r : ig_scan_result) : ig_scan_result :=
  ScanResult (sr_entries r) (sr_capacity r) (s32 (sr_errors r + 1)).

(* @src scanner/baseline.c:71-96 scan_cb *)
Definition scan_cb (d : disk) (path : cstring) (st : file_stat) (result : ig_scan_result)
    : Z * ig_scan_result :=
  let (rc, result) := make_room d path result in
  if rc <? 0 then (0, scan_error result)
  else
    match ig_sha256_file d path with
    | None => (0, scan_error result)
    | Some hash =>
        (0, ScanResult (sr_entries result ++
                        [ScanEntry (strncpy path (IG_MAX_PATH - 1)) hash (fst_mtime st) (fst_size st)])
              (sr_capacity result) (sr_errors result))
    end.

Definition scan_result_empty : ig_scan_result := ScanResult [] 0 0.

(* @src scanner/baseline.c:100-121 ig_baseline_scan *)
Definition ig_baseline_scan (d : disk) (watches : list watch) : Z * ig_scan_result :=
  let out := fold_left (λ out '(path, recursive),
               (ig_walk (d_lstat d) (d_readdir d) (scan_cb d) recursive path out).2)
             watches scan_result_empty in
  (sr_count out, out).

(** ** The database *)

(* @src scanner/baseline.c:123-131 ig_scan_result_free *)
Definition ig_scan_result_free (_ : ig_scan_result) : ig_scan_result := scan_result_empty.

(** [rwlock_ok]: whether [pthread_rwlock_init] succeeds. *)
(* @src scanner/baseline.c:135-139 ig_baseline_db_init *)
Definition ig_baseline_db_init (rwlock_ok : bool) : Z * ig_scan_result :=
  (if rwlock_ok then 0 else -1, scan_result_empty).

(* @src scanner/baseline.c:238-243 ig_baseline_db_free *)
Definition ig_baseline_db_free (db : ig_scan_result) : ig_scan_result := ig_scan_result_free db.

(* @src scanner/baseline.c:141-147 ig_baseline_db_build *)
Definition ig_baseline_db_build (d : disk) (db : ig_scan_result) (watches : list watch) : Z * ig_scan_result :=
  ig_baseline_scan d watches.

Definition has_path (path : cstring) (e : ig_scan_entry) : bool := bool_decide (se_path e = path).

(** The result, with the expected and the actual hash. *)
(* @src scanner/baseline.c:149-177 ig_baseline_check_file *)
Definition ig_baseline_check_file (d : disk) (db : ig_scan_result) (path : cstring)
    : ig_integrity_result * cstring * cstring :=
  match ig_sha256_file d path with
  | None => (IG_INTEGRITY_ERROR, [], [])
  | Some actual =>
      match List.find (has_path path) (sr_entries db) with
      | Some e => (if bool_decide (actual = se_hash e) then IG_INTEGRITY_MATCH else IG_INTEGRITY_MISMATCH,
                   se_hash e, actual)
      | None => (IG_INTEGRITY_NEW, [], actual)
      end
  end.

(* @src scanner/baseline.c:179-222 ig_baseline_db_update *)
Definition ig_baseline_db_update (d : disk) (db : ig_scan_result) (path : cstring) : ig_scan_result :=
  match ig_sha256_file d path, d_stat d path with
  | Some hash, Some st =>
      match find_index (has_path path) (sr_entries db) with
      | Some i =>
          ScanResult (alter (λ e, ScanEntry (se_path e) hash (fst_mtime st) (fst_size st)) i (sr_entries db))
            (sr_capacity db) (sr_errors db)
      | None =>
          let (rc, db) := make_room d path db in
          if rc <? 0 then db
          else ScanResult (sr_entries db ++
                           [ScanEntry (strncpy path (IG_MAX_PATH - 1)) hash (fst_mtime st) (fst_size st)])
                 (sr_capacity db) (sr_errors db)
      end
  | _, _ => db
  end.

(* @src scanner/baseline.c:224-236 ig_baseline_db_remove *)
Definition ig_baseline_db_remove (db : ig_scan_result) (path : cstring) : ig_scan_result :=
  match find_index (has_path path) (sr_entries db) with
  | None => db
  | Some i =>
      let n := length (sr_entries db) in
      let entries := if bool_decide (i < n - 1)%nat
                     then match sr_entries db !! (n - 1)%nat with
                          | Some e => <[i := e]> (sr_entries db)
                          | None => sr_entries db
                          end
                     else sr_entries db in
      ScanResult (take (n - 1) entries) (sr_capacity db) (sr_errors db)
  end.

(** ** The abstract database: a map from paths to entries, of bounded size *)

(** [bs_capacity]: how many entries fit before memory is asked for. *)
Record baseline_spec := BaselineSpec { bs_map : gmap (list Z) ig_scan_entry; bs_capacity : Z }.

Definition bs_update (f : gmap (list Z) ig_scan_entry → gmap (list Z) ig_scan_entry) (b : baseline_spec)
    : baseline_spec := BaselineSpec (f (bs_map b)) (bs_capacity b).

(** The capacity once there is room for a new path, [None] without memory. *)
Definition spec_room (d : disk) (p : cstring) (b : baseline_spec) : option Z :=
  if Z.of_nat (size (bs_map b)) <? bs_capacity b then Some (bs_capacity b)
  else if d_realloc d p (grown_bytes (bs_capacity b)) then Some (grown (bs_capacity b)) else None.

Inductive db_op := OpCheck (p : cstring) | OpUpdate (p : cstring) | OpRemove (p : cstring).

Definition op_path (o : db_op) : cstring := match o with OpCheck p | OpUpdate p | OpRemove p => p end.

Definition db_step (d : disk) (o : db_op) (db : ig_scan_result)
    : option (ig_integrity_result * cstring * cstring) * ig_scan_result :=
  match o with
  | OpCheck p => (Some (ig_baseline_check_file d db p), db)
  | OpUpdate p => (None, ig_baseline_db_update d db p)
  | OpRemove p => (None, ig_baseline_db_remove db p)
  end.

Definition spec_check (d : disk) (b : baseline_spec) (p : cstring) : ig_integrity_result * cstring * cstring :=
  match d_contents d p, bs_map b !! p with
  | None, _ => (IG_INTEGRITY_ERROR, [], [])
  | Some c, None => (IG_INTEGRITY_NEW, [], hex (sha256 c))
  | Some c, Some e => (if bool_decide (hex (sha256 c) = se_hash e) then IG_INTEGRITY_MATCH
                       else IG_INTEGRITY_MISMATCH, se_hash e, hex (sha256 c))
  end.

(** A path that is known is updated in place; a new one needs room, and is dropped
    without. *)
Definition spec_update (d : disk) (b : baseline_spec) (p : cstring) : baseline_spec :=
  match d_contents d p, d_stat d p with
  | Some c, Some st =>
      let e := ScanEntry p (hex (sha256 c)) (fst_mtime st) (fst_size st) in
      match bs_map b !! p with
      | Some _ => bs_update <[p := e]> b
      | None => match spec_room d p b with
                | Some cap => BaselineSpec (<[p := e]> (bs_map b)) cap
                | None => b
                end
      end
  | _, _ => b
  end.

Definition spec_step (d : disk) (o : db_op) (b : baseline_spec)
    : option (ig_integrity_result * cstring * cstring) * baseline_spec :=
  match o with
  | OpCheck p => (Some (spec_check d b p), b)
  | OpUpdate p => (None, spec_update d b p)
  | OpRemove p => (None, bs_update (delete p) b)
  end.

Fixpoint db_run (ops : list (disk * db_op)) (db : ig_scan_result)
    : list (option (ig_integrity_result * cstring * cstring)) * ig_scan_result :=
  match ops with
  | [] => ([], db)
  | (d, o) :: ops => let (r, db) := db_step d o db in let (rs, db) := db_run ops db in (r :: rs, db)
  end.

Fixpoint spec_run (ops : list (disk * db_op)) (m : baseline_spec)
    : list (option (ig_integrity_result * cstring * cstring)) * baseline_spec :=
  match ops with
  | [] => ([], m)
  | (d, o) :: ops => let (r, m) := spec_step d o m in let (rs, m) := spec_run ops m in (r :: rs, m)
  end.

(** What doubling from 256 reaches in an [int]. *)
Definition cap_ok (cap : Z) : Prop := cap = 0 ∨ ∃ k, 8 ≤ k ≤ 30 ∧ cap = 2 ^ k.

(** Room for every entry. *)
Definition has_room (r : ig_scan_result) : Prop := cap_ok (sr_capacity r) ∧ sr_count r ≤ sr_capacity r.

(** One entry per path, and room for every entry. *)
Definition db_ok (db : ig_scan_result) : Prop := NoDup (se_path <$> sr_entries db) ∧ has_room db.

Definition holds (l : list ig_scan_entry) (m : gmap (list Z) ig_scan_entry) : Prop :=
  ∀ p e, m !! p = Some e ↔ e ∈ l ∧ se_path e = p.

Lemma find_holds l m p : NoDup (se_path <$> l) → holds l m → List.find (has_path p) l = m !! p.
Proof.
  intros Hnd Hm. destruct (List.find (has_path p) l) as [e|] eqn:Hf.
  - apply find_some in Hf as [Hin Hp]. apply bool_decide_eq_true in Hp. symmetry.
    apply Hm. split; [by apply list_elem_of_In|done].
  - symmetry. apply eq_None_not_Some. intros [e [Hin Hp]%Hm].
    pose proof (find_none _ _ Hf e) as H. rewrite <- list_elem_of_In in H. specialize (H Hin).
    unfold has_path in H. by rewrite bool_decide_eq_true_2 in H.
Qed.

Lemma NoDup_path_inj l e e' : NoDup (se_path <$> l) → e ∈ l → e' ∈ l → se_path e = se_path e' → e = e'.
Proof.
  induction l as [|x l IH]; intros Hnd He He' Hp; [by apply elem_of_nil in He|].
  cbn in Hnd. apply NoDup_cons in Hnd as [Hx Hnd].
  apply elem_of_cons in He as [->|He], He' as [->|He']; auto; destruct Hx.
  - rewrite Hp. by apply list_elem_of_fmap_2.
  - rewrite <- Hp. by apply list_elem_of_fmap_2.
Qed.

Lemma holds_perm l k m : l ≡ₚ k → holds l m → holds k m.
Proof. intros H Hm p e. unfold holds in Hm. rewrite Hm. by rewrite H. Qed.

Lemma holds_insert l m x : se_path x ∉ se_path <$> l → holds l m → holds (x :: l) (<[se_path x := x]> m).
Proof.
  unfold holds. intros Hx Hm p e. rewrite elem_of_cons. destruct (decide (p = se_path x)) as [->|Hne].
  - rewrite lookup_insert_eq. split; [intros [= <-]; auto|]. intros [[->|He] Hp]; [done|].
    destruct Hx. rewrite <- Hp. by apply list_elem_of_fmap_2.
  - rewrite lookup_insert_ne by done. rewrite Hm. split; [tauto|]. intros [[->|He] Hp]; [done|done].
Qed.

Lemma holds_delete l m x : NoDup (se_path <$> x :: l) → holds (x :: l) m → holds l (delete (se_path x) m).
Proof.
  unfold holds. intros [Hx Hnd]%NoDup_cons Hm p e. rewrite lookup_delete_Some, Hm, elem_of_cons. split.
  - intros (Hne & [->|He] & Hp); [done|done].
  - intros [He Hp]. split; [|auto]. intros <-. destruct Hx. rewrite <- Hp. by apply list_elem_of_fmap_2.
Qed.

Lemma find_index_split l p i : find_index (has_path p) l = Some i →
  ∃ l1 x l2, l = l1 ++ x :: l2 ∧ i = length l1 ∧ se_path x = p.
Proof.
  intros [(x & Hx & Hp) _]%find_index_Some. apply bool_decide_eq_true in Hp.
  exists (take i l), x, (drop (S i) l). split; [by rewrite take_drop_middle|]. split; [|done].
  rewrite length_take. apply lookup_lt_Some in Hx. lia.
Qed.

Lemma find_index_absent l p : find_index (has_path p) l = None → p ∉ se_path <$> l.
Proof.
  intros H (e & -> & He)%list_elem_of_fmap. pose proof (proj1 (find_index_None _ _) H e He) as Hf.
  unfold has_path in Hf. by rewrite bool_decide_eq_true_2 in Hf.
Qed.

(** Moving the last entry into the hole. *)
Lemma swap_remove_perm l1 (x : ig_scan_entry) l2 :
  let l := l1 ++ x :: l2 in
  let n := length l in
  take (n - 1) (if bool_decide (length l1 < n - 1)%nat
                then match l !! (n - 1)%nat with Some e => <[length l1 := e]> l | None => l end
                else l) ≡ₚ l1 ++ l2.
Proof.
  intros l n. subst l n. rewrite length_app. cbn [length].
  destruct l2 as [|y l2 _] using rev_ind.
  - rewrite bool_decide_eq_false_2 by (cbn; lia). cbn [length].
    replace (length l1 + 1 - 1)%nat with (length l1) by lia. by rewrite take_app_length, app_nil_r.
  - rewrite length_app. cbn [length]. rewrite bool_decide_eq_true_2 by lia.
    replace (length l1 + S (length l2 + 1) - 1)%nat with (length (l1 ++ x :: l2))
      by (rewrite length_app; cbn; lia).
    replace (l1 ++ x :: l2 ++ [y]) with ((l1 ++ x :: l2) ++ [y]) by by rewrite <- app_assoc.
    rewrite list_lookup_middle by done. rewrite <- app_assoc.
    cbn [app]. rewrite (insert_app_r_alt l1) by lia. rewrite Nat.sub_diag. cbn [insert list_insert].
    replace (l1 ++ y :: l2 ++ [y]) with ((l1 ++ y :: l2) ++ [y]) by by rewrite <- app_assoc.
    rewrite (take_app_length' (l1 ++ y :: l2)) by (rewrite !length_app; done).
    apply Permutation_app_head, Permutation_cons_append.
Qed.
(** ** Refinement *)

Definition good_path (p : cstring) : Prop := is_cstring p ∧ (length p < IG_MAX_PATH)%nat.

Lemma good_path_strncpy p : good_path p → strncpy p (IG_MAX_PATH - 1) = p.
Proof. intros [H1 H2]. apply strncpy_id; [done|lia]. Qed.

Definition refines (db : ig_scan_result) (b : baseline_spec) : Prop :=
  db_ok db ∧ holds (sr_entries db) (bs_map b) ∧ bs_capacity b = sr_capacity db.

Lemma holds_size l m : NoDup (se_path <$> l) → holds l m → size m = length l.
Proof.
  intros Hnd Hm. assert (Hl : m = list_to_map ((λ e, (se_path e, e)) <$> l)).
  { apply map_eq. intros p. apply option_eq. intros e.
    rewrite <- elem_of_list_to_map by (rewrite <- list_fmap_compose; exact Hnd).
    rewrite (Hm p e), list_elem_of_fmap. split; [intros [He <-]; by exists e|intros (e' & [= -> ->] & He); done]. }
  rewrite Hl, map_size_list_to_map by (rewrite <- list_fmap_compose; exact Hnd). by rewrite length_fmap.
Qed.

(** The capacity after growing, and the bytes asked for, when it may grow. *)
Lemma grown_ok d p cap : bounded_memory d → cap_ok cap → d_realloc d p (grown_bytes cap) = true →
  cap_ok (grown cap) ∧ cap < grown cap.
Proof.
  intros Hd [->|(k & Hk & ->)] Hr; unfold grown in *.
  { split; [|done]. right. by exists 8. }
  assert (0 < 2 ^ k) by lia. rewrite (proj2 (Z.eqb_neq _ 0)) in * by lia.
  assert (Hpow : 2 ^ k * 2 = 2 ^ (k + 1)) by (rewrite Z.pow_add_r by lia; lia).
  destruct (decide (k = 30)) as [->|Hne].
  { rewrite (Hd p (grown_bytes (2 ^ 30))) in Hr; [done|]. by vm_compute. }
  assert (Hlt : 2 ^ (k + 1) ≤ 2 ^ 30) by (apply Z.pow_le_mono_r; lia).
  rewrite s32_small by lia. rewrite Hpow. split; [right; exists (k + 1); split; [lia|done]|lia].
Qed.

(** Making room for one more entry, or failing to. *)
Lemma grown_room_ok d p r : bounded_memory d → has_room r →
  (∃ cap, make_room d p r = (0, ScanResult (sr_entries r) cap (sr_errors r)) ∧ cap_ok cap ∧ sr_count r < cap ∧
     cap = (if sr_count r <? sr_capacity r then sr_capacity r else grown (sr_capacity r)) ∧
     (sr_count r < sr_capacity r ∨ d_realloc d p (grown_bytes (sr_capacity r)) = true)) ∨
  (make_room d p r = (-1, r) ∧ sr_capacity r = sr_count r ∧ d_realloc d p (grown_bytes (sr_capacity r)) = false).
Proof.
  intros Hd [Hc Hn]. unfold make_room, result_grow. destruct (Z.leb_spec (sr_capacity r) (sr_count r)) as [Hle|Hlt].
  - destruct (d_realloc d p (grown_bytes (sr_capacity r))) eqn:Hr; [left|right; split; [done|split; [lia|done]]].
    destruct (grown_ok d p (sr_capacity r) Hd Hc Hr) as [H1 H2]. exists (grown (sr_capacity r)).
    rewrite (proj2 (Z.ltb_ge _ _)) by lia. split; [done|]. split; [done|]. split; [lia|]. split; [done|by right].
  - left. exists (sr_capacity r). rewrite (proj2 (Z.ltb_lt _ _)) by lia. destruct r. cbn. split_and!; try done. by left.
Qed.

Lemma refines_append l m cap errs e : NoDup (se_path <$> l) → holds l m → se_path e ∉ se_path <$> l →
  cap_ok cap → Z.of_nat (length l) < cap →
  refines (ScanResult (l ++ [e]) cap errs) (BaselineSpec (<[se_path e := e]> m) cap).
Proof.
  intros Hnd Hm He Hc Hn. split; [split; [|split]|split]; [| |unfold sr_count|..]; cbn; [|done| | |done].
  - rewrite fmap_app, NoDup_app. split; [done|]. split; [|apply NoDup_singleton].
    intros x Hx. intros Hx1. apply (list_elem_of_singleton x (se_path e)) in Hx1. by subst x.
  - rewrite length_app. cbn. lia.
  - eapply holds_perm; [apply Permutation_cons_append|]. by apply holds_insert.
Qed.

(** Rewriting the entry of a path in place. *)
Lemma refines_alter db b l1 x l2 y : sr_entries db = l1 ++ x :: l2 → se_path y = se_path x → refines db b →
  refines (ScanResult (l1 ++ y :: l2) (sr_capacity db) (sr_errors db)) (bs_update <[se_path x := y]> b).
Proof.
  intros Hl Hy [(Hnd & Hc & Hn) [Hm Hcap]]. unfold sr_count in Hn. rewrite Hl in *.
  assert (Hperm : l1 ++ x :: l2 ≡ₚ x :: (l1 ++ l2)) by by rewrite Permutation_middle.
  assert (Hnd' : NoDup (se_path <$> x :: (l1 ++ l2))) by by rewrite <- Hperm.
  split; [split; [|split; [done|]]|split; [|done]].
  - cbn. rewrite fmap_app in *. cbn in *. by rewrite Hy.
  - unfold sr_count. cbn. rewrite !length_app in *. done.
  - cbn. apply (holds_perm (y :: (l1 ++ l2))); [by rewrite Permutation_middle|].
    rewrite <- insert_delete_eq, <- Hy. apply (holds_insert _ _ y); rewrite Hy.
    + by apply NoDup_cons in Hnd' as [H _].
    + apply holds_delete; [done|]. by eapply holds_perm.
Qed.

Lemma update_refines d db b p : bounded_memory d → refines db b → good_path p →
  refines (ig_baseline_db_update d db p) (spec_update d b p).
Proof.
  intros Hd Href Hp. pose proof Href as [(Hnd & Hroom) [Hm Hcap]].
  unfold ig_baseline_db_update, ig_sha256_file, spec_update.
  destruct (d_contents d p) as [c|]; cbn [fmap option_fmap option_map]; [|done].
  destruct (d_stat d p) as [st|]; [|done]. cbv zeta. set (e := ScanEntry p _ _ _).
  destruct (find_index (has_path p) (sr_entries db)) as [i|] eqn:Hi.
  - destruct (find_index_split _ _ _ Hi) as (l1 & x & l2 & Hl & -> & Hx).
    assert (bs_map b !! p = Some x) as -> by (apply Hm; split; [rewrite Hl; set_solver|done]).
    rewrite Hl, (alter_app_r_alt _ l1) by lia. rewrite Nat.sub_diag. cbn [alter list_alter]. subst e. rewrite <- Hx.
    apply (refines_alter db b l1 x l2 (ScanEntry (se_path x) (hex (sha256 c)) (fst_mtime st) (fst_size st))); done.
  - pose proof (find_index_absent _ _ Hi) as Habs.
    assert (bs_map b !! p = None) as ->.
    { apply eq_None_not_Some. intros [x [Hx Hxp]%Hm]. apply Habs. rewrite <- Hxp. by apply list_elem_of_fmap_2. }
    rewrite good_path_strncpy by done. fold e. unfold spec_room. rewrite (holds_size _ _ Hnd Hm), Hcap.
    fold (sr_count db).
    destruct (grown_room_ok d p db Hd Hroom) as [(cap & -> & Hcok & Hlt & -> & Hor)|(-> & Heq & Hr)].
    + cbn [Z.ltb Z.compare sr_entries sr_capacity sr_errors]. unfold sr_count in *.
      destruct (Z.ltb_spec (Z.of_nat (length (sr_entries db))) (sr_capacity db)) as [Hl|Hl].
      * by apply refines_append.
      * destruct Hor as [?| ->]; [lia|]. by apply refines_append.
    + cbn [Z.ltb Z.compare]. rewrite (proj2 (Z.ltb_ge _ _)) by lia. by rewrite Hr.
Qed.

Lemma remove_refines db b p : refines db b → refines (ig_baseline_db_remove db p) (bs_update (delete p) b).
Proof.
  intros [(Hnd & Hc & Hn) [Hm Hcap]]. unfold ig_baseline_db_remove.
  destruct (find_index (has_path p) (sr_entries db)) as [i|] eqn:Hi.
  - destruct (find_index_split _ _ _ Hi) as (l1 & x & l2 & Hl & -> & Hx). unfold sr_count in Hn.
    rewrite Hl in *. pose proof (swap_remove_perm l1 x l2) as Hs. cbv zeta in Hs. subst p.
    assert (Hperm : l1 ++ x :: l2 ≡ₚ x :: (l1 ++ l2)) by by rewrite Permutation_middle.
    assert (Hnd' : NoDup (se_path <$> x :: (l1 ++ l2))) by by rewrite <- Hperm.
    split; [split; [|split; [exact Hc|]]|split; [|exact Hcap]]; unfold sr_count; cbn [sr_entries sr_capacity];
      rewrite ?Hs.
    + by apply NoDup_cons in Hnd' as [_ H].
    + rewrite length_app in *. cbn in Hn. lia.
    + eapply holds_perm; [symmetry; exact Hs|]. apply holds_delete; [done|]. by eapply holds_perm.
  - replace (bs_update (delete p) b) with b; [by split|]. unfold bs_update. rewrite delete_id; [by destruct b|].
    apply eq_None_not_Some. intros [e He]. apply Hm in He as [He Hp].
    apply find_index_absent in Hi. destruct Hi. rewrite <- Hp. by apply list_elem_of_fmap_2.
Qed.

Lemma check_refines d db b p : refines db b → ig_baseline_check_file d db p = spec_check d b p.
Proof.
  intros [(Hnd & _) [Hm _]]. unfold ig_baseline_check_file, ig_sha256_file, spec_check.
  destruct (d_contents d p) as [c|]; [|done]. cbn. by rewrite (find_holds _ (bs_map b) p Hnd Hm).
Qed.

Lemma db_step_refines d o db b : bounded_memory d → refines db b → good_path (op_path o) →
  (db_step d o db).1 = (spec_step d o b).1 ∧ refines (db_step d o db).2 (spec_step d o b).2.
Proof.
  intros Hd Hr Hp. destruct o as [p|p|p]; cbn [db_step spec_step fst snd].
  - by rewrite (check_refines d db b p Hr).
  - split; [done|]. by apply update_refines.
  - split; [done|]. by apply remove_refines.
Qed.

Lemma holds_exists l : NoDup (se_path <$> l) → ∃ m, holds l m.
Proof.
  induction l as [|e l IH]; intros Hnd.
  - exists ∅. intros p e. rewrite lookup_empty, elem_of_nil. naive_solver.
  - cbn in Hnd. apply NoDup_cons in Hnd as [He Hnd]. destruct (IH Hnd) as [m Hm].
    exists (<[se_path e := e]> m). by apply holds_insert.
Qed.

(** ** The scan *)

Definition entry_of (d : disk) (f : cstring * file_stat) : option ig_scan_entry :=
  (λ c, ScanEntry (strncpy f.1 (IG_MAX_PATH - 1)) (hex (sha256 c)) (fst_mtime f.2) (fst_size f.2)) <$>
  d_contents d f.1.

(** The scan that left [r] was refused memory for the entry of [p], at a moment when
    the array was full. *)
Definition refused (d : disk) (r : ig_scan_result) (p : cstring) : Prop :=
  ∃ cap, cap_ok cap ∧ cap ≤ sr_count r ∧ d_realloc d p (grown_bytes cap) = false.

Lemma refused_later d r r' p : sr_count r ≤ sr_count r' → refused d r p → refused d r' p.
Proof. intros H (cap & ? & ? & ?). exists cap. split; [done|]. split; [lia|done]. Qed.

Lemma scan_cb_entries d p st r : bounded_memory d → has_room r →
  ∃ kept, (scan_cb d p st r).1 = 0 ∧ has_room (scan_cb d p st r).2 ∧
    sr_entries (scan_cb d p st r).2 = sr_entries r ++ (if kept : bool then omap (entry_of d) [(p, st)] else []) ∧
    (kept = false → refused d r p).
Proof.
  intros Hd Hr. unfold scan_cb.
  destruct (grown_room_ok d p r Hd Hr) as [(cap & -> & Hcap & Hlt & _)|(-> & Hfull & Hno)]; cbn [Z.ltb Z.compare].
  - exists true. unfold ig_sha256_file, entry_of, has_room, sr_count in *. cbn [omap list_omap fst snd].
    destruct (d_contents d p) as [c|]; cbn [fmap option_fmap option_map fst snd sr_entries sr_capacity scan_error];
      rewrite ?length_app, ?app_nil_r; cbn [length]; (split; [done|]; split; [split; [done|lia]|done]).
  - exists false. destruct Hr as [Hc Hn]. rewrite app_nil_r. split; [done|]. split; [by split|]. split; [done|].
    intros _. exists (sr_capacity r). split; [done|]. split; [lia|done].
Qed.

Lemma scan_log d log : bounded_memory d → ∀ r, has_room r →
  let r' := (run_cb (scan_cb d) log r).2 in
  has_room r' ∧ ∃ log', log' `sublist_of` log ∧ sr_entries r' = sr_entries r ++ omap (entry_of d) log' ∧
    ∀ f, f ∈ log → f ∈ log' ∨ refused d r' f.1.
Proof.
  intros Hd. induction log as [|[p st] log IH]; intros r Hr.
  { cbn. split; [done|]. exists []. rewrite app_nil_r. split; [done|]. split; [done|]. by left. }
  destruct (scan_cb_entries d p st r Hd Hr) as (kept & _ & Hr1 & He1 & Hk). cbn [run_cb].
  destruct (scan_cb d p st r) as [rc r1]. cbn [fst snd] in Hr1, He1. destruct (IH r1 Hr1) as (Hr2 & log' & Hs & He2 & Hin).
  destruct (run_cb (scan_cb d) log r1) as [n r2]. cbn [snd] in *. split; [done|].
  exists (if kept then (p, st) :: log' else log'). split; [destruct kept; by constructor|]. split.
  - rewrite He2, He1, <- app_assoc. f_equal. destruct kept; [|done]. cbn [omap list_omap].
    by destruct (entry_of d (p, st)).
  - intros f [->|Hf]%elem_of_cons.
    + destruct kept; [left; by left|right]. eapply refused_later; [|by apply Hk].
      unfold sr_count. rewrite He2, He1, !length_app. lia.
    + destruct (Hin f Hf); [left|by right]. destruct kept; [by right|done].
Qed.

Lemma omap_paths d log :
  Forall (λ f, good_path f.1) log → NoDup log.*1 → NoDup (se_path <$> omap (entry_of d) log) ∧
  (∀ e, e ∈ omap (entry_of d) log → se_path e ∈ log.*1).
Proof.
  induction 1 as [|f log Hf Hlog IH]; intros Hnd; [cbn; split; [constructor|by intros e ?%elem_of_nil]|].
  cbn in Hnd. apply NoDup_cons in Hnd as [Hx Hnd]. destruct (IH Hnd) as [H1 H2].
  assert (Hent : match entry_of d f with Some e => se_path e = f.1 | None => True end).
  { unfold entry_of. destruct (d_contents d f.1); [|done]. by apply good_path_strncpy. }
  cbn [omap list_omap fmap list_fmap]. destruct (entry_of d f) as [x|].
  - split.
    + cbn [list_fmap]. apply NoDup_cons. split; [|done]. rewrite Hent.
      intros (e & He & Hin)%list_elem_of_fmap. apply H2 in Hin. by rewrite <- He in Hin.
    + intros e [->|He]%elem_of_cons; [rewrite Hent; by left|]. right. by apply H2.
  - split; [done|]. intros e He. right. by apply H2.
Qed.

(** A tree no directory of which is taken for another: the walk knows inode numbers
    only. *)
Definition scannable (d : disk) (base : cstring) (recursive : bool) : Prop :=
  ∀ q q' st st', dir_below (d_lstat d) (d_readdir d) recursive 65 (nbase base) q st →
    dir_below (d_lstat d) (d_readdir d) recursive 65 (nbase base) q' st' → fst_ino st = fst_ino st' → q = q'.

Definition plain_listings (d : disk) : Prop :=
  ∀ p names, d_readdir d p = Some names → NoDup names ∧ Forall plain_name names.

Lemma nbase_length base : is_cstring (nbase base) ∧ (length (nbase base) < IG_MAX_PATH)%nat.
Proof.
  assert (Hs : ∀ r, is_cstring r → is_cstring (strip_slashes r) ∧ (length (strip_slashes r) ≤ length r)%nat).
  { induction r as [|c [|c' r] IH]; intros Hr; [done..|]. change (strip_slashes (c :: c' :: r)) with
      (if c =? 47 then strip_slashes (c' :: r) else c :: c' :: r). destruct (c =? 47); [|done].
    inversion Hr as [|? ? _ Hr']; subst. destruct (IH Hr'). split; [done|]. cbn [length] in *. lia. }
  unfold nbase. destruct (Hs (rev (strncpy base (IG_MAX_PATH - 1)))) as [H1 H2].
  { apply Forall_rev, strncpy_is_cstring. }
  split; [by apply Forall_rev|]. rewrite length_rev in *. pose proof (strncpy_length base (IG_MAX_PATH - 1)).
  unfold IG_MAX_PATH in *. lia.
Qed.

Lemma found_good d base recursive f st : plain_listings d →
  found (d_lstat d) (d_readdir d) recursive 65 (nbase base) f st → good_path f.
Proof.
  intros Hd Hf. destruct (nbase_length base). eapply found_fits; [|exact Hf|done|done]. intros q names Hn. by apply (Hd q).
Qed.

(** What the scan appends for one watch: the entries of files within reach; on a
    scannable tree each of them once, unless its memory was refused. *)
Lemma scan_watch_sound d base recursive r : plain_listings d → bounded_memory d → has_room r →
  let r' := (ig_walk (d_lstat d) (d_readdir d) (scan_cb d) recursive base r).2 in
  ∃ log, has_room r' ∧ sr_entries r' = sr_entries r ++ omap (entry_of d) log ∧
    ∀ f st, (f, st) ∈ log → found (d_lstat d) (d_readdir d) recursive 65 (nbase base) f st.
Proof.
  intros Hlist Hd Hroom r'.
  destruct (walk_sound (d_lstat d) (d_readdir d) (scan_cb d) recursive 65 (nbase base) [] r) as (log & c & vs & Hw & Hin).
  destruct (scan_log d log Hd r Hroom) as (Hroom' & log' & Hs & He & _). exists log'.
  assert (Hr' : r' = (run_cb (scan_cb d) log r).2).
  { unfold r', ig_walk. change (S WALK_MAX_DEPTH) with 65%nat. by rewrite Hw. }
  rewrite Hr'. split; [done|]. split; [done|]. intros f st Hf. eapply Hin, elem_of_sublist; done.
Qed.

Lemma scan_watch d base recursive r : plain_listings d → bounded_memory d → scannable d base recursive → has_room r →
  let r' := (ig_walk (d_lstat d) (d_readdir d) (scan_cb d) recursive base r).2 in
  ∃ log, has_room r' ∧ sr_entries r' = sr_entries r ++ omap (entry_of d) log ∧ NoDup log.*1 ∧
    (∀ f st, (f, st) ∈ log → found (d_lstat d) (d_readdir d) recursive 65 (nbase base) f st) ∧
    ∀ f st, found (d_lstat d) (d_readdir d) recursive 65 (nbase base) f st → (f, st) ∈ log ∨ refused d r' f.
Proof.
  intros Hreaddir Hd Hinj Hroom r'.
  destruct (walk_impl_spec (d_lstat d) (d_readdir d) (scan_cb d) recursive
      (λ q, ∃ st, dir_below (d_lstat d) (d_readdir d) recursive 65 (nbase base) q st)) with
    (n := 65%nat) (p := nbase base) (vs := @nil Z) (u := r) as (log & vs' & Hw & Hnd & Hin & _).
  - intros q q' st st' [s1 H1] [s2 H2] [Hq _] [Hq' _]. apply Hinj.
    + pose proof (below_dir _ _ _ _ _ _ _ H1) as [? _]. by simplify_eq.
    + pose proof (below_dir _ _ _ _ _ _ _ H2) as [? _]. by simplify_eq.
  - done.
  - intros q st Hq. split; [by exists st|by intros ?%elem_of_nil].
  - destruct (scan_log d log Hd r Hroom) as (Hroom' & log' & Hs & He & Hk). exists log'.
    assert (Hr' : r' = (run_cb (scan_cb d) log r).2).
    { unfold r', ig_walk. change (S WALK_MAX_DEPTH) with 65%nat. by rewrite Hw. }
    rewrite Hr'. split; [done|]. split; [done|]. split; [|split].
    + eapply sublist_NoDup; [exact Hnd|]. clear -Hs. induction Hs; by constructor.
    + intros f st Hf. eapply Hin, elem_of_sublist; done.
    + intros f st Hf%Hin. by apply (Hk (f, st)).
Qed.

(** The record of a readable file found by the walk. *)
Definition recorded (d : disk) (base : cstring) (recursive : bool) (e : ig_scan_entry) : Prop :=
  ∃ st c, found (d_lstat d) (d_readdir d) recursive 65 (nbase base) (se_path e) st ∧
    d_contents d (se_path e) = Some c ∧ e = ScanEntry (se_path e) (hex (sha256 c)) (fst_mtime st) (fst_size st).

Lemma entry_recorded d base recursive (log : list (cstring * file_stat)) e : plain_listings d →
  (∀ f st, (f, st) ∈ log → found (d_lstat d) (d_readdir d) recursive 65 (nbase base) f st) →
  e ∈ omap (entry_of d) log → recorded d base recursive e.
Proof.
  intros Hd Hin. rewrite list_elem_of_omap. unfold entry_of.
  intros ([f st] & Hf & (c & Hc & ->)%fmap_Some). cbn [fst snd] in *. apply Hin in Hf.
  unfold recorded. cbn [se_path]. rewrite (good_path_strncpy f) by by eapply found_good. by exists st, c.
Qed.

Lemma recorded_entry d base recursive (log : list (cstring * file_stat)) r e : plain_listings d →
  (∀ f st, found (d_lstat d) (d_readdir d) recursive 65 (nbase base) f st → (f, st) ∈ log ∨ refused d r f) →
  recorded d base recursive e → e ∈ omap (entry_of d) log ∨ refused d r (se_path e).
Proof.
  intros Hd Hin (st & c & Hf & Hc & He). destruct (Hin _ _ Hf) as [Hl|]; [left|by right].
  apply list_elem_of_omap. exists (se_path e, st). split; [done|]. unfold entry_of. cbn [fst snd]. rewrite Hc.
  cbn [fmap option_fmap option_map]. rewrite good_path_strncpy by by eapply found_good. by rewrite <- He.
Qed.

(** The scan of any watches, step by step. *)
Lemma scan_watches d watches : plain_listings d → bounded_memory d → ∀ r, has_room r →
  let r' := fold_left (λ out '(path, recursive),
              (ig_walk (d_lstat d) (d_readdir d) (scan_cb d) recursive path out).2) watches r in
  has_room r' ∧ (∃ new, sr_entries r' = sr_entries r ++ new) ∧
  (∀ e, e ∈ sr_entries r' → e ∈ sr_entries r ∨ ∃ base rc, (base, rc) ∈ watches ∧ recorded d base rc e) ∧
  ∀ base rc e, (base, rc) ∈ watches → scannable d base rc → recorded d base rc e →
    e ∈ sr_entries r' ∨ refused d r' (se_path e).
Proof.
  intros Hl Hd. induction watches as [|[base rc] ws IH]; intros r Hr; cbn [fold_left].
  { split; [done|]. split; [exists []; by rewrite app_nil_r|]. split; [by left|]. by intros ? ? ? ?%elem_of_nil. }
  destruct (scan_watch_sound d base rc r Hl Hd Hr) as (log & Hr1 & He1 & Hin).
  set (r1 := (ig_walk _ _ _ _ _ r).2) in *. destruct (IH r1 Hr1) as (Hr2 & [new Hnew] & Hsound & Hcomp).
  split; [done|]. split; [|split].
  - eexists. by rewrite Hnew, He1, <- app_assoc.
  - intros e [He|(b & c & Hb & He)]%Hsound; [|right; exists b, c; split; [by right|done]].
    rewrite He1, elem_of_app in He. destruct He as [He|He]; [by left|]. right. exists base, rc. split; [by left|].
    by eapply entry_recorded.
  - intros b c e [[= -> ->]|Hb]%elem_of_cons Hs He; [|by eapply Hcomp].
    destruct (scan_watch d base rc r Hl Hd Hs Hr) as (log2 & _ & He2 & _ & _ & Hall). fold r1 in He2.
    destruct (recorded_entry d base rc log2 r1 e Hl Hall He) as [Hin2|Hno]; [left|right].
    + rewrite Hnew, He2. apply elem_of_app. left. apply elem_of_app. by right.
    + eapply refused_later; [|exact Hno]. unfold sr_count. rewrite Hnew, length_app. lia.
Qed.

Lemma empty_has_room : has_room scan_result_empty.
Proof. split; [by left|done]. Qed.

(** What the scan of any watches records, as a set: overlapping watches record a
    file once each. *)
Lemma scan_entries_sound d watches e : plain_listings d → bounded_memory d →
  e ∈ sr_entries (ig_baseline_db_build d scan_result_empty watches).2 →
  ∃ base recursive, (base, recursive) ∈ watches ∧ recorded d base recursive e.
Proof.
  intros Hl Hd He. destruct (scan_watches d watches Hl Hd scan_result_empty empty_has_room) as (_ & _ & Hs & _).
  by destruct (Hs e He) as [?%elem_of_nil|].
Qed.
Lemma scan_entries_complete d watches base recursive e : plain_listings d → bounded_memory d →
  (base, recursive) ∈ watches → scannable d base recursive → recorded d base recursive e →
  let r := (ig_baseline_db_build d scan_result_empty watches).2 in e ∈ sr_entries r ∨ refused d r (se_path e).
Proof.
  intros Hl Hd Hw Hs. destruct (scan_watches d watches Hl Hd scan_result_empty empty_has_room) as (_ & _ & _ & Hc).
  by apply (Hc base recursive e).
Qed.

(** ** Properties *)

(** [C16] The integrity database is a map from paths to hashes: for any
    sequence of checks, updates and removals, each on its own state of the
    file system and of the memory, the array with its linear searches, in-place
    updates, doubling growth and swap-with-last removal gives the results of the
    map, keeps one entry per path and never writes past its capacity, whichever
    calls of [realloc] fail. An update of a known path always takes; one of a new
    path is dropped exactly when the array is full and [realloc] does not give the
    doubled size. A check answers MATCH or MISMATCH exactly as the recorded digest and
    the file's present digest agree in hexadecimal, NEW without a record, ERROR when
    the file cannot be read. Of the memory it is used that [realloc] gives no block
    larger than [PTRDIFF_MAX], so that the doubled [int] never goes negative; of the
    paths that they are C strings that fit. *)
Theorem baseline_db_refines_map (ops : list (disk * db_op)) (db : ig_scan_result) (b : baseline_spec)
    (Hdb : refines db b) (Hops : Forall (λ o, bounded_memory o.1 ∧ good_path (op_path o.2)) ops) :
  (db_run ops db).1 = (spec_run ops b).1 ∧ refines (db_run ops db).2 (spec_run ops b).2.
Proof.
  revert db b Hdb. induction Hops as [|[d o] ops [Hd Hp] Hps IH]; intros db b Hdb; [done|].
  cbn [db_run spec_run]. destruct (db_step_refines d o db b Hd Hdb Hp) as [Hr Hdb'].
  destruct (db_step d o db) as [r1 db1], (spec_step d o b) as [r2 b1]. cbn [fst snd] in *. subst r2.
  destruct (IH db1 b1 Hdb') as [Hrs Hdb2].
  destruct (db_run ops db1), (spec_run ops b1). cbn [fst snd] in *. by subst.
Qed.

(** [C27] The initial scan records the watched tree: on a tree whose
    directories have distinct inode numbers (the walk tells directories apart by
    inode number alone), the database built for a watch is a map whose every entry is
    that of a regular file within reach that can be read, with its hash, modification
    time and size; and every such file has its entry, except a file for which the
    array, full at that moment, was refused the memory to grow: the scan skips it
    and goes on. *)
Theorem scan_records_every_file (d : disk) (base : cstring) (recursive : bool)
    (Hlist : plain_listings d) (Hmem : bounded_memory d) (Htree : scannable d base recursive) :
  let db := (ig_baseline_db_build d scan_result_empty [(base, recursive)]).2 in
  ∃ b, refines db b ∧
    (∀ p e, bs_map b !! p = Some e → se_path e = p ∧ recorded d base recursive e) ∧
    ∀ e, recorded d base recursive e → bs_map b !! se_path e = Some e ∨ refused d db (se_path e).
Proof.
  intros db. destruct (scan_watch d base recursive scan_result_empty Hlist Hmem Htree empty_has_room)
    as (log & Hroom & He & Hnd & Hin & Hall).
  assert (Hgood : Forall (λ f : cstring * file_stat, good_path f.1) log).
  { apply Forall_forall. intros [f st] Hf. by eapply found_good, Hin. }
  destruct (omap_paths d log Hgood Hnd) as [Hnd' _].
  unfold db, ig_baseline_db_build, ig_baseline_scan. cbn [fold_left snd].
  set (r := (ig_walk _ _ _ _ _ _).2) in *. cbn [sr_entries scan_result_empty app] in He.
  destruct (holds_exists (sr_entries r)) as [m Hm]; [by rewrite He|].
  exists (BaselineSpec m (sr_capacity r)). split; [split; [split; [by rewrite He|exact Hroom]|by split]|]. split.
  - intros p e [Hp <-]%Hm. split; [done|]. rewrite He in Hp. by eapply entry_recorded.
  - intros e Hrec. destruct (recorded_entry d base recursive log r e Hlist Hall Hrec) as [Hin'|]; [left|by right].
    apply Hm. split; [by rewrite He|done].
Qed.

(** Overlapping watches break the map: when two watches reach a file the
    scan records it twice, and removing it takes out one record only, so a
    deleted file stays in the baseline (and a file created again under that
    name is compared with the hash of the old one). *)
Theorem duplicate_entry_survives_remove (db : ig_scan_result) l1 x l2 y l3
    (Hdup : sr_entries db = l1 ++ x :: l2 ++ y :: l3) (Hpath : se_path x = se_path y) :
  se_path x ∈ se_path <$> sr_entries (ig_baseline_db_remove db (se_path x)).
Proof.
  unfold ig_baseline_db_remove. destruct (find_index (has_path (se_path x)) (sr_entries db)) as [i|] eqn:Hi.
  - destruct (find_index_split _ _ _ Hi) as (k1 & z & k2 & Hl & -> & Hz).
    rewrite Hl. cbn [sr_entries]. rewrite (swap_remove_perm k1 z k2).
    assert (Hperm : se_path <$> l1 ++ l2 ++ l3 ++ [x; y] ≡ₚ se_path <$> k1 ++ k2 ++ [z]).
    { apply fmap_Permutation. trans (sr_entries db); [rewrite Hdup|rewrite Hl; solve_Permutation].
      solve_Permutation. }
    assert (Hp : se_path z :: (se_path <$> l1 ++ l2 ++ l3) ++ [se_path z] ≡ₚ se_path z :: (se_path <$> k1 ++ k2)).
    { rewrite !fmap_app in *. cbn in Hperm. rewrite <- Hpath, <- Hz in Hperm.
      trans ((se_path <$> l1) ++ (se_path <$> l2) ++ (se_path <$> l3) ++ [se_path z; se_path z]); [solve_Permutation|].
      rewrite Hperm. solve_Permutation. }
    apply Permutation_cons_inv in Hp. rewrite <- Hz, <- Hp. apply elem_of_app. right. by left.
  - apply find_index_absent in Hi. destruct Hi. rewrite Hdup. apply list_elem_of_fmap_2, elem_of_app. right. by left.
Qed.
End baseline.

(** ** Sample runs *)

Definition toy_digest (c : list Z) : list Z := [Z.of_nat (length c) mod 256; fold_left Z.add c 0 mod 256].
Definition srv_disk (db_contents : list Z) : disk :=
  Disk (table_find srv_stats) (table_find srv_stats) (table_find srv_dirs)
    (table_find [(lit "/srv/a.conf", [1; 2; 3]); (lit "/srv/data/b.db", db_contents)])
    (λ _ n, n <? 2 ^ 40).

Lemma srv_bounded c : bounded_memory (srv_disk c).
Proof. intros p n Hn. apply Z.ltb_ge. lia. Qed.
Definition b_db : cstring := lit "/srv/data/b.db".

Lemma b_db_good : good_path b_db.
Proof. split; [repeat constructor; discriminate|]. by apply (bool_decide_unpack _). Qed.

Definition tamper_run : list (disk * db_op) :=
  [(srv_disk [7; 7], OpUpdate b_db); (srv_disk [7; 7], OpCheck b_db); (srv_disk [9; 7], OpCheck b_db);
   (srv_disk [9; 7], OpRemove b_db); (srv_disk [9; 7], OpCheck b_db)].

Definition empty_spec : baseline_spec := BaselineSpec ∅ 0.

Lemma empty_refines : refines scan_result_empty empty_spec.
Proof.
  split; [split; [constructor|exact empty_has_room]|]. split; [|done].
  intros p e. cbn. rewrite lookup_empty, elem_of_nil. naive_solver.
Qed.

Lemma baseline_db_refines_map_witness :
  ((fst ∘ fst) <$> omap id (db_run toy_digest tamper_run scan_result_empty).1) =
    [IG_INTEGRITY_MATCH; IG_INTEGRITY_MISMATCH; IG_INTEGRITY_NEW] ∧
  (db_run toy_digest tamper_run scan_result_empty).1 = (spec_run toy_digest tamper_run empty_spec).1 ∧
  refines (db_run toy_digest tamper_run scan_result_empty).2 (spec_run toy_digest tamper_run empty_spec).2.
Proof.
  split; [vm_compute; reflexivity|].
  apply (baseline_db_refines_map toy_digest); [exact empty_refines|].
  do 5 (constructor; [exact (conj (srv_bounded _) b_db_good)|]). constructor.
Defined.

(** Where memory is given for any size an array of less than [2^30] entries asks
    for, nothing is refused. *)
Lemma srv_not_refused c r p : sr_count r < 256 → ¬ refused (srv_disk c) r p.
Proof.
  intros Hr (cap & [->|(k & Hk & ->)] & Hle & Hno); [done|].
  assert (2 ^ 8 ≤ 2 ^ k) by (apply Z.pow_le_mono_r; lia). lia.
Qed.

Lemma srv_scannable c : scannable (srv_disk c) (lit "/srv") true.
Proof. exact (srv_inode_inj 65 _). Qed.

Lemma scan_records_every_file_witness :
  let db := (ig_baseline_db_build toy_digest (srv_disk [7; 7]) scan_result_empty [(lit "/srv", true)]).2 in
  sr_count db = 2 ∧ (∀ p, ¬ refused (srv_disk [7; 7]) db p) ∧
  ∃ b, refines db b ∧
    (∀ p e, bs_map b !! p = Some e → se_path e = p ∧ recorded toy_digest (srv_disk [7; 7]) (lit "/srv") true e) ∧
    ∀ e, recorded toy_digest (srv_disk [7; 7]) (lit "/srv") true e →
      bs_map b !! se_path e = Some e ∨ refused (srv_disk [7; 7]) db (se_path e).
Proof.
  split; [vm_compute; reflexivity|]. split; [intros p; by apply srv_not_refused|].
  apply (scan_records_every_file toy_digest); [exact srv_readdir_ok|exact (srv_bounded _)|exact (srv_scannable _)].
Defined.

(** [/srv] and [/srv/data] both watched. *)
Definition overlap_db : ig_scan_result :=
  (ig_baseline_db_build toy_digest (srv_disk [7; 7]) scan_result_empty
     [(lit "/srv", true); (lit "/srv/data", true)]).2.

Lemma duplicate_entry_survives_remove_witness :
  (se_path <$> sr_entries overlap_db) = [lit "/srv/a.conf"; b_db; b_db] ∧
  b_db ∈ se_path <$> sr_entries (ig_baseline_db_remove overlap_db b_db).
Proof.
  split; [vm_compute; reflexivity|].
  apply (duplicate_entry_survives_remove overlap_db
    [ScanEntry (lit "/srv/a.conf") (hex (toy_digest [1; 2; 3])) 1700000000 10]
    (ScanEntry b_db (hex (toy_digest [7; 7])) 1700000000 10) []
    (ScanEntry b_db (hex (toy_digest [7; 7])) 1700000000 10) []); [vm_compute; reflexivity|done].
Defined.
