(* ===== verification/AgentMain.v ===== *)
(** * Main loop of the agent (main.c)

    What the agent does with an event and with SIGHUP: kernel events turned
    into queue events, the baseline kept up to date, events sent to the server
    with reconnection, and the reload of the watch list. Composes Baseline,
    TcpClient and the kernel module's client (LkmChardev). *)

From S2P Require Import Prelude Bytes Monitor Protocol Collector LkmPolicy ProcCache LkmEvents.
From S2P Require Import LkmAccess LkmChardev EbpfTrace TcpClient Walker Baseline.

Local Open Scope Z_scope.

(** ** Kernel events (lkm_event_thread) *)

(* @src main.c:178-183 lkm_event_thread *)
Definition event_type_of_op (op : Z) : ig_event_type :=
  if op =? IG_OP_WRITE then IG_EVENT_MODIFY
  else if op =? IG_OP_DELETE then IG_EVENT_DELETE
  else if op =? IG_OP_RENAME then IG_EVENT_MOVE
  else IG_EVENT_UNKNOWN.

(* @src main.c:198-220 lkm_event_thread *)
Definition chain_info_of `{ProcSource} (src : ig_lkm_chain_entry) : ig_proc_info :=
  let dst := ProcInfo (s32 (lc_pid src)) (s32 (lc_ppid src)) (lc_uid src) (lc_euid src) (s32 (lc_sid src))
               (strncpy (lc_tty src) 31) (strncpy (lc_comm src) 15) (strncpy (lc_exe src) 255)
               (strncpy (lc_cmdline src) 511) 0 (lc_start_time_ns src) in
  if bool_decide (pi_exe dst = []) || bool_decide (pi_cmdline dst = []) then pa_enrich dst else dst.

(* @src main.c:177-221 lkm_event_thread *)
Definition event_of_lkm `{ProcSource} (lev : ig_lkm_event) : ig_event :=
  let n := Nat.min (Z.to_nat (le_chain_depth lev)) IG_PA_MAX_DEPTH in
  let slots := chain_info_of <$> take n (le_chain lev) in
  let chain := PidChain (le_chain_depth lev) (if le_chain_truncated lev then 1 else 0)
                 (slots ++ replicate (IG_PA_MAX_DEPTH - length slots) proc_info_zero) in
  Event (event_type_of_op (le_op lev)) IG_SOURCE_LKM (strncpy (le_path lev) (IG_MAX_PATH - 1)) []
    (Z.quot (le_timestamp_ns lev) 1000000000) (le_dev lev) (le_ino lev) (s32 (le_blocked lev))
    (s32 (le_pid lev)) (le_uid lev)
    (if 0 <? ch_depth chain then pi_sid (default proc_info_zero (head (ch_chain chain))) else 0)
    (strncpy (le_comm lev) 15) chain.

(** ** The agent's globals *)

(** [g_agent_id] is [None] while the string is empty. *)
(* @src main.c:75-94 g_baseline_db *)
Record agent := Agent {
  ag_db : ig_scan_result; ag_cli : ig_tcp_client; ag_transport_ok : bool; ag_agent_id : option Z;
  ag_watches : list watch }.

Definition set_cli (c : ig_tcp_client) (s : agent) : agent :=
  Agent (ag_db s) c (ag_transport_ok s) (ag_agent_id s) (ag_watches s).
Definition set_ok (ok : bool) (s : agent) : agent :=
  Agent (ag_db s) (ag_cli s) ok (ag_agent_id s) (ag_watches s).
Definition set_id (id : Z) (s : agent) : agent :=
  Agent (ag_db s) (ag_cli s) (ag_transport_ok s) (Some id) (ag_watches s).
Definition set_db (db : ig_scan_result) (s : agent) : agent :=
  Agent db (ag_cli s) (ag_transport_ok s) (ag_agent_id s) (ag_watches s).
Definition set_watches (w : list watch) (s : agent) : agent :=
  Agent (ag_db s) (ag_cli s) (ag_transport_ok s) (ag_agent_id s) w.

Section main.
Variable inet_pton : cstring → option Z.
Variable sha256 : list Z → list Z.

(** [attempts]: what a reconnection would meet. *)
(* @src main.c:238-253 send_event_with_reconnect *)
Definition send_event_with_reconnect (s : agent) (ev : ig_event) (attempts : list attempt) : option agent :=
  match ag_transport_ok s, ag_agent_id s with
  | true, Some _ =>
      '(ret, cli) ← ig_tcp_send_event (ag_cli s) ev;
      let s := set_cli cli s in
      if ret =? -2 then
        let s := set_ok false s in
        '(rc, cli, _) ← ig_tcp_reconnect inet_pton cli attempts;
        let s := set_cli cli s in
        if rc =? 0 then
          let s := set_ok true (set_id (cli_agent_id cli) s) in
          '(_, cli) ← ig_tcp_send_event cli ev;
          Some (set_cli cli s)
        else Some s
      else Some s
  | _, _ => Some s
  end.

(* @src main.c:270-306 process_event *)
Definition update_baseline (d : disk) (db : ig_scan_result) (ev : ig_event) : ig_scan_result :=
  match ev_type ev with
  | IG_EVENT_MODIFY | IG_EVENT_CREATE => ig_baseline_db_update sha256 d db (ev_path ev)
  | IG_EVENT_DELETE =>
      let '(r, _, _) := ig_baseline_check_file sha256 d db (ev_path ev) in
      if bool_decide (r = IG_INTEGRITY_MATCH) then db else ig_baseline_db_remove db (ev_path ev)
  | _ => db
  end.

(* @src main.c:255-309 process_event *)
Definition process_event (s : agent) (d : disk) (ev : ig_event) (attempts : list attempt) : option agent :=
  send_event_with_reconnect (set_db (update_baseline d (ag_db s) ev) s) ev attempts.

(** The main loop on the events it pops, each with the file system and the
    network of its moment. *)
(* @src main.c:961-967 main *)
Fixpoint process_events (s : agent) (evs : list (ig_event * disk * list attempt)) : option agent :=
  match evs with
  | [] => Some s
  | (ev, d, attempts) :: evs => s ← process_event s d ev attempts; process_events s evs
  end.

(** ** Reload (SIGHUP), the kernel module's part *)

(** [new]: the configuration loaded, [None] when loading fails; [stat]: device
    and inode of the baseline's files now; [kzalloc]: whether the kernel has memory
    for the policy of the baseline's [i]-th file. *)
(* @src main.c:378-396 reload_config *)
Definition reload_config_lkm (jhash2 : list Z → Z → Z) (hash_min : Z → fin 256)
    (stat : cstring → option (Z * Z)) (kzalloc : nat → bool) (lkm_active : bool) (fd block : Z) (s : agent)
    (new : option (list watch)) : K (vec (list ig_policy_entry) 256) agent :=
  match new with
  | None => kret s
  | Some watches =>
      (if lkm_active then
         (let* _ := lkm_clear_all jhash2 hash_min fd in
          let* _ := lkm_add_from_baseline jhash2 hash_min stat fd
                      (with_memory kzalloc (se_path <$> sr_entries (ag_db s))) block in
          kret (set_watches watches s))
       else kret (set_watches watches s))%kmon
  end.
End main.

(** ** Events keep the agent's invariants *)

Definition wf_ev (ev : ig_event) : Prop := wf_event ev ∧ good_path (ev_path ev).

Definition agent_ok (s : agent) (b : baseline_spec) : Prop :=
  refines (ag_db s) b ∧ client_ok (ag_cli s).

Section main_facts.
Variable inet_pton : cstring → option Z.
Variable sha256 : list Z → list Z.
Hypothesis inet_pton_width : ∀ s ip, inet_pton s = Some ip → in_width 32 ip.

Lemma send_event_ok c ev : client_ok c → wf_event ev → ∃ rc c',
  ig_tcp_send_event c ev = Some (rc, c') ∧ client_ok c' ∧ same_client c c'.
Proof.
  intros Hok Hev. unfold ig_tcp_send_event. destruct (cli_connected c); cbn [negb]; [|by exists (-1), c].
  destruct (me_detected_by _ =? 0); [by exists 0, c|].
  pose proof Hok as (_ & _ & _ & _ & Hid & _).
  rewrite (run_writer_encodes _ _ _ (file_event_encodes _ (message_of_event_wf _ _ Hid Hev))).
  cbn [mbind option_bind]. case_bool_decide; [|by exists (-1), c].
  destruct (send_frame_ok c IG_MSG_FILE_EVENT (wire_file_event (message_of_event (cli_agent_id c) ev)) Hok)
    as (rc & c' & H1 & H2 & H3 & _). by exists rc, c'.
Qed.

Lemma reconnect_ok c attempts : client_ok c → ∃ rc c' waits,
  ig_tcp_reconnect inet_pton c attempts = Some (rc, c', waits) ∧ client_ok c' ∧ reconnected c c' rc.
Proof.
  intros Hok. destruct (reconnect_loop_spec inet_pton inet_pton_width 20 0 attempts
    (ig_tcp_disconnect_locked c)) as (rc & s' & waits & H & Hok' & Hrec & _); [by apply disconnect_ok|done|].
  by exists rc, s', waits.
Qed.

(** The outcomes of handing one event to the transport. *)
Lemma send_with_reconnect_ok s ev attempts : client_ok (ag_cli s) → wf_event ev → ∃ s',
  send_event_with_reconnect inet_pton s ev attempts = Some s' ∧ client_ok (ag_cli s') ∧
  ag_db s' = ag_db s ∧ (ag_transport_ok s = false → s' = s) ∧
  (ag_transport_ok s = true → ag_transport_ok s' = false → cli_connected (ag_cli s') = false).
Proof.
  intros Hok Hev. unfold send_event_with_reconnect.
  destruct (ag_transport_ok s) eqn:Hto; [|by exists s]. destruct (ag_agent_id s) as [id|] eqn:Hid.
  2: { exists s. split_and!; try done; intros; congruence. }
  destruct (send_event_ok (ag_cli s) ev Hok Hev) as (rc & c1 & -> & Hok1 & _). cbn [mbind option_bind].
  destruct (rc =? -2).
  2: { exists (set_cli c1 s). split_and!; try done; cbn; intros; congruence. }
  destruct (reconnect_ok c1 attempts Hok1) as (rc2 & c2 & waits & -> & Hok2 & Hrec). cbn [mbind option_bind].
  destruct Hrec as [[-> Hcon]|(-> & Hcon & _)]; cbn [Z.eqb].
  - destruct (send_event_ok c2 ev Hok2 Hev) as (rc3 & c3 & -> & Hok3 & _). cbn [mbind option_bind].
    eexists. split; [done|]. split_and!; done.
  - eexists. split; [done|]. split_and!; done.
Qed.

(** What an event does to the map of hashes. *)
Definition spec_event (d : disk) (b : baseline_spec) (ev : ig_event) : baseline_spec :=
  match ev_type ev with
  | IG_EVENT_MODIFY | IG_EVENT_CREATE => spec_update sha256 d b (ev_path ev)
  | IG_EVENT_DELETE =>
      if bool_decide ((spec_check sha256 d b (ev_path ev)).1.1 = IG_INTEGRITY_MATCH) then b
      else bs_update (delete (ev_path ev)) b
  | _ => b
  end.

Lemma update_baseline_refines d db b ev : bounded_memory d → refines db b → good_path (ev_path ev) →
  refines (update_baseline sha256 d db ev) (spec_event d b ev).
Proof.
  intros Hd Hr Hp. unfold update_baseline, spec_event. destruct (ev_type ev); try done.
  - by apply update_refines.
  - by apply update_refines.
  - rewrite (check_refines sha256 d db b _ Hr). destruct (spec_check sha256 d b (ev_path ev)) as [[r e] a].
    cbn [fst]. case_bool_decide; [done|]. by apply remove_refines.
Qed.

Fixpoint spec_events (b : baseline_spec) (evs : list (ig_event * disk * list attempt)) :=
  match evs with
  | [] => b
  | (ev, d, _) :: evs => spec_events (spec_event d b ev) evs
  end.

(** ** Properties *)

(** [C17] The main loop keeps its state right on every event: for any sequence
    of well-formed events, file systems, memory and network behaviours, processing
    terminates without a fault, the baseline stays the map the events
    prescribe (a modified or created file is rehashed, a deleted one is
    forgotten unless its content is still there unchanged), and the connection
    invariant holds. An event that finds no memory for the record of a new file
    leaves the map as it is; the only thing used of the memory is that [realloc]
    gives no block larger than [PTRDIFF_MAX]. *)
Theorem process_events_keep_invariants (s : agent) (b : baseline_spec)
    (evs : list (ig_event * disk * list attempt))
    (Hs : agent_ok s b) (Hevs : Forall (λ e, wf_ev e.1.1 ∧ bounded_memory e.1.2) evs) :
  ∃ s', process_events inet_pton sha256 s evs = Some s' ∧ agent_ok s' (spec_events b evs).
Proof.
  revert s b Hs. induction Hevs as [|[[ev d] att] evs [[Hev Hp] Hd] _ IH]; intros s b [Hdb Hcli].
  { by exists s. }
  cbn [process_events spec_events]. unfold process_event. cbn [fst snd] in *.
  set (s1 := set_db _ s).
  destruct (send_with_reconnect_ok s1 ev att Hcli Hev) as (s2 & -> & Hcli2 & Hdb2 & _).
  cbn [mbind option_bind]. apply IH. split; [|done]. rewrite Hdb2. by apply update_baseline_refines.
Qed.

(** Losing the transport is final: once a reconnection has failed, no
    event is sent any more, whatever becomes of the server: every later event
    still updates the baseline, but the client is left untouched. *)
Theorem lost_transport_is_final (s : agent) (evs : list (ig_event * disk * list attempt))
    (Hoff : ag_transport_ok s = false) :
  ∃ s', process_events inet_pton sha256 s evs = Some s' ∧
    ag_transport_ok s' = false ∧ ag_cli s' = ag_cli s.
Proof.
  revert s Hoff. induction evs as [|[[ev d] att] evs IH]; intros s Hoff; [by exists s|].
  cbn [process_events]. unfold process_event, send_event_with_reconnect. cbn [set_db ag_transport_ok].
  rewrite Hoff. cbn [mbind option_bind]. apply (IH (set_db _ s)). done.
Qed.
End main_facts.

(** ** A kernel event, end to end *)

Definition wf_chain_entry (e : ig_lkm_chain_entry) : Prop :=
  in_width 32 (lc_pid e) ∧ in_width 64 (lc_start_time_ns e) ∧
  bytes (lc_comm e) ∧ bytes (lc_tty e) ∧ bytes (lc_exe e) ∧ bytes (lc_cmdline e).

(** The event struct the driver copies out: strings inside their arrays, a
    depth that counts slots of the chain. *)
Definition wf_lkm_event (lev : ig_lkm_event) : Prop :=
  (length (le_path lev) < 256)%nat ∧ bytes (le_path lev) ∧ is_cstring (le_path lev) ∧ bytes (le_comm lev) ∧
  in_width 64 (le_dev lev) ∧ in_width 64 (le_ino lev) ∧ in_width 32 (le_pid lev) ∧
  0 ≤ le_blocked lev < 2 ^ 31 ∧ 0 ≤ le_chain_depth lev ≤ Z.of_nat (length (le_chain lev)) ∧
  (length (le_chain lev) ≤ IG_PA_MAX_DEPTH)%nat ∧ Forall wf_chain_entry (le_chain lev).

Lemma u32_s32 z : in_width 32 z → u32 (s32 z) = z.
Proof.
  intros H. unfold u32, s32, wrap, in_width in *. rewrite Zminus_mod_idemp_l.
  replace (z + 2 ^ 31 - 2 ^ 31) with z by lia. by apply Z.mod_small.
Qed.

Section kernel_events.
Context `{HP : ProcSource} {HL : ProcSourceLaws HP}.

Lemma chain_info_ok e : wf_chain_entry e →
  wf_proc_info (chain_info_of e) ∧ u32 (pi_pid (chain_info_of e)) = lc_pid e.
Proof.
  intros (Hp & Hs & Hc & Ht & He & Hl). unfold chain_info_of. set (dst := ProcInfo _ _ _ _ _ _ _ _ _ _ _).
  assert (Hd : wf_proc_info dst).
  { split_and!; try done; by apply Forall_take, bytes_cstr. }
  destruct (_ || _).
  - split; [by apply pa_enrich_wf|]. rewrite pa_enrich_pid. by apply u32_s32.
  - split; [done|]. by apply u32_s32.
Qed.

Lemma event_of_lkm_wf lev : wf_lkm_event lev → wf_event (event_of_lkm lev).
Proof.
  intros (Hpl & Hpb & _ & Hcb & Hd & Hi & _ & _ & Hdep & Hlen & Hch).
  unfold event_of_lkm, wf_event. cbn [ev_path ev_filename ev_comm ev_dev ev_ino ev_chain].
  set (n := Nat.min _ _).
  assert (Hslots : (length (chain_info_of <$> take n (le_chain lev)) ≤ IG_PA_MAX_DEPTH)%nat)
    by (rewrite length_fmap, length_take; lia).
  split_and!; try done.
  - pose proof (strncpy_length (le_path lev) (IG_MAX_PATH - 1)). unfold IG_MAX_PATH in *. lia.
  - by apply Forall_take, bytes_cstr.
  - cbn. lia.
  - by apply Forall_take, bytes_cstr.
  - split; [|split].
    + cbn [ch_chain]. rewrite length_app, length_replicate. lia.
    + cbn [ch_depth]. unfold IG_PA_MAX_DEPTH in *. lia.
    + cbn [ch_chain]. apply Forall_app. split.
      * apply Forall_fmap. apply Forall_take. eapply Forall_impl; [exact Hch|].
        intros e He. by apply chain_info_ok.
      * apply Forall_replicate. unfold wf_proc_info. split_and!; try constructor; done.
Qed.

(** What the collector sees of a kernel event. *)
Definition seen_of_lkm (id : Z) (lev : ig_lkm_event) : FileEventMsg :=
  event_seen (message_of_event id (event_of_lkm lev)).

Lemma lkm_event_seen id lev : wf_lkm_event lev →
  let seen := seen_of_lkm id lev in
  ge_target_dev seen = le_dev lev ∧ ge_target_ino seen = le_ino lev ∧
  ge_file_path seen = le_path lev ∧ ge_event_type seen = map_event_type (event_type_of_op (le_op lev)) ∧
  ge_blocked seen = negb (le_blocked lev =? 0) ∧ ge_pid seen = le_pid lev ∧
  ge_detected_by seen = IG_MON_LKM ∧
  (gp_pid <$> gc_entries (ge_chain seen)) = lc_pid <$> take (Z.to_nat (le_chain_depth lev)) (le_chain lev).
Proof.
  intros (Hpl & Hpb & Hpc & _ & _ & _ & Hpid & Hbl & Hdep & Hlen & Hch). unfold seen_of_lkm.
  set (ev := event_of_lkm lev). cbv zeta.
  split; [done|]. split; [done|]. split; [|split; [done|split; [|split; [|split; [done|]]]]].
  - unfold event_seen, message_of_event, sent_str, src_bytes. cbn [ge_file_path me_file_path me_file_path_len default].
    subst ev. unfold event_of_lkm. cbn [ev_path].
    rewrite strncpy_id by (done || (unfold IG_MAX_PATH; lia)).
    unfold u16. rewrite wrap_small by (unfold in_width; lia). rewrite Nat2Z.id. by apply take_ge.
  - unfold event_seen, message_of_event. cbn [ge_blocked me_blocked]. subst ev. unfold event_of_lkm. cbn [ev_blocked].
    rewrite s32_small by lia. by destruct (le_blocked lev =? 0).
  - unfold event_seen, message_of_event. cbn [ge_pid me_pid]. subst ev. unfold event_of_lkm. cbn [ev_pid].
    by apply u32_s32.
  - unfold event_seen, message_of_event. cbn [ge_chain gc_entries me_chain chain_sent chain_depth].
    subst ev. unfold event_of_lkm. cbn [ev_chain ch_depth ch_chain].
    change (Z.of_nat IG_PA_MAX_DEPTH) with 16. unfold IG_PA_MAX_DEPTH in *.
    destruct (Z.ltb_spec 16 (le_chain_depth lev)); [lia|].
    unfold u8. rewrite wrap_small by (unfold in_width; lia).
    set (n := Z.to_nat (le_chain_depth lev)). replace (Nat.min n 16) with n by lia.
    rewrite take_app_le by (rewrite length_fmap, length_take; lia).
    rewrite (take_ge (chain_info_of <$> _)) by (rewrite length_fmap, length_take; lia).
    rewrite <- !list_fmap_compose. apply list_fmap_ext. intros i e He. cbn [compose gp_pid proc_seen].
    apply chain_info_ok. rewrite Forall_forall in Hch. apply Hch.
    apply list_elem_of_lookup_2, elem_of_take in He as (j & Hj & _). by eapply list_elem_of_lookup_2.
Qed.

(** It leaves the agent as one frame. *)
Lemma lkm_event_sent s lev : wf_lkm_event lev → in_width 64 (cli_agent_id s) → cli_connected s = true →
  let payload := wire_file_event (message_of_event (cli_agent_id s) (event_of_lkm lev)) in
  ig_tcp_send_event s (event_of_lkm lev) = ig_tcp_send_frame_locked s IG_MSG_FILE_EVENT payload ∧
  Z.of_nat (length payload) ≤ IG_MAX_PAYLOAD ∧
  DecodeFileEvent (RState payload 0 0) = Ok (seen_of_lkm (cli_agent_id s) lev) (RState [] 0 0).
Proof.
  intros Hlev Hid Hcon. pose proof (event_of_lkm_wf lev Hlev) as Hev.
  pose proof (message_of_event_wf _ _ Hid Hev) as Hwf. pose proof (wire_event_fits _ _ Hid Hev) as Hfit.
  cbv zeta. split; [|split; [done|by apply DecodeFileEvent_wire]].
  unfold ig_tcp_send_event. rewrite Hcon. cbn [negb].
  change (me_detected_by _) with IG_MON_LKM. cbn [Z.eqb IG_MON_LKM].
  rewrite (run_writer_encodes _ _ _ (file_event_encodes _ Hwf)).
  rewrite bool_decide_eq_true_2; [done|]. lia.
Qed.

(** [C8] From the kernel module to the server: an event read from the device
    becomes, on a connected client, one FILE_EVENT frame whose payload the
    collector decodes into the kernel's own facts: the device, inode, path,
    operation, whether it was blocked, the process, and the pids of its whole
    ancestry in order. *)
Theorem kernel_event_reaches_collector (s : ig_tcp_client) (lev : ig_lkm_event)
    (Hlev : wf_lkm_event lev) (Hid : in_width 64 (cli_agent_id s)) (Hcon : cli_connected s = true) :
  ∃ payload seen,
    ig_tcp_send_event s (event_of_lkm lev) = ig_tcp_send_frame_locked s IG_MSG_FILE_EVENT payload ∧
    Z.of_nat (length payload) ≤ IG_MAX_PAYLOAD ∧
    DecodeFileEvent (RState payload 0 0) = Ok seen (RState [] 0 0) ∧
    ge_target_dev seen = le_dev lev ∧ ge_target_ino seen = le_ino lev ∧
    ge_file_path seen = le_path lev ∧ ge_event_type seen = map_event_type (event_type_of_op (le_op lev)) ∧
    ge_blocked seen = negb (le_blocked lev =? 0) ∧ ge_pid seen = le_pid lev ∧
    ge_detected_by seen = IG_MON_LKM ∧
    (gp_pid <$> gc_entries (ge_chain seen)) = lc_pid <$> take (Z.to_nat (le_chain_depth lev)) (le_chain lev).
Proof.
  destruct (lkm_event_sent s lev Hlev Hid Hcon) as (H1 & H2 & H3).
  eexists _, _. split; [exact H1|]. split; [exact H2|]. split; [exact H3|]. by apply lkm_event_seen.
Qed.
End kernel_events.

(** ** Reload *)

Section reload.
Variable jhash2 : list Z → Z → Z.
Variable hash_min : Z → fin 256.
#[local] Instance reload_store : PolicyStore (vec (list ig_policy_entry) 256) :=
  policy_table_store jhash2 hash_min.

Lemma clear_all_ok fd s m : 0 ≤ fd → represents jhash2 hash_min (k_policy s) m →
  ∃ t', lkm_clear_all jhash2 hash_min fd s = Some (0, set_table t' s) ∧ represents jhash2 hash_min t' ∅.
Proof.
  intros Hfd Hr. destruct (policy_exec_represents jhash2 hash_min (k_policy s) m OpClear Hr) as [Hr' _].
  exists (inode_policy_clear (k_policy s)). split; [|exact Hr'].
  unfold lkm_clear_all, ioctl. by destruct (Z.ltb_spec fd 0); [lia|].
Qed.

(** Reloading does not apply the new watch list to the kernel: after
    SIGHUP the policy table holds exactly the files of the baseline built at
    startup (and since extended by events) that the kernel has memory for,
    whatever paths the new configuration adds or removes. A file of a newly watched
    path that is not in the baseline is not protected, and a file whose watch was
    removed stays so. *)
Theorem reload_ignores_new_watches (stat : cstring → option (Z * Z)) (kzalloc : nat → bool) (fd block : Z)
    (s : agent) (new : list watch) (k : lkm (vec (list ig_policy_entry) 256)) (m : gmap (Z * Z) ig_policy_entry)
    (Hfd : 0 ≤ fd) (Hk : represents jhash2 hash_min (k_policy k) m) :
  let db := with_memory kzalloc (se_path <$> sr_entries (ag_db s)) in
  ∃ k', reload_config_lkm jhash2 hash_min stat kzalloc true fd block s (Some new) k = Some (set_watches new s, k') ∧
    (∀ dev ino, loads_key stat db (dev, ino) →
       inode_policy_lookup (k_policy k') dev ino IG_OP_WRITE = Some block) ∧
    ∀ dev ino op, ¬ loads_key stat db (dev, ino) → inode_policy_lookup (k_policy k') dev ino op = None.
Proof.
  intros db. destruct (clear_all_ok fd k m Hfd Hk) as (t1 & Hc & Hr1).
  destruct (load_refines jhash2 hash_min stat fd block db Hfd (set_table t1 k) ∅ Hr1) as (t2 & Ha & Hr2).
  destruct Hr2 as [_ Hm2]. exists (set_table t2 (set_table t1 k)). split; [|split].
  - unfold reload_config_lkm, kbind. rewrite Hc. cbn [mbind option_bind]. fold db. by rewrite Ha.
  - intros dev ino Hl. destruct (load_map_protects stat block db (dev, ino) ∅) as (pe & Hpe & Hmask & Hblock);
      [by left|]. unfold inode_policy_lookup.
    change (ps_find _ _ _) with (find_entry jhash2 hash_min t2 dev ino).
    rewrite Hm2, Hpe, Hmask, Hblock. done.
  - intros dev ino op Hno. unfold inode_policy_lookup.
    change (ps_find _ _ _) with (find_entry jhash2 hash_min t2 dev ino). rewrite Hm2.
    destruct ((load_map stat block db ∅).1 !! (dev, ino)) as [pe|] eqn:Hpe; [|done]. exfalso.
    destruct (load_map_only stat block db (dev, ino) ∅) as [[x Hx]|Hl]; [by eexists|by rewrite lookup_empty in Hx|done].
Qed.
End reload.

(** ** Sample runs *)

Definition srv_agent : agent := Agent scan_result_empty sample_client true (Some 7) [(lit "/srv", true)].
Definition db_event (t : ig_event_type) : ig_event :=
  Event t IG_SOURCE_LKM b_db [] 1700000000 8388609 6 0 4242 0 4242 (lit "vi") pid_chain_zero.
Definition srv_events : list (ig_event * disk * list attempt) :=
  [(db_event IG_EVENT_CREATE, srv_disk [7; 7], []); (db_event IG_EVENT_DELETE, srv_disk [7; 7], []);
   (db_event IG_EVENT_MODIFY, srv_disk [9; 7], []); (db_event IG_EVENT_DELETE, srv_disk [8; 7], [])].

Lemma db_event_wf t : wf_ev (db_event t).
Proof.
  split; [|exact b_db_good]. split_and!; try (apply bytesb_spec; vm_compute; reflexivity);
    try (apply fits_in_width; vm_compute; reflexivity); try (cbn; lia).
  unfold wf_chain. wf_closed.
Qed.

Lemma sample_client_ok : client_ok sample_client.
Proof. split_and!; first [done | by vm_compute | unfold in_width; cbn; lia]. Qed.

Lemma process_events_keep_invariants_witness :
  agent_ok srv_agent empty_spec ∧
  ∃ s', process_events (λ _, Some 0) toy_digest srv_agent srv_events = Some s' ∧
    agent_ok s' (spec_events toy_digest empty_spec srv_events).
Proof.
  assert (Hs : agent_ok srv_agent empty_spec) by (split; [exact empty_refines|exact sample_client_ok]).
  split; [exact Hs|].
  apply (process_events_keep_invariants (λ _, Some 0) toy_digest); [|exact Hs|].
  - intros _ ip [= <-]. unfold in_width. lia.
  - do 4 (constructor; [exact (conj (db_event_wf _) (srv_bounded _))|]). constructor.
Defined.

Lemma lost_transport_is_final_witness :
  ∃ s', process_events (λ _, Some 0) toy_digest (set_ok false srv_agent) srv_events = Some s' ∧
    ag_transport_ok s' = false ∧ ag_cli s' = sample_client.
Proof.
  exact (lost_transport_is_final (λ _, Some 0) toy_digest (set_ok false srv_agent) srv_events eq_refl).
Defined.

Definition sample_lkm_event : ig_lkm_event :=
  LkmEvent 8388609 131 IG_OP_DELETE 1 4242 0 (lit "rm") (lit "/etc/passwd") 1700000000123456789 2 false
    [LkmChainEntry 4242 900 0 0 900 (lit "rm") (lit "pts/0") 5 (lit "/bin/rm") (lit "rm /etc/passwd");
     LkmChainEntry 900 1 0 0 900 (lit "bash") (lit "pts/0") 4 (lit "/bin/bash") (lit "bash")].

Lemma sample_lkm_event_wf : wf_lkm_event sample_lkm_event.
Proof.
  split_and!; try (apply bytesb_spec; vm_compute; reflexivity);
    try (apply fits_in_width; vm_compute; reflexivity); try (cbn; lia);
    try (unfold IG_PA_MAX_DEPTH; cbn; lia).
  - repeat constructor; discriminate.
  - unfold sample_lkm_event. cbn [le_chain].
    repeat (constructor; [split_and!; first [apply bytesb_spec; vm_compute; reflexivity
                                            |apply fits_in_width; vm_compute; reflexivity]|]). constructor.
Qed.

Lemma kernel_event_reaches_collector_witness :
  ∃ payload seen,
    ig_tcp_send_event sample_client (@event_of_lkm no_proc sample_lkm_event) =
      ig_tcp_send_frame_locked sample_client IG_MSG_FILE_EVENT payload ∧
    Z.of_nat (length payload) ≤ IG_MAX_PAYLOAD ∧
    DecodeFileEvent (RState payload 0 0) = Ok seen (RState [] 0 0) ∧
    ge_target_dev seen = 8388609 ∧ ge_target_ino seen = 131 ∧
    ge_file_path seen = lit "/etc/passwd" ∧ ge_event_type seen = map_event_type (event_type_of_op IG_OP_DELETE) ∧
    ge_blocked seen = negb (1 =? 0) ∧ ge_pid seen = 4242 ∧ ge_detected_by seen = IG_MON_LKM ∧
    (gp_pid <$> gc_entries (ge_chain seen)) =
      lc_pid <$> take (Z.to_nat 2) (le_chain sample_lkm_event).
Proof.
  apply (@kernel_event_reaches_collector no_proc) with (s := sample_client) (lev := sample_lkm_event).
  - exact no_proc_laws.
  - exact sample_lkm_event_wf.
  - apply fits_in_width; vm_compute; reflexivity.
  - reflexivity.
Defined.

(** [/etc/passwd] is in the baseline; the new configuration watches [/srv] only. *)
Definition passwd_agent : agent :=
  Agent (ScanResult [ScanEntry (lit "/etc/passwd") (lit "00") 0 0] 256 0) sample_client true (Some 7)
    [(lit "/etc", true)].
Definition two_stat (p : cstring) : option (Z * Z) :=
  if decide (p = lit "/etc/passwd") then Some (0x801, 7)
  else if decide (p = lit "/srv/a.conf") then Some (0x801, 3) else None.

Lemma reload_ignores_new_watches_witness :
  ∃ k', reload_config_lkm (λ _ _, 0) hash_zero two_stat (λ _, true) true 4 IG_BLOCK_DENY passwd_agent
          (Some [(lit "/srv", true)]) (Lkm ig_policy_init (pc_index_init, stats_zero) [] false) =
        Some (set_watches [(lit "/srv", true)] passwd_agent, k') ∧
    @inode_policy_lookup _ (policy_table_store (λ _ _, 0) hash_zero) (k_policy k')
      (stat_dev_to_kernel 0x801) 7 IG_OP_WRITE = Some IG_BLOCK_DENY ∧
    @inode_policy_lookup _ (policy_table_store (λ _ _, 0) hash_zero) (k_policy k')
      (stat_dev_to_kernel 0x801) 3 IG_OP_WRITE = None.
Proof.
  destruct (reload_ignores_new_watches (λ _ _, 0) hash_zero two_stat (λ _, true) 4 IG_BLOCK_DENY passwd_agent
    [(lit "/srv", true)] (Lkm ig_policy_init (pc_index_init, stats_zero) [] false) ∅
    ltac:(lia) (represents_init (λ _ _, 0) hash_zero)) as (k' & Hk & Hin & Hout).
  exists k'. split; [exact Hk|]. split.
  - apply Hin. exists (lit "/etc/passwd"), 0x801, 7. split; [by left|]. by split.
  - apply Hout. intros (p & d & i & Hp & Hst & Heq).
    change (with_memory _ _) with [(lit "/etc/passwd", true)] in Hp.
    apply list_elem_of_singleton in Hp. injection Hp as ->.
    change (two_stat _) with (Some (0x801, 7)) in Hst. injection Hst as <- <-. discriminate Heq.
Defined.
