(* ===== verification/Heartbeat.v ===== *)
(** * The threads on the connection (transport/heartbeat.c, main.c)

    The heartbeat thread and the main thread share the client. A step here is one
    section under the client's lock, or the code before it: a message is encoded,
    with the agent's number as it is then, without the lock and sent later under it.
    What a thread has still to do - a buffer to send, [-2] returned and a reconnection
    due - is a program counter. The two uninterrupted runs are the functions of
    TcpClient and AgentMain. *)

From S2P Require Import Prelude Bytes Monitor Protocol TcpClient Walker Baseline AgentMain.

Local Open Scope Z_scope.

Section threads.
Variable inet_pton : cstring → option Z.

(** ** The main thread, in [send_event_with_reconnect] *)

(** [ig_tcp_send_event] up to the frame: what it returns at once, or the payload. *)
(* @src transport/tcp_client.c:494-530 ig_tcp_send_event *)
Definition event_buffer (s : ig_tcp_client) (ev : ig_event) : option (Z + list Z) :=
  if negb (cli_connected s) then Some (inl (-1))
  else if me_detected_by (message_of_event (cli_agent_id s) ev) =? 0 then Some (inl 0)
  else
    enc ← run_writer (Z.to_nat IG_MAX_PAYLOAD) (ig_file_event_encode (message_of_event (cli_agent_id s) ev));
    Some (match enc with None => inl (-1) | Some buf => inr buf end).

(** [MSend], [MLast]: the first and the second attempt have a payload to send. *)
Inductive main_pc := MIdle | MSend (ev : ig_event) (buf : list Z) | MReconnect (ev : ig_event) | MResend (ev : ig_event)
  | MLast (buf : list Z).

(** [ev]: the next event, when the thread is idle. *)
(* @src main.c:238-253 send_event_with_reconnect *)
Definition main_step (ev : ig_event) (attempts : list attempt) (pc : main_pc) (a : agent)
    : option (main_pc * agent) :=
  match pc with
  | MIdle =>
      match ag_transport_ok a, ag_agent_id a with
      | true, Some _ =>
          r ← event_buffer (ag_cli a) ev;
          Some (match r with inl _ => MIdle | inr buf => MSend ev buf end, a)
      | _, _ => Some (MIdle, a)
      end
  | MSend ev buf =>
      '(ret, cli) ← ig_tcp_send_frame_locked (ag_cli a) IG_MSG_FILE_EVENT buf;
      let a := set_cli cli a in
      Some (if ret =? -2 then (MReconnect ev, set_ok false a) else (MIdle, a))
  | MReconnect ev =>
      '(rc, cli, _) ← ig_tcp_reconnect inet_pton (ag_cli a) attempts;
      let a := set_cli cli a in
      Some (if rc =? 0 then (MResend ev, set_ok true (set_id (cli_agent_id cli) a)) else (MIdle, a))
  | MResend ev =>
      r ← event_buffer (ag_cli a) ev;
      Some (match r with inl _ => MIdle | inr buf => MLast buf end, a)
  | MLast buf =>
      '(_, cli) ← ig_tcp_send_frame_locked (ag_cli a) IG_MSG_FILE_EVENT buf;
      Some (MIdle, set_cli cli a)
  end.

(** ** The heartbeat thread *)

Inductive hb_pc := HSleep | HSend (buf : list Z) | HReconnect | HStopped.

(** [running] before and after the sleep, the time, the attempts of a
    reconnection. *)
Record hb_input := HbInput {
  hi_before : bool; hi_after : bool; hi_now : Z; hi_attempts : list attempt }.

(* @src transport/heartbeat.c:7-52 ig_heartbeat_thread *)
Definition hb_step (i : hb_input) (pc : hb_pc) (cli : ig_tcp_client) : option (hb_pc * ig_tcp_client) :=
  match pc with
  | HStopped => Some (HStopped, cli)
  | HSleep =>
      if negb (hi_before i) || negb (hi_after i) then Some (HStopped, cli)
      else
        enc ← run_writer 13 (ig_heartbeat_encode (MsgHeartbeat (cli_agent_id cli) IG_STATUS_HEALTHY (u32 (hi_now i))));
        Some (match enc with None => HSleep | Some buf => HSend buf end, cli)
  | HSend buf =>
      '(ret, cli) ← ig_tcp_send_frame_locked cli IG_MSG_HEARTBEAT buf;
      Some (if ret =? -2 then HReconnect else HSleep, cli)
  | HReconnect =>
      '(rc, cli, _) ← ig_tcp_reconnect inet_pton cli (hi_attempts i);
      Some (if rc <? 0 then HStopped else HSleep, cli)
  end.

(** ** Both *)

Inductive tick := TMain (ev : ig_event) (attempts : list attempt) | THb (i : hb_input).

Definition tick_step (t : tick) (st : main_pc * hb_pc * agent) : option (main_pc * hb_pc * agent) :=
  let '(m, h, a) := st in
  match t with
  | TMain ev attempts => '(m, a) ← main_step ev attempts m a; Some (m, h, a)
  | THb i => '(h, cli) ← hb_step i h (ag_cli a); Some (m, h, set_cli cli a)
  end.

Fixpoint run_ticks (ts : list tick) (st : main_pc * hb_pc * agent) : option (main_pc * hb_pc * agent) :=
  match ts with
  | [] => Some st
  | t :: ts => st ← tick_step t st; run_ticks ts st
  end.

(** ** The steps are the functions *)

(** The main thread without the other one in between. *)
Fixpoint main_alone (n : nat) (ev : ig_event) (attempts : list attempt) (pc : main_pc) (a : agent)
    : option (main_pc * agent) :=
  match n with
  | O => Some (pc, a)
  | S n => '(pc, a) ← main_step ev attempts pc a;
           match pc with MIdle => Some (pc, a) | _ => main_alone n ev attempts pc a end
  end.

Lemma send_event_split s ev : ig_tcp_send_event s ev =
  (r ← event_buffer s ev; match r with inl rc => Some (rc, s) | inr buf => ig_tcp_send_frame_locked s IG_MSG_FILE_EVENT buf end).
Proof.
  unfold ig_tcp_send_event, event_buffer. destruct (negb _); [done|]. cbv zeta. destruct (_ =? 0); [done|].
  by destruct (run_writer _ _) as [[buf|]|].
Qed.

Lemma main_alone_spec ev attempts a :
  main_alone 5 ev attempts MIdle a =
  (a' ← send_event_with_reconnect inet_pton a ev attempts; Some (MIdle, a')).
Proof.
  unfold send_event_with_reconnect. rewrite send_event_split. cbn [main_alone main_step].
  destruct (ag_transport_ok a); [|done]. destruct (ag_agent_id a); [|done].
  destruct (event_buffer (ag_cli a) ev) as [[rc|buf]|] eqn:Eb; [| |done]; cbn [mbind option_bind].
  { assert (rc ≠ -2) as Hrc%Z.eqb_neq.
    { unfold event_buffer in Eb. destruct (negb _); [by injection Eb as <-|]. destruct (_ =? 0); [by injection Eb as <-|].
      destruct (run_writer _ _) as [[buf|]|]; [discriminate Eb|by injection Eb as <-|discriminate Eb]. }
    rewrite Hrc. by destruct a. }
  cbn [main_step]. destruct (ig_tcp_send_frame_locked (ag_cli a) IG_MSG_FILE_EVENT buf) as [[ret cli]|]; [|done].
  cbn [mbind option_bind]. destruct (ret =? -2); [|done]. cbn [mbind option_bind main_step ag_cli set_ok set_cli].
  destruct (ig_tcp_reconnect inet_pton cli attempts) as [[[rc cli2] w]|]; [|done]. cbn [mbind option_bind].
  destruct (rc =? 0); [|done]. cbn [mbind option_bind main_step ag_cli set_ok set_id set_cli]. rewrite send_event_split.
  destruct (event_buffer cli2 ev) as [[rc3|buf3]|]; [done| |done]. cbn [mbind option_bind main_step ag_cli set_ok set_id set_cli].
  by destruct (ig_tcp_send_frame_locked cli2 IG_MSG_FILE_EVENT buf3) as [[rc3 cli3]|].
Qed.

(** A turn of the heartbeat thread likewise. *)
Definition hb_alone (now : Z) (attempts : list attempt) (cli : ig_tcp_client) : option (hb_pc * ig_tcp_client) :=
  let i := HbInput true true now attempts in
  '(pc, cli) ← hb_step i HSleep cli;
  '(pc, cli) ← match pc with HSend _ => hb_step i pc cli | _ => Some (pc, cli) end;
  match pc with HReconnect => hb_step i pc cli | _ => Some (pc, cli) end.

Lemma hb_alone_spec now attempts cli :
  hb_alone now attempts cli =
  ('(r, cli') ← heartbeat_turn inet_pton cli now attempts; Some (if r : bool then HSleep else HStopped, cli')).
Proof.
  unfold heartbeat_turn, hb_alone. cbn [hb_step hi_before hi_after hi_now negb orb].
  destruct (run_writer 13 _) as [[buf|]|]; cbn [mbind option_bind]; [|done..]. cbn [hb_step].
  destruct (ig_tcp_send_frame_locked cli IG_MSG_HEARTBEAT buf) as [[ret cli1]|]; cbn [mbind option_bind]; [|done].
  destruct (ret =? -2); [|done]. cbn [hb_step hi_attempts].
  destruct (ig_tcp_reconnect inet_pton cli1 attempts) as [[[rc cli2] w]|]; cbn [mbind option_bind]; [|done].
  by destruct (rc <? 0).
Qed.

(** ** Any interleaving *)

Hypothesis inet_pton_width : ∀ s ip, inet_pton s = Some ip → in_width 32 ip.

Definition pc_ok (m : main_pc) : Prop :=
  match m with MIdle | MLast _ => True | MSend ev _ | MReconnect ev | MResend ev => wf_event ev end.
Definition tick_ok (t : tick) : Prop := match t with TMain ev _ => wf_event ev | THb _ => True end.
Definition threads_ok (st : main_pc * hb_pc * agent) : Prop := pc_ok st.1.1 ∧ client_ok (ag_cli st.2).

Lemma event_buffer_ok c ev : client_ok c → wf_event ev → ∃ r, event_buffer c ev = Some r.
Proof.
  intros Hok Hev. unfold event_buffer. destruct (negb _); [by eexists|]. destruct (_ =? 0); [by eexists|].
  pose proof Hok as (_ & _ & _ & _ & Hid & _).
  rewrite (run_writer_encodes _ _ _ (file_event_encodes _ (message_of_event_wf _ _ Hid Hev))). by eexists.
Qed.

Lemma main_step_ok ev attempts m a : pc_ok m → wf_event ev → client_ok (ag_cli a) →
  ∃ m' a', main_step ev attempts m a = Some (m', a') ∧ pc_ok m' ∧ client_ok (ag_cli a') ∧ ag_db a' = ag_db a.
Proof.
  intros Hm Hev Hc. destruct m as [|ev' buf|ev'|ev'|buf]; cbn [main_step].
  - destruct (ag_transport_ok a); [|by exists MIdle, a]. destruct (ag_agent_id a); [|by exists MIdle, a].
    destruct (event_buffer_ok (ag_cli a) ev Hc Hev) as [[rc|buf] ->]; by eexists _, a.
  - destruct (send_frame_ok (ag_cli a) IG_MSG_FILE_EVENT buf Hc) as (rc & c & -> & Hc' & _). cbn [mbind option_bind].
    destruct (rc =? -2); by eexists _, _.
  - destruct (reconnect_ok inet_pton inet_pton_width (ag_cli a) attempts Hc) as (rc & c & w & -> & Hc' & _).
    cbn [mbind option_bind]. destruct (rc =? 0); by eexists _, _.
  - destruct (event_buffer_ok (ag_cli a) ev' Hc Hm) as [[rc|buf] ->]; by eexists _, a.
  - destruct (send_frame_ok (ag_cli a) IG_MSG_FILE_EVENT buf Hc) as (rc & c & -> & Hc' & _). by eexists _, _.
Qed.

Lemma heartbeat_written cli now : run_writer 13 (ig_heartbeat_encode (MsgHeartbeat (cli_agent_id cli) IG_STATUS_HEALTHY (u32 now))) =
  Some (Some (wire_heartbeat (MsgHeartbeat (cli_agent_id cli) IG_STATUS_HEALTHY (u32 now)))).
Proof. by rewrite (run_writer_encodes _ _ _ (heartbeat_encodes _)). Qed.

Lemma hb_step_ok i h cli : client_ok cli →
  ∃ h' cli', hb_step i h cli = Some (h', cli') ∧ client_ok cli' ∧
    (h' = HStopped → h = HStopped ∨ hi_before i && hi_after i = false ∨ cli_connected cli' = false).
Proof.
  intros Hc. destruct h; cbn [hb_step].
  - destruct (hi_before i), (hi_after i); cbn [negb orb andb]; try (eexists _, _; split; [reflexivity|]; tauto).
    rewrite heartbeat_written. by eexists _, cli.
  - destruct (send_frame_ok cli IG_MSG_HEARTBEAT buf Hc) as (rc & c & -> & Hc' & _). cbn [mbind option_bind].
    eexists _, c. split; [reflexivity|]. split; [done|]. by destruct (rc =? -2).
  - destruct (reconnect_ok inet_pton inet_pton_width cli (hi_attempts i) Hc) as (rc & c & w & -> & Hc' & Hr).
    cbn [mbind option_bind]. eexists _, c. split; [reflexivity|]. split; [done|].
    destruct Hr as [[-> _]|(-> & Hoff & _)]; [done|]. by right; right.
  - eexists _, cli. split; [reflexivity|]. split; [done|]. by left.
Qed.

(** Whatever order the calls of the two threads come in, none of them faults and
    the invariant of the connection holds after each. *)
Theorem threads_share_the_client (ts : list tick) (st : main_pc * hb_pc * agent)
    (Hst : threads_ok st) (Hts : Forall tick_ok ts) :
  ∃ st', run_ticks ts st = Some st' ∧ threads_ok st' ∧ ag_db st'.2 = ag_db st.2.
Proof.
  revert st Hst. induction Hts as [|t ts Ht _ IH]; intros [[m h] a] [Hm Hc]; [by eexists|].
  cbn [run_ticks tick_step fst snd] in *. destruct t as [ev att|i].
  - destruct (main_step_ok ev att m a Hm Ht Hc) as (m' & a' & -> & Hm' & Hc' & Hdb). cbn [mbind option_bind].
    destruct (IH (m', h, a')) as (st' & H1 & H2 & H3); [by split|]. exists st'. rewrite H3. done.
  - destruct (hb_step_ok i h (ag_cli a) Hc) as (h' & c & -> & Hc' & _). cbn [mbind option_bind].
    destruct (IH (m, h', set_cli c a)) as (st' & H1 & H2 & H3); [by split|]. exists st'. rewrite H3. done.
Qed.

Lemma event_buffer_off c ev : cli_connected c = false → event_buffer c ev = Some (inl (-1)).
Proof. intros H. unfold event_buffer. by rewrite H. Qed.

Lemma set_cli_same a : set_cli (ag_cli a) a = a.
Proof. by destruct a. Qed.

(** Over a closed connection neither thread does anything. *)
Lemma silent_step t a : cli_connected (ag_cli a) = false →
  tick_step t (MIdle, HStopped, a) = Some (MIdle, HStopped, a).
Proof.
  intros Hdown. destruct t as [ev att|j]; cbn [tick_step hb_step main_step].
  - destruct (ag_transport_ok a); [|done]. destruct (ag_agent_id a); [|done].
    by rewrite (event_buffer_off _ _ Hdown).
  - cbn [mbind option_bind]. by rewrite set_cli_same.
Qed.

Lemma tick_hb i m h a :
  tick_step (THb i) (m, h, a) = ('(h, cli) ← hb_step i h (ag_cli a); Some (m, h, set_cli cli a)).
Proof. done. Qed.

Lemma reconnect_stopped i cli cli' : client_ok cli → hb_step i HReconnect cli = Some (HStopped, cli') →
  cli_connected cli' = false.
Proof.
  intros Hc. cbn [hb_step].
  destruct (reconnect_ok inet_pton inet_pton_width cli (hi_attempts i) Hc) as (rc & c & w & -> & _ & Hr).
  cbn [mbind option_bind]. destruct (rc <? 0) eqn:E; intros [=]; subst.
  destruct Hr as [[-> _]|(_ & H & _)]; [done|exact H].
Qed.

(** [C33] When the heartbeat thread gives up reconnecting, the agent falls silent
    and does not know: the connection is closed, [g_transport_ok] still says that
    it is up, and from then on, whatever events come and whatever becomes of the
    server, neither thread sends a byte, counts a failure or reconnects. *)
Theorem heartbeat_gives_up_silently (i : hb_input) (a a1 : agent) (ts : list tick)
    (Hc : client_ok (ag_cli a)) (Hok : ag_transport_ok a = true)
    (Hgive : tick_step (THb i) (MIdle, HReconnect, a) = Some (MIdle, HStopped, a1)) :
  cli_connected (ag_cli a1) = false ∧ ag_transport_ok a1 = true ∧
  run_ticks ts (MIdle, HStopped, a1) = Some (MIdle, HStopped, a1).
Proof.
  rewrite tick_hb in Hgive. destruct (hb_step i HReconnect (ag_cli a)) as [[h c]|] eqn:Hs; [|done].
  assert (h = HStopped) as -> by (cbn in Hgive; congruence).
  assert (a1 = set_cli c a) as -> by (cbn in Hgive; congruence). clear Hgive.
  pose proof (reconnect_stopped i (ag_cli a) c Hc Hs) as Hdown.
  split; [exact Hdown|]. split; [exact Hok|]. induction ts as [|t ts IH]; [done|]. cbn [run_ticks].
  rewrite silent_step by exact Hdown. exact IH.
Qed.
End threads.

(** ** Witnesses *)

Definition beat : hb_input := HbInput true true 1700000000 [].

Lemma heartbeat_gives_up_silently_witness :
  ∃ a1, tick_step (λ _, Some 0) (THb beat) (MIdle, HReconnect, srv_agent) = Some (MIdle, HStopped, a1) ∧
    cli_connected (ag_cli a1) = false ∧ ag_transport_ok a1 = true ∧
    run_ticks (λ _, Some 0) [TMain (db_event IG_EVENT_MODIFY) []; THb beat] (MIdle, HStopped, a1) =
      Some (MIdle, HStopped, a1).
Proof.
  assert (H : fst <$> tick_step (λ _, Some 0) (THb beat) (MIdle, HReconnect, srv_agent) = Some (MIdle, HStopped))
    by (vm_compute; reflexivity).
  destruct (tick_step (λ _, Some 0) (THb beat) (MIdle, HReconnect, srv_agent)) as [[[m h] a1]|] eqn:E;
    [|discriminate].
  injection H as -> ->.
  exists a1. split; [reflexivity|].
  apply (heartbeat_gives_up_silently (λ _, Some 0) ltac:(intros _ ip [= <-]; unfold in_width; lia) beat srv_agent a1).
  - exact sample_client_ok.
  - reflexivity.
  - exact E.
Defined.
