(* ===== verification/Enroll.v ===== *)
(** * Enrollment (enroll/enroll.c)

    The one-shot protocol that gives the agent its certificate: hello with a
    nonce, challenge with the server's proof, request and response protected by
    a keystream and a MAC derived from the shared key, the three files written.
    HMAC is OpenSSL's, a parameter; the socket is a byte stream in and a limit
    on the bytes that can be written; [calloc] may fail at any call. *)

From S2P Require Import Prelude Bytes Exchange Monitor.

Local Open Scope Z_scope.

Definition IG_ENROLL_FRAME_HEADER_SIZE : Z := 9.
Definition IG_ENROLL_MAX_FRAME_SIZE : Z := 65535.
Definition IG_XOR_NONCE_SIZE : nat := 32.
Definition IG_XOR_MAC_SIZE : nat := 32.

(* @src enroll/enroll.c:26-31 IG_MSG_XOR_HELLO *)
Definition IG_MSG_XOR_HELLO : Z := 0x21.
Definition IG_MSG_XOR_CHALLENGE : Z := 0x22.
Definition IG_MSG_XOR_ENROLL_REQUEST : Z := 0x23.
Definition IG_MSG_XOR_ENROLL_RESPONSE : Z := 0x24.
Definition IG_MSG_XOR_ENROLL_ACK : Z := 0x25.
Definition IG_MSG_XOR_ENROLL_ERROR : Z := 0x26.

(** ** Data *)

(* @src enroll/enroll.c:33-37 ig_xor_session_t *)
Record ig_xor_session := XorSession { xs_session : list Z; xs_enc : list Z; xs_mac : list Z }.

(* @src enroll/enroll.c:39-44 ig_frame_t *)
Record ig_frame := Frame { fr_type : Z; fr_seq : Z; fr_payload : list Z }.

(* @src enroll/enroll.c:46-52 ig_enroll_response_t *)
Record ig_enroll_response := EnrollResponse {
  er_agent_id : cstring; er_agent_cert_pem : cstring; er_agent_key_pem : cstring; er_ca_cert_pem : cstring;
  er_expires_at : Z }.

(* @src enroll/enroll.h:7-19 ig_enroll_config_t *)
Record ig_enroll_config := EnrollConfig {
  ec_ca_crt : cstring; ec_agent_crt : cstring; ec_agent_key : cstring;
  ec_enrollment_id : cstring; ec_xor_key : cstring;
  ec_hostname : cstring; ec_ip : cstring; ec_os : cstring; ec_monitor_type : Z }.

(** What happens when a file is written: [open] fails, [fchmod] fails, or
    [write] takes that many bytes. *)
Inductive file_io := OpenFails | ChmodFails | Writes (n : nat).

(** The socket's bytes to come and sent so far, the room before a write error,
    the files (contents and mode), the number of allocations made. *)
Record enroll_state := EnrollState {
  es_in : list Z; es_out : list Z; es_room : nat;
  es_files : gmap (list Z) (list Z * Z); es_nalloc : nat }.

(** The code's [goto done] with [ret = -1] is [None]. *)
#[local] Abbreviation E := (steps enroll_state).
#[export] Instance enroll_stream : Stream enroll_state (gmap (list Z) (list Z * Z)) :=
  {| st_in := es_in; st_out := es_out; st_room := es_room; st_rest := es_files |}.

Section enroll.
(** [HMAC(EVP_sha256(), key, data)], [None] when it fails. *)
Variable HMAC : list Z → list Z → option (list Z).
(** Whether the [n]-th [calloc] succeeds; how each file write goes; the umask. *)
Variable calloc_ok : nat → bool.
Variable file_result : cstring → file_io.
Variable umask : Z.

Definition calloc : E unit := λ s,
  (if calloc_ok (es_nalloc s) then Some tt else None,
   EnrollState (es_in s) (es_out s) (es_room s) (es_files s) (S (es_nalloc s))).

(** ** Socket and files *)

(* @src enroll/enroll.c:71-84 write_all *)
Definition write_all (buf : list Z) : E unit := λ s,
  let k := Nat.min (length buf) (es_room s) in
  (if bool_decide (length buf ≤ es_room s)%nat then Some tt else None,
   EnrollState (es_in s) (es_out s ++ take k buf) (es_room s - k) (es_files s) (es_nalloc s)).

(* @src enroll/enroll.c:86-99 read_all *)
Definition read_all (len : nat) : E (list Z) := λ s,
  (if bool_decide (len ≤ length (es_in s))%nat then Some (take len (es_in s)) else None,
   EnrollState (drop len (es_in s)) (es_out s) (es_room s) (es_files s) (es_nalloc s)).

(* @src enroll/enroll.c:201-213 write_text_file *)
Definition write_text_file (path data : cstring) (mode : Z) : E unit := λ s,
  let with_file f := EnrollState (es_in s) (es_out s) (es_room s) (<[path := f]> (es_files s)) (es_nalloc s) in
  match file_result path with
  | OpenFails => (None, s)
  | ChmodFails =>
      (None, with_file ([], match es_files s !! path with
                            | Some (_, m) => m | None => Z.land mode (Z.lnot umask) end))
  | Writes n => (if bool_decide (length (cstr data) ≤ n)%nat then Some tt else None,
                 with_file (take n (cstr data), mode))
  end.

(** ** Strings and byte strings in a message *)

(** Into a buffer with [room] bytes left; the bytes written. *)
(* @src enroll/enroll.c:101-115 write_string *)
Definition write_string (room : Z) (s : cstring) : option (list Z) :=
  let len := Z.of_nat (length s) in
  if (65535 <? len) || (room <? len + 2) then None else Some (be_bytes 2 len ++ s).

(* @src enroll/enroll.c:117-130 write_bytes *)
Definition write_bytes (room : Z) (data : list Z) : option (list Z) :=
  let len := Z.of_nat (length data) in
  if (65535 <? len) || (room <? len + 2) then None else Some (be_bytes 2 len ++ data).

(** NULL is [None]; the pointer moves past what was read even then. *)
(* @src enroll/enroll.c:132-148 read_string *)
Definition read_string (p : list Z) : E (option cstring * list Z) :=
  if bool_decide (length p < 2)%nat then mret (None, p)
  else
    let len := Z.to_nat (be_val (take 2 p)) in
    let p := drop 2 p in
    if bool_decide (length p < len)%nat then mret (None, p)
    else
      ok ← ecatch calloc;
      match ok with
      | None => mret (None, p)
      | Some _ => mret (Some (cstr (take len p)), drop len p)
      end.

(* @src enroll/enroll.c:150-167 read_bytes *)
Definition read_bytes (p : list Z) : E (option (list Z) * list Z) :=
  if bool_decide (length p < 2)%nat then mret (None, p)
  else
    let len := Z.to_nat (be_val (take 2 p)) in
    let p := drop 2 p in
    if bool_decide (length p < len)%nat then mret (None, p)
    else
      ok ← ecatch calloc;
      match ok with
      | None => mret (None, p)
      | Some _ => mret (Some (take len p), drop len p)
      end.

(** ** Keys, keystream and MAC *)

(* @src enroll/enroll.c:215-222 hmac_sha256 *)
Definition hmac_sha256 (key data : list Z) : option (list Z) :=
  out ← HMAC key data; if bool_decide (length out = 32%nat) then Some out else None.

Definition session_label : cstring := lit "knig enrollment v2 session".
Definition enc_label : cstring := lit "knig enrollment enc".
Definition mac_label : cstring := lit "knig enrollment mac".
Definition proof_label : cstring := lit "knig enrollment server proof".

(** The transcript: label, id and nonces, NUL bytes between. *)
Definition transcript (label enrollment_id client_nonce server_nonce : list Z) : list Z :=
  label ++ 0 :: enrollment_id ++ 0 :: client_nonce ++ server_nonce.

(* @src enroll/enroll.c:224-259 derive_session *)
Definition derive_session (xor_key enrollment_id client_nonce server_nonce : list Z) : E ig_xor_session :=
  _ ← calloc;
  session ← elift (hmac_sha256 xor_key (transcript session_label enrollment_id client_nonce server_nonce));
  enc ← elift (hmac_sha256 session enc_label);
  mac ← elift (hmac_sha256 session mac_label);
  mret (XorSession session enc mac).

(* @src enroll/enroll.c:261-284 server_proof *)
Definition server_proof (xs : ig_xor_session) (enrollment_id client_nonce server_nonce : list Z) : E (list Z) :=
  _ ← calloc;
  elift (hmac_sha256 (xs_mac xs) (transcript proof_label enrollment_id client_nonce server_nonce)).

(** What a frame's MAC covers. *)
Definition mac_data (msg_type seq : Z) (ciphertext : list Z) : list Z :=
  msg_type :: be_bytes 4 seq ++ ciphertext.

(* @src enroll/enroll.c:286-301 frame_mac *)
Definition frame_mac (xs : ig_xor_session) (msg_type seq : Z) (ciphertext : list Z) : E (list Z) :=
  _ ← calloc; elift (hmac_sha256 (xs_mac xs) (mac_data msg_type seq ciphertext)).

(** One block of keystream per counter value. *)
(* @src enroll/enroll.c:309-320 xor_crypt *)
Fixpoint xor_blocks (fuel : nat) (enc : list Z) (seq counter : Z) (src : list Z) : option (list Z) :=
  match src, fuel with
  | [], _ => Some []
  | _, O => None
  | _, S fuel =>
      block ← hmac_sha256 enc (be_bytes 4 seq ++ be_bytes 4 (u32 counter));
      rest ← xor_blocks fuel enc seq (counter + 1) (drop 32 src);
      Some (zip_with Z.lxor (take 32 src) block ++ rest)
  end.

(* @src enroll/enroll.c:303-324 xor_crypt *)
Definition xor_crypt (xs : ig_xor_session) (seq : Z) (src : list Z) : option (list Z) :=
  xor_blocks (length src) (xs_enc xs) seq 0 src.

(* @src enroll/enroll.c:326-343 protect_payload *)
Definition protect_payload (xs : ig_xor_session) (msg_type seq : Z) (plain : list Z) : E (list Z) :=
  if IG_ENROLL_MAX_FRAME_SIZE <? Z.of_nat (length plain) + Z.of_nat IG_XOR_MAC_SIZE then efail
  else
    _ ← calloc;
    ciphertext ← elift (xor_crypt xs seq plain);
    mac ← frame_mac xs msg_type seq ciphertext;
    mret (mac ++ ciphertext).

(* @src enroll/enroll.c:345-370 open_protected_payload *)
Definition open_protected_payload (xs : ig_xor_session) (msg_type seq : Z) (payload : list Z) : E (list Z) :=
  if bool_decide (length payload < IG_XOR_MAC_SIZE)%nat then efail
  else
    let got_mac := take IG_XOR_MAC_SIZE payload in
    let ciphertext := drop IG_XOR_MAC_SIZE payload in
    want_mac ← frame_mac xs msg_type seq ciphertext;
    if bool_decide (got_mac = want_mac) then _ ← calloc; elift (xor_crypt xs seq ciphertext)
    else efail.

(** ** Frames *)

(* @src enroll/enroll.c:372-384 send_frame *)
Definition send_frame (msg_type seq : Z) (payload : list Z) : E unit :=
  let payload_len := Z.of_nat (length payload) in
  if IG_ENROLL_MAX_FRAME_SIZE <? payload_len + IG_ENROLL_FRAME_HEADER_SIZE then efail
  else
    write_all (be_bytes 4 (payload_len + IG_ENROLL_FRAME_HEADER_SIZE) ++ u8 msg_type :: be_bytes 4 seq) ;;
    if payload_len =? 0 then mret tt else write_all payload.

(* @src enroll/enroll.c:386-408 read_frame *)
Definition read_frame : E ig_frame :=
  hdr ← read_all 9;
  let frame_len := be_val (take 4 hdr) in
  if (frame_len <? IG_ENROLL_FRAME_HEADER_SIZE) || (IG_ENROLL_MAX_FRAME_SIZE <? frame_len) then efail
  else
    let type := be_val (take 1 (drop 4 hdr)) in
    let seq := be_val (drop 5 hdr) in
    let payload_len := Z.to_nat (frame_len - IG_ENROLL_FRAME_HEADER_SIZE) in
    _ ← calloc;
    payload ← read_all payload_len;
    mret (Frame type seq payload).

(** ** Messages *)

(* @src enroll/enroll.c:417-434 encode_hello *)
Definition encode_hello (enrollment_id client_nonce : list Z) : E (list Z) :=
  let payload_len := 2 + Z.of_nat (length enrollment_id) + 2 + 32 in
  _ ← calloc;
  id ← elift (write_string payload_len enrollment_id);
  nonce ← elift (write_bytes (payload_len - Z.of_nat (length id)) client_nonce);
  if bool_decide (payload_len = Z.of_nat (length (id ++ nonce))) then mret (id ++ nonce) else efail.

(** The server's nonce and proof. *)
(* @src enroll/enroll.c:436-460 decode_challenge *)
Definition decode_challenge (frame : ig_frame) : E (list Z * list Z) :=
  if fr_type frame =? IG_MSG_XOR_ENROLL_ERROR then efail
  else if negb (fr_type frame =? IG_MSG_XOR_CHALLENGE) then efail
  else
    '(nonce, p) ← read_bytes (fr_payload frame);
    '(proof, p) ← read_bytes p;
    match nonce, proof with
    | Some nonce, Some proof =>
        if bool_decide (length nonce = 32%nat) && bool_decide (length proof = 32%nat) && bool_decide (p = [])
        then mret (nonce, proof) else efail
    | _, _ => efail
    end.

(* @src enroll/enroll.c:462-490 encode_request_plain *)
Definition encode_request_plain (cfg : ig_enroll_config) : E (list Z) :=
  let payload_len := 2 + Z.of_nat (length (ec_hostname cfg)) + 2 + Z.of_nat (length (ec_ip cfg)) +
                     2 + Z.of_nat (length (ec_os cfg)) + 1 in
  _ ← calloc;
  h ← elift (write_string payload_len (ec_hostname cfg));
  i ← elift (write_string (payload_len - Z.of_nat (length h)) (ec_ip cfg));
  o ← elift (write_string (payload_len - Z.of_nat (length (h ++ i))) (ec_os cfg));
  if payload_len - Z.of_nat (length (h ++ i ++ o)) <? 1 then efail
  else
    let buf := h ++ i ++ o ++ [ec_monitor_type cfg] in
    if bool_decide (payload_len = Z.of_nat (length buf)) then mret buf else efail.

(* @src enroll/enroll.c:492-506 decode_response_plain *)
Definition decode_response_plain (payload : list Z) : E ig_enroll_response :=
  '(agent_id, p) ← read_string payload;
  '(cert, p) ← read_string p;
  '(key, p) ← read_string p;
  '(ca, p) ← read_string p;
  match agent_id, cert, key, ca with
  | Some agent_id, Some cert, Some key, Some ca =>
      if bool_decide (length p < 8)%nat then efail
      else
        let expires := Z.lor (Z.shiftl (be_val (take 4 p)) 32) (be_val (take 4 (drop 4 p))) in
        if bool_decide (length p = 8%nat) then mret (EnrollResponse agent_id cert key ca expires) else efail
  | _, _, _, _ => efail
  end.

(** ** The exchange *)

(** Up to the verified proof. *)
(* @src enroll/enroll.c:559-597 ig_enroll_execute *)
Definition enroll_handshake (cfg : ig_enroll_config) (client_nonce : list Z) (connected : bool)
    : E ig_xor_session :=
  hello ← encode_hello (ec_enrollment_id cfg) client_nonce;
  if negb connected then efail
  else
    send_frame IG_MSG_XOR_HELLO 1 hello ;;
    frame ← read_frame;
    if fr_type frame =? IG_MSG_XOR_ENROLL_ERROR then efail
    else
      '(server_nonce, received_proof) ← decode_challenge frame;
      session ← derive_session (ec_xor_key cfg) (ec_enrollment_id cfg) client_nonce server_nonce;
      expected_proof ← server_proof session (ec_enrollment_id cfg) client_nonce server_nonce;
      if bool_decide (expected_proof = received_proof) then mret session else efail.

(** The protected request and the verified response. *)
(* @src enroll/enroll.c:599-627 ig_enroll_execute *)
Definition enroll_request (cfg : ig_enroll_config) (session : ig_xor_session) : E ig_enroll_response :=
  req_plain ← encode_request_plain cfg;
  req_protected ← protect_payload session IG_MSG_XOR_ENROLL_REQUEST 3 req_plain;
  send_frame IG_MSG_XOR_ENROLL_REQUEST 3 req_protected ;;
  frame ← read_frame;
  if fr_type frame =? IG_MSG_XOR_ENROLL_ERROR then efail
  else if negb (fr_type frame =? IG_MSG_XOR_ENROLL_RESPONSE) then efail
  else
    resp_plain ← open_protected_payload session (fr_type frame) (fr_seq frame) (fr_payload frame);
    decode_response_plain resp_plain.

(** The three files and the acknowledgement, whose failure does not matter. *)
(* @src enroll/enroll.c:629-649 ig_enroll_execute *)
Definition enroll_save (cfg : ig_enroll_config) (session : ig_xor_session) (resp : ig_enroll_response) : E unit :=
  write_text_file (ec_ca_crt cfg) (er_ca_cert_pem resp) 0x1A4 ;;
  write_text_file (ec_agent_crt cfg) (er_agent_cert_pem resp) 0x1A4 ;;
  write_text_file (ec_agent_key cfg) (er_agent_key_pem resp) 0x180 ;;
  ack ← ecatch (protect_payload session IG_MSG_XOR_ENROLL_ACK 5 []);
  match ack with
  | Some ack => _ ← ecatch (send_frame IG_MSG_XOR_ENROLL_ACK 5 ack); mret tt
  | None => mret tt
  end.

(** [rand]: the nonce, [None] when [RAND_bytes] fails; [connected]: whether
    [connect_tcp] succeeds. [Some tt] is the return value 0. *)
(* @src enroll/enroll.c:536-681 ig_enroll_execute *)
Definition ig_enroll_execute (cfg : ig_enroll_config) (rand : option (list Z)) (connected : bool) : E unit :=
  client_nonce ← elift rand;
  session ← enroll_handshake cfg client_nonce connected;
  resp ← enroll_request cfg session;
  enroll_save cfg session resp.

(* @src enroll/enroll.c:531-534 ig_enroll_needed *)
Definition ig_enroll_needed (readable : cstring → bool) (agent_crt agent_key : cstring) : bool :=
  negb (readable agent_crt) || negb (readable agent_key).

(** ** Reasoning about runs *)

(** The whole exchange before saving writes no file. *)
Lemma keeps_handshake cfg n c : keeps es_files (enroll_handshake cfg n c).
Proof.
  unfold enroll_handshake, encode_hello, decode_challenge, derive_session, server_proof, send_frame,
    read_frame, read_bytes. keep.
Qed.
Lemma keeps_request cfg xs : keeps es_files (enroll_request cfg xs).
Proof.
  unfold enroll_request, encode_request_plain, decode_response_plain, protect_payload,
    open_protected_payload, frame_mac, send_frame, read_frame, read_string. keep.
Qed.

(** Everything but reading leaves the bytes to come. *)
Lemma keeps_in_send t q p : keeps es_in (send_frame t q p).
Proof. unfold send_frame. keep. Qed.
Lemma keeps_in_hello id n : keeps es_in (encode_hello id n).
Proof. unfold encode_hello. keep. Qed.
Lemma keeps_in_request cfg : keeps es_in (encode_request_plain cfg).
Proof. unfold encode_request_plain. keep. Qed.
Lemma keeps_in_protect xs t q p : keeps es_in (protect_payload xs t q p).
Proof. unfold protect_payload, frame_mac. keep. Qed.
Lemma keeps_in_derive k id cn sn : keeps es_in (derive_session k id cn sn).
Proof. unfold derive_session. keep. Qed.
Lemma keeps_in_proof xs id cn sn : keeps es_in (server_proof xs id cn sn).
Proof. unfold server_proof. keep. Qed.
Lemma keeps_in_read_bytes p : keeps es_in (read_bytes p).
Proof. unfold read_bytes. keep. Qed.

Lemma read_all_Some n s bs s' : read_all n s = (Some bs, s') → length bs = n ∧ es_in s = bs ++ es_in s'.
Proof.
  unfold read_all. case_bool_decide as H; [|done]. intros [= <- <-]. cbn.
  by rewrite take_drop, length_take_le.
Qed.

Lemma read_frame_Some s f s' : read_frame s = (Some f, s') →
  ∃ hdr, length hdr = 9%nat ∧ es_in s = hdr ++ fr_payload f ++ es_in s'.
Proof.
  unfold read_frame. intros (hdr & s1 & [Hl Hin]%read_all_Some & H)%E_bind_Some. cbv zeta in H.
  destruct (_ || _); [done|]. apply E_bind_Some in H as ([] & s2 & Hc & H).
  apply E_bind_Some in H as (p & s3 & [_ Hp]%read_all_Some & H). injection H as <- <-.
  exists hdr. split; [done|]. rewrite Hin. f_equal. unfold calloc in Hc. injection Hc as _ <-. exact Hp.
Qed.

Lemma read_bytes_Some p s b p' s' : read_bytes p s = (Some (Some b, p'), s') →
  ∃ l, p = l ++ b ++ p' ∧ es_in s' = es_in s.
Proof.
  intros H. pose proof (keeps_run es_in _ _ _ _ (keeps_in_read_bytes p) H) as Hin. unfold read_bytes in H.
  case_bool_decide; [done|]. cbv zeta in H. case_bool_decide; [done|].
  apply E_bind_Some in H as ([[]|] & s1 & _ & H); [|done]. injection H as <- <- _.
  exists (take 2 p). by rewrite !take_drop.
Qed.

(** ** The keystream *)

Lemma lxor_twice a b : (length a ≤ length b)%nat → zip_with Z.lxor (zip_with Z.lxor a b) b = a.
Proof.
  revert b. induction a as [|x a IH]; intros [|y b] H; cbn in *; try done; [lia|].
  rewrite Z.lxor_assoc, Z.lxor_nilpotent, Z.lxor_0_r. f_equal. apply IH. lia.
Qed.

Lemma hmac_length key data out : hmac_sha256 key data = Some out → length out = 32%nat.
Proof.
  unfold hmac_sha256. destruct (HMAC key data) as [o|]; cbn; [|done]. case_bool_decide; [|done]. by intros [= <-].
Qed.

Lemma xor_blocks_S fuel enc seq c src : src ≠ [] →
  xor_blocks (S fuel) enc seq c src =
  (block ← hmac_sha256 enc (be_bytes 4 seq ++ be_bytes 4 (u32 c));
   rest ← xor_blocks fuel enc seq (c + 1) (drop 32 src);
   Some (zip_with Z.lxor (take 32 src) block ++ rest)).
Proof. by destruct src. Qed.

Lemma xor_blocks_involutive fuel enc seq c src out : (length src ≤ fuel)%nat →
  xor_blocks fuel enc seq c src = Some out →
  length out = length src ∧ xor_blocks fuel enc seq c out = Some src.
Proof.
  revert c src out. induction fuel as [|fuel IH]; intros c src out Hl H.
  { destruct src; [|cbn in Hl; lia]. by injection H as <-. }
  destruct src as [|x src]; [by injection H as <-|]. cbn [xor_blocks] in H.
  destruct (hmac_sha256 enc _) as [block|] eqn:Hb; [|done]. cbn [mbind option_bind] in H.
  pose proof (hmac_length _ _ _ Hb) as Hbl.
  destruct (xor_blocks fuel enc seq (c + 1) (drop 32 (x :: src))) as [rest|] eqn:Hr; [|done].
  cbn [mbind option_bind] in H. injection H as <-. set (l := x :: src) in *.
  destruct (IH (c + 1) (drop 32 l) rest ltac:(rewrite length_drop; subst l; cbn [length] in *; lia) Hr) as [Hrl Hrest].
  set (z := zip_with Z.lxor (take 32 l) block).
  assert (Hz : length z = Nat.min 32 (length l)) by (unfold z; rewrite length_zip_with, length_take; lia).
  assert (Hlen : length (z ++ rest) = length l) by (rewrite length_app, Hrl, length_drop; lia).
  assert (Ht : take 32 (z ++ rest) = z ∧ drop 32 (z ++ rest) = rest).
  { destruct (decide (32 ≤ length l)%nat).
    - rewrite take_app_length', drop_app_length' by lia. done.
    - assert (rest = []) as -> by (apply nil_length_inv; rewrite Hrl, length_drop; lia).
      rewrite app_nil_r, take_ge, drop_ge by lia. done. }
  destruct Ht as [Ht Hd].
  enough (Hx : xor_blocks (S fuel) enc seq c (z ++ rest) = Some l) by (split; [exact Hlen|exact Hx]).
  rewrite xor_blocks_S by (intros E0; apply (f_equal length) in E0; rewrite Hlen in E0; discriminate E0).
  rewrite Hb. cbn [mbind option_bind]. rewrite Hd, Hrest, Ht. cbn [mbind option_bind].
  unfold z. rewrite lxor_twice by (rewrite length_take, Hbl; lia). by rewrite take_drop.
Qed.

Lemma xor_crypt_involutive xs seq src out : xor_crypt xs seq src = Some out →
  length out = length src ∧ xor_crypt xs seq out = Some src.
Proof.
  unfold xor_crypt. intros H. apply xor_blocks_involutive in H as [Hl H]; [|done]. by rewrite Hl.
Qed.

Lemma xor_blocks_total (Htotal : ∀ k d, ∃ o, HMAC k d = Some o ∧ length o = 32%nat) fuel enc seq c src :
  (length src ≤ fuel)%nat → ∃ out, xor_blocks fuel enc seq c src = Some out.
Proof.
  revert c src. induction fuel as [|fuel IH]; intros c [|x src] Hl; cbn in Hl; try lia; [by eexists..|].
  cbn [xor_blocks]. unfold hmac_sha256.
  destruct (Htotal enc (be_bytes 4 seq ++ be_bytes 4 (u32 c))) as (o & -> & Ho). cbn [mbind option_bind].
  rewrite bool_decide_eq_true_2 by done. cbn [mbind option_bind].
  destruct (IH (c + 1) (drop 32 (x :: src))) as [rest ->]; [rewrite length_drop; cbn; lia|]. by eexists.
Qed.

(** ** Protected payloads *)

Lemma open_accepts xs t q p s plain s' : open_protected_payload xs t q p s = (Some plain, s') →
  ∃ tag ct, p = tag ++ ct ∧ hmac_sha256 (xs_mac xs) (mac_data t q ct) = Some tag ∧
            xor_crypt xs q ct = Some plain ∧ es_in s' = es_in s.
Proof.
  unfold open_protected_payload. case_bool_decide as Hl; [done|].
  intros (want & s1 & Hm & H)%E_bind_Some. unfold frame_mac in Hm.
  apply E_bind_Some in Hm as ([] & s2 & Hc & Hm). unfold calloc in Hc. unfold elift in Hm.
  injection Hm as Hm <-. case_bool_decide as Heq; [|done].
  apply E_bind_Some in H as ([] & s3 & Hc2 & H). unfold elift in H. injection H as H <-.
  exists (take IG_XOR_MAC_SIZE p), (drop IG_XOR_MAC_SIZE p). rewrite take_drop, Heq.
  split; [done|]. split; [done|]. split; [done|].
  unfold calloc in Hc2. injection Hc as _ <-. injection Hc2 as _ <-. done.
Qed.

(** ** What a successful exchange has verified *)

Definition session_keys (cfg : ig_enroll_config) (cn sn : list Z) (xs : ig_xor_session) : Prop :=
  hmac_sha256 (ec_xor_key cfg) (transcript session_label (ec_enrollment_id cfg) cn sn) = Some (xs_session xs) ∧
  hmac_sha256 (xs_session xs) enc_label = Some (xs_enc xs) ∧
  hmac_sha256 (xs_session xs) mac_label = Some (xs_mac xs).

Lemma derive_Some cfg cn sn s xs s' :
  derive_session (ec_xor_key cfg) (ec_enrollment_id cfg) cn sn s = (Some xs, s') → session_keys cfg cn sn xs.
Proof.
  unfold derive_session. intros ([] & s1 & _ & (a & s2 & Ha & (b & s3 & Hb & (d & s4 & Hd & H)%E_bind_Some)
    %E_bind_Some)%E_bind_Some)%E_bind_Some.
  unfold elift in *. injection Ha as Ha _. injection Hb as Hb _. injection Hd as Hd _. by injection H as <- _.
Qed.

Lemma challenge_Some f s sn proof s' : decode_challenge f s = (Some (sn, proof), s') →
  ∃ l1 l2, fr_payload f = l1 ++ sn ++ l2 ++ proof ∧ es_in s' = es_in s.
Proof.
  unfold decode_challenge. destruct (_ =? _); [done|]. destruct (negb _); [done|].
  intros ([[n|] p1] & s1 & H1 & ([[pr|] p2] & s2 & H2 & H)%E_bind_Some)%E_bind_Some; try done.
  apply read_bytes_Some in H1 as (l1 & Hp1 & Hi1). apply read_bytes_Some in H2 as (l2 & Hp2 & Hi2).
  destruct (_ && _) eqn:Hc; [|done]. apply andb_true_iff in Hc as [_ Hnil%bool_decide_eq_true].
  injection H as <- <- <-. exists l1, l2. split; [|congruence]. rewrite Hp1, Hp2, Hnil. by rewrite app_nil_r.
Qed.

Lemma handshake_Some cfg cn c s xs s' : enroll_handshake cfg cn c s = (Some xs, s') →
  ∃ sn proof l1 l2, es_in s = l1 ++ sn ++ l2 ++ proof ++ es_in s' ∧ session_keys cfg cn sn xs ∧
    hmac_sha256 (xs_mac xs) (transcript proof_label (ec_enrollment_id cfg) cn sn) = Some proof.
Proof.
  unfold enroll_handshake. intros (hello & s1 & Hh & H)%E_bind_Some. destruct c; [|done]. cbn [negb] in H.
  apply E_bind_Some in H as ([] & s2 & Hs & H). apply E_bind_Some in H as (f & s3 & Hf & H).
  destruct (_ =? _); [done|]. apply E_bind_Some in H as ([sn proof] & s4 & Hd & H).
  apply E_bind_Some in H as (xs' & s5 & Hx & H). apply E_bind_Some in H as (want & s6 & Hp & H).
  case_bool_decide as Heq; [|done]. injection H as <- <-. subst want.
  apply keeps_run with (part := es_in) in Hh; [|apply keeps_in_hello].
  apply keeps_run with (part := es_in) in Hs; [|apply keeps_in_send].
  pose proof (keeps_run es_in _ _ _ _ (keeps_in_derive _ _ _ _) Hx) as Hi5.
  pose proof (keeps_run es_in _ _ _ _ (keeps_in_proof _ _ _ _) Hp) as Hi6.
  apply read_frame_Some in Hf as (hdr & _ & Hf). apply challenge_Some in Hd as (l1 & l2 & Hpl & Hi4).
  exists sn, proof, (hdr ++ l1), l2. split; [|split; [by eapply derive_Some|]].
  - rewrite <- Hh, <- Hs, Hf, Hpl. rewrite Hi6, Hi5, Hi4. by rewrite <- !app_assoc.
  - unfold server_proof in Hp. apply E_bind_Some in Hp as ([] & s7 & _ & Hp). unfold elift in Hp.
    by injection Hp as Hp _.
Qed.

Lemma request_Some cfg xs s resp s' : enroll_request cfg xs s = (Some resp, s') →
  ∃ q tag ct l1 rest, es_in s = l1 ++ tag ++ ct ++ rest ∧
    hmac_sha256 (xs_mac xs) (mac_data IG_MSG_XOR_ENROLL_RESPONSE q ct) = Some tag.
Proof.
  unfold enroll_request. intros (plain & s1 & H1 & H)%E_bind_Some. apply E_bind_Some in H as (prot & s2 & H2 & H).
  apply E_bind_Some in H as ([] & s3 & H3 & H). apply E_bind_Some in H as (f & s4 & H4 & H).
  destruct (_ =? _); [done|]. destruct (Z.eqb_spec (fr_type f) IG_MSG_XOR_ENROLL_RESPONSE) as [Ht|]; [|done].
  cbn [negb] in H. apply E_bind_Some in H as (pt & s5 & H5 & _).
  apply keeps_run with (part := es_in) in H1; [|apply keeps_in_request].
  apply keeps_run with (part := es_in) in H2; [|apply keeps_in_protect].
  apply keeps_run with (part := es_in) in H3; [|apply keeps_in_send].
  apply read_frame_Some in H4 as (hdr & _ & H4). apply open_accepts in H5 as (tag & ct & Hp & Hm & _).
  exists (fr_seq f), tag, ct, hdr, (es_in s4). split; [|by rewrite <- Ht].
  rewrite <- H1, <- H2, <- H3, H4, Hp. by rewrite <- app_assoc.
Qed.

(** Saving touches the three configured paths only. *)
Lemma write_text_other path data mode s p : p ≠ path →
  es_files (write_text_file path data mode s).2 !! p = es_files s !! p.
Proof.
  intros Hp. unfold write_text_file. destruct (file_result path); cbn; by rewrite ?lookup_insert_ne.
Qed.

Lemma save_other cfg xs resp s p : p ∉ [ec_ca_crt cfg; ec_agent_crt cfg; ec_agent_key cfg] →
  es_files (enroll_save cfg xs resp s).2 !! p = es_files s !! p.
Proof.
  rewrite !not_elem_of_cons. intros (H1 & H2 & H3 & _). unfold enroll_save, mbind, steps_bind.
  pose proof (write_text_other (ec_ca_crt cfg) (er_ca_cert_pem resp) 420 s p H1) as W1.
  destruct (write_text_file _ _ _ s) as [[[]|] s1]; [|exact W1]. cbn [snd] in W1.
  pose proof (write_text_other (ec_agent_crt cfg) (er_agent_cert_pem resp) 420 s1 p H2) as W2.
  destruct (write_text_file _ _ _ s1) as [[[]|] s2]; [|cbn in *; congruence]. cbn [snd] in W2.
  pose proof (write_text_other (ec_agent_key cfg) (er_agent_key_pem resp) 384 s2 p H3) as W3.
  destruct (write_text_file _ _ _ s2) as [[[]|] s3]; [|cbn in *; congruence]. cbn [snd] in W3.
  assert (Hk : keeps es_files
    (ack ← ecatch (protect_payload xs IG_MSG_XOR_ENROLL_ACK 5 []);
     match ack with
     | Some ack => _ ← ecatch (send_frame IG_MSG_XOR_ENROLL_ACK 5 ack); mret tt
     | None => mret tt
     end)) by (unfold protect_payload, frame_mac, send_frame; keep).
  specialize (Hk s3). unfold mbind, steps_bind in Hk. rewrite Hk. congruence.
Qed.

(** [C13] Only the holder of the enrollment key can install certificates:
    whatever bytes the network delivers, if running enrollment changes any
    file, then the delivered bytes contain a nonce and the proof HMAC computed
    over this agent's fresh nonce under keys derived from the shared key, and a
    response whose tag is the HMAC of its ciphertext under the same keys; and
    only the three configured paths can change. *)
Theorem enroll_trusts_only_the_key (cfg : ig_enroll_config) (rand : option (list Z)) (connected : bool)
    (s : enroll_state) (path : cstring)
    (Hchanged : es_files (ig_enroll_execute cfg rand connected s).2 !! path ≠ es_files s !! path) :
  path ∈ [ec_ca_crt cfg; ec_agent_crt cfg; ec_agent_key cfg] ∧
  ∃ cn sn proof xs q tag ct l1 l2 l3 rest,
    rand = Some cn ∧ es_in s = l1 ++ sn ++ l2 ++ proof ++ l3 ++ tag ++ ct ++ rest ∧
    session_keys cfg cn sn xs ∧
    hmac_sha256 (xs_mac xs) (transcript proof_label (ec_enrollment_id cfg) cn sn) = Some proof ∧
    hmac_sha256 (xs_mac xs) (mac_data IG_MSG_XOR_ENROLL_RESPONSE q ct) = Some tag.
Proof.
  unfold ig_enroll_execute, mbind, steps_bind, elift in Hchanged. destruct rand as [cn|]; [|done].
  destruct (enroll_handshake cfg cn connected s) as [[xs|] s1] eqn:Hh.
  2: { destruct Hchanged. cbn. pose proof (keeps_handshake cfg cn connected s) as Hk. rewrite Hh in Hk. by rewrite <- Hk. }
  pose proof (keeps_run es_files _ _ _ _ (keeps_handshake cfg cn connected) Hh) as Hf1.
  destruct (enroll_request cfg xs s1) as [[resp|] s2] eqn:Hr.
  2: { destruct Hchanged. cbn. pose proof (keeps_request cfg xs s1) as Hk. rewrite Hr in Hk. cbn in Hk. by rewrite Hk, Hf1. }
  pose proof (keeps_run es_files _ _ _ _ (keeps_request cfg xs) Hr) as Hf2.
  split.
  - apply dec_stable. intros Hp. apply Hchanged. rewrite save_other by done. by rewrite Hf2, Hf1.
  - destruct (handshake_Some _ _ _ _ _ _ Hh) as (sn & proof & l1 & l2 & Hin & Hk & Hproof).
    destruct (request_Some _ _ _ _ _ Hr) as (q & tag & ct & l3 & rest & Hin2 & Htag).
    exists cn, sn, proof, xs, q, tag, ct, l1, l2, l3, rest. split; [done|]. by rewrite Hin, Hin2.
Qed.

(** ** An honest exchange *)

Lemma runs_write buf : runs (write_all buf) tt [] buf.
Proof.
  intros s rest Hin Hu. unfold write_all. cbn [st_in st_out st_room st_rest enroll_stream] in *.
  rewrite bool_decide_eq_true_2 by done. eexists. split; [done|]. cbn.
  rewrite take_ge by lia. repeat split; [done|lia].
Qed.

Lemma runs_read n bs : length bs = n → runs (read_all n) bs bs [].
Proof.
  intros Hn s rest Hin _. unfold read_all. cbn [st_in st_out st_room st_rest enroll_stream] in *.
  rewrite Hin, length_app, bool_decide_eq_true_2 by lia. rewrite take_app_length', drop_app_length' by done.
  eexists. split; [done|]. cbn. by rewrite app_nil_r.
Qed.

Hypothesis HMAC_total : ∀ k d, ∃ o, HMAC k d = Some o ∧ length o = 32%nat.
Hypothesis calloc_works : ∀ n, calloc_ok n = true.

Lemma runs_calloc : runs calloc tt [] [].
Proof.
  intros s rest Hin _. unfold calloc. rewrite calloc_works. eexists. split; [done|]. cbn in *. by rewrite app_nil_r.
Qed.

Definition frame_bytes (type seq : Z) (payload : list Z) : list Z :=
  be_bytes 4 (Z.of_nat (length payload) + 9) ++ be_bytes 1 type ++ be_bytes 4 seq ++ payload.

Lemma frame_bytes_length t q p : length (frame_bytes t q p) = (9 + length p)%nat.
Proof. unfold frame_bytes. by rewrite !length_app, !be_bytes_length. Qed.

Lemma u8_byte t : in_width 8 t → [u8 t] = be_bytes 1 t.
Proof.
  intros Ht. unfold u8. rewrite wrap_small by done. change (be_bytes 1 t) with [Z.land (Z.shiftr t 0) 255].
  by rewrite land_255, Z.shiftr_0_r, Z.mod_small.
Qed.

Lemma runs_send_frame t q p : in_width 8 t → Z.of_nat (length p) + 9 ≤ 65535 →
  runs (send_frame t q p) tt [] (frame_bytes t q p).
Proof.
  intros Ht Hl. unfold send_frame, frame_bytes, IG_ENROLL_MAX_FRAME_SIZE, IG_ENROLL_FRAME_HEADER_SIZE.
  rewrite (proj2 (Z.ltb_ge _ _)) by lia. rewrite <- (u8_byte t Ht).
  replace (be_bytes 4 _ ++ [u8 t] ++ be_bytes 4 q ++ p) with
    ((be_bytes 4 (Z.of_nat (length p) + 9) ++ u8 t :: be_bytes 4 q) ++ p) by by rewrite <- !app_assoc.
  eapply runs_bind0; [apply runs_write|].
  destruct (Z.eqb_spec (Z.of_nat (length p)) 0) as [H0|]; [|apply runs_write].
  destruct p; [apply runs_ret|cbn in H0; lia].
Qed.

Lemma be_val_small n v : 0 ≤ v < 256 ^ Z.of_nat n → be_val (be_bytes n v) = v.
Proof. apply be_val_be_bytes. Qed.

Lemma runs_read_frame t q p : in_width 8 t → in_width 32 q → Z.of_nat (length p) + 9 ≤ 65535 →
  runs read_frame (Frame t q p) (frame_bytes t q p) [].
Proof.
  intros Ht Hq Hl. unfold read_frame, frame_bytes.
  rewrite !app_assoc. rewrite <- (app_assoc _ (be_bytes 1 t)).
  set (hdr := be_bytes 4 _ ++ _ ++ _).
  eapply (runs_reads _ _ hdr _ hdr p).
  { apply runs_read. subst hdr. by rewrite !length_app, !be_bytes_length. }
  assert (H1 : be_val (take 4 hdr) = Z.of_nat (length p) + 9).
  { subst hdr. rewrite take_app_length' by by rewrite be_bytes_length. apply be_val_small. lia. }
  assert (Hd : drop 4 hdr = be_bytes 1 t ++ be_bytes 4 q).
  { subst hdr. rewrite drop_app_length' by by rewrite be_bytes_length. done. }
  assert (H2 : be_val (take 1 (drop 4 hdr)) = t).
  { rewrite Hd, take_app_length' by by rewrite be_bytes_length. apply be_val_small. unfold in_width in Ht. lia. }
  assert (H3 : be_val (drop 5 hdr) = q).
  { replace (drop 5 hdr) with (drop 1 (drop 4 hdr)) by by rewrite drop_drop.
    rewrite Hd, drop_app_length' by by rewrite be_bytes_length. apply be_val_small. unfold in_width in Hq. lia. }
  rewrite H1, H2, H3. unfold IG_ENROLL_FRAME_HEADER_SIZE, IG_ENROLL_MAX_FRAME_SIZE.
  rewrite (proj2 (Z.ltb_ge _ 9)), (proj2 (Z.ltb_ge 65535 _)) by lia. cbn [orb].
  eapply (runs_then _ _ tt); [apply runs_calloc|].
  rewrite <- (app_nil_r p) at 3. eapply (runs_reads _ _ p _ p []); [|apply runs_ret].
  apply runs_read. lia.
Qed.

Lemma runs_read_bytes b p : Z.of_nat (length b) < 65536 →
  runs (read_bytes (be_bytes 2 (Z.of_nat (length b)) ++ b ++ p)) (Some b, p) [] [].
Proof.
  intros Hb. unfold read_bytes. rewrite bool_decide_eq_false_2 by (rewrite length_app, be_bytes_length; lia).
  rewrite take_app_length', drop_app_length' by by rewrite be_bytes_length.
  rewrite be_val_small by lia. rewrite Nat2Z.id. cbv zeta.
  rewrite bool_decide_eq_false_2 by (rewrite length_app; lia).
  rewrite take_app_length, drop_app_length.
  eapply (runs_then _ _ (Some tt)); [|apply runs_ret].
  apply runs_catch, runs_calloc.
Qed.

Lemma runs_read_string b p : Z.of_nat (length b) < 65536 → is_cstring b →
  runs (read_string (be_bytes 2 (Z.of_nat (length b)) ++ b ++ p)) (Some b, p) [] [].
Proof.
  intros Hb Hc. unfold read_string. rewrite bool_decide_eq_false_2 by (rewrite length_app, be_bytes_length; lia).
  rewrite take_app_length', drop_app_length' by by rewrite be_bytes_length.
  rewrite be_val_small by lia. rewrite Nat2Z.id. cbv zeta.
  rewrite bool_decide_eq_false_2 by (rewrite length_app; lia).
  rewrite take_app_length, drop_app_length, (cstr_id b Hc).
  eapply (runs_then _ _ (Some tt)); [|apply runs_ret].
  apply runs_catch, runs_calloc.
Qed.

Lemma runs_frame_mac xs t q ct tag : hmac_sha256 (xs_mac xs) (mac_data t q ct) = Some tag →
  runs (frame_mac xs t q ct) tag [] [].
Proof. intros H. eapply (runs_then _ _ tt); [apply runs_calloc|by apply runs_lift]. Qed.

Lemma runs_protect xs t q plain ct tag : xor_crypt xs q plain = Some ct →
  hmac_sha256 (xs_mac xs) (mac_data t q ct) = Some tag → Z.of_nat (length plain) + 32 ≤ 65535 →
  runs (protect_payload xs t q plain) (tag ++ ct) [] [].
Proof.
  intros Hx Hm Hl. unfold protect_payload, IG_ENROLL_MAX_FRAME_SIZE, IG_XOR_MAC_SIZE.
  rewrite (proj2 (Z.ltb_ge _ _)) by lia.
  eapply (runs_then _ _ tt); [apply runs_calloc|].
  eapply (runs_then _ _ ct); [by apply runs_lift|].
  eapply (runs_then _ _ tag); [by apply runs_frame_mac|apply runs_ret].
Qed.

Lemma runs_open xs t q plain ct tag : xor_crypt xs q ct = Some plain →
  hmac_sha256 (xs_mac xs) (mac_data t q ct) = Some tag →
  runs (open_protected_payload xs t q (tag ++ ct)) plain [] [].
Proof.
  intros Hx Hm. pose proof (hmac_length _ _ _ Hm) as Hl. unfold open_protected_payload, IG_XOR_MAC_SIZE.
  rewrite bool_decide_eq_false_2 by (rewrite length_app; lia).
  rewrite take_app_length', drop_app_length' by done. cbv zeta.
  eapply (runs_then _ _ tag); [by apply runs_frame_mac|].
  rewrite bool_decide_eq_true_2 by done.
  eapply (runs_then _ _ tt); [apply runs_calloc|by apply runs_lift].
Qed.

Lemma runs_derive cfg cn sn xs : session_keys cfg cn sn xs →
  runs (derive_session (ec_xor_key cfg) (ec_enrollment_id cfg) cn sn) xs [] [].
Proof.
  intros (H1 & H2 & H3). unfold derive_session.
  eapply (runs_then _ _ tt); [apply runs_calloc|].
  eapply (runs_then _ _ (xs_session xs)); [by apply runs_lift|].
  eapply (runs_then _ _ (xs_enc xs)); [by apply runs_lift|].
  eapply (runs_then _ _ (xs_mac xs)); [by apply runs_lift|].
  destruct xs. apply runs_ret.
Qed.

(** A string or byte string on the wire. *)
Definition lp (b : list Z) : list Z := be_bytes 2 (Z.of_nat (length b)) ++ b.

Lemma lp_length b : Z.of_nat (length (lp b)) = 2 + Z.of_nat (length b).
Proof. unfold lp. rewrite length_app, be_bytes_length. lia. Qed.

Lemma write_string_ok r b : Z.of_nat (length b) ≤ 65535 → Z.of_nat (length b) + 2 ≤ r →
  write_string r b = Some (lp b).
Proof.
  intros H1 H2. unfold write_string. rewrite (proj2 (Z.ltb_ge 65535 _)), (proj2 (Z.ltb_ge r _)) by lia. done.
Qed.

Lemma write_bytes_ok r b : Z.of_nat (length b) ≤ 65535 → Z.of_nat (length b) + 2 ≤ r →
  write_bytes r b = Some (lp b).
Proof. apply write_string_ok. Qed.

Lemma runs_hello id cn : Z.of_nat (length id) ≤ 65535 → length cn = 32%nat →
  runs (encode_hello id cn) (lp id ++ lp cn) [] [].
Proof.
  intros Hid Hcn. unfold encode_hello. pose proof (lp_length id). pose proof (lp_length cn).
  eapply (runs_then _ _ tt); [apply runs_calloc|].
  eapply (runs_then _ _ (lp id)); [apply runs_lift, write_string_ok; lia|].
  eapply (runs_then _ _ (lp cn)); [apply runs_lift, write_bytes_ok; lia|].
  rewrite bool_decide_eq_true_2 by (rewrite length_app; lia). apply runs_ret.
Qed.

Lemma runs_challenge q sn proof : length sn = 32%nat → length proof = 32%nat →
  runs (decode_challenge (Frame IG_MSG_XOR_CHALLENGE q (lp sn ++ lp proof))) (sn, proof) [] [].
Proof.
  intros Hs Hp. unfold decode_challenge. cbn [fr_type fr_payload].
  change (IG_MSG_XOR_CHALLENGE =? IG_MSG_XOR_ENROLL_ERROR) with false. rewrite Z.eqb_refl. cbn [negb].
  eapply (runs_then _ _ (Some sn, lp proof)).
  { unfold lp at 1. rewrite <- app_assoc. apply runs_read_bytes. lia. }
  cbv beta iota. eapply (runs_then _ _ (Some proof, [])).
  { rewrite <- (app_nil_r (lp proof)). unfold lp. rewrite <- app_assoc. apply runs_read_bytes. lia. }
  cbv beta iota. rewrite Hs, Hp. cbn [andb]. apply runs_ret.
Qed.

Definition request_plain (cfg : ig_enroll_config) : list Z :=
  lp (ec_hostname cfg) ++ lp (ec_ip cfg) ++ lp (ec_os cfg) ++ [ec_monitor_type cfg].

Lemma runs_request_plain cfg : Z.of_nat (length (request_plain cfg)) ≤ 65535 →
  runs (encode_request_plain cfg) (request_plain cfg) [] [].
Proof.
  intros Hl. unfold encode_request_plain, request_plain in *. pose proof (lp_length (ec_hostname cfg)).
  pose proof (lp_length (ec_ip cfg)). pose proof (lp_length (ec_os cfg)).
  rewrite !length_app in Hl. cbn [length] in Hl.
  eapply (runs_then _ _ tt); [apply runs_calloc|].
  eapply (runs_then _ _ (lp (ec_hostname cfg))); [apply runs_lift, write_string_ok; lia|].
  eapply (runs_then _ _ (lp (ec_ip cfg))); [apply runs_lift, write_string_ok; lia|].
  eapply (runs_then _ _ (lp (ec_os cfg)));
    [apply runs_lift, write_string_ok; rewrite ?length_app; lia|].
  rewrite (proj2 (Z.ltb_ge _ 1)) by (rewrite !length_app; lia). cbv zeta.
  rewrite bool_decide_eq_true_2 by (rewrite !length_app; cbn [length]; lia). apply runs_ret.
Qed.

Definition response_plain (r : ig_enroll_response) : list Z :=
  lp (er_agent_id r) ++ lp (er_agent_cert_pem r) ++ lp (er_agent_key_pem r) ++ lp (er_ca_cert_pem r) ++
  be_bytes 8 (er_expires_at r).

Definition wf_response (r : ig_enroll_response) : Prop :=
  Z.of_nat (length (response_plain r)) + 32 + 9 ≤ 65535 ∧ in_width 64 (er_expires_at r) ∧
  Forall is_cstring [er_agent_id r; er_agent_cert_pem r; er_agent_key_pem r; er_ca_cert_pem r].

Lemma runs_decode_response r : wf_response r →
  runs (decode_response_plain (response_plain r)) r [] [].
Proof.
  intros (Hl & He & Hs). unfold response_plain in *. rewrite !length_app, be_bytes_length in Hl.
  pose proof (lp_length (er_agent_id r)). pose proof (lp_length (er_agent_cert_pem r)).
  pose proof (lp_length (er_agent_key_pem r)). pose proof (lp_length (er_ca_cert_pem r)).
  apply Forall_cons in Hs as [S1 Hs]. apply Forall_cons in Hs as [S2 Hs].
  apply Forall_cons in Hs as [S3 Hs]. apply Forall_cons in Hs as [S4 _].
  unfold decode_response_plain.
  eapply (runs_then _ _ (Some (er_agent_id r), _));
    [unfold lp at 1; rewrite <- app_assoc; apply runs_read_string; [lia|done]|]. cbv beta iota.
  eapply (runs_then _ _ (Some (er_agent_cert_pem r), _));
    [unfold lp at 1; rewrite <- app_assoc; apply runs_read_string; [lia|done]|]. cbv beta iota.
  eapply (runs_then _ _ (Some (er_agent_key_pem r), _));
    [unfold lp at 1; rewrite <- app_assoc; apply runs_read_string; [lia|done]|]. cbv beta iota.
  eapply (runs_then _ _ (Some (er_ca_cert_pem r), _));
    [unfold lp at 1; rewrite <- app_assoc; apply runs_read_string; [lia|done]|]. cbv beta iota.
  rewrite be_bytes_length, bool_decide_eq_false_2 by lia. cbv zeta.
  rewrite bool_decide_eq_true_2 by done. rewrite be_val_halves by done. destruct r. apply runs_ret.
Qed.

Lemma hmac_some k d : ∃ o, hmac_sha256 k d = Some o.
Proof.
  unfold hmac_sha256. destruct (HMAC_total k d) as (o & -> & Ho). cbn. rewrite bool_decide_eq_true_2 by done. eauto.
Qed.

(** The frames of the agent. *)
Definition hello_frame (cfg : ig_enroll_config) (cn : list Z) : list Z :=
  frame_bytes IG_MSG_XOR_HELLO 1 (lp (ec_enrollment_id cfg) ++ lp cn).

Lemma runs_handshake cfg cn sn q xs proof :
  Z.of_nat (length (ec_enrollment_id cfg)) ≤ 65000 → length cn = 32%nat → length sn = 32%nat → in_width 32 q →
  session_keys cfg cn sn xs →
  hmac_sha256 (xs_mac xs) (transcript proof_label (ec_enrollment_id cfg) cn sn) = Some proof →
  runs (enroll_handshake cfg cn true) xs (frame_bytes IG_MSG_XOR_CHALLENGE q (lp sn ++ lp proof)) (hello_frame cfg cn).
Proof.
  intros Hid Hcn Hsn Hq Hk Hp. pose proof (hmac_length _ _ _ Hp) as Hpl. unfold enroll_handshake.
  pose proof (lp_length (ec_enrollment_id cfg)) as L1. pose proof (lp_length cn) as L2.
  pose proof (lp_length sn) as L3. pose proof (lp_length proof) as L4. unfold hello_frame.
  set (hello := lp (ec_enrollment_id cfg) ++ lp cn).
  assert (Hh : Z.of_nat (length hello) ≤ 65036) by (subst hello; rewrite length_app; lia).
  eapply (runs_then _ _ hello); [apply runs_hello; [lia|done]|]. cbn [negb].
  rewrite <- (app_nil_r (frame_bytes IG_MSG_XOR_HELLO _ _)).
  eapply (runs_bind0 _ _ tt); [apply runs_send_frame; [unfold in_width; done|lia]|].
  rewrite <- (app_nil_r (frame_bytes _ _ (lp sn ++ _))).
  eapply (runs_reads _ _ (Frame IG_MSG_XOR_CHALLENGE q (lp sn ++ lp proof))).
  { apply runs_read_frame; [done|done|]. rewrite length_app. lia. }
  cbn [fr_type]. change (IG_MSG_XOR_CHALLENGE =? IG_MSG_XOR_ENROLL_ERROR) with false. cbn [andb].
  eapply (runs_then _ _ (sn, proof)); [by apply runs_challenge|]. cbv beta iota.
  eapply (runs_then _ _ xs); [by apply runs_derive|].
  eapply (runs_then _ _ proof).
  { unfold server_proof. eapply (runs_then _ _ tt); [apply runs_calloc|by apply runs_lift]. }
  rewrite bool_decide_eq_true_2 by done. apply runs_ret.
Qed.

Lemma runs_request cfg xs q resp ct tag rct rtag :
  Z.of_nat (length (request_plain cfg)) ≤ 65000 → in_width 32 q → wf_response resp →
  xor_crypt xs 3 (request_plain cfg) = Some rct →
  hmac_sha256 (xs_mac xs) (mac_data IG_MSG_XOR_ENROLL_REQUEST 3 rct) = Some rtag →
  xor_crypt xs q (response_plain resp) = Some ct →
  hmac_sha256 (xs_mac xs) (mac_data IG_MSG_XOR_ENROLL_RESPONSE q ct) = Some tag →
  runs (enroll_request cfg xs) resp (frame_bytes IG_MSG_XOR_ENROLL_RESPONSE q (tag ++ ct))
    (frame_bytes IG_MSG_XOR_ENROLL_REQUEST 3 (rtag ++ rct)).
Proof.
  intros Hreq Hq Hresp Hrct Hrtag Hct Htag. destruct (xor_crypt_involutive _ _ _ _ Hct) as [Hctl Hpt].
  pose proof (hmac_length _ _ _ Htag) as Htl. unfold enroll_request.
  pose proof (hmac_length _ _ _ Hrtag) as Hrl. destruct (xor_crypt_involutive xs 3 _ _ Hrct) as [Hrctl _].
  assert (Hlen : length (rtag ++ rct) = (32 + length (request_plain cfg))%nat) by (rewrite length_app; lia).
  eapply (runs_then _ _ (request_plain cfg)); [apply runs_request_plain; lia|].
  eapply (runs_then _ _ (rtag ++ rct)); [apply runs_protect; [done|done|lia]|].
  rewrite <- (app_nil_r (frame_bytes IG_MSG_XOR_ENROLL_REQUEST _ _)).
  eapply (runs_bind0 _ _ tt); [apply runs_send_frame; [unfold in_width; done|lia]|].
  rewrite <- (app_nil_r (frame_bytes _ _ (tag ++ _))).
  eapply (runs_reads _ _ (Frame IG_MSG_XOR_ENROLL_RESPONSE q (tag ++ ct))).
  { apply runs_read_frame; [done|done|]. destruct Hresp as (Hl & _). rewrite length_app. lia. }
  cbn [fr_type fr_seq fr_payload].
  change (IG_MSG_XOR_ENROLL_RESPONSE =? IG_MSG_XOR_ENROLL_ERROR) with false. rewrite Z.eqb_refl. cbn [negb].
  eapply (runs_then _ _ (response_plain resp)); [by apply runs_open|by apply runs_decode_response].
Qed.

Lemma write_text_ok path data mode n s : file_result path = Writes n → is_cstring data → (length data ≤ n)%nat →
  write_text_file path data mode s =
  (Some tt, EnrollState (es_in s) (es_out s) (es_room s) (<[path := (data, mode)]> (es_files s)) (es_nalloc s)).
Proof.
  intros Hr Hc Hn. unfold write_text_file. rewrite Hr, (cstr_id _ Hc).
  by rewrite bool_decide_eq_true_2, take_ge by done.
Qed.

(** The three files of a response. *)
Definition installed (cfg : ig_enroll_config) (resp : ig_enroll_response)
    (files : gmap (list Z) (list Z * Z)) : gmap (list Z) (list Z * Z) :=
  <[ec_agent_key cfg := (er_agent_key_pem resp, 0x180)]>
    (<[ec_agent_crt cfg := (er_agent_cert_pem resp, 0x1A4)]>
       (<[ec_ca_crt cfg := (er_ca_cert_pem resp, 0x1A4)]> files)).

(** Saving writes the files and sends the acknowledgement. *)
Lemma save_ok cfg xs resp atag n s : wf_response resp →
  (∀ p, file_result p = Writes n) → (length (response_plain resp) ≤ n)%nat →
  hmac_sha256 (xs_mac xs) (mac_data IG_MSG_XOR_ENROLL_ACK 5 []) = Some atag →
  (length (frame_bytes IG_MSG_XOR_ENROLL_ACK 5 atag) ≤ es_room s)%nat →
  ∃ s', enroll_save cfg xs resp s = (Some tt, s') ∧ es_files s' = installed cfg resp (es_files s) ∧
    es_out s' = es_out s ++ frame_bytes IG_MSG_XOR_ENROLL_ACK 5 atag.
Proof.
  intros (Hl & _ & Hs) Hfiles Hn Hatag Hroom. unfold response_plain in Hn, Hl. rewrite !length_app in Hn.
  pose proof (lp_length (er_agent_cert_pem resp)). pose proof (lp_length (er_agent_key_pem resp)).
  pose proof (lp_length (er_ca_cert_pem resp)).
  apply Forall_cons in Hs as [_ Hs]. apply Forall_cons in Hs as [S2 Hs].
  apply Forall_cons in Hs as [S3 Hs]. apply Forall_cons in Hs as [S4 _].
  unfold enroll_save.
  erewrite (E_step _ _ s); [|apply (write_text_ok _ _ _ n); [done|done|lia]|reflexivity].
  erewrite E_step; [|apply (write_text_ok _ _ _ n); [done|done|lia]|reflexivity].
  erewrite E_step; [|apply (write_text_ok _ _ _ n); [done|done|lia]|reflexivity].
  cbn [es_in es_out es_room es_files es_nalloc]. set (s3 := EnrollState _ _ _ _ _).
  assert (Hrun : runs (ack ← ecatch (protect_payload xs IG_MSG_XOR_ENROLL_ACK 5 []);
     match ack with
     | Some ack => _ ← ecatch (send_frame IG_MSG_XOR_ENROLL_ACK 5 ack); mret tt
     | None => mret tt
     end) tt [] (frame_bytes IG_MSG_XOR_ENROLL_ACK 5 atag)).
  { pose proof (hmac_length _ _ _ Hatag) as Hal.
    eapply (runs_then _ _ (Some atag)).
    { apply runs_catch. rewrite <- (app_nil_r atag). by apply runs_protect. }
    rewrite <- (app_nil_r (frame_bytes _ _ _)).
    eapply (runs_bind0 _ _ (Some tt)); [apply runs_catch, runs_send_frame; [unfold in_width; done|lia]|apply runs_ret]. }
  destruct (Hrun s3 (es_in s3) eq_refl Hroom) as (s' & Hs' & _ & Ho & _ & Hf).
  exists s'. split; [exact Hs'|]. split; [exact Hf|exact Ho].
Qed.

(** A run on the answers of an honest server: what it installs and every byte it
    sends. *)
Lemma enroll_agrees cfg cn sn proof ct tag rct rtag atag rest q0 q xs resp s n :
  Z.of_nat (length (ec_enrollment_id cfg)) ≤ 65000 → Z.of_nat (length (request_plain cfg)) ≤ 65000 →
  length cn = 32%nat → length sn = 32%nat → in_width 32 q0 → in_width 32 q → wf_response resp →
  session_keys cfg cn sn xs →
  hmac_sha256 (xs_mac xs) (transcript proof_label (ec_enrollment_id cfg) cn sn) = Some proof →
  xor_crypt xs 3 (request_plain cfg) = Some rct →
  hmac_sha256 (xs_mac xs) (mac_data IG_MSG_XOR_ENROLL_REQUEST 3 rct) = Some rtag →
  xor_crypt xs q (response_plain resp) = Some ct →
  hmac_sha256 (xs_mac xs) (mac_data IG_MSG_XOR_ENROLL_RESPONSE q ct) = Some tag →
  hmac_sha256 (xs_mac xs) (mac_data IG_MSG_XOR_ENROLL_ACK 5 []) = Some atag →
  es_in s = frame_bytes IG_MSG_XOR_CHALLENGE q0 (lp sn ++ lp proof) ++
            frame_bytes IG_MSG_XOR_ENROLL_RESPONSE q (tag ++ ct) ++ rest →
  132000 ≤ Z.of_nat (es_room s) → (∀ p, file_result p = Writes n) → (length (response_plain resp) ≤ n)%nat →
  ∃ s', ig_enroll_execute cfg (Some cn) true s = (Some tt, s') ∧
    es_out s' = es_out s ++ hello_frame cfg cn ++ frame_bytes IG_MSG_XOR_ENROLL_REQUEST 3 (rtag ++ rct) ++
                frame_bytes IG_MSG_XOR_ENROLL_ACK 5 atag ∧
    es_files s' = installed cfg resp (es_files s).
Proof.
  intros Hid Hreq Hcn Hsn Hq0 Hq Hresp Hkeys Hproof Hrct Hrtag Hct Htag Hatag Hin Hroom Hfiles Hn.
  pose proof (lp_length (ec_enrollment_id cfg)) as L1. pose proof (lp_length cn) as L2.
  pose proof (hmac_length _ _ _ Hrtag) as L3. pose proof (hmac_length _ _ _ Hatag) as L4.
  destruct (xor_crypt_involutive xs 3 _ _ Hrct) as [L5 _].
  destruct (runs_handshake cfg cn sn q0 xs proof Hid Hcn Hsn Hq0 Hkeys Hproof s _ Hin) as (s1 & H1 & Hi1 & Ho1 & Hr1 & Hf1).
  { cbn. unfold hello_frame. rewrite frame_bytes_length, length_app. lia. }
  destruct (runs_request cfg xs q resp ct tag rct rtag Hreq Hq Hresp Hrct Hrtag Hct Htag s1 rest Hi1)
    as (s2 & H2 & _ & Ho2 & Hr2 & Hf2).
  { cbn in *. unfold hello_frame in Hr1. rewrite frame_bytes_length, length_app in *. lia. }
  cbn in Ho1, Hr1, Hf1, Ho2, Hr2, Hf2.
  destruct (save_ok cfg xs resp atag n s2 Hresp Hfiles Hn Hatag) as (s3 & H3 & Hf3 & Ho3).
  { unfold hello_frame in Hr1. rewrite !frame_bytes_length, !length_app in *. lia. }
  exists s3. split; [|split].
  - unfold ig_enroll_execute. rewrite (E_step _ _ s cn s _ eq_refl eq_refl).
    by rewrite (E_step _ _ s xs s1 _ H1 eq_refl), (E_step _ _ s1 resp s2 _ H2 eq_refl).
  - by rewrite Ho3, Ho2, Ho1, <- !app_assoc.
  - by rewrite Hf3, Hf2, Hf1.
Qed.

(** Protecting a payload and opening it are inverse, and opening checks
    everything: what was protected under a type and number is opened to the
    same bytes under that type and number, and whatever is opened, for any
    payload, type and number, carries the HMAC of all three. *)
Theorem protected_payload_roundtrip (xs : ig_xor_session) (t q : Z) (plain p : list Z) (s s1 : enroll_state)
    (Hprot : protect_payload xs t q plain s = (Some p, s1)) :
  (∀ s2, ∃ s3, open_protected_payload xs t q p s2 = (Some plain, s3)) ∧
  length p = (32 + length plain)%nat ∧
  ∀ t' q' p' s2 out s3, open_protected_payload xs t' q' p' s2 = (Some out, s3) →
    hmac_sha256 (xs_mac xs) (mac_data t' q' (drop 32 p')) = Some (take 32 p').
Proof.
  unfold protect_payload in Hprot. destruct (_ <? _); [done|].
  apply E_bind_Some in Hprot as ([] & s4 & _ & Hprot). apply E_bind_Some in Hprot as (ct & s5 & Hx & Hprot).
  apply E_bind_Some in Hprot as (tag & s6 & Hm & Hprot). injection Hprot as <- _.
  unfold elift in Hx. injection Hx as Hx _. unfold frame_mac in Hm.
  apply E_bind_Some in Hm as ([] & s7 & _ & Hm). unfold elift in Hm. injection Hm as Hm _.
  destruct (xor_crypt_involutive _ _ _ _ Hx) as [Hl Hback]. pose proof (hmac_length _ _ _ Hm) as Htl.
  split; [|split].
  - intros s2. destruct (runs_open xs t q plain ct tag Hback Hm s2 (es_in s2)) as (s3 & H & _); [done|cbn; lia|by exists s3].
  - rewrite length_app. lia.
  - intros t' q' p' s2 out s3 H. apply open_accepts in H as (tg & c & -> & Hmac & _).
    pose proof (hmac_length _ _ _ Hmac) as Htgl. by rewrite take_app_length', drop_app_length' by done.
Qed.

(** An honest server enrolls the agent: when the server answers with its
    nonce and proof and with the response encrypted and tagged under the
    session keys, enrollment returns 0 and the three files hold exactly the
    certificates and key the server sent, the private key readable by its
    owner only. *)
Theorem honest_enrollment_installs (cfg : ig_enroll_config) (cn sn proof ct tag rest : list Z) (q : Z)
    (xs : ig_xor_session) (resp : ig_enroll_response) (s : enroll_state) (n : nat)
    (Hid : Z.of_nat (length (ec_enrollment_id cfg)) ≤ 65000)
    (Hreq : Z.of_nat (length (request_plain cfg)) ≤ 65000)
    (Hcn : length cn = 32%nat) (Hsn : length sn = 32%nat) (Hq : in_width 32 q) (Hresp : wf_response resp)
    (Hkeys : session_keys cfg cn sn xs)
    (Hproof : hmac_sha256 (xs_mac xs) (transcript proof_label (ec_enrollment_id cfg) cn sn) = Some proof)
    (Hct : xor_crypt xs q (response_plain resp) = Some ct)
    (Htag : hmac_sha256 (xs_mac xs) (mac_data IG_MSG_XOR_ENROLL_RESPONSE q ct) = Some tag)
    (Hin : es_in s = frame_bytes IG_MSG_XOR_CHALLENGE 2 (lp sn ++ lp proof) ++
                     frame_bytes IG_MSG_XOR_ENROLL_RESPONSE q (tag ++ ct) ++ rest)
    (Hroom : 132000 ≤ Z.of_nat (es_room s))
    (Hfiles : ∀ p, file_result p = Writes n) (Hn : (length (response_plain resp) ≤ n)%nat) :
  ∃ s', ig_enroll_execute cfg (Some cn) true s = (Some tt, s') ∧
    es_files s' = <[ec_agent_key cfg := (er_agent_key_pem resp, 0x180)]>
                    (<[ec_agent_crt cfg := (er_agent_cert_pem resp, 0x1A4)]>
                       (<[ec_ca_crt cfg := (er_ca_cert_pem resp, 0x1A4)]> (es_files s))).
Proof.
  destruct (xor_blocks_total HMAC_total (length (request_plain cfg)) (xs_enc xs) 3 0 (request_plain cfg) (Nat.le_refl _))
    as [rct Hrct].
  destruct (hmac_some (xs_mac xs) (mac_data IG_MSG_XOR_ENROLL_REQUEST 3 rct)) as [rtag Hrtag].
  destruct (hmac_some (xs_mac xs) (mac_data IG_MSG_XOR_ENROLL_ACK 5 [])) as [atag Hatag].
  destruct (enroll_agrees cfg cn sn proof ct tag rct rtag atag rest 2 q xs resp s n) as (s' & H1 & _ & H2);
    try done. by exists s'.
Qed.
End enroll.

(** ** A sample exchange, with a toy MAC *)

Definition toy_hmac (key data : list Z) : option (list Z) :=
  Some (replicate 32 (fold_left (λ acc b, (31 * acc + b) mod 251) (key ++ data) 7)).

Lemma toy_hmac_total k d : ∃ o, toy_hmac k d = Some o ∧ length o = 32%nat.
Proof. eexists. split; [reflexivity|]. by rewrite length_replicate. Qed.

Definition toy (k d : list Z) : list Z := default [] (hmac_sha256 toy_hmac k d).

Definition sample_cfg : ig_enroll_config :=
  EnrollConfig (lit "/etc/ig/ca.crt") (lit "/etc/ig/agent.crt") (lit "/etc/ig/agent.key")
    (lit "enr-1") (lit "secret") (lit "vm1") (lit "10.0.0.5") (lit "Linux") 2.
Definition sample_cn : list Z := replicate 32 1.
Definition sample_sn : list Z := replicate 32 2.
Definition sample_session : list Z :=
  toy (lit "secret") (transcript session_label (lit "enr-1") sample_cn sample_sn).
Definition sample_keys : ig_xor_session :=
  XorSession sample_session (toy sample_session enc_label) (toy sample_session mac_label).
Definition sample_proof : list Z :=
  toy (xs_mac sample_keys) (transcript proof_label (lit "enr-1") sample_cn sample_sn).
Definition sample_resp : ig_enroll_response :=
  EnrollResponse (lit "7") (lit "CERT") (lit "KEY") (lit "CA") 1800000000.
Definition sample_ct : list Z := default [] (xor_crypt toy_hmac sample_keys 4 (response_plain sample_resp)).
Definition sample_tag : list Z :=
  toy (xs_mac sample_keys) (mac_data IG_MSG_XOR_ENROLL_RESPONSE 4 sample_ct).
Definition sample_enroll : enroll_state :=
  EnrollState (frame_bytes IG_MSG_XOR_CHALLENGE 2 (lp sample_sn ++ lp sample_proof) ++
               frame_bytes IG_MSG_XOR_ENROLL_RESPONSE 4 (sample_tag ++ sample_ct) ++ [])
    [] (Z.to_nat 132000) ∅ 0.

Lemma honest_enrollment_installs_witness :
  ∃ s', ig_enroll_execute toy_hmac (λ _, true) (λ _, Writes 1000) 18 sample_cfg (Some sample_cn) true sample_enroll
        = (Some tt, s') ∧
    es_files s' = <[lit "/etc/ig/agent.key" := (lit "KEY", 0x180)]>
                    (<[lit "/etc/ig/agent.crt" := (lit "CERT", 0x1A4)]>
                       (<[lit "/etc/ig/ca.crt" := (lit "CA", 0x1A4)]> ∅)).
Proof.
  apply (honest_enrollment_installs toy_hmac (λ _, true) (λ _, Writes 1000) 18 toy_hmac_total (λ _, eq_refl)
    sample_cfg sample_cn sample_sn sample_proof sample_ct sample_tag [] 4 sample_keys sample_resp sample_enroll 1000).
  - vm_compute; discriminate.
  - vm_compute; discriminate.
  - reflexivity.
  - reflexivity.
  - unfold in_width; lia.
  - split; [vm_compute; discriminate|]. split; [unfold in_width; cbn; lia|].
    repeat constructor; discriminate.
  - split_and!; vm_compute; reflexivity.
  - vm_compute; reflexivity.
  - vm_compute; reflexivity.
  - vm_compute; reflexivity.
  - reflexivity.
  - cbn [es_room sample_enroll]. lia.
  - reflexivity.
  - by apply (bool_decide_unpack _).
Defined.

Lemma protected_payload_roundtrip_witness :
  ∃ p s1, protect_payload toy_hmac (λ _, true) sample_keys 0x23 3 (lit "hello") sample_enroll = (Some p, s1) ∧
  (∀ s2, ∃ s3, open_protected_payload toy_hmac (λ _, true) sample_keys 0x23 3 p s2 = (Some (lit "hello"), s3)) ∧
  length p = 37%nat ∧
  ∀ t' q' p' s2 out s3, open_protected_payload toy_hmac (λ _, true) sample_keys t' q' p' s2 = (Some out, s3) →
    hmac_sha256 toy_hmac (xs_mac sample_keys) (mac_data t' q' (drop 32 p')) = Some (take 32 p').
Proof.
  eexists _, _. split; [cbv - [Z.to_nat]; reflexivity|].
  eapply (protected_payload_roundtrip toy_hmac (λ _, true) (λ _, eq_refl) sample_keys 0x23 3 (lit "hello")
    _ sample_enroll). cbv - [Z.to_nat]. reflexivity.
Defined.

Lemma enroll_trusts_only_the_key_witness :
  lit "/etc/ig/agent.key" ∈ [ec_ca_crt sample_cfg; ec_agent_crt sample_cfg; ec_agent_key sample_cfg] ∧
  ∃ cn sn proof xs q tag ct l1 l2 l3 rest,
    Some sample_cn = Some cn ∧ es_in sample_enroll = l1 ++ sn ++ l2 ++ proof ++ l3 ++ tag ++ ct ++ rest ∧
    session_keys toy_hmac sample_cfg cn sn xs ∧
    hmac_sha256 toy_hmac (xs_mac xs) (transcript proof_label (ec_enrollment_id sample_cfg) cn sn) = Some proof ∧
    hmac_sha256 toy_hmac (xs_mac xs) (mac_data IG_MSG_XOR_ENROLL_RESPONSE q ct) = Some tag.
Proof.
  apply (enroll_trusts_only_the_key toy_hmac (λ _, true) (λ _, Writes 1000) 18 sample_cfg (Some sample_cn) true
    sample_enroll (lit "/etc/ig/agent.key")).
  vm_compute. discriminate.
Defined.
