(* ===== verification/EnrollMemory.v ===== *)
(** * Memory of the enrollment (enroll/enroll.c)

    Enroll models what the exchange computes; here is what it does with memory:
    every buffer it allocates, fills, erases and frees, the secrets on its stack,
    its socket. Contents are left out; each call that can fail does so in one of
    the outcomes, and all outcomes of [ig_enroll_execute] are enumerated. *)

From S2P Require Import Prelude.

Local Open Scope Z_scope.

(** ** A heap with all its outcomes *)

(** The lengths the code computes; [LString] is the length of a received string,
    [LUpToNul] what [strlen] says of one with a zero byte inside. *)
Inductive len := LHello | LData | LRequest | LProtected | LPlain | LPayload | LString | LUpToNul | LBytes | LAddr.

#[export] Instance len_eq_dec : EqDecision len.
Proof. solve_decision. Defined.

(** What [ig_enroll_execute] and its callees keep on the stack and must erase. *)
Inductive local := ClientNonce | ServerNonce | ExpectedProof | ReceivedProof | Session | KeyStream | WantMac.

#[export] Instance local_eq_dec : EqDecision local.
Proof. solve_decision. Defined.

(** What a block of the heap may hold: the messages the agent builds, what it feeds to
    HMAC, the payload of a received frame (the challenge's nonce and proof, the
    protected response, an error), the nonce and the proof copied out of it, the
    decrypted response and its four strings, the text of an error. *)
Inductive data := DHello | DHmac | DRequest | DProtected | DFrame | DChallenge | DPlain | DId | DCert | DKey | DCa
  | DError.

#[export] Instance data_eq_dec : EqDecision data.
Proof. solve_decision. Defined.

(** [bk_data]: what was written and not erased since. *)
Record block := Block { bk_len : len; bk_data : option data }.
Definition ptr := option nat.

(** [m_exposed]: what was in blocks that were freed without being erased;
    [m_nul]: the private key received had a zero byte inside. *)
Record mem := Mem {
  m_heap : list (nat * block); m_next : nat; m_locals : list local; m_fd : bool; m_exposed : list data; m_nul : bool }.

Definition empty_mem : mem := Mem [] 0 [] false [] false.

(** All outcomes; [None] is undefined behaviour. *)
Definition M (A : Type) : Type := mem → list (option (A * mem)).
Definition mret_ {A} (a : A) : M A := λ m, [Some (a, m)].
Definition mbind_ {A B} (c : M A) (f : A → M B) : M B :=
  λ m, c m ≫= λ o, match o with None => [None] | Some (a, m) => f a m end.

Declare Scope mem_scope.
Delimit Scope mem_scope with mem.
Notation "'do' x <- c ; k" := (mbind_ c (λ x, k)) (at level 200, x name, c at level 100, k at level 200) : mem_scope.
Notation "c ;; k" := (mbind_ c (λ _, k)) (at level 100, k at level 200, right associativity) : mem_scope.
Local Open Scope mem_scope.

Definition fault {A} : M A := λ _, [None].
Definition flip : M bool := λ m, [Some (true, m); Some (false, m)].
Definition get_block (b : nat) (m : mem) : option block := snd <$> List.find (λ x, (x.1 =? b)%nat) (m_heap m).
Definition set_heap (h : list (nat * block)) (m : mem) : mem :=
  Mem h (m_next m) (m_locals m) (m_fd m) (m_exposed m) (m_nul m).
Definition set_block (b : nat) (f : block → block) (m : mem) : mem :=
  set_heap ((λ x, if (x.1 =? b)%nat then (b, f x.2) else x) <$> m_heap m) m.

Definition calloc (l : len) : M ptr := λ m,
  [Some (None, m);
   Some (Some (m_next m), Mem ((m_next m, Block l None) :: m_heap m) (S (m_next m)) (m_locals m) (m_fd m)
                            (m_exposed m) (m_nul m))].

(** Writing into a block, erasing a number of bytes, [free]. *)
Definition fill (b : nat) (d : data) : M unit := λ m,
  match get_block b m with None => [None] | Some _ => [Some (tt, set_block b (λ k, Block (bk_len k) (Some d)) m)] end.
Definition bzero (b : nat) (l : len) : M unit := λ m,
  match get_block b m with
  | None => [None]
  | Some k => if decide (l = bk_len k) then [Some (tt, set_block b (λ k, Block (bk_len k) None) m)]
              else if decide (l = LUpToNul) then [Some (tt, m)] else [None]
  end.
Definition expose (d : option data) (l : list data) : list data :=
  match d with Some d => if bool_decide (d ∈ l) then l else d :: l | None => l end.
Definition free_block (b : nat) : M unit := λ m,
  match get_block b m with
  | None => [None]
  | Some k => [Some (tt, Mem (List.filter (λ x, negb (x.1 =? b)%nat) (m_heap m)) (m_next m) (m_locals m) (m_fd m)
                           (expose (bk_data k) (m_exposed m)) (m_nul m))]
  end.
Definition free (p : ptr) : M unit := match p with None => mret_ tt | Some b => free_block b end.

Definition hold (v : local) : M unit := λ m,
  [Some (tt, Mem (m_heap m) (m_next m) (v :: m_locals m) (m_fd m) (m_exposed m) (m_nul m))].
Definition wipe (v : local) : M unit := λ m,
  [Some (tt, Mem (m_heap m) (m_next m) (filter (λ x, x ≠ v) (m_locals m)) (m_fd m) (m_exposed m) (m_nul m))].
Definition set_fd (open : bool) : M unit := λ m,
  if decide (open = m_fd m) then [None]
  else [Some (tt, Mem (m_heap m) (m_next m) (m_locals m) open (m_exposed m) (m_nul m))].
Definition saw_nul : M unit := λ m,
  [Some (tt, Mem (m_heap m) (m_next m) (m_locals m) (m_fd m) (m_exposed m) true)].

(** [if (!p) return a;] *)
Definition unless_null {A} (p : ptr) (a : A) (k : nat → M A) : M A :=
  match p with None => mret_ a | Some b => k b end.
(** A call that may fail, without memory of its own. *)
Definition may_fail : M Z := (do ok <- flip; mret_ (if ok : bool then 0 else -1)).

(** ** The functions *)

(* @src enroll/enroll.c:54-58 ig_secure_bzero *)
Definition ig_secure_bzero (p : ptr) (l : len) : M unit :=
  match p with None => mret_ tt | Some b => bzero b l end.

(* @src enroll/enroll.c:132-148 read_string *)
Definition read_string (d : data) : M ptr :=
  (do short <- flip; if short : bool then mret_ None
   else do p <- calloc LString; unless_null p None (λ b, fill b d ;; mret_ (Some b))).

(* @src enroll/enroll.c:150-167 read_bytes *)
Definition read_bytes : M ptr :=
  (do short <- flip; if short : bool then mret_ None
   else do p <- calloc LBytes; unless_null p None (λ b, fill b DChallenge ;; mret_ (Some b))).

(** The descriptor, or -1. *)
(* @src enroll/enroll.c:169-199 connect_tcp *)
Definition connect_tcp : M Z :=
  (do rc <- may_fail;
   if rc <? 0 then mret_ (-1)
   else
     do res <- calloc LAddr;
     unless_null res (-1) (λ b,
       do rc <- may_fail;
       if rc <? 0 then free_block b ;; mret_ (-1)
       else
         set_fd true ;;
         do rc <- may_fail;
         if rc <? 0 then set_fd false ;; free_block b ;; mret_ (-1)
         else free_block b ;; mret_ 3)).

(** [data]: a buffer filled, passed to HMAC and erased. *)
Definition hmac_over (hmac : M Z) : M Z :=
  (do data <- calloc LData;
   unless_null data (-1) (λ b, fill b DHmac ;; do ret <- hmac; bzero b LData ;; free_block b ;; mret_ ret)).

(* @src enroll/enroll.c:224-259 derive_session *)
Definition derive_session : M Z :=
  hmac_over (hold Session ;;
    do r1 <- may_fail;
    if r1 <? 0 then mret_ (-1)
    else do r2 <- may_fail; if r2 <? 0 then mret_ (-1) else do r3 <- may_fail; mret_ (if r3 <? 0 then -1 else 0)).

(* @src enroll/enroll.c:261-284 server_proof *)
Definition server_proof : M Z := hmac_over (do ret <- may_fail; (if ret <? 0 then mret_ tt else hold ExpectedProof) ;; mret_ ret).

(** [out]: the local the code is written to, if it is to be erased. *)
(* @src enroll/enroll.c:286-301 frame_mac *)
Definition frame_mac (out : option local) : M Z :=
  hmac_over (do ret <- may_fail;
    (match out with Some v => if ret <? 0 then mret_ tt else hold v | None => mret_ tt end) ;; mret_ ret).

(** One block of the key stream more or less leaves the same behind. *)
(* @src enroll/enroll.c:303-324 xor_crypt *)
Definition xor_crypt (dst : nat) (d : data) : M Z :=
  (fill dst d ;; hold KeyStream ;;
   do ret <- may_fail;
   wipe KeyStream ;; mret_ ret).

(* @src enroll/enroll.c:326-343 protect_payload *)
Definition protect_payload : M ptr :=
  (do too_long <- flip;
   if too_long : bool then mret_ None
   else
     do buf <- calloc LProtected;
     unless_null buf None (λ b,
       do r1 <- xor_crypt b DProtected;
       do r2 <- (if r1 <? 0 then mret_ (-1) else frame_mac None);
       if r2 <? 0 then bzero b LProtected ;; free_block b ;; mret_ None
       else mret_ (Some b))).

(* @src enroll/enroll.c:345-370 open_protected_payload *)
Definition open_protected_payload : M ptr :=
  (do short <- flip;
   if short : bool then mret_ None
   else
     do rc <- frame_mac (Some WantMac);
     if rc <? 0 then mret_ None
     else
       do differs <- flip;
       wipe WantMac ;;
       if differs : bool then mret_ None
       else
         do plain <- calloc LPlain;
         unless_null plain None (λ b,
           do rc <- xor_crypt b DPlain;
           if rc <? 0 then bzero b LPlain ;; free_block b ;; mret_ None else mret_ (Some b))).

(** The result and [frame->payload]; nothing is left there on failure. *)
(* @src enroll/enroll.c:386-408 read_frame *)
Definition read_frame : M (Z * ptr) :=
  (do rc <- may_fail;
   if rc <? 0 then mret_ (-1, None)
   else
     do payload <- calloc LPayload;
     unless_null payload (-1, None) (λ b,
       fill b DFrame ;;
       do rc <- may_fail;
       if rc <? 0 then free_block b ;; mret_ (-1, None) else mret_ (0, Some b))).

(* @src enroll/enroll.c:410-415 frame_free *)
Definition frame_free (payload : ptr) : M ptr := (free payload ;; mret_ None).

(* @src enroll/enroll.c:417-434 encode_hello *)
Definition encode_hello : M ptr :=
  (do buf <- calloc LHello;
   unless_null buf None (λ b,
     do too_long <- flip;
     if too_long : bool then free_block b ;; mret_ None else fill b DHello ;; mret_ (Some b))).

(* @src enroll/enroll.c:436-460 decode_challenge *)
Definition decode_challenge : M Z :=
  (do wrong_type <- flip;
   if wrong_type : bool then mret_ (-1)
   else
     do nonce <- read_bytes;
     do proof_buf <- read_bytes;
     do ret <- (match nonce, proof_buf with
                | Some _, Some _ =>
                    do fits <- flip;
                    if fits : bool then hold ServerNonce ;; hold ReceivedProof ;; mret_ 0 else mret_ (-1)
                | _, _ => mret_ (-1)
                end);
     ig_secure_bzero nonce LBytes ;; free nonce ;;
     ig_secure_bzero proof_buf LBytes ;; free proof_buf ;;
     mret_ ret).

(* @src enroll/enroll.c:462-490 encode_request_plain *)
Definition encode_request_plain : M ptr :=
  (do buf <- calloc LRequest;
   unless_null buf None (λ b,
     let fail := bzero b LRequest ;; free_block b ;; mret_ None in
     do long1 <- flip;
     if long1 : bool then fail
     else
       fill b DRequest ;;
       do long2 <- flip;
       if long2 : bool then fail
       else do long3 <- flip; if long3 : bool then fail else mret_ (Some b))).

(** [rs_key_len]: what [strlen] says of the private key. *)
Record response := Response { rs_id : ptr; rs_cert : ptr; rs_key : ptr; rs_ca : ptr; rs_key_len : len }.
Definition no_response : response := Response None None None None LString.

(* @src enroll/enroll.c:492-506 decode_response_plain *)
Definition decode_response_plain : M (Z * response) :=
  (do id <- read_string DId;
   do cert <- read_string DCert;
   do key <- read_string DKey;
   do key_len <- (match key with
                  | Some _ =>
                      do nul <- flip;
                      if nul : bool then saw_nul ;; mret_ LUpToNul else mret_ LString
                  | None => mret_ LString
                  end);
   do ca <- read_string DCa;
   do rest <- may_fail;
   let resp := Response id cert key ca key_len in
   mret_ (match id, cert, key, ca with Some _, Some _, Some _, Some _ => rest | _, _, _, _ => -1 end, resp)).

(* @src enroll/enroll.c:508-519 response_free *)
Definition response_free (r : response) : M response :=
  (free (rs_id r) ;; free (rs_cert r) ;;
   (match rs_key r with Some b => bzero b (rs_key_len r) ;; free_block b | None => mret_ tt end) ;;
   free (rs_ca r) ;;
   mret_ no_response).

(** The frame is one of type error. *)
(* @src enroll/enroll.c:521-529 log_error_frame *)
Definition log_error_frame : M unit := (do msg <- read_string DError; free msg).

(** The local pointers at the label [done]. *)
Record pointers := Pointers {
  pt_frame : ptr; pt_resp : response; pt_hello : ptr; pt_req_plain : ptr; pt_req_protected : ptr;
  pt_resp_plain : ptr; pt_ack : ptr }.

Definition erase_and_free (p : ptr) (l : len) : M unit :=
  match p with None => mret_ tt | Some b => bzero b l ;; free_block b end.

(* @src enroll/enroll.c:651-680 ig_enroll_execute *)
Definition execute_done (p : pointers) (fd ret : Z) : M Z :=
  (frame_free (pt_frame p) ;;
   response_free (pt_resp p) ;;
   erase_and_free (pt_hello p) LHello ;;
   erase_and_free (pt_req_plain p) LRequest ;;
   erase_and_free (pt_req_protected p) LProtected ;;
   erase_and_free (pt_resp_plain p) LPlain ;;
   erase_and_free (pt_ack p) LProtected ;;
   wipe ClientNonce ;; wipe ServerNonce ;; wipe ExpectedProof ;; wipe ReceivedProof ;; wipe Session ;;
   (if 0 <=? fd then set_fd false else mret_ tt) ;;
   mret_ ret).

(** From the answer to the request. *)
(* @src enroll/enroll.c:611-650 ig_enroll_execute *)
Definition execute_response (hello req_plain req_protected : ptr) (fd : Z) : M Z :=
  let here frame resp resp_plain ack := Pointers frame resp hello req_plain req_protected resp_plain ack in
  (do r <- read_frame;
   let '(rc, frame) := r in
   if rc <? 0 then execute_done (here frame no_response None None) fd (-1)
   else
     do error <- flip;
     if error : bool then log_error_frame ;; execute_done (here frame no_response None None) fd (-1)
     else
       do wrong_type <- flip;
       do resp_plain <- (if wrong_type : bool then mret_ None else open_protected_payload);
       match resp_plain with
       | None => execute_done (here frame no_response None None) fd (-1)
       | Some _ =>
           do r <- decode_response_plain;
           let '(rc, resp) := r in
           let stop ret ack := execute_done (here frame resp resp_plain ack) fd ret in
           if rc <? 0 then stop (-1) None
           else
             do w1 <- may_fail;
             if w1 <? 0 then stop (-1) None
             else
               do w2 <- may_fail;
               if w2 <? 0 then stop (-1) None
               else
                 do w3 <- may_fail;
                 if w3 <? 0 then stop (-1) None
                 else
                   do ack <- protect_payload;
                   stop 0 ack
       end).

(* @src enroll/enroll.c:536-650 ig_enroll_execute *)
Definition ig_enroll_execute : M Z :=
  let stop hello req_plain req_protected frame fd :=
    execute_done (Pointers frame no_response hello req_plain req_protected None None) fd (-1) in
  (do missing <- flip;
   if missing : bool then mret_ (-1)
   else
     do random <- may_fail;
     if random <? 0 then stop None None None None (-1)
     else
       hold ClientNonce ;;
       do hello <- encode_hello;
       match hello with
       | None => stop None None None None (-1)
       | Some _ =>
           do fd <- connect_tcp;
           if fd <? 0 then stop hello None None None (-1)
           else
             do sent <- may_fail;
             if sent <? 0 then stop hello None None None fd
             else
               do r <- read_frame;
               let '(rc, frame) := r in
               if rc <? 0 then stop hello None None frame fd
               else
                 do error <- flip;
                 if error : bool then log_error_frame ;; stop hello None None frame fd
                 else
                   do rc <- decode_challenge;
                   if rc <? 0 then stop hello None None frame fd
                   else
                     do frame <- frame_free frame;
                     do r1 <- derive_session;
                     do r2 <- (if r1 <? 0 then mret_ (-1) else server_proof);
                     if r2 <? 0 then stop hello None None frame fd
                     else
                       do differs <- flip;
                       if differs : bool then stop hello None None frame fd
                       else
                         do req_plain <- encode_request_plain;
                         match req_plain with
                         | None => stop hello None None frame fd
                         | Some _ =>
                             do req_protected <- protect_payload;
                             match req_protected with
                             | None => stop hello req_plain None frame fd
                             | Some _ =>
                                 do sent <- may_fail;
                                 if sent <? 0 then stop hello req_plain req_protected frame fd
                                 else execute_response hello req_plain req_protected fd
                             end
                         end
       end).

(** ** Properties *)

(** What the enrollment frees as it is: received payloads, the strings of the response
    but the private key, and the text of an error. *)
Definition unerased : list data := [DFrame; DId; DCert; DCa; DError].

(** An outcome that leaves nothing behind: no undefined behaviour, every block freed,
    the socket closed, no secret left in a local, nothing freed unerased but those, and
    those of them freed unerased that a success meets. *)
Definition clean (o : option (Z * mem)) : bool :=
  match o with
  | Some (rc, m) =>
      ((rc =? 0) || (rc =? -1)) && bool_decide (m_heap m = []) && negb (m_fd m) && bool_decide (m_locals m = []) &&
      forallb (λ d, bool_decide (d ∈ unerased) || (bool_decide (d = DKey) && m_nul m)) (m_exposed m) &&
      (negb (rc =? 0) || forallb (λ d, bool_decide (d ∈ m_exposed m)) [DFrame; DId; DCert; DCa])
  | None => false
  end.

(** A successful outcome in which the private key was, or was not, freed unerased. *)
Definition succeeds (exposed : bool) (o : option (Z * mem)) : bool :=
  match o with Some (rc, m) => (rc =? 0) && eqb (bool_decide (DKey ∈ m_exposed m)) exposed | None => false end.

