(* ===== verification/EnrollServer.v ===== *)
(** * The enrollment server (Backend/internal/enrollment)

    The peer of the agent's enrollment: one connection handled from hello to
    acknowledgement ([handleConn]), the service that claims the enrollment, issues
    the certificate and records it, and the store of enrollments with its guarded
    updates. The store is an interface ([EnrollmentStore], [EnrollmentLaws]); the
    MySQL statements implement it. Parameters: HMAC-SHA256 and SHA-256, AES-GCM,
    RSA key generation, X.509 and PEM encoding, URL parsing, IPv6 parsing, the
    clock, random bytes, the deadline (as a limit on the bytes written). *)

From S2P Require Import Prelude Bytes Exchange CText Monitor Protocol Collector TcpClient Session Enroll.

Local Open Scope Z_scope.

(** ** Messages *)

(* @go Backend/internal/enrollment/protocol.go:10-20 MsgXORHello *)
Definition frameHeaderSize : Z := 9.
Definition maxFrameSize : Z := 65535.
Definition MsgXORHello : Z := 0x21.
Definition MsgXORChallenge : Z := 0x22.
Definition MsgXOREnrollRequest : Z := 0x23.
Definition MsgXOREnrollResponse : Z := 0x24.
Definition MsgXOREnrollAck : Z := 0x25.
Definition MsgXOREnrollError : Z := 0x26.
Definition nonceSize : nat := 32.
Definition protectedMACSz : nat := 32.

(* @go Backend/internal/enrollment/protocol.go:23-26 Hello *)
Record Hello := { hl_EnrollmentID : cstring; hl_ClientNonce : list Z }.
(* @go Backend/internal/enrollment/protocol.go:35-40 Request *)
Record Request := { rq_Hostname : cstring; rq_IP : cstring; rq_OS : cstring; rq_MonitorType : Z }.
(* @go Backend/internal/enrollment/protocol.go:43-49 Response *)
Record Response := {
  rs_AgentID : cstring; rs_AgentCertPEM : list Z; rs_AgentKeyPEM : list Z; rs_CACertPEM : list Z; rs_ExpiresAt : Z }.
(* @go Backend/internal/enrollment/protocol.go:51-55 frameHeader *)
Record frameHeader := EnrollHdr { eh_length : Z; eh_msgTyp : Z; eh_seqNum : Z }.

(** [readString] and [readBytes] differ in their result's type only; [None] is the error. *)
(* @go Backend/internal/enrollment/protocol.go:216-228 readString *)
Definition readString (p : list Z) : option (cstring * list Z) :=
  if bool_decide (length p < 2)%nat then None
  else
    let n := Z.to_nat (be_val (take 2 p)) in
    let p := drop 2 p in
    if bool_decide (length p < n)%nat then None else Some (take n p, drop n p).

(* @go Backend/internal/enrollment/protocol.go:230-243 readBytes *)
Definition readBytes (p : list Z) : option (list Z * list Z) := readString p.

(* @go Backend/internal/enrollment/protocol.go:207-214 readU8 *)
Definition readU8_go (p : list Z) : option (Z * list Z) :=
  match p with [] => None | v :: p => Some (v, p) end.

(* @go Backend/internal/enrollment/protocol.go:249-258 writeString *)
Definition writeString (s : list Z) : option (list Z) :=
  if 65535 <? Z.of_nat (length s) then None else Some (be_bytes 2 (Z.of_nat (length s)) ++ s).

(* @go Backend/internal/enrollment/protocol.go:118-135 decodeHello *)
Definition decodeHello (payload : list Z) : option Hello :=
  '(id, p) ← readString payload;
  '(nonce, p) ← readBytes p;
  if negb (bool_decide (p = [])) then None
  else if bool_decide (id = []) || negb (bool_decide (length nonce = nonceSize)) then None
  else Some {| hl_EnrollmentID := id; hl_ClientNonce := nonce |}.

(* @go Backend/internal/enrollment/protocol.go:137-146 encodeChallenge *)
Definition encodeChallenge (serverNonce proof : list Z) : option (list Z) :=
  n ← writeString serverNonce; p ← writeString proof; Some (n ++ p).

(* @go Backend/internal/enrollment/protocol.go:148-175 decodeRequest *)
Definition decodeRequest (payload : list Z) : option Request :=
  '(hostname, p) ← readString payload;
  '(ip, p) ← readString p;
  '(os, p) ← readString p;
  '(mon, p) ← readU8_go p;
  if negb (bool_decide (p = [])) then None
  else Some {| rq_Hostname := hostname; rq_IP := ip; rq_OS := os; rq_MonitorType := mon |}.

(* @go Backend/internal/enrollment/protocol.go:177-193 encodeResponse *)
Definition encodeResponse (r : Response) : option (list Z) :=
  a ← writeString (rs_AgentID r);
  c ← writeString (rs_AgentCertPEM r);
  k ← writeString (rs_AgentKeyPEM r);
  ca ← writeString (rs_CACertPEM r);
  Some (a ++ c ++ k ++ ca ++ be_bytes 8 (u64 (rs_ExpiresAt r))).

(** ** Addresses *)

(** [netip]'s dotted decimal: [val] and [digLen] of the current field, the fields so
    far. No leading zeros, no empty field, four fields below 256. *)
Fixpoint ipv4_fields (s : cstring) (val digLen : Z) (fields : list Z) : option (list Z) :=
  match s with
  | [] => if bool_decide (length fields = 3%nat) then Some (fields ++ [val]) else None
  | c :: s =>
      if isdigit c then
        if (digLen =? 1) && (val =? 0) then None
        else
          let val := val * 10 + (c - 48) in
          if 255 <? val then None else ipv4_fields s val (digLen + 1) fields
      else if c =? 46 then
        if (digLen =? 0) || bool_decide (s = []) then None
        else if bool_decide (length fields = 3%nat) then None
        else ipv4_fields s 0 0 (fields ++ [val])
      else None
  end.

(** Which form a text is: the first of point, colon and percent sign. *)
Fixpoint ip_form (s : cstring) : option Z :=
  match s with
  | [] => None
  | c :: s => if (c =? 46) || (c =? 58) || (c =? 37) then Some c else ip_form s
  end.

(** [net.ParseIP] followed by [To4]: [None] is no address, [Some None] one without
    a four-byte form. *)
Definition ParseIP (parse_ipv6 : cstring → option (option (list Z))) (s : cstring) : option (option (list Z)) :=
  match ip_form s with
  | Some c => if c =? 46 then Some <$> ipv4_fields s 0 0 [] else if c =? 58 then parse_ipv6 s else None
  | None => None
  end.

(** ** Enrollments *)

Inductive enrollment_status := Pending | Issuing | Issued | Used | Revoked.
#[export] Instance enrollment_status_eq_dec : EqDecision enrollment_status.
Proof. solve_decision. Defined.

(* @go Backend/internal/interfaces.go:113-123 Enrollment *)
Record Enrollment := {
  en_AgentID : cstring; en_SecretHash : cstring; en_KeyCiphertext : list Z; en_KeyNonce : list Z;
  en_Status : enrollment_status; en_ExpiresAt : Z }.

(** A certificate recorded for an agent under an enrollment. *)
Definition issue : Type := cstring * cstring * RegisterPayload * AgentCertificate.

(** The current time, the enrollment, the agent; [None] or [false] is an error. *)
(* @go Backend/internal/interfaces.go:126-133 EnrollmentStore *)
Class EnrollmentStore (D : Type) := {
  GetPendingEnrollment : Z → cstring → D → option Enrollment * D;
  ClaimEnrollment : Z → cstring → cstring → D → bool * D;
  ReleaseEnrollmentClaim : cstring → cstring → bool → D → D;
  FinalizeEnrollmentIssue : Z → cstring → cstring → RegisterPayload → AgentCertificate → D → bool * D;
  MarkEnrollmentUsed : Z → cstring → cstring → D → bool * D }.

(** What the server relies on: each call moves one enrollment one step, a failed
    call nothing; only a finalized issue is recorded. *)
Class EnrollmentLaws (D : Type) `{EnrollmentStore D} := {
  standing : D → cstring → option (enrollment_status * cstring);
  issues : D → list issue;
  get_pending now id d e d' : GetPendingEnrollment now id d = (e, d') →
    (∀ i, standing d' i = standing d i) ∧ issues d' = issues d ∧
    match e with
    | Some e => standing d id = Some (Pending, en_AgentID e) ∧ now < en_ExpiresAt e
    | None => True
    end;
  claim_moves now id a d ok d' : ClaimEnrollment now id a d = (ok, d') →
    issues d' = issues d ∧ (∀ i, i ≠ id → standing d' i = standing d i) ∧
    if ok : bool then (∃ a0, standing d id = Some (Pending, a0)) ∧ standing d' id = Some (Issuing, a)
    else standing d' id = standing d id;
  release_moves id a keep d :
    issues (ReleaseEnrollmentClaim id a keep d) = issues d ∧
    (∀ i, i ≠ id → standing (ReleaseEnrollmentClaim id a keep d) i = standing d i) ∧
    (standing (ReleaseEnrollmentClaim id a keep d) id = standing d id ∨
     standing d id = Some (Issuing, a) ∧
     standing (ReleaseEnrollmentClaim id a keep d) id = Some (Pending, if keep then a else []));
  finalize_moves now id a p c d ok d' : FinalizeEnrollmentIssue now id a p c d = (ok, d') →
    (∀ i, i ≠ id → standing d' i = standing d i) ∧
    if ok : bool then standing d id = Some (Issuing, a) ∧ standing d' id = Some (Issued, a) ∧
                      issues d' = issues d ++ [(id, a, p, c)]
    else standing d' id = standing d id ∧ issues d' = issues d;
  mark_moves now id a d ok d' : MarkEnrollmentUsed now id a d = (ok, d') →
    issues d' = issues d ∧ (∀ i, i ≠ id → standing d' i = standing d i) ∧
    if ok : bool then standing d id = Some (Issued, a) ∧ standing d' id = Some (Used, a)
    else standing d' id = standing d id }.

(** ** The MySQL store *)

Section mysql.
(** Whether the [n]-th statement or transaction succeeds (a failed one changes
    nothing); whether the agent's row and certificate can be written. *)
Variable db_ok : nat → bool.
Variable agent_rows_ok : nat → cstring → RegisterPayload → AgentCertificate → bool.

Record enrollment_row := Row { row_of : Enrollment; row_attempts : Z }.
Record mysql := MySQL { my_rows : gmap cstring enrollment_row; my_issues : list issue; my_n : nat }.

Definition set_row (id : cstring) (st : enrollment_status) (a : cstring) (r : enrollment_row) (d : mysql) : mysql :=
  let e := row_of r in
  MySQL (<[id := Row {| en_AgentID := a; en_SecretHash := en_SecretHash e; en_KeyCiphertext := en_KeyCiphertext e;
                        en_KeyNonce := en_KeyNonce e; en_Status := st; en_ExpiresAt := en_ExpiresAt e |}
                     (row_attempts r)]> (my_rows d)) (my_issues d) (my_n d).
Definition tick (d : mysql) : mysql := MySQL (my_rows d) (my_issues d) (S (my_n d)).

(* @go Backend/internal/store/enrollment_store.go:33-92 GetPendingEnrollment *)
Definition mysql_get (now : Z) (id : cstring) (d : mysql) : option Enrollment * mysql :=
  match my_rows d !! id with
  | Some (Row e n) =>
      if db_ok (my_n d) && bool_decide (en_Status e = Pending) && (now <? en_ExpiresAt e)
      then (Some e, tick (MySQL (<[id := Row e (n + 1)]> (my_rows d)) (my_issues d) (my_n d)))
      else (None, tick d)
  | None => (None, tick d)
  end.

(* @go Backend/internal/store/enrollment_store.go:95-112 ClaimEnrollment *)
Definition mysql_claim (now : Z) (id a : cstring) (d : mysql) : bool * mysql :=
  match my_rows d !! id with
  | Some r =>
      if db_ok (my_n d) && bool_decide (en_Status (row_of r) = Pending) && (now <? en_ExpiresAt (row_of r))
      then (true, tick (set_row id Issuing a r d)) else (false, tick d)
  | None => (false, tick d)
  end.

(* @go Backend/internal/store/enrollment_store.go:115-128 ReleaseEnrollmentClaim *)
Definition mysql_release (id a : cstring) (keep : bool) (d : mysql) : mysql :=
  match my_rows d !! id with
  | Some r =>
      if db_ok (my_n d) && bool_decide (en_Status (row_of r) = Issuing) && bool_decide (en_AgentID (row_of r) = a)
      then tick (set_row id Pending (if keep then en_AgentID (row_of r) else []) r d) else tick d
  | None => tick d
  end.

(* @go Backend/internal/store/enrollment_store.go:131-162 FinalizeEnrollmentIssue *)
Definition mysql_finalize (now : Z) (id a : cstring) (p : RegisterPayload) (c : AgentCertificate) (d : mysql) : bool * mysql :=
  if negb (db_ok (my_n d) && agent_rows_ok (my_n d) a p c) then (false, tick d)
  else
    match my_rows d !! id with
    | Some r =>
        if bool_decide (en_Status (row_of r) = Issuing) && bool_decide (en_AgentID (row_of r) = a) &&
           (now <? en_ExpiresAt (row_of r))
        then (true, let d := tick (set_row id Issued a r d) in
                    MySQL (my_rows d) (my_issues d ++ [(id, a, p, c)]) (my_n d))
        else (false, tick d)
    | None => (false, tick d)
    end.

(* @go Backend/internal/store/enrollment_store.go:165-182 MarkEnrollmentUsed *)
Definition mysql_mark_used (now : Z) (id a : cstring) (d : mysql) : bool * mysql :=
  match my_rows d !! id with
  | Some r =>
      if db_ok (my_n d) && bool_decide (en_Status (row_of r) = Issued) && bool_decide (en_AgentID (row_of r) = a)
      then (true, tick (set_row id Used a r d)) else (false, tick d)
  | None => (false, tick d)
  end.

#[export] Instance mysql_store : EnrollmentStore mysql := {
  GetPendingEnrollment := mysql_get;
  ClaimEnrollment := mysql_claim;
  ReleaseEnrollmentClaim := mysql_release;
  FinalizeEnrollmentIssue := mysql_finalize;
  MarkEnrollmentUsed := mysql_mark_used }.

Definition row_standing (r : enrollment_row) : enrollment_status * cstring :=
  (en_Status (row_of r), en_AgentID (row_of r)).

(** One row changes, the others and the recorded issues stay. *)
Lemma set_row_other id i st a r d : i ≠ id → my_rows (tick (set_row id st a r d)) !! i = my_rows d !! i.
Proof. intros Hi. cbn. by rewrite lookup_insert_ne. Qed.
Lemma set_row_this id st a r d : my_rows (tick (set_row id st a r d)) !! id =
  Some (Row {| en_AgentID := a; en_SecretHash := en_SecretHash (row_of r); en_KeyCiphertext := en_KeyCiphertext (row_of r);
               en_KeyNonce := en_KeyNonce (row_of r); en_Status := st; en_ExpiresAt := en_ExpiresAt (row_of r) |} (row_attempts r)).
Proof. cbn. by rewrite lookup_insert_eq. Qed.

#[export] Instance mysql_laws : EnrollmentLaws mysql.
Proof.
  refine {| standing := λ d i, row_standing <$> my_rows d !! i; issues := my_issues |}.
  - intros now id d e d'. cbn. unfold mysql_get. destruct (my_rows d !! id) as [[e0 n]|] eqn:Hr; [|by intros [= <- <-]].
    destruct (_ && _ && _) eqn:E; [|by intros [= <- <-]]. apply andb_true_iff in E as [[_ E]%andb_true_iff Ht].
    apply bool_decide_eq_true_1 in E. apply Z.ltb_lt in Ht. intros [= <- <-]. split; [|split; [done|]].
    + intros i. cbn. destruct (decide (i = id)) as [->|]; [by rewrite lookup_insert_eq, Hr|by rewrite lookup_insert_ne].
    + split; [|done]. cbn. unfold row_standing. cbn. by rewrite E.
  - intros now id a d ok d'. cbn. unfold mysql_claim. destruct (my_rows d !! id) as [r|] eqn:Hr; [|intros [= <- <-]; cbn; by rewrite Hr].
    destruct (_ && _ && _) eqn:E; [|intros [= <- <-]; cbn; by rewrite Hr].
    apply andb_true_iff in E as [[_ E%bool_decide_eq_true_1]%andb_true_iff _]. intros [= <- <-].
    split; [done|]. split; [intros i Hi; by rewrite set_row_other|]. rewrite set_row_this. cbn. unfold row_standing. rewrite E.
    split; [by eexists|done].
  - intros id a keep d. cbn. unfold mysql_release. destruct (my_rows d !! id) as [r|] eqn:Hr; [|cbn; rewrite Hr; auto].
    destruct (_ && _ && _) eqn:E; [|cbn; rewrite Hr; auto].
    apply andb_true_iff in E as [[_ E%bool_decide_eq_true_1]%andb_true_iff Ea%bool_decide_eq_true_1].
    split; [done|]. split; [intros i Hi; by rewrite set_row_other|]. right. rewrite set_row_this. cbn. unfold row_standing.
    rewrite E, Ea. by destruct keep.
  - intros now id a p c d ok d'. cbn. unfold mysql_finalize. destruct (negb _); [by intros [= <- <-]|].
    destruct (my_rows d !! id) as [r|] eqn:Hr; [|intros [= <- <-]; cbn; by rewrite Hr].
    destruct (_ && _ && _) eqn:E; [|intros [= <- <-]; cbn; by rewrite Hr].
    apply andb_true_iff in E as [[E%bool_decide_eq_true_1 Ea%bool_decide_eq_true_1]%andb_true_iff _]. intros [= <- <-].
    split; [intros i Hi; cbn; by rewrite lookup_insert_ne|]. cbn. rewrite lookup_insert_eq. cbn. unfold row_standing.
    by rewrite E, Ea.
  - intros now id a d ok d'. cbn. unfold mysql_mark_used. destruct (my_rows d !! id) as [r|] eqn:Hr; [|intros [= <- <-]; cbn; by rewrite Hr].
    destruct (_ && _ && _) eqn:E; [|intros [= <- <-]; cbn; by rewrite Hr].
    apply andb_true_iff in E as [[_ E%bool_decide_eq_true_1]%andb_true_iff Ea%bool_decide_eq_true_1]. intros [= <- <-].
    split; [done|]. split; [intros i Hi; by rewrite set_row_other|]. rewrite set_row_this. cbn. unfold row_standing. by rewrite E, Ea.
Defined.
End mysql.

(** ** Keys and protection *)

Definition go_session_label : cstring := lit "knig enrollment v2 session".
Definition go_enc_label : cstring := lit "knig enrollment enc".
Definition go_mac_label : cstring := lit "knig enrollment mac".
Definition go_proof_label : cstring := lit "knig enrollment server proof".

(* @go Backend/internal/enrollment/xor_crypto.go:15-19 SessionKeys *)
Record SessionKeys := { k_session : list Z; k_enc : list Z; k_mac : list Z }.

(** The connection and the store; [sv_conn_room] bytes are accepted before the
    deadline or a closed connection fails the write. *)
Record serving (D : Type) := Serving { sv_in : list Z; sv_out : list Z; sv_conn_room : nat; sv_store : D }.
Arguments Serving {D}. Arguments sv_in {D}. Arguments sv_out {D}. Arguments sv_conn_room {D}. Arguments sv_store {D}.

#[export] Instance serving_stream D : Stream (serving D) D :=
  {| st_in := sv_in; st_out := sv_out; st_room := sv_conn_room; st_rest := sv_store |}.

(** The places where the clock is read. *)
Inductive moment := AtGet | AtClaim | AtIssue | AtFinalize | AtUsed.

(* @go Backend/internal/enrollment/cert_issuer.go:20-27 IssuedCertificate *)
Record IssuedCertificate := {
  ic_CertPEM : list Z; ic_KeyPEM : list Z; ic_CertSubjectHash : cstring; ic_CertFingerprint : cstring;
  ic_IssuedAt : Z; ic_ExpiresAt : Z }.

(** The fields of the template that differ between agents; times in seconds. *)
Record x509_template := {
  xt_SerialNumber : Z; xt_CommonName : cstring; xt_URIs : list cstring; xt_NotBefore : Z; xt_NotAfter : Z }.

(** The identity the collector reads from a certificate with these names. *)
(* @go Backend/internal/collector/tls_config.go:89-106 peerIdentityFromCert *)
Definition peerIdentityFromCert (c : x509_template) : option cstring :=
  match filter (λ u, isAgentIdentity u = true) (xt_URIs c) with
  | u :: _ => Some u
  | [] =>
      if negb (bool_decide (xt_URIs c = [])) then None
      else if isAgentIdentity (xt_CommonName c) then Some (xt_CommonName c) else None
  end.

Section server.
Context {D : Type} `{EnrollmentStore D}.
Variable hmac : list Z → list Z → list Z.
Variable sha256 : list Z → list Z.
(** AES-GCM under the vault's key; the pepper; the CA certificate. *)
Variable gcm_open : list Z → list Z → option (list Z).
Variable pepper : list Z.
Variable caCertPEM : list Z.
Variable now : moment → Z.
(** [crypto/rand]: the nonce, the serial number, the RSA key (PKCS#8 and public). *)
Variable serverNonce : option (list Z).
Variable rand_serial : option Z.
Variable rsa_key : option (option (list Z) * list Z).
Variable url_parse : cstring → option cstring.
Variable CreateCertificate : x509_template → list Z → option (list Z).
Variable pem : cstring → list Z → list Z.
Variable ttl : Z.
Variable parse_ipv6 : cstring → option (option (list Z)).

#[local] Abbreviation M := (steps (serving D)).

(** Hexadecimal text. *)
Definition hex (l : list Z) : cstring := l ≫= hex02.

(* @go Backend/internal/enrollment/secret.go:31-37 HashXORKey *)
Definition HashXORKey (enrollmentID xorKey : list Z) : cstring := hex (hmac pepper (enrollmentID ++ lit ":" ++ xorKey)).

(* @go Backend/internal/enrollment/key_vault.go:69-82 Decrypt *)
Definition vault_Decrypt (ciphertext nonce : list Z) : option (list Z) :=
  if negb (bool_decide (length nonce = 12%nat)) then None else gcm_open nonce ciphertext.

(* @go Backend/internal/enrollment/xor_crypto.go:21-37 DeriveSessionKeys *)
Definition DeriveSessionKeys (xorKey enrollmentID clientNonce serverNonce : list Z) : option SessionKeys :=
  if bool_decide (xorKey = []) || bool_decide (enrollmentID = []) ||
     negb (bool_decide (length clientNonce = nonceSize)) || negb (bool_decide (length serverNonce = nonceSize))
  then None
  else
    let session := hmac xorKey (go_session_label ++ [0] ++ enrollmentID ++ [0] ++ clientNonce ++ serverNonce) in
    Some {| k_session := session; k_enc := hmac session go_enc_label; k_mac := hmac session go_mac_label |}.

(* @go Backend/internal/enrollment/xor_crypto.go:39-48 ServerProof *)
Definition ServerProof (keys : SessionKeys) (enrollmentID clientNonce serverNonce : list Z) : list Z :=
  hmac (k_mac keys) (go_proof_label ++ [0] ++ enrollmentID ++ [0] ++ clientNonce ++ serverNonce).

(* @go Backend/internal/enrollment/xor_crypto.go:90-98 frameMAC *)
Definition frameMAC (macKey : list Z) (msgTyp seqNum : Z) (ciphertext : list Z) : list Z :=
  hmac macKey ([msgTyp] ++ be_bytes 4 seqNum ++ ciphertext).

(** [fuel] bounds the blocks; each has 32 bytes. *)
(* @go Backend/internal/enrollment/xor_crypto.go:100-112 xorKeystream *)
Fixpoint xorKeystream (fuel : nat) (encKey : list Z) (seqNum counter : Z) (src : list Z) : list Z :=
  match fuel, src with
  | O, _ | _, [] => []
  | S fuel, _ =>
      let block := hmac encKey (be_bytes 4 seqNum ++ be_bytes 4 counter) in
      zip_with Z.lxor src block ++ xorKeystream fuel encKey seqNum (u32 (counter + 1)) (drop (length block) src)
  end.

(* @go Backend/internal/enrollment/xor_crypto.go:50-58 SealProtected *)
Definition SealProtected (msgTyp seqNum : Z) (plaintext : list Z) (keys : SessionKeys) : list Z :=
  let ciphertext := xorKeystream (length plaintext) (k_enc keys) seqNum 0 plaintext in
  frameMAC (k_mac keys) msgTyp seqNum ciphertext ++ ciphertext.

(* @go Backend/internal/enrollment/xor_crypto.go:60-73 OpenProtected *)
Definition OpenProtected (msgTyp seqNum : Z) (payload : list Z) (keys : SessionKeys) : option (list Z) :=
  if bool_decide (length payload < protectedMACSz)%nat then None
  else
    let ciphertext := drop protectedMACSz payload in
    if bool_decide (take protectedMACSz payload = frameMAC (k_mac keys) msgTyp seqNum ciphertext)
    then Some (xorKeystream (length ciphertext) (k_enc keys) seqNum 0 ciphertext)
    else None.

(** ** Frames *)

Definition readFull (n : nat) : M (list Z) := λ s,
  (if bool_decide (n ≤ length (sv_in s))%nat then Some (take n (sv_in s)) else None,
   Serving (drop n (sv_in s)) (sv_out s) (sv_conn_room s) (sv_store s)).

(* @go Backend/internal/enrollment/protocol.go:66-88 readFrame *)
Definition readFrame : M (frameHeader * list Z) :=
  hdrBuf ← readFull 9;
  let hdr := EnrollHdr (be_val (take 4 hdrBuf)) (be_val (take 1 (drop 4 hdrBuf))) (be_val (take 4 (drop 5 hdrBuf))) in
  if maxFrameSize <? eh_length hdr then efail
  else
    let payloadLen := eh_length hdr - frameHeaderSize in
    if payloadLen <? 0 then efail
    else payload ← readFull (Z.to_nat payloadLen); mret (hdr, payload).

(* @go Backend/internal/enrollment/protocol.go:104-116 writeAll *)
Definition writeAll (data : list Z) : M unit := λ s,
  let k := Nat.min (length data) (sv_conn_room s) in
  (if bool_decide (length data ≤ sv_conn_room s)%nat then Some tt else None,
   Serving (sv_in s) (sv_out s ++ take k data) (sv_conn_room s - k) (sv_store s)).

(* @go Backend/internal/enrollment/protocol.go:90-102 writeFrame *)
Definition writeFrame (msgTyp seqNum : Z) (payload : list Z) : M unit :=
  if maxFrameSize <? Z.of_nat (length payload) + frameHeaderSize then efail
  else
    writeAll (be_bytes 4 (Z.of_nat (length payload) + frameHeaderSize) ++ u8 msgTyp :: be_bytes 4 seqNum) ;;
    writeAll payload.

(** The error frame is sent, if it can be, and the connection ends. *)
(* @go Backend/internal/enrollment/server.go:181-187 writeError *)
Definition refuse {A} (seqNum : Z) (message : cstring) : M A :=
  _ ← ecatch (payload ← elift (writeString message); writeFrame MsgXOREnrollError seqNum payload); efail.

(** A step whose failure is answered with an error frame. *)
Definition or_refuse {A} (seqNum : Z) (message : cstring) (r : option A) : M A :=
  match r with Some a => mret a | None => refuse seqNum message end.

(** A call of the store. *)
Definition stored {A} (call : D → A * D) : M A := λ s,
  let (a, d) := call (sv_store s) in (Some a, Serving (sv_in s) (sv_out s) (sv_conn_room s) d).

(** ** The service *)

(* @go Backend/internal/enrollment/cert_issuer.go:148-160 IssueAgentCertificate *)
Definition agent_template (identity : cstring) (uri : cstring) (serial : Z) : x509_template :=
  {| xt_SerialNumber := serial; xt_CommonName := identity; xt_URIs := [uri];
     xt_NotBefore := now AtIssue - 60; xt_NotAfter := now AtIssue + ttl |}.
(* @go Backend/internal/enrollment/cert_issuer.go:131-191 IssueAgentCertificate *)
Definition IssueAgentCertificate (agentIdentity : cstring) : option IssuedCertificate :=
  '(pkcs8, public) ← rsa_key;
  uri ← url_parse agentIdentity;
  serial ← rand_serial;
  let tmpl := agent_template agentIdentity uri serial in
  der ← CreateCertificate tmpl public;
  keyDER ← pkcs8;
  Some {| ic_CertPEM := pem (lit "CERTIFICATE") der; ic_KeyPEM := pem (lit "PRIVATE KEY") keyDER;
          ic_CertSubjectHash := hex (sha256 agentIdentity); ic_CertFingerprint := hex (sha256 der);
          ic_IssuedAt := xt_NotBefore tmpl; ic_ExpiresAt := xt_NotAfter tmpl |}.

Definition enroll_payload (req : Request) : RegisterPayload :=
  {| rp_Hostname := rq_Hostname req; rp_IP := rq_IP req; rp_OS := rq_OS req;
     rp_MonitorType := MonitorTypeName (rq_MonitorType req) |}.
Definition issued_cert (agentID : cstring) (c : IssuedCertificate) : AgentCertificate :=
  {| ac_AgentID := agentID; ac_CertSubjectHash := ic_CertSubjectHash c; ac_CertFingerprint := ic_CertFingerprint c;
     ac_IssuedAt := ic_IssuedAt c; ac_ExpiresAt := ic_ExpiresAt c |}.

(** The agent a request is for, when it may have the enrollment. *)
(* @go Backend/internal/enrollment/service.go:35-48 Enroll *)
Definition enroll_agent (enrollmentID expectedAgentID : cstring) (req : Request) : option cstring :=
  if bool_decide (enrollmentID = []) || bool_decide (rq_Hostname req = []) || bool_decide (rq_IP req = []) then None
  else
    ip ← ParseIP parse_ipv6 (rq_IP req);
    let agentID := decimal (GenerateAgentID (rq_Hostname req) ip) in
    if negb (bool_decide (expectedAgentID = [])) && negb (bool_decide (expectedAgentID = agentID)) then None
    else Some agentID.

(** Certificate and record, under a claim; an error gives the claim back. *)
(* @go Backend/internal/enrollment/service.go:63-85 Enroll *)
Definition enroll_issue (enrollmentID agentID : cstring) (req : Request) : M IssuedCertificate :=
  issued ← elift (IssueAgentCertificate (agentIdentityPrefix ++ agentID));
  ok ← stored (FinalizeEnrollmentIssue (now AtFinalize) enrollmentID agentID (enroll_payload req) (issued_cert agentID issued));
  if ok : bool then mret issued else efail.

(* @go Backend/internal/enrollment/service.go:34-94 Enroll *)
Definition Enroll (enrollmentID expectedAgentID : cstring) (req : Request) : M Response :=
  agentID ← elift (enroll_agent enrollmentID expectedAgentID req);
  claimed ← stored (ClaimEnrollment (now AtClaim) enrollmentID agentID);
  if negb claimed then efail
  else
    r ← ecatch (enroll_issue enrollmentID agentID req);
    match r with
    | Some issued =>
        mret {| rs_AgentID := agentID; rs_AgentCertPEM := ic_CertPEM issued; rs_AgentKeyPEM := ic_KeyPEM issued;
                rs_CACertPEM := caCertPEM; rs_ExpiresAt := ic_ExpiresAt issued |}
    | None =>
        _ ← stored (λ d, (tt, ReleaseEnrollmentClaim enrollmentID agentID (negb (bool_decide (expectedAgentID = []))) d));
        efail
    end.

(** ** The connection *)

(** The hello, and the key stored for it. *)
(* @go Backend/internal/enrollment/server.go:51-88 handleConn *)
Definition serve_hello : M (Z * Hello * Enrollment * list Z) :=
  '(hdr, payload) ← readFrame;
  if negb (eh_msgTyp hdr =? MsgXORHello) then refuse (eh_seqNum hdr) (lit "unexpected enrollment message type")
  else
    hello ← or_refuse (eh_seqNum hdr) (lit "invalid enrollment hello") (decodeHello payload);
    row ← stored (GetPendingEnrollment (now AtGet) (hl_EnrollmentID hello));
    row ← or_refuse (eh_seqNum hdr) (lit "enrollment failed") row;
    xorKey ← or_refuse (eh_seqNum hdr) (lit "enrollment failed") (vault_Decrypt (en_KeyCiphertext row) (en_KeyNonce row));
    if negb (bool_decide (en_SecretHash row = HashXORKey (hl_EnrollmentID hello) xorKey))
    then refuse (eh_seqNum hdr) (lit "enrollment failed")
    else mret (eh_seqNum hdr, hello, row, xorKey).

(* @go Backend/internal/enrollment/server.go:90-116 handleConn *)
Definition serve_challenge (seqNum : Z) (hello : Hello) (xorKey : list Z) : M SessionKeys :=
  nonce ← or_refuse seqNum (lit "nonce generation failed") serverNonce;
  keys ← or_refuse seqNum (lit "session key derivation failed")
           (DeriveSessionKeys xorKey (hl_EnrollmentID hello) (hl_ClientNonce hello) nonce);
  ch ← or_refuse seqNum (lit "challenge encode failed")
         (encodeChallenge nonce (ServerProof keys (hl_EnrollmentID hello) (hl_ClientNonce hello) nonce));
  writeFrame MsgXORChallenge (u32 (seqNum + 1)) ch ;;
  mret keys.

(* @go Backend/internal/enrollment/server.go:118-140 handleConn *)
Definition serve_request (keys : SessionKeys) : M (Z * Request) :=
  '(hdr, protected) ← readFrame;
  if negb (eh_msgTyp hdr =? MsgXOREnrollRequest) then refuse (eh_seqNum hdr) (lit "unexpected protected request type")
  else
    plain ← or_refuse (eh_seqNum hdr) (lit "invalid protected request")
              (OpenProtected (eh_msgTyp hdr) (eh_seqNum hdr) protected keys);
    req ← or_refuse (eh_seqNum hdr) (lit "invalid enrollment request") (decodeRequest plain);
    mret (eh_seqNum hdr, req).

(* @go Backend/internal/enrollment/server.go:142-166 handleConn *)
Definition serve_response (seqNum : Z) (hello : Hello) (row : Enrollment) (req : Request) (keys : SessionKeys) : M Response :=
  resp ← ecatch (Enroll (hl_EnrollmentID hello) (en_AgentID row) req);
  resp ← or_refuse seqNum (lit "enrollment failed") resp;
  plain ← or_refuse seqNum (lit "response encode failed") (encodeResponse resp);
  writeFrame MsgXOREnrollResponse (u32 (seqNum + 1)) (SealProtected MsgXOREnrollResponse (u32 (seqNum + 1)) plain keys) ;;
  mret resp.

(** Anything but a valid acknowledgement leaves the enrollment issued. *)
(* @go Backend/internal/enrollment/server.go:168-176 handleConn *)
Definition serve_ack (hello : Hello) (agentID : cstring) (keys : SessionKeys) : M unit :=
  r ← ecatch readFrame;
  match r with
  | Some (hdr, protected) =>
      if eh_msgTyp hdr =? MsgXOREnrollAck then
        match OpenProtected (eh_msgTyp hdr) (eh_seqNum hdr) protected keys with
        | Some _ => _ ← stored (MarkEnrollmentUsed (now AtUsed) (hl_EnrollmentID hello) agentID); mret tt
        | None => mret tt
        end
      else mret tt
  | None => mret tt
  end.

(* @go Backend/internal/enrollment/server.go:45-179 handleConn *)
Definition handleConn : M unit :=
  '(seqNum, hello, row, xorKey) ← serve_hello;
  keys ← serve_challenge seqNum hello xorKey;
  '(reqSeq, req) ← serve_request keys;
  resp ← serve_response reqSeq hello row req keys;
  serve_ack hello (rs_AgentID resp) keys.

(** ** Steps that succeed *)

Hypothesis hmac_32 : ∀ k d, length (hmac k d) = 32%nat.

Lemma readFull_runs n bs : length bs = n → runs (readFull n) bs bs [].
Proof.
  intros Hn s rest Hin _. unfold readFull. cbn [st_in st_out st_room st_rest serving_stream] in *.
  rewrite Hin, length_app, bool_decide_eq_true_2 by lia. rewrite take_app_length', drop_app_length' by done.
  eexists. split; [done|]. cbn. by rewrite app_nil_r.
Qed.

Lemma writeAll_runs buf : runs (writeAll buf) tt [] buf.
Proof.
  intros s rest Hin Hu. unfold writeAll. cbn [st_in st_out st_room st_rest serving_stream] in *.
  rewrite bool_decide_eq_true_2 by done. eexists. split; [done|]. cbn. rewrite take_ge by lia. repeat split; [done|lia].
Qed.

(** Both sides frame alike. *)
Lemma readFrame_runs t q p : in_width 8 t → in_width 32 q → Z.of_nat (length p) + 9 ≤ 65535 →
  runs readFrame (EnrollHdr (Z.of_nat (length p) + 9) t q, p) (frame_bytes t q p) [].
Proof.
  intros Ht Hq Hl. unfold readFrame, frame_bytes.
  destruct (header_fields (be_bytes 4 (Z.of_nat (length p) + 9)) (be_bytes 1 t) (be_bytes 4 q) [])
    as (H1 & H2 & H3 & _ & _); try apply be_bytes_length. rewrite app_nil_r in *.
  replace (be_bytes 4 _ ++ be_bytes 1 t ++ be_bytes 4 q ++ p) with
    ((be_bytes 4 (Z.of_nat (length p) + 9) ++ be_bytes 1 t ++ be_bytes 4 q) ++ p) by by rewrite <- !app_assoc.
  set (hdr := be_bytes 4 _ ++ _ ++ _) in *.
  eapply (runs_reads _ _ hdr _ hdr p); [apply readFull_runs; subst hdr; by rewrite !length_app, !be_bytes_length|].
  rewrite H1, H2, H3, !be_val_be_bytes by (unfold in_width in *; lia). cbv zeta. cbn [eh_length].
  unfold maxFrameSize, frameHeaderSize. rewrite (proj2 (Z.ltb_ge 65535 _)), (proj2 (Z.ltb_ge _ 0)) by lia.
  rewrite <- (app_nil_r p) at 4. eapply (runs_reads _ _ p _ p []); [apply readFull_runs; lia|apply runs_ret].
Qed.

Lemma writeFrame_runs t q p : in_width 8 t → Z.of_nat (length p) + 9 ≤ 65535 →
  runs (writeFrame t q p) tt [] (frame_bytes t q p).
Proof.
  intros Ht Hl. unfold writeFrame, frame_bytes, maxFrameSize, frameHeaderSize.
  rewrite (proj2 (Z.ltb_ge 65535 _)) by lia. rewrite <- (u8_byte t Ht).
  replace (be_bytes 4 _ ++ [u8 t] ++ be_bytes 4 q ++ p) with
    ((be_bytes 4 (Z.of_nat (length p) + 9) ++ u8 t :: be_bytes 4 q) ++ p) by by rewrite <- !app_assoc.
  eapply runs_bind0; apply writeAll_runs.
Qed.

Lemma or_refuse_runs {A} q msg (r : option A) a : r = Some a → runs (or_refuse q msg r) a [] [].
Proof. intros ->. apply runs_ret. Qed.

Lemma stored_moves {A} (call : D → A * D) a d d' : call d = (a, d') → moves (stored call) a [] [] d d'.
Proof.
  intros Hc s rest Hin _ Hd. unfold stored. cbn in Hin, Hd. rewrite Hd, Hc. eexists. split; [done|]. cbn.
  by rewrite app_nil_r.
Qed.

Lemma readString_lp b p : Z.of_nat (length b) ≤ 65535 → readString (lp b ++ p) = Some (b, p).
Proof.
  intros Hb. unfold readString, lp. rewrite <- app_assoc.
  rewrite bool_decide_eq_false_2 by (rewrite length_app, be_bytes_length; lia).
  rewrite take_app_length', drop_app_length' by by rewrite be_bytes_length.
  rewrite be_val_small by lia. rewrite Nat2Z.id. cbv zeta. rewrite bool_decide_eq_false_2 by (rewrite length_app; lia).
  by rewrite take_app_length, drop_app_length.
Qed.

Lemma writeString_lp b : Z.of_nat (length b) ≤ 65535 → writeString b = Some (lp b).
Proof. intros Hb. unfold writeString. by rewrite (proj2 (Z.ltb_ge _ _)) by lia. Qed.

(** ** The agent's keys and the server's *)

(** OpenSSL's HMAC is Go's. *)
Definition agent_hmac (k d : list Z) : option (list Z) := Some (hmac k d).
Definition agent_keys (k : SessionKeys) : ig_xor_session := XorSession (k_session k) (k_enc k) (k_mac k).

Lemma agent_hmac_total k d : ∃ o, agent_hmac k d = Some o ∧ length o = 32%nat.
Proof. eexists. split; [reflexivity|apply hmac_32]. Qed.

Lemma agent_hmac_sha256 k d : hmac_sha256 agent_hmac k d = Some (hmac k d).
Proof. unfold hmac_sha256, agent_hmac. cbn. by rewrite hmac_32. Qed.

Lemma derived_keys cfg cn sn keys : DeriveSessionKeys (ec_xor_key cfg) (ec_enrollment_id cfg) cn sn = Some keys →
  session_keys agent_hmac cfg cn sn (agent_keys keys).
Proof.
  unfold DeriveSessionKeys. destruct (_ || _); [done|]. intros [= <-]. unfold session_keys, agent_keys.
  cbn [xs_session xs_enc xs_mac k_session k_enc k_mac]. by rewrite !agent_hmac_sha256.
Qed.

Lemma proof_agrees keys id cn sn :
  hmac_sha256 agent_hmac (xs_mac (agent_keys keys)) (transcript proof_label id cn sn) = Some (ServerProof keys id cn sn).
Proof. apply agent_hmac_sha256. Qed.

Lemma mac_agrees keys t q ct :
  hmac_sha256 agent_hmac (xs_mac (agent_keys keys)) (mac_data t q ct) = Some (frameMAC (k_mac keys) t q ct).
Proof. apply agent_hmac_sha256. Qed.

Lemma zip_take {A} (f : Z → Z → A) n l k : length k = n → zip_with f (take n l) k = zip_with f l k.
Proof.
  revert l n. induction k as [|y k IH]; intros [|x l] [|n] Hk; try done. cbn. by rewrite IH by (cbn in Hk; lia).
Qed.

Lemma keystream_agrees fuel enc q c src : (length src ≤ fuel)%nat →
  xor_blocks agent_hmac fuel enc q c src = Some (xorKeystream fuel enc q (u32 c) src).
Proof.
  revert c src. induction fuel as [|fuel IH]; intros c src Hl; [destruct src; [done|cbn in Hl; lia]|].
  destruct src as [|x src]; [done|]. set (l := x :: src) in *. rewrite xor_blocks_S by done.
  rewrite agent_hmac_sha256. cbn [mbind option_bind]. rewrite IH by (rewrite length_drop; subst l; cbn [length] in *; lia).
  cbn [mbind option_bind]. f_equal. rewrite zip_take by apply hmac_32.
  change (xorKeystream (S fuel) enc q (u32 c) l) with
    (zip_with Z.lxor l (hmac enc (be_bytes 4 q ++ be_bytes 4 (u32 c))) ++
     xorKeystream fuel enc q (u32 (u32 c + 1)) (drop (length (hmac enc (be_bytes 4 q ++ be_bytes 4 (u32 c)))) l)).
  rewrite hmac_32. replace (u32 (u32 c + 1)) with (u32 (c + 1)); [done|].
  unfold u32, wrap. by rewrite Zplus_mod_idemp_l.
Qed.

(** The keystream of the agent is the server's. *)
Lemma crypt_agrees keys q src :
  xor_crypt agent_hmac (agent_keys keys) q src = Some (xorKeystream (length src) (k_enc keys) q 0 src).
Proof. unfold xor_crypt. by rewrite keystream_agrees. Qed.

(** What the agent protects, the server opens. *)
Lemma open_agrees keys t q plain :
  OpenProtected t q (SealProtected t q plain keys) keys = Some plain.
Proof.
  unfold OpenProtected, SealProtected, protectedMACSz. cbv zeta. set (ct := xorKeystream _ _ _ _ plain).
  destruct (xor_crypt_involutive agent_hmac (agent_keys keys) q plain ct (crypt_agrees keys q plain)) as [Hl Hb].
  rewrite crypt_agrees in Hb. injection Hb as Hb.
  rewrite bool_decide_eq_false_2 by (unfold frameMAC; rewrite length_app, hmac_32; lia).
  rewrite drop_app_length', take_app_length' by (unfold frameMAC; by rewrite hmac_32).
  by rewrite bool_decide_eq_true_2, Hb.
Qed.

Lemma seal_length t q plain keys : length (SealProtected t q plain keys) = (32 + length plain)%nat.
Proof.
  unfold SealProtected. cbv zeta. set (ct := xorKeystream _ _ _ _ plain).
  destruct (xor_crypt_involutive agent_hmac (agent_keys keys) q plain ct (crypt_agrees keys q plain)) as [Hl _].
  unfold frameMAC. rewrite length_app, hmac_32. lia.
Qed.

(** ** A connection that succeeds *)

Lemma decodeHello_ok id cn : id ≠ [] → Z.of_nat (length id) ≤ 65535 → length cn = 32%nat →
  decodeHello (lp id ++ lp cn) = Some {| hl_EnrollmentID := id; hl_ClientNonce := cn |}.
Proof.
  intros Hne Hid Hcn. unfold decodeHello. rewrite readString_lp by done. cbn [mbind option_bind].
  unfold readBytes. rewrite <- (app_nil_r (lp cn)), readString_lp by lia. cbn [mbind option_bind].
  rewrite (bool_decide_eq_true_2 ([] = [])), (bool_decide_eq_false_2 (id = [])) by done. cbn [negb orb].
  by rewrite bool_decide_eq_true_2.
Qed.

Lemma decodeRequest_ok cfg : Z.of_nat (length (request_plain cfg)) ≤ 65535 →
  decodeRequest (request_plain cfg) =
  Some {| rq_Hostname := ec_hostname cfg; rq_IP := ec_ip cfg; rq_OS := ec_os cfg; rq_MonitorType := ec_monitor_type cfg |}.
Proof.
  unfold request_plain. intros Hl. rewrite !length_app in Hl. pose proof (lp_length (ec_hostname cfg)).
  pose proof (lp_length (ec_ip cfg)). pose proof (lp_length (ec_os cfg)). cbn [length] in Hl.
  unfold decodeRequest. rewrite readString_lp by lia. cbn [mbind option_bind].
  rewrite readString_lp by lia. cbn [mbind option_bind]. rewrite readString_lp by lia. reflexivity.
Qed.

(** The response as the agent decodes it. *)
Definition response_of (r : Response) : ig_enroll_response :=
  EnrollResponse (rs_AgentID r) (rs_AgentCertPEM r) (rs_AgentKeyPEM r) (rs_CACertPEM r) (u64 (rs_ExpiresAt r)).

Lemma encodeResponse_ok r : Z.of_nat (length (response_plain (response_of r))) ≤ 65535 →
  encodeResponse r = Some (response_plain (response_of r)).
Proof.
  unfold response_plain. intros Hl. rewrite !length_app in Hl. cbn [response_of er_agent_id er_agent_cert_pem er_agent_key_pem er_ca_cert_pem] in Hl.
  pose proof (lp_length (rs_AgentID r)). pose proof (lp_length (rs_AgentCertPEM r)).
  pose proof (lp_length (rs_AgentKeyPEM r)). pose proof (lp_length (rs_CACertPEM r)).
  unfold encodeResponse. by rewrite !writeString_lp by lia.
Qed.

(** The four calls of a complete enrollment succeed one after the other. *)
Definition store_enrolls (id : cstring) (e : Enrollment) (agent : cstring) (p : RegisterPayload) (c : AgentCertificate) (d d' : D) : Prop :=
  ∃ d1 d2 d3, GetPendingEnrollment (now AtGet) id d = (Some e, d1) ∧ ClaimEnrollment (now AtClaim) id agent d1 = (true, d2) ∧
    FinalizeEnrollmentIssue (now AtFinalize) id agent p c d2 = (true, d3) ∧
    MarkEnrollmentUsed (now AtUsed) id agent d3 = (true, d').

Section complete.
Variable cfg : ig_enroll_config.
Variables cn sn : list Z.
Variable e : Enrollment.
Variable keys : SessionKeys.
Variable agent : cstring.
Variable issued : IssuedCertificate.

Definition request_of : Request :=
  {| rq_Hostname := ec_hostname cfg; rq_IP := ec_ip cfg; rq_OS := ec_os cfg; rq_MonitorType := ec_monitor_type cfg |}.
Definition issued_response : Response :=
  {| rs_AgentID := agent; rs_AgentCertPEM := ic_CertPEM issued; rs_AgentKeyPEM := ic_KeyPEM issued;
     rs_CACertPEM := caCertPEM; rs_ExpiresAt := ic_ExpiresAt issued |}.

(** What either side sends. *)
Definition agent_frames : list Z :=
  hello_frame cfg cn ++
  frame_bytes IG_MSG_XOR_ENROLL_REQUEST 3 (SealProtected IG_MSG_XOR_ENROLL_REQUEST 3 (request_plain cfg) keys) ++
  frame_bytes IG_MSG_XOR_ENROLL_ACK 5 (SealProtected IG_MSG_XOR_ENROLL_ACK 5 [] keys).
Definition challenge_payload : list Z := lp sn ++ lp (ServerProof keys (ec_enrollment_id cfg) cn sn).
Definition response_payload : list Z :=
  SealProtected IG_MSG_XOR_ENROLL_RESPONSE 4 (response_plain (response_of issued_response)) keys.
Definition server_frames : list Z :=
  frame_bytes IG_MSG_XOR_CHALLENGE 2 challenge_payload ++ frame_bytes IG_MSG_XOR_ENROLL_RESPONSE 4 response_payload.

Hypothesis Hid : ec_enrollment_id cfg ≠ [].
Hypothesis Hidlen : Z.of_nat (length (ec_enrollment_id cfg)) ≤ 65000.
Hypothesis Hreq : Z.of_nat (length (request_plain cfg)) ≤ 65000.
Hypothesis Hcn : length cn = 32%nat.
Hypothesis Hsn : length sn = 32%nat.
Hypothesis Hnonce : serverNonce = Some sn.
Hypothesis Hvault : vault_Decrypt (en_KeyCiphertext e) (en_KeyNonce e) = Some (ec_xor_key cfg).
Hypothesis Hhash : en_SecretHash e = HashXORKey (ec_enrollment_id cfg) (ec_xor_key cfg).
Hypothesis Hkeys : DeriveSessionKeys (ec_xor_key cfg) (ec_enrollment_id cfg) cn sn = Some keys.
Hypothesis Hagent : enroll_agent (ec_enrollment_id cfg) (en_AgentID e) request_of = Some agent.
Hypothesis Hissued : IssueAgentCertificate (agentIdentityPrefix ++ agent) = Some issued.
Hypothesis Hresp : wf_response (response_of issued_response).

#[local] Abbreviation hello := {| hl_EnrollmentID := ec_enrollment_id cfg; hl_ClientNonce := cn |}.

Lemma serve_hello_moves d d1 : GetPendingEnrollment (now AtGet) (ec_enrollment_id cfg) d = (Some e, d1) →
  moves serve_hello (1, hello, e, ec_xor_key cfg) (hello_frame cfg cn) [] d d1.
Proof.
  intros Hget. unfold serve_hello, hello_frame. pose proof (lp_length (ec_enrollment_id cfg)) as L1.
  pose proof (lp_length cn) as L2. rewrite <- (app_nil_r (frame_bytes _ _ _)).
  eapply moves_reads; [apply runs_moves, readFrame_runs; [unfold in_width; done..|rewrite length_app; lia]|].
  cbv beta iota. cbn [eh_msgTyp eh_seqNum]. change (negb (IG_MSG_XOR_HELLO =? MsgXORHello)) with false. cbv iota.
  eapply moves_then; [by apply runs_moves, or_refuse_runs, decodeHello_ok; [|lia|]|]. cbn [hl_EnrollmentID].
  eapply moves_then; [by apply stored_moves|].
  eapply moves_then; [by apply runs_moves, or_refuse_runs|].
  eapply moves_then; [by apply runs_moves, or_refuse_runs|].
  rewrite bool_decide_eq_true_2 by done. apply moves_ret.
Qed.

Lemma serve_challenge_runs :
  runs (serve_challenge 1 hello (ec_xor_key cfg)) keys [] (frame_bytes IG_MSG_XOR_CHALLENGE 2 challenge_payload).
Proof.
  unfold serve_challenge, challenge_payload. cbn [hl_EnrollmentID hl_ClientNonce]. set (pr := ServerProof _ _ _ _).
  assert (Hpr : length pr = 32%nat) by apply hmac_32. pose proof (lp_length sn) as L1. pose proof (lp_length pr) as L2.
  eapply runs_then; [by apply or_refuse_runs|]. eapply runs_then; [by apply or_refuse_runs|].
  eapply runs_then; [apply or_refuse_runs|].
  { unfold encodeChallenge. fold pr. rewrite !writeString_lp by lia. reflexivity. }
  rewrite <- (app_nil_r (frame_bytes _ _ _)). eapply runs_bind0; [|apply runs_ret].
  apply writeFrame_runs; [unfold in_width; done|rewrite length_app; lia].
Qed.

Lemma serve_request_runs :
  runs (serve_request keys) (3, request_of)
    (frame_bytes IG_MSG_XOR_ENROLL_REQUEST 3 (SealProtected IG_MSG_XOR_ENROLL_REQUEST 3 (request_plain cfg) keys)) [].
Proof.
  unfold serve_request. rewrite <- (app_nil_r (frame_bytes _ _ _)).
  eapply runs_reads; [apply readFrame_runs; [unfold in_width; done..|rewrite seal_length; lia]|].
  cbv beta iota. cbn [eh_msgTyp eh_seqNum]. change (negb (IG_MSG_XOR_ENROLL_REQUEST =? MsgXOREnrollRequest)) with false.
  cbv iota. eapply runs_then; [apply or_refuse_runs, open_agrees|].
  eapply runs_then; [apply or_refuse_runs, decodeRequest_ok; lia|]. apply runs_ret.
Qed.

Lemma Enroll_moves d1 d2 d3 :
  ClaimEnrollment (now AtClaim) (ec_enrollment_id cfg) agent d1 = (true, d2) →
  FinalizeEnrollmentIssue (now AtFinalize) (ec_enrollment_id cfg) agent (enroll_payload request_of)
    (issued_cert agent issued) d2 = (true, d3) →
  moves (Enroll (ec_enrollment_id cfg) (en_AgentID e) request_of) issued_response [] [] d1 d3.
Proof.
  intros Hclaim Hfinal. unfold Enroll. eapply moves_then; [by apply runs_moves, runs_lift|].
  eapply moves_then; [by apply stored_moves|]. cbn [negb].
  eapply moves_then; [apply moves_catch|apply moves_ret].
  unfold enroll_issue. eapply moves_then; [by apply runs_moves, runs_lift|].
  eapply moves_then; [by apply stored_moves|apply moves_ret].
Qed.

Lemma serve_response_moves d1 d2 d3 :
  ClaimEnrollment (now AtClaim) (ec_enrollment_id cfg) agent d1 = (true, d2) →
  FinalizeEnrollmentIssue (now AtFinalize) (ec_enrollment_id cfg) agent (enroll_payload request_of)
    (issued_cert agent issued) d2 = (true, d3) →
  moves (serve_response 3 hello e request_of keys) issued_response [] (frame_bytes IG_MSG_XOR_ENROLL_RESPONSE 4 response_payload) d1 d3.
Proof.
  intros Hclaim Hfinal. unfold serve_response, response_payload. cbn [hl_EnrollmentID]. destruct Hresp as (Hl & _).
  eapply moves_then; [by eapply moves_catch, Enroll_moves|].
  eapply moves_then; [by apply runs_moves, or_refuse_runs|].
  eapply moves_then; [apply runs_moves, or_refuse_runs, encodeResponse_ok; lia|].
  rewrite <- (app_nil_r (frame_bytes _ _ _)).
  eapply moves_writes; [|apply moves_ret]. apply runs_moves, writeFrame_runs; [unfold in_width; done|].
  rewrite seal_length. lia.
Qed.

Lemma serve_ack_moves d3 d' : MarkEnrollmentUsed (now AtUsed) (ec_enrollment_id cfg) agent d3 = (true, d') →
  moves (serve_ack hello agent keys) tt (frame_bytes IG_MSG_XOR_ENROLL_ACK 5 (SealProtected IG_MSG_XOR_ENROLL_ACK 5 [] keys)) [] d3 d'.
Proof.
  intros Hmark. unfold serve_ack. rewrite <- (app_nil_r (frame_bytes _ _ _)).
  eapply moves_reads; [apply moves_catch, runs_moves, readFrame_runs; [unfold in_width; done..|rewrite seal_length; cbn; lia]|].
  cbv beta iota. cbn [eh_msgTyp eh_seqNum]. change (IG_MSG_XOR_ENROLL_ACK =? MsgXOREnrollAck) with true. cbv iota.
  rewrite open_agrees. eapply moves_then; [by apply stored_moves|apply moves_ret].
Qed.

(** The server's side of a complete enrollment. *)
Lemma handleConn_moves d d' :
  store_enrolls (ec_enrollment_id cfg) e agent (enroll_payload request_of) (issued_cert agent issued) d d' →
  moves handleConn tt agent_frames server_frames d d'.
Proof.
  intros (d1 & d2 & d3 & Hget & Hclaim & Hfinal & Hmark). unfold handleConn, agent_frames, server_frames.
  eapply moves_reads; [by apply serve_hello_moves|]. cbv beta iota.
  eapply moves_writes; [apply runs_moves, serve_challenge_runs|].
  eapply moves_reads; [apply runs_moves, serve_request_runs|]. cbv beta iota.
  rewrite <- (app_nil_r (frame_bytes IG_MSG_XOR_ENROLL_RESPONSE _ _)).
  eapply moves_writes; [by eapply serve_response_moves|]. by apply serve_ack_moves.
Qed.
End complete.
End server.

(** ** Dotted decimal addresses *)

(** The digits of one field. *)
Fixpoint field_digits (s : cstring) (val digLen : Z) : option (Z * Z) :=
  match s with
  | [] => Some (val, digLen)
  | c :: s =>
      if negb (isdigit c) || (digLen =? 1) && (val =? 0) || (255 <? val * 10 + (c - 48)) then None
      else field_digits s (val * 10 + (c - 48)) (digLen + 1)
  end.

Lemma ipv4_fields_digits ds s val n fields val' n' : field_digits ds val n = Some (val', n') →
  ipv4_fields (ds ++ s) val n fields = ipv4_fields s val' n' fields.
Proof.
  revert val n. induction ds as [|c ds IH]; intros val n H; [by injection H as <- <-|]. cbn [field_digits] in H.
  destruct (negb (isdigit c)) eqn:Hc; [done|]. cbn [orb] in H. apply negb_false_iff in Hc.
  cbn [app ipv4_fields]. rewrite Hc. destruct (_ && _); [done|]. cbn [orb] in H. cbv zeta.
  destruct (255 <? _); [done|]. by apply IH.
Qed.

Lemma byte_digits b : is_byte b → ∃ n, 0 < n ∧ field_digits (decimal b) 0 0 = Some (b, n).
Proof.
  intros [H0 H1]. set (ok b := match field_digits (decimal b) 0 0 with Some (v, n) => (v =? b) && (0 <? n) | None => false end).
  assert (Hall : forallb ok (Z.of_nat <$> seq 0 256) = true) by (vm_compute; reflexivity).
  rewrite forallb_forall in Hall. specialize (Hall b). unfold ok in Hall.
  destruct (field_digits (decimal b) 0 0) as [[v n]|].
  - destruct (andb_prop _ _ (Hall ltac:(apply in_map_iff; exists (Z.to_nat b); split; [lia|apply in_seq; lia]))) as
      [->%Z.eqb_eq Hn%Z.ltb_lt]. by exists n.
  - by discriminate Hall; apply in_map_iff; exists (Z.to_nat b); split; [lia|apply in_seq; lia].
Qed.

Lemma ip_form_digits ds s : Forall (λ c, isdigit c = true) ds → ip_form (ds ++ 46 :: s) = Some 46.
Proof.
  induction 1 as [|c ds Hc _ IH]; [done|]. cbn [app ip_form]. rewrite isdigit_range in Hc.
  by rewrite !(proj2 (Z.eqb_neq _ _)) by lia.
Qed.

(** The text of an IPv4 address is parsed as that address. *)
Lemma ParseIP_ip_string v6 ip : in_width 32 ip → ParseIP v6 (ip_string (be_bytes 4 ip)) = Some (Some (be_bytes 4 ip)).
Proof.
  intros Hip. pose proof (be_bytes_bytes 4 ip) as Hb. pose proof (be_bytes_length 4 ip) as Hl.
  destruct (be_bytes 4 ip) as [|a [|b [|c [|d []]]]]; try done. unfold ip_string, ParseIP.
  change (lit ".") with [46]. apply Forall_cons in Hb as [Ha Hb]. apply Forall_cons in Hb as [Hb Hc].
  apply Forall_cons in Hc as [Hc Hd]. apply Forall_cons in Hd as [Hd _].
  destruct (decimal_spec a) as (a0 & as' & Hda & Hdig & _); [unfold is_byte, in_width in *; lia|].
  cbn [app]. rewrite ip_form_digits by by rewrite Hda. change (46 =? 46) with true. cbv iota.
  destruct (byte_digits a Ha) as (na & Hna & Hfa). destruct (byte_digits b Hb) as (nb & Hnb & Hfb).
  destruct (byte_digits c Hc) as (nc & Hnc & Hfc). destruct (byte_digits d Hd) as (nd & Hnd & Hfd).
  assert (Hpoint : ∀ s v n fs, 0 < n → s ≠ [] → length fs ≠ 3%nat →
    ipv4_fields (46 :: s) v n fs = ipv4_fields s 0 0 (fs ++ [v])).
  { intros s v n fs Hn Hs Hf. cbn [ipv4_fields]. change (isdigit 46) with false. change (46 =? 46) with true. cbv iota.
    rewrite (proj2 (Z.eqb_neq n 0)) by lia. by rewrite !bool_decide_eq_false_2. }
  assert (Hdec : ∀ x s, is_byte x → decimal x ++ s ≠ []).
  { intros x s Hx. destruct (decimal_spec x) as (y & ys & -> & _); [unfold is_byte, in_width in *; lia|done]. }
  rewrite (ipv4_fields_digits _ _ _ _ _ _ _ Hfa), Hpoint by auto.
  rewrite (ipv4_fields_digits _ _ _ _ _ _ _ Hfb), Hpoint by auto.
  rewrite (ipv4_fields_digits _ _ _ _ _ _ _ Hfc), Hpoint
    by (auto; rewrite <- (app_nil_r (decimal d)); auto).
  rewrite <- (app_nil_r (decimal d)). rewrite (ipv4_fields_digits _ _ _ _ _ _ _ Hfd). reflexivity.
Qed.

(** ** A complete enrollment *)

(** A pending row on a working database: used in the end, the issue recorded. *)
Lemma mysql_enrolls db_ok rows_ok now id r agent p c d :
  (∀ n, db_ok n = true) → (∀ n a p c, rows_ok n a p c = true) → (∀ m, now m < en_ExpiresAt (row_of r)) →
  my_rows d !! id = Some r → en_Status (row_of r) = Pending →
  ∃ d', store_enrolls (H := mysql_store db_ok rows_ok) now id (row_of r) agent p c d d' ∧
    row_standing <$> my_rows d' !! id = Some (Used, agent) ∧ my_issues d' = my_issues d ++ [(id, agent, p, c)] ∧
    ∀ i, i ≠ id → my_rows d' !! i = my_rows d !! i.
Proof.
  destruct r as [e n]. cbn [row_of]. intros Hdb Hag Hnow Hr Hst. eexists. split; [eexists _, _, _; split_and!|].
  - cbn. unfold mysql_get. rewrite Hr.
    rewrite Hdb, Hst, (proj2 (Z.ltb_lt _ _)) by apply Hnow. reflexivity.
  - cbn. unfold mysql_claim. cbn [my_rows tick]. rewrite lookup_insert_eq. cbn [row_of my_n].
    rewrite Hdb. cbn [row_of]. rewrite Hst, (proj2 (Z.ltb_lt _ _)) by apply Hnow. reflexivity.
  - cbn. unfold mysql_finalize. rewrite Hdb, Hag. cbn [andb negb]. rewrite set_row_this. cbn [row_of en_Status en_AgentID en_ExpiresAt].
    rewrite (proj2 (Z.ltb_lt _ _)) by apply Hnow. rewrite !bool_decide_eq_true_2 by done. reflexivity.
  - cbn. unfold mysql_mark_used. cbn [my_rows my_n tick set_row]. rewrite lookup_insert_eq, Hdb. cbn [row_of en_Status en_AgentID].
    rewrite !bool_decide_eq_true_2 by done. reflexivity.
  - cbn. rewrite !lookup_insert_eq. split; [done|]. split; [done|]. intros i Hi. by rewrite !lookup_insert_ne.
Qed.

Lemma agentIdentity_ok id : id ≠ [] → isAgentIdentity (agentIdentityPrefix ++ id) = true.
Proof.
  intros Hid. unfold isAgentIdentity, TrimPrefix.
  assert (Hp : is_prefix agentIdentityPrefix (agentIdentityPrefix ++ id) = true) by (apply is_prefix_spec; by eexists).
  rewrite Hp, drop_app_length. cbv zeta. rewrite !bool_decide_eq_false_2; [done|done|].
  intros H. apply (f_equal length) in H. rewrite length_app in H. vm_compute (length agentIdentityPrefix) in H. lia.
Qed.

Lemma template_identity now ttl agent serial : agent ≠ [] →
  peerIdentityFromCert (agent_template now ttl (agentIdentityPrefix ++ agent) (agentIdentityPrefix ++ agent) serial) =
  Some (agentIdentityPrefix ++ agent).
Proof. intros Hne. unfold peerIdentityFromCert. cbn [agent_template xt_URIs]. by rewrite filter_cons_True by by apply agentIdentity_ok. Qed.

Lemma server_frames_short hmac ca (Hh : ∀ k m, length (hmac k m) = 32%nat) cfg cn sn keys agent issued : length sn = 32%nat →
  wf_response (response_of (issued_response ca agent issued)) →
  Z.of_nat (length (server_frames hmac ca cfg cn sn keys agent issued)) ≤ 132000.
Proof.
  intros Hsn (Hl & _). unfold server_frames, challenge_payload, response_payload.
  pose proof (lp_length sn). set (pr := ServerProof _ _ _ _ _). assert (length pr = 32%nat) by apply Hh.
  pose proof (lp_length pr). rewrite length_app, !frame_bytes_length, length_app, seal_length by done. lia.
Qed.

(** The agent the service makes of a request with a dotted decimal address. *)
Lemma enroll_agent_ok v6 id expected cfg ip : id ≠ [] → ec_hostname cfg ≠ [] → in_width 32 ip →
  ec_ip cfg = ip_string (be_bytes 4 ip) →
  let agent := decimal (GenerateAgentID (ec_hostname cfg) (Some (be_bytes 4 ip))) in
  expected = [] ∨ expected = agent → enroll_agent v6 id expected (request_of cfg) = Some agent.
Proof.
  intros Hid Hhost Hip Hipt agent Hexp. unfold enroll_agent, request_of. cbn [rq_Hostname rq_IP].
  assert (Hne : ec_ip cfg ≠ []).
  { rewrite Hipt. pose proof (be_bytes_length 4 ip) as Hl. destruct (be_bytes 4 ip) as [|a [|b [|c [|d []]]]]; try done.
    cbn. intros H. apply app_eq_nil in H as [_ H]. done. }
  rewrite !bool_decide_eq_false_2 by done. cbn [orb]. rewrite Hipt, ParseIP_ip_string by done. cbn [mbind option_bind].
  fold agent. destruct Hexp as [->| ->]; [done|]. rewrite (bool_decide_eq_true_2 (agent = agent)) by done.
  by rewrite andb_false_r.
Qed.

(** [C3] Agent and server complete an enrollment. For a pending enrollment whose
    stored key is the agent's, a working database and working primitives, there
    are byte streams that are each side's output on the other's: on them the agent
    returns 0 and has written the certificate, the private key and the CA
    certificate the server issued, and the server has recorded that one
    certificate and marked the enrollment used; the certificate names exactly the
    agent number that registration derives from the same host name and address. *)
Theorem enrollment_completes
    (hmac : list Z → list Z → list Z) (sha256 : list Z → list Z) (gcm_open : list Z → list Z → option (list Z))
    (pepper caCertPEM : list Z) (now : moment → Z) (serial : Z) (pkcs8 public : list Z)
    (url_parse : cstring → option cstring) (CreateCertificate : x509_template → list Z → option (list Z))
    (pem : cstring → list Z → list Z) (ttl : Z) (v6 : cstring → option (option (list Z)))
    (db_ok : nat → bool) (rows_ok : nat → cstring → RegisterPayload → AgentCertificate → bool)
    (calloc_ok : nat → bool) (file_result : cstring → file_io) (umask : Z)
    (cfg : ig_enroll_config) (ip : Z) (cn sn der : list Z) (r : enrollment_row) (d : mysql)
    (room0 room1 n : nat) (files : gmap (list Z) (list Z * Z))
    (Hhmac : ∀ k m, length (hmac k m) = 32%nat)
    (Hurl : ∀ z, in_width 64 z → url_parse (agentIdentityPrefix ++ decimal z) = Some (agentIdentityPrefix ++ decimal z))
    (Hcalloc : ∀ n, calloc_ok n = true) (Hfiles : ∀ p, file_result p = Writes n)
    (Hdb : ∀ n, db_ok n = true) (Hrows : ∀ n a p c, rows_ok n a p c = true)
    (Hrow : my_rows d !! ec_enrollment_id cfg = Some r) (Hpending : en_Status (row_of r) = Pending)
    (Hnow : ∀ m, now m < en_ExpiresAt (row_of r))
    (Hvault : vault_Decrypt gcm_open (en_KeyCiphertext (row_of r)) (en_KeyNonce (row_of r)) = Some (ec_xor_key cfg))
    (Hhash : en_SecretHash (row_of r) = HashXORKey hmac pepper (ec_enrollment_id cfg) (ec_xor_key cfg))
    (Hid : ec_enrollment_id cfg ≠ []) (Hkey : ec_xor_key cfg ≠ []) (Hhost : ec_hostname cfg ≠ [])
    (Hidlen : Z.of_nat (length (ec_enrollment_id cfg)) ≤ 65000)
    (Hreq : Z.of_nat (length (request_plain cfg)) ≤ 65000)
    (Hcn : length cn = 32%nat) (Hsn : length sn = 32%nat)
    (Hip : in_width 32 ip) (Hipt : ec_ip cfg = ip_string (be_bytes 4 ip))
    (Hroom0 : 132000 ≤ Z.of_nat room0) (Hroom1 : 132000 ≤ Z.of_nat room1) :
  let agent := decimal (GenerateAgentID (ec_hostname cfg) (Some (be_bytes 4 ip))) in
  let tmpl := agent_template now ttl (agentIdentityPrefix ++ agent) (agentIdentityPrefix ++ agent) serial in
  let issued := {| ic_CertPEM := pem (lit "CERTIFICATE") der; ic_KeyPEM := pem (lit "PRIVATE KEY") pkcs8;
                   ic_CertSubjectHash := hex (sha256 (agentIdentityPrefix ++ agent)); ic_CertFingerprint := hex (sha256 der);
                   ic_IssuedAt := xt_NotBefore tmpl; ic_ExpiresAt := xt_NotAfter tmpl |} in
  let resp := response_of (issued_response caCertPEM agent issued) in
  CreateCertificate tmpl public = Some der → en_AgentID (row_of r) = [] ∨ en_AgentID (row_of r) = agent →
  wf_response resp → (length (response_plain resp) ≤ n)%nat →
  ∃ toServer toClient s' v',
    ig_enroll_execute (agent_hmac hmac) calloc_ok file_result umask cfg (Some cn) true
      (EnrollState toClient [] room0 files 0) = (Some tt, s') ∧ es_out s' = toServer ∧
    handleConn (H := mysql_store db_ok rows_ok) hmac sha256 gcm_open pepper caCertPEM now (Some sn) (Some serial)
      (Some (Some pkcs8, public)) url_parse CreateCertificate pem ttl v6 (Serving toServer [] room1 d) = (Some tt, v') ∧
    sv_out v' = toClient ∧ es_files s' = installed cfg resp files ∧
    row_standing <$> my_rows (sv_store v') !! ec_enrollment_id cfg = Some (Used, agent) ∧
    my_issues (sv_store v') =
      my_issues d ++ [(ec_enrollment_id cfg, agent, enroll_payload (request_of cfg), issued_cert agent issued)] ∧
    peerIdentityFromCert tmpl = Some (agentIdentityPrefix ++ agent).
Proof.
  intros agent tmpl issued resp Hcreate Hexp Hresp Hlen. set (keys := default {| k_session := []; k_enc := []; k_mac := [] |}
    (DeriveSessionKeys hmac (ec_xor_key cfg) (ec_enrollment_id cfg) cn sn)).
  assert (Hkeys : DeriveSessionKeys hmac (ec_xor_key cfg) (ec_enrollment_id cfg) cn sn = Some keys).
  { subst keys. unfold DeriveSessionKeys, nonceSize. rewrite Hcn, Hsn, !bool_decide_eq_false_2 by done. reflexivity. }
  destruct (GenerateAgentID_range (ec_hostname cfg) (Some (be_bytes 4 ip))) as [Hnum _].
  assert (Hagent := enroll_agent_ok v6 (ec_enrollment_id cfg) (en_AgentID (row_of r)) cfg ip Hid Hhost Hip Hipt Hexp).
  fold agent in Hagent.
  assert (Hissued : IssueAgentCertificate sha256 now (Some serial) (Some (Some pkcs8, public)) url_parse CreateCertificate
    pem ttl (agentIdentityPrefix ++ agent) = Some issued).
  { unfold IssueAgentCertificate. cbn [mbind option_bind].
    rewrite (Hurl _ Hnum : url_parse (agentIdentityPrefix ++ agent) = Some (agentIdentityPrefix ++ agent)).
    cbn [mbind option_bind]. fold tmpl. rewrite Hcreate. reflexivity. }
  destruct (mysql_enrolls db_ok rows_ok now (ec_enrollment_id cfg) r agent (enroll_payload (request_of cfg))
    (issued_cert agent issued) d Hdb Hrows Hnow Hrow Hpending) as (d' & Henrolls & Hst & Hiss & _).
  set (toServer := agent_frames hmac cfg cn keys). set (toClient := server_frames hmac caCertPEM cfg cn sn keys agent issued).
  assert (Hserve := handleConn_moves (H := mysql_store db_ok rows_ok) hmac sha256 gcm_open pepper caCertPEM now (Some sn) (Some serial)
    (Some (Some pkcs8, public)) url_parse CreateCertificate pem ttl v6 Hhmac cfg cn sn (row_of r) keys agent issued
    Hid Hidlen Hreq Hcn Hsn eq_refl Hvault Hhash Hkeys Hagent Hissued Hresp d d' Henrolls).
  fold toServer toClient in Hserve.
  destruct (enroll_agrees (agent_hmac hmac) calloc_ok file_result umask Hcalloc cfg cn sn
    (ServerProof hmac keys (ec_enrollment_id cfg) cn sn)
    (xorKeystream hmac (length (response_plain resp)) (k_enc keys) 4 0 (response_plain resp))
    (frameMAC hmac (k_mac keys) IG_MSG_XOR_ENROLL_RESPONSE 4
       (xorKeystream hmac (length (response_plain resp)) (k_enc keys) 4 0 (response_plain resp)))
    (xorKeystream hmac (length (request_plain cfg)) (k_enc keys) 3 0 (request_plain cfg))
    (frameMAC hmac (k_mac keys) IG_MSG_XOR_ENROLL_REQUEST 3
       (xorKeystream hmac (length (request_plain cfg)) (k_enc keys) 3 0 (request_plain cfg)))
    (frameMAC hmac (k_mac keys) IG_MSG_XOR_ENROLL_ACK 5 []) [] 2 4 (agent_keys keys) resp
    (EnrollState toClient [] room0 files 0) n) as (s' & Hrun & Hout & Hinst); try done.
  all: try (first [by apply derived_keys | by apply proof_agrees | by apply crypt_agrees | by apply mac_agrees]).
  { cbn [es_in]. by rewrite app_nil_r. }
  destruct (Hserve (Serving toServer [] room1 d) [] (eq_sym (app_nil_r toServer))) as (v' & Hv & _ & Hvo & _ & Hvd); [|done|].
  { cbn [st_room serving_stream sv_conn_room]. pose proof (server_frames_short hmac caCertPEM Hhmac cfg cn sn keys agent issued Hsn Hresp).
    fold toClient in H. lia. }
  exists toServer, toClient, s', v'. split; [exact Hrun|]. split; [|split; [exact Hv|]].
  { rewrite Hout. unfold toServer, agent_frames.
    change (SealProtected hmac IG_MSG_XOR_ENROLL_ACK 5 [] keys) with (frameMAC hmac (k_mac keys) IG_MSG_XOR_ENROLL_ACK 5 [] ++ []).
    by rewrite app_nil_r. }
  cbn in Hvo, Hvd. rewrite Hvd. split; [done|]. split; [done|]. split; [done|]. split; [done|].
  apply template_identity. by apply decimal_nonempty.
Qed.

(** ** What an issued certificate shows *)

Section holder.
Context {D : Type} `{EnrollmentLaws D}.
Variable hmac : list Z → list Z → list Z.
Variable sha256 : list Z → list Z.
Variable gcm_open : list Z → list Z → option (list Z).
Variable pepper caCertPEM : list Z.
Variable now : moment → Z.
Variable serverNonce : option (list Z).
Variable rand_serial : option Z.
Variable rsa_key : option (option (list Z) * list Z).
Variable url_parse : cstring → option cstring.
Variable CreateCertificate : x509_template → list Z → option (list Z).
Variable pem : cstring → list Z → list Z.
Variable ttl : Z.
Variable parse_ipv6 : cstring → option (option (list Z)).

Definition recorded (v : serving D) : list issue := issues (sv_store v).

Lemma keeps_stored {A} (call : D → A * D) : (∀ d, issues (call d).2 = issues d) → keeps recorded (stored call).
Proof. intros Hc v. unfold stored, recorded. specialize (Hc (sv_store v)). by destruct (call (sv_store v)). Qed.

Lemma keeps_refuse {A} q msg : keeps recorded (@refuse D A q msg).
Proof. unfold refuse, writeFrame. keep. Qed.
Lemma keeps_or_refuse {A} q msg (r : option A) : keeps recorded (@or_refuse D A q msg r).
Proof. destruct r; [apply keeps_ret|apply keeps_refuse]. Qed.
Lemma keeps_readFrame : keeps recorded (@readFrame D).
Proof. unfold readFrame. keep. Qed.
Lemma keeps_writeFrame t q p : keeps recorded (@writeFrame D t q p).
Proof. unfold writeFrame. keep. Qed.

Lemma get_records t id d : issues (GetPendingEnrollment t id d).2 = issues d.
Proof. destruct (GetPendingEnrollment t id d) as [e d'] eqn:E. cbn [snd]. by apply get_pending in E as (_ & -> & _). Qed.
Lemma claim_records t id a d : issues (ClaimEnrollment t id a d).2 = issues d.
Proof. destruct (ClaimEnrollment t id a d) as [e d'] eqn:E. cbn [snd]. by apply claim_moves in E as (-> & _). Qed.
Lemma mark_records t id a d : issues (MarkEnrollmentUsed t id a d).2 = issues d.
Proof. destruct (MarkEnrollmentUsed t id a d) as [e d'] eqn:E. cbn [snd]. by apply mark_moves in E as (-> & _). Qed.
Lemma release_records id a k d : issues (ReleaseEnrollmentClaim id a k d) = issues d.
Proof. apply release_moves. Qed.

Ltac keep_records :=
  repeat first
    [ apply keeps_ret | apply keeps_refuse | apply keeps_or_refuse | apply keeps_readFrame | apply keeps_writeFrame
    | apply keeps_catch | apply keeps_stored; intros ?; first [apply get_records | apply claim_records | apply mark_records | apply release_records]
    | apply keeps_bind; [|intros ?] | progress cbv beta zeta
    | match goal with |- keeps _ (match ?x with _ => _ end) => destruct x end ].

Lemma keeps_hello : keeps recorded (serve_hello hmac gcm_open pepper now).
Proof. unfold serve_hello. keep_records. Qed.
Lemma keeps_challenge q hello key : keeps recorded (serve_challenge (D := D) hmac serverNonce q hello key).
Proof. unfold serve_challenge. keep_records. Qed.
Lemma keeps_serve_request keys : keeps recorded (serve_request (D := D) hmac keys).
Proof. unfold serve_request. keep_records. Qed.
Lemma keeps_ack hello agent keys : keeps recorded (serve_ack hmac now hello agent keys).
Proof. unfold serve_ack. keep_records. Qed.

(** What a successful step was given. *)
Lemma refuse_Some {A} q msg v a v' : @refuse D A q msg v ≠ (Some a, v').
Proof. unfold refuse. intros (r & v1 & _ & Hf)%E_bind_Some. done. Qed.

Lemma or_refuse_Some {A} q msg (r : option A) v a v' : @or_refuse D A q msg r v = (Some a, v') → r = Some a ∧ v' = v.
Proof. destruct r; [by intros [= <- <-]|]. by intros Hr%refuse_Some. Qed.

Lemma readFull_Some n v bs v' : @readFull D n v = (Some bs, v') → sv_in v = bs ++ sv_in v'.
Proof. unfold readFull. case_bool_decide; [|done]. intros [= <- <-]. cbn. by rewrite take_drop. Qed.

Lemma readFrame_Some v h p v' : @readFrame D v = (Some (h, p), v') → ∃ hdr, sv_in v = hdr ++ p ++ sv_in v'.
Proof.
  unfold readFrame. intros (hdr & v1 & Hh%readFull_Some & Hr)%E_bind_Some. cbv zeta in Hr.
  destruct (_ <? _); [done|]. destruct (_ <? 0); [done|]. apply E_bind_Some in Hr as (p' & v2 & Hp%readFull_Some & Hr).
  injection Hr as <- <- <-. exists hdr. by rewrite Hh, Hp.
Qed.

Lemma readString_Some p b p' : readString p = Some (b, p') → ∃ l, p = l ++ b ++ p'.
Proof.
  unfold readString. case_bool_decide; [done|]. cbv zeta. case_bool_decide; [done|]. intros [= <- <-].
  exists (take 2 p). by rewrite !take_drop.
Qed.

Lemma decodeHello_Some p h : decodeHello p = Some h → ∃ l1 l2, p = l1 ++ hl_EnrollmentID h ++ l2 ++ hl_ClientNonce h.
Proof.
  unfold decodeHello, readBytes. destruct (readString p) as [[id p1]|] eqn:H1; [|done]. cbn [mbind option_bind].
  destruct (readString p1) as [[n p2]|] eqn:H2; [|done]. cbn [mbind option_bind].
  case_bool_decide as Hn; [|done]. cbn [negb]. destruct (_ || _); [done|]. intros [= <-].
  apply readString_Some in H1 as (l1 & ->). apply readString_Some in H2 as (l2 & ->). subst p2.
  exists l1, l2. by rewrite app_nil_r.
Qed.

Lemma open_Some t q p keys plain : OpenProtected hmac t q p keys = Some plain →
  ∃ ct, p = frameMAC hmac (k_mac keys) t q ct ++ ct ∧ plain = xorKeystream hmac (length ct) (k_enc keys) q 0 ct.
Proof.
  unfold OpenProtected. case_bool_decide; [done|]. cbv zeta. case_bool_decide as Hm; [|done]. intros [= <-].
  exists (drop protectedMACSz p). split; [|done]. by rewrite <- Hm, take_drop.
Qed.

Lemma serve_hello_Some v q hello row key v' : serve_hello hmac gcm_open pepper now v = (Some (q, hello, row, key), v') →
  (∃ l1 l2, sv_in v = l1 ++ hl_EnrollmentID hello ++ l2 ++ hl_ClientNonce hello ++ sv_in v') ∧
  standing (sv_store v) (hl_EnrollmentID hello) = Some (Pending, en_AgentID row) ∧
  vault_Decrypt gcm_open (en_KeyCiphertext row) (en_KeyNonce row) = Some key ∧
  en_SecretHash row = HashXORKey hmac pepper (hl_EnrollmentID hello) key.
Proof.
  unfold serve_hello. intros ([h p] & v1 & Hf & Hr)%E_bind_Some. destruct (negb _); [by apply refuse_Some in Hr|].
  pose proof Hf as Hst. apply readFrame_Some in Hf as (hdr & Hf).
  apply E_bind_Some in Hr as (hl & v2 & [Hd ->]%or_refuse_Some & Hr).
  apply E_bind_Some in Hr as (e & v3 & Hg & Hr). apply E_bind_Some in Hr as (row' & v4 & [-> ->]%or_refuse_Some & Hr).
  apply E_bind_Some in Hr as (key' & v5 & [Hk ->]%or_refuse_Some & Hr).
  case_bool_decide as Hh; cbn [negb] in Hr; [|by apply refuse_Some in Hr]. injection Hr as <- <- <- <- <-.
  apply decodeHello_Some in Hd as (l1 & l2 & ->). unfold stored in Hg.
  destruct (GetPendingEnrollment _ _ _) as [e d'] eqn:Hget. injection Hg as -> <-. cbn [sv_in].
  split; [exists (hdr ++ l1), l2; by rewrite Hf, <- !app_assoc|].
  apply get_pending in Hget as (_ & _ & Hget & _). split; [|done]. rewrite <- Hget. f_equal.
  assert (Hkeep : keeps sv_store (@readFrame D)) by (unfold readFrame; keep).
  by rewrite (keeps_run sv_store _ _ _ _ Hkeep Hst).
Qed.

Lemma serve_challenge_Some v q hello key keys v' : @serve_challenge D hmac serverNonce q hello key v = (Some keys, v') →
  sv_in v' = sv_in v ∧ ∃ sn, serverNonce = Some sn ∧
  DeriveSessionKeys hmac key (hl_EnrollmentID hello) (hl_ClientNonce hello) sn = Some keys.
Proof.
  unfold serve_challenge. intros (sn & v1 & [Hs ->]%or_refuse_Some & Hr)%E_bind_Some.
  apply E_bind_Some in Hr as (k & v2 & [Hk ->]%or_refuse_Some & Hr).
  apply E_bind_Some in Hr as (ch & v3 & [_ ->]%or_refuse_Some & Hr).
  apply E_bind_Some in Hr as ([] & v4 & Hw & Hr). injection Hr as <- <-. split; [|by exists sn].
  assert (Hkeep : ∀ t q p, keeps sv_in (@writeFrame D t q p)) by (intros; unfold writeFrame; keep).
  exact (keeps_run sv_in _ _ _ _ (Hkeep _ _ _) Hw).
Qed.

Lemma serve_request_Some v keys q req v' : @serve_request D hmac keys v = (Some (q, req), v') →
  ∃ l ct, sv_in v = l ++ frameMAC hmac (k_mac keys) MsgXOREnrollRequest q ct ++ ct ++ sv_in v' ∧
    decodeRequest (xorKeystream hmac (length ct) (k_enc keys) q 0 ct) = Some req.
Proof.
  unfold serve_request. intros ([h p] & v1 & (hdr & Hf)%readFrame_Some & Hr)%E_bind_Some.
  destruct (Z.eqb_spec (eh_msgTyp h) MsgXOREnrollRequest) as [Ht|]; cbn [negb] in Hr; [|by apply refuse_Some in Hr].
  apply E_bind_Some in Hr as (plain & v2 & [Ho ->]%or_refuse_Some & Hr).
  apply E_bind_Some in Hr as (rq & v3 & [Hd ->]%or_refuse_Some & Hr). injection Hr as <- <- <-.
  apply open_Some in Ho as (ct & -> & ->). exists hdr, ct. split; [|done]. by rewrite Hf, Ht, <- !app_assoc.
Qed.

(** The service records at most the one issue it was asked for. *)
Lemma Enroll_records id expected req v r v' :
  Enroll sha256 caCertPEM now rand_serial rsa_key url_parse CreateCertificate pem ttl parse_ipv6 id expected req v = (r, v') →
  recorded v' = recorded v ∨
  ∃ agent c, enroll_agent parse_ipv6 id expected req = Some agent ∧ ac_AgentID c = agent ∧
    recorded v' = recorded v ++ [(id, agent, enroll_payload req, c)].
Proof.
  unfold Enroll, mbind at 1, steps_bind at 1. unfold elift at 1.
  destruct (enroll_agent parse_ipv6 id expected req) as [agent|]; [|intros [= <- <-]; by left].
  unfold mbind at 1, steps_bind at 1. unfold stored at 1.
  destruct (ClaimEnrollment _ _ _ _) as [[] d1] eqn:Hc; cbn [negb]; [|intros [= <- <-]; left; by apply claim_moves in Hc as (Hc & _)].
  apply claim_moves in Hc as (Hc & _). unfold mbind at 1, steps_bind at 1, ecatch, enroll_issue.
  unfold mbind at 1, steps_bind at 1. unfold elift at 1.
  destruct (IssueAgentCertificate _ _ _ _ _ _ _ _ _) as [cert|].
  - unfold mbind at 1, steps_bind at 1, stored at 1. cbn [sv_store sv_in sv_out sv_conn_room].
    destruct (FinalizeEnrollmentIssue _ _ _ _ _ _) as [[] d2] eqn:Hf; apply finalize_moves in Hf as [_ Hf].
    + intros [= <- <-]. right. destruct Hf as (_ & _ & Hf). exists agent, (issued_cert agent cert). unfold recorded. cbn.
      rewrite Hf, Hc. done.
    + intros [= <- <-]. left. destruct Hf as [_ Hf]. unfold recorded. cbn. by rewrite release_records, Hf.
  - intros [= <- <-]. left. unfold recorded. cbn. by rewrite release_records.
Qed.

Lemma response_records q hello row req keys v :
  let v' := (serve_response hmac sha256 caCertPEM now rand_serial rsa_key url_parse CreateCertificate pem ttl parse_ipv6
               q hello row req keys v).2 in
  recorded v' = recorded v ∨
  ∃ agent c, enroll_agent parse_ipv6 (hl_EnrollmentID hello) (en_AgentID row) req = Some agent ∧ ac_AgentID c = agent ∧
    recorded v' = recorded v ++ [(hl_EnrollmentID hello, agent, enroll_payload req, c)].
Proof.
  intros v'. assert (Hv : v' = (serve_response hmac sha256 caCertPEM now rand_serial rsa_key url_parse CreateCertificate pem
    ttl parse_ipv6 q hello row req keys v).2) by done. clearbody v'.
  unfold serve_response, mbind at 1, steps_bind at 1, ecatch at 1 in Hv.
  destruct (Enroll _ _ _ _ _ _ _ _ _ _ _ _ _ v) as [r v1] eqn:He. apply Enroll_records in He.
  set (f := or_refuse _ _ r ≫= _) in Hv. assert (Hk : keeps recorded f) by (subst f; keep_records).
  assert (recorded v' = recorded v1) as -> by (rewrite Hv; apply Hk). done.
Qed.

(** [C7] A certificate is issued only to a holder of the enrollment key: whatever
    bytes a client sends, a connection records at most one issue, and if it
    records one then the enrollment named in the hello was pending, the stored key
    of that enrollment decrypts and matches its hash, and the client sent a request
    carrying the HMAC of its ciphertext under keys derived from that key, the
    client's nonce and the server's fresh nonce; the issue is for the agent
    computed from the host name and address in that very request, and for the
    agent the enrollment was reserved for, if it was. *)
Theorem certificate_only_for_key_holder (inp : list Z) (room : nat) (d : D) :
  let v' := (handleConn hmac sha256 gcm_open pepper caCertPEM now serverNonce rand_serial rsa_key url_parse
               CreateCertificate pem ttl parse_ipv6 (Serving inp [] room d)).2 in
  issues (sv_store v') = issues d ∨
  ∃ id cn row key sn keys q ct req agent c l1 l2 l3 rest,
    inp = l1 ++ id ++ l2 ++ cn ++ l3 ++ frameMAC hmac (k_mac keys) MsgXOREnrollRequest q ct ++ ct ++ rest ∧
    standing d id = Some (Pending, en_AgentID row) ∧
    vault_Decrypt gcm_open (en_KeyCiphertext row) (en_KeyNonce row) = Some key ∧
    en_SecretHash row = HashXORKey hmac pepper id key ∧ serverNonce = Some sn ∧
    DeriveSessionKeys hmac key id cn sn = Some keys ∧
    decodeRequest (xorKeystream hmac (length ct) (k_enc keys) q 0 ct) = Some req ∧
    enroll_agent parse_ipv6 id (en_AgentID row) req = Some agent ∧ ac_AgentID c = agent ∧
    issues (sv_store v') = issues d ++ [(id, agent, enroll_payload req, c)].
Proof.
  intros v'. set (v := Serving inp [] room d) in *.
  assert (Hv : v' = (handleConn hmac sha256 gcm_open pepper caCertPEM now serverNonce rand_serial rsa_key url_parse
    CreateCertificate pem ttl parse_ipv6 v).2) by done. clearbody v'.
  change (issues (sv_store v')) with (recorded v'). change (issues d) with (recorded v). unfold handleConn in Hv.
  unfold mbind at 1, steps_bind at 1 in Hv. pose proof (keeps_hello v) as Hk.
  destruct (serve_hello _ _ _ _ v) as [[[[[q0 hello] row] key]|] v1] eqn:Hh; cbn [snd] in Hk, Hv; [|left; congruence].
  apply serve_hello_Some in Hh as ((l1 & l2 & Hin) & Hst & Hvault & Hhash).
  unfold mbind at 1, steps_bind at 1 in Hv. pose proof (keeps_challenge q0 hello key v1) as Hk1.
  destruct (serve_challenge _ _ _ _ _ v1) as [[keys|] v2] eqn:Hc; cbn [snd] in Hk1, Hv; [|left; congruence].
  apply serve_challenge_Some in Hc as (Hi2 & sn & Hsn & Hkeys).
  unfold mbind at 1, steps_bind at 1 in Hv. pose proof (keeps_serve_request keys v2) as Hk2.
  destruct (serve_request _ _ v2) as [[[q req]|] v3] eqn:Hr; cbn [snd] in Hk2, Hv; [|left; congruence].
  apply serve_request_Some in Hr as (l3 & ct & Hi3 & Hreq).
  unfold mbind at 1, steps_bind at 1 in Hv. pose proof (response_records q hello row req keys v3) as Hresp. cbv zeta in Hresp.
  destruct (serve_response _ _ _ _ _ _ _ _ _ _ _ _ _ _ _ _ v3) as [resp v4]. cbn [snd] in Hresp.
  assert (Hk4 : recorded v' = recorded v4) by (rewrite Hv; destruct resp; [apply keeps_ack|done]). rewrite Hk4.
  destruct Hresp as [Hresp|(agent & c & Hagent & Hac & Hresp)]; [left; congruence|].
  right. exists (hl_EnrollmentID hello), (hl_ClientNonce hello), row, key, sn, keys, q, ct, req, agent, c, l1, l2, l3, (sv_in v3).
  split; [change inp with (sv_in v); by rewrite Hin, <- Hi2, Hi3|]. repeat (split; [done|]). congruence.
Qed.
End holder.

(** ** One certificate for one enrollment *)

Section single.
Context {D : Type} `{EnrollmentLaws D}.

(** A call some connection makes, with the time it reads. *)
Inductive store_call :=
  | CallGet (t : Z) (id : cstring)
  | CallClaim (t : Z) (id a : cstring)
  | CallRelease (id a : cstring) (keep : bool)
  | CallFinalize (t : Z) (id a : cstring) (p : RegisterPayload) (c : AgentCertificate)
  | CallMarkUsed (t : Z) (id a : cstring).

Definition exec (d : D) (c : store_call) : D :=
  match c with
  | CallGet t id => (GetPendingEnrollment t id d).2
  | CallClaim t id a => (ClaimEnrollment t id a d).2
  | CallRelease id a keep => ReleaseEnrollmentClaim id a keep d
  | CallFinalize t id a p c => (FinalizeEnrollmentIssue t id a p c d).2
  | CallMarkUsed t id a => (MarkEnrollmentUsed t id a d).2
  end.

(** The issues recorded for an enrollment, and whether one more is possible. *)
Definition issues_of (id : cstring) (l : list issue) : list issue := filter (λ i, i.1.1.1 = id) l.
Definition open_standing (s : option (enrollment_status * cstring)) : nat :=
  match s with Some ((Pending | Issuing), _) => 1 | _ => 0 end.
Definition possible (id : cstring) (d : D) : nat := (length (issues_of id (issues d)) + open_standing (standing d id))%nat.

Lemma issues_of_snoc id l x :
  length (issues_of id (l ++ [x])) = (length (issues_of id l) + if decide (x.1.1.1 = id) then 1 else 0)%nat.
Proof. unfold issues_of. rewrite filter_app, length_app, filter_cons, filter_nil. by destruct (decide _). Qed.

Lemma possible_same id d d' : issues d' = issues d → standing d' id = standing d id → (possible id d' ≤ possible id d)%nat.
Proof. unfold possible. intros -> ->. done. Qed.

(** No call makes more issues possible than there were. *)
Lemma exec_possible id d c : (possible id (exec d c) ≤ possible id d)%nat.
Proof.
  destruct c as [t i|t i a|i a keep|t i a p c|t i a]; cbn [exec].
  - destruct (GetPendingEnrollment t i d) as [e d'] eqn:E. apply get_pending in E as (Hs & Hi & _). by apply possible_same.
  - destruct (ClaimEnrollment t i a d) as [ok d'] eqn:E. apply claim_moves in E as (Hi & Ho & E). cbn [snd].
    destruct (decide (id = i)) as [->|Hne]; [|apply possible_same; [done|by apply Ho]].
    destruct ok; [|by apply possible_same]. destruct E as [(a0 & E) E']. unfold possible. by rewrite Hi, E, E'.
  - destruct (release_moves i a keep d) as (Hi & Ho & E).
    destruct (decide (id = i)) as [->|Hne]; [|apply possible_same; [done|by apply Ho]].
    destruct E as [E|[E E']]; [by apply possible_same|]. unfold possible. by rewrite Hi, E, E'.
  - destruct (FinalizeEnrollmentIssue t i a p c d) as [ok d'] eqn:E. apply finalize_moves in E as [Ho E]. cbn [snd].
    destruct ok; [|destruct E as [E Hi]; destruct (decide (id = i)) as [->|Hne]; apply possible_same; auto].
    destruct E as (E & E' & Hi). unfold possible. rewrite Hi, issues_of_snoc. cbn [fst].
    destruct (decide (i = id)) as [->|Hne]; [rewrite E, E'|rewrite (Ho id) by done]; cbn [open_standing]; lia.
  - destruct (MarkEnrollmentUsed t i a d) as [ok d'] eqn:E. apply mark_moves in E as (Hi & Ho & E). cbn [snd].
    destruct (decide (id = i)) as [->|Hne]; [|apply possible_same; [done|by apply Ho]].
    destruct ok; [|by apply possible_same]. destruct E as [E E']. unfold possible. by rewrite Hi, E, E'.
Qed.

(** [C15] One enrollment yields at most one certificate: whatever calls any number
    of connections make on the store, in whatever order they interleave, at most
    one issue is ever recorded for an enrollment, and none once it is issued,
    used or revoked. *)
Theorem enrollment_is_single_use (id : cstring) (d : D) (calls : list store_call) :
  (length (issues_of id (issues (fold_left exec calls d))) ≤
   length (issues_of id (issues d)) + open_standing (standing d id))%nat.
Proof.
  enough (possible id (fold_left exec calls d) ≤ possible id d)%nat by (unfold possible in *; lia).
  revert d. induction calls as [|c calls IH]; intros d; [done|]. cbn [fold_left].
  etransitivity; [apply IH|apply exec_possible].
Qed.
End single.

(** ** A sample enrollment *)

Definition toy_mac (k d : list Z) : list Z := replicate 32 (fold_left (λ acc b, (31 * acc + b) mod 251) (k ++ d) 7).
Definition toy_sha (l : list Z) : list Z := [fold_left (λ acc b, (31 * acc + b) mod 251) l 7].
Definition toy_row : enrollment_row :=
  Row {| en_AgentID := []; en_SecretHash := HashXORKey toy_mac [1] (lit "enr-1") (lit "secret");
         en_KeyCiphertext := lit "secret"; en_KeyNonce := replicate 12 0; en_Status := Pending; en_ExpiresAt := 2000 |} 0.
Definition toy_db : mysql := MySQL {[ lit "enr-1" := toy_row ]} [] 0.
Definition toy_agent : cstring := Eval vm_compute in decimal (GenerateAgentID (lit "vm1") (Some (be_bytes 4 vm1_ip))).
Definition toy_tmpl : x509_template :=
  agent_template (λ _, 1000) 500 (agentIdentityPrefix ++ toy_agent) (agentIdentityPrefix ++ toy_agent) 9.
Definition toy_issued : IssuedCertificate :=
  {| ic_CertPEM := lit "CERT"; ic_KeyPEM := lit "KEY"; ic_CertSubjectHash := hex (toy_sha (agentIdentityPrefix ++ toy_agent));
     ic_CertFingerprint := hex (toy_sha (lit "CERT")); ic_IssuedAt := 940; ic_ExpiresAt := 1500 |}.

Lemma enrollment_completes_witness :
  ∃ toServer toClient s' v',
    ig_enroll_execute (agent_hmac toy_mac) (λ _, true) (λ _, Writes 1000) 18 sample_cfg (Some sample_cn) true
      (EnrollState toClient [] (Z.to_nat 132000) ∅ 0) = (Some tt, s') ∧ es_out s' = toServer ∧
    handleConn (H := mysql_store (λ _, true) (λ _ _ _ _, true)) toy_mac toy_sha (λ _ c, Some c) [1] (lit "CA") (λ _, 1000)
      (Some sample_sn) (Some 9) (Some (Some (lit "KEY"), lit "PUB")) Some (λ _ _, Some (lit "CERT")) (λ _ d, d) 500 (λ _, None)
      (Serving toServer [] (Z.to_nat 132000) toy_db) = (Some tt, v') ∧
    sv_out v' = toClient ∧
    es_files s' = installed sample_cfg (response_of (issued_response (lit "CA") toy_agent toy_issued)) ∅ ∧
    row_standing <$> my_rows (sv_store v') !! lit "enr-1" = Some (Used, toy_agent) ∧
    my_issues (sv_store v') =
      [] ++ [(lit "enr-1", toy_agent, enroll_payload (request_of sample_cfg), issued_cert toy_agent toy_issued)] ∧
    peerIdentityFromCert toy_tmpl = Some (agentIdentityPrefix ++ toy_agent).
Proof.
  assert (Ha : decimal (GenerateAgentID (ec_hostname sample_cfg) (Some (be_bytes 4 vm1_ip))) = toy_agent) by (vm_compute; reflexivity).
  pose proof (enrollment_completes toy_mac toy_sha (λ _ c, Some c) [1] (lit "CA") (λ _, 1000) 9 (lit "KEY") (lit "PUB") Some
    (λ _ _, Some (lit "CERT")) (λ _ d, d) 500 (λ _, None) (λ _, true) (λ _ _ _ _, true) (λ _, true) (λ _, Writes 1000) 18
    sample_cfg vm1_ip sample_cn sample_sn (lit "CERT") toy_row toy_db (Z.to_nat 132000) (Z.to_nat 132000) 1000 ∅) as Hc.
  rewrite Ha in Hc. apply Hc.
  - intros k m. apply length_replicate.
  - done.
  - done.
  - done.
  - done.
  - done.
  - vm_compute; reflexivity.
  - done.
  - intros m. cbn. lia.
  - vm_compute; reflexivity.
  - vm_compute; reflexivity.
  - done.
  - done.
  - done.
  - vm_compute; discriminate.
  - vm_compute; discriminate.
  - done.
  - done.
  - apply fits_in_width; vm_compute; reflexivity.
  - vm_compute; reflexivity.
  - lia.
  - lia.
  - done.
  - by left.
  - split; [vm_compute; discriminate|]. split; [apply fits_in_width; vm_compute; reflexivity|].
    repeat constructor; discriminate.
  - apply Nat.leb_le; vm_compute; reflexivity.
Defined.
