(* ===== verification/Startup.v ===== *)
(** * Start-up of the agent (main.c, before the daemon)

    The kernel version test, the options, the files the agent trusts, the
    environment file, the log, and the interactive enrollment. The file system,
    the terminal and the network are parameters; getopt_long gives the options
    parsed. *)

From S2P Require Import Prelude Bytes CText Monitor Walker Config Protocol Enroll.

Local Open Scope Z_scope.

(** ** The kernel version *)

(* @src realtime/monitor.h:31-31 KERNEL_VER *)
Definition KERNEL_VER (maj min : Z) : Z := maj * 65536 + min * 256.

(** [sscanf(s, "%d.%d.%d", ...)]: each number read replaces the 0 it starts
    with; the scan ends where the text stops matching. *)
Fixpoint scan_dotted (n : nat) (s : cstring) : list Z :=
  match n with
  | O => []
  | S n =>
      let r := scan_int s in
      if sc_any r then
        s32 (Z.max (- 2 ^ 63) (Z.min (signed_value r) (2 ^ 63 - 1))) ::
        match sc_rest r with
        | c :: rest => if c =? 46 then scan_dotted n rest else replicate n 0
        | [] => replicate n 0
        end
      else replicate (S n) 0
  end.

(** [release]: the field of [uname], [None] when it fails. *)
(* @src main.c:115-122 get_kernel_version *)
Definition get_kernel_version (release : option cstring) : Z :=
  match release with
  | None => 0
  | Some release =>
      match scan_dotted 3 release with
      | [major; minor; patch] => KERNEL_VER major minor + patch
      | _ => 0
      end
  end.

(* @src main.c:715-715 main *)
Definition kver_major (kver : Z) : Z := Z.quot kver 65536.
(* @src main.c:716-716 main *)
Definition kver_minor (kver : Z) : Z := Z.quot (Z.rem kver 65536) 256.

(** ** Options *)

(** What getopt_long returns, in order; [OptOther] is an unknown option. *)
Inductive option_read :=
  | OptEnroll | OptConf (path : cstring) | OptEnv (path : cstring) | OptMode (mode : cstring)
  | OptForeground | OptVerbose | OptHelp | OptOther.

Record options := Options {
  op_conf : option cstring; op_env : option cstring; op_foreground : bool; op_verbose : bool;
  op_enroll : bool; op_block : Z }.

Definition IG_EBPF_BLOCK_AUDIT : Z := 0.
Definition IG_EBPF_BLOCK_DENY : Z := 1.

(** One option: the exit status when the program ends there. *)
(* @src main.c:660-677 main *)
Definition parse_option (o : options) (r : option_read) : Z + options :=
  match r with
  | OptEnroll => inr (Options (op_conf o) (op_env o) (op_foreground o) (op_verbose o) true (op_block o))
  | OptConf p => inr (Options (Some p) (op_env o) (op_foreground o) (op_verbose o) (op_enroll o) (op_block o))
  | OptEnv p => inr (Options (op_conf o) (Some p) (op_foreground o) (op_verbose o) (op_enroll o) (op_block o))
  | OptMode m =>
      if bool_decide (m = lit "maintenance") then
        inr (Options (op_conf o) (op_env o) (op_foreground o) (op_verbose o) (op_enroll o) IG_EBPF_BLOCK_AUDIT)
      else if bool_decide (m = lit "lock") then
        inr (Options (op_conf o) (op_env o) (op_foreground o) (op_verbose o) (op_enroll o) IG_EBPF_BLOCK_DENY)
      else inl 1
  | OptForeground => inr (Options (op_conf o) (op_env o) true (op_verbose o) (op_enroll o) (op_block o))
  | OptVerbose => inr (Options (op_conf o) (op_env o) (op_foreground o) true (op_enroll o) (op_block o))
  | OptHelp => inl 0
  | OptOther => inl 1
  end.

Fixpoint parse_all (o : options) (l : list option_read) : Z + options :=
  match l with
  | [] => inr o
  | r :: l => match parse_option o r with inl rc => inl rc | inr o => parse_all o l end
  end.

(* @src main.c:644-678 main *)
Definition parse_options (l : list option_read) : Z + options :=
  parse_all (Options None None false false false IG_EBPF_BLOCK_DENY) l.

(** ** Trusted files *)

(** What a path denotes: whether its last component is a symbolic link, and the
    owner, mode and content of the file behind it. *)
Record path_entry := PathEntry { pe_symlink : bool; pe_uid : Z; pe_mode : Z; pe_data : list Z }.

Definition S_IWOTH : Z := 2.
Definition IG_CONFIG_PATH : cstring := lit "/etc/ig_monitor/ig.conf".
Definition SYSTEM_ENV_PATH : cstring := lit "/etc/ig_monitor/ig.env".

Section files.
Variable fs : cstring → option path_entry.
(** Whether [fdopen] gets its memory. *)
Variable fdopen_ok : cstring → bool.

(** [fopen]: links are followed, nothing is checked. *)
Definition fopen (path : cstring) : option (list Z) := pe_data <$> fs path.

(* @src main.c:402-427 secure_open *)
Definition secure_open (path : cstring) : option (list Z) :=
  match fs path with
  | None => None
  | Some e =>
      if pe_symlink e then None
      else if negb (pe_uid e =? 0) then None
      else if has_bits (pe_mode e) S_IWOTH then None
      else if negb (S_ISREG (pe_mode e)) then None
      else if fdopen_ok path then Some (pe_data e) else None
  end.

(* @src main.c:430-441 find_system_file *)
Definition find_system_file (flag_path : option cstring) (system_path : cstring) : option cstring :=
  match flag_path with
  | Some p => if secure_open p then Some p else None
  | None => if secure_open system_path then Some system_path else None
  end.

(** *** The environment file *)

(** The line without its end: trailing newlines and carriage returns. *)
Definition chomp (s : cstring) : cstring := rev (drop_while (λ c, (c =? 10) || (c =? 13)) (rev s)).

(** The variable a line sets. *)
(* @src main.c:449-457 load_env *)
Definition env_line (chunk : list Z) : option (cstring * cstring) :=
  let line := chomp (cstr chunk) in
  match line with
  | [] => None
  | c :: _ => if c =? 35 then None else break_at 61 line
  end.

(** [setenv] refuses an empty name. *)
(* @src main.c:458-462 load_env *)
Definition set_default (env : gmap cstring cstring) (kv : cstring * cstring) : gmap cstring cstring :=
  match env !! kv.1 with
  | Some _ => env
  | None => if bool_decide (kv.1 = []) then env else <[kv.1 := kv.2]> env
  end.

(* @src main.c:444-465 load_env *)
Definition load_env (env : gmap cstring cstring) (path : cstring) : gmap cstring cstring :=
  match secure_open path with
  | None => env
  | Some content =>
      fold_left (λ env chunk, match env_line chunk with Some kv => set_default env kv | None => env end)
        (file_lines 511 content) env
  end.

(** *** Which configuration is loaded *)

(* @src main.c:681-684 main *)
Definition config_path (flag_conf : option cstring) : cstring :=
  strncpy (default IG_CONFIG_PATH (find_system_file flag_conf IG_CONFIG_PATH)) (IG_MAX_PATH - 1).

(** The options override the file. *)
(* @src main.c:700-709 main *)
Definition startup_config (o : options) : option ig_config :=
  match ig_config_load (fopen (config_path (op_conf o))) with
  | (rc, c) =>
      if rc <? 0 then None
      else
        let c := if op_foreground o then Config 0 (cfg_log_file c) (cfg_log_to_syslog c) (cfg_verbose c)
                   (cfg_ebpf_enabled c) (cfg_watches c) (cfg_protect_paths c) else c in
        let c := if op_verbose o then Config (cfg_daemonize c) (cfg_log_file c) (cfg_log_to_syslog c) 1
                   (cfg_ebpf_enabled c) (cfg_watches c) (cfg_protect_paths c) else c in
        Some (if (cfg_daemonize c =? 0) && bool_decide (cfg_log_file c = lit "/var/log/ig_monitor.log")
              then Config (cfg_daemonize c) (lit "/dev/stderr") (cfg_log_to_syslog c) (cfg_verbose c)
                     (cfg_ebpf_enabled c) (cfg_watches c) (cfg_protect_paths c)
              else c)
  end.

(** The environment after the environment file. *)
(* @src main.c:687-690 main *)
Definition startup_env (o : options) (env : gmap cstring cstring) : gmap cstring cstring :=
  match find_system_file (op_env o) SYSTEM_ENV_PATH with
  | Some p => load_env env p
  | None => env
  end.
End files.

(** ** Paths and names of the transport *)

(* @src main.c:468-471 build_cert_path *)
Definition build_cert_path (len : nat) (filename : cstring) : cstring :=
  take (len - 1) (lit "/etc/ig_monitor/certs/" ++ filename).

(** A path from the environment, or the default. *)
(* @src main.c:562-567 run_enroll_mode *)
Definition cert_path (env : gmap cstring cstring) (var filename : cstring) : cstring :=
  match env !! var with Some e => strncpy e 511 | None => build_cert_path 512 filename end.

(** [reply]: what [gethostname] writes, [None] when it fails. *)
(* @src main.c:473-477 get_hostname *)
Definition get_hostname (reply : option cstring) : cstring := strncpy (default (lit "unknown-host") reply) 255.

(** [route]: the local address of the UDP socket, [None] when there is none. *)
(* @src main.c:479-497 get_local_ip *)
Definition get_local_ip (route : option cstring) : cstring := strncpy (default (lit "0.0.0.0") route) 63.

(** ** The terminal *)

(** Bytes to read, whether it is a terminal whose attributes can be changed, the
    ECHO flag, and for each line read the flag it was typed under. *)
Record terminal := Terminal { t_in : list Z; t_tty : bool; t_echo : bool; t_typed : list bool }.

Definition set_in (l : list Z) (t : terminal) : terminal := Terminal l (t_tty t) (t_echo t) (t_typed t).
Definition set_echo (b : bool) (t : terminal) : terminal := Terminal (t_in t) (t_tty t) b (t_typed t).
Definition typed (t : terminal) : terminal := Terminal (t_in t) (t_tty t) (t_echo t) (t_typed t ++ [t_echo t]).

(* @src main.c:500-507 trim_input *)
Definition trim_input (buf : cstring) : cstring :=
  rev (drop_while (λ c, (c =? 10) || (c =? 13) || (c =? 32) || (c =? 9)) (rev buf)).

(** [while ((ch = getchar()) != '\n' && ch != EOF) {}] *)
Definition drain (s : list Z) : list Z := match break_at 10 s with Some (_, r) => r | None => [] end.

(** The result code and the buffer; without [echo] the flag is cleared for the
    read and restored after it. *)
(* @src main.c:509-538 read_interactive_value *)
Definition read_interactive_value (len : nat) (echo : bool) (t : terminal) : (Z * cstring) * terminal :=
  let oldt := t_echo t in
  let restore := negb echo && t_tty t in
  let t := if restore then set_echo false t else t in
  let '(line, rest) := fgets (len - 1) (t_in t) in
  let eof := bool_decide (t_in t = []) in
  let t := set_in rest (typed t) in
  let t := if restore then set_echo oldt t else t in
  if eof then ((-1, []), t)
  else
    let buf := cstr line in
    if bool_decide (10 ∉ buf) && bool_decide (length buf = len - 1)%nat then
      ((-1, buf), set_in (drain (t_in t)) t)
    else
      let buf := trim_input buf in
      ((if bool_decide (buf = []) then -1 else 0, buf), t).

(* @src main.c:540-546 parse_enroll_monitor_type *)
Definition parse_enroll_monitor_type (env : gmap cstring cstring) : Z :=
  match env !! lit "IG_ENROLL_MONITOR_TYPE" with
  | None | Some [] => IG_MON_LKM
  | Some raw =>
      if bool_decide (raw = lit "ebpf") || bool_decide (raw = lit "eBPF") then IG_MON_EBPF
      else if bool_decide (raw = lit "fanotify") then IG_MON_FANOTIFY
      else IG_MON_LKM
  end.

(** ** Interactive enrollment *)

(** The two stack buffers that hold the secrets. *)
Record secrets := Secrets { sc_id : cstring; sc_key : cstring }.
Definition ig_secure_bzero_id (m : secrets) : secrets := Secrets [] (sc_key m).
Definition ig_secure_bzero_key (m : secrets) : secrets := Secrets (sc_id m) [].

(** A non-empty variable. *)
Definition getenv_set (env : gmap cstring cstring) (k : cstring) : option cstring :=
  match env !! k with Some [] => None | o => o end.

Section enrollment.
Variable HMAC : list Z → list Z → option (list Z).
Variable calloc_ok : nat → bool.
Variable file_result : cstring → file_io.
Variable umask : Z.
(** Readable files; the host's name and route; the nonce; whether connecting
    to a host and port succeeds. *)
Variable readable : cstring → bool.
Variable gethostname : option cstring.
Variable route : cstring → Z → option cstring.
Variable rand : option (list Z).
Variable connects : cstring → Z → bool.

(* @src main.c:554-560 run_enroll_mode *)
Definition enroll_server (env : gmap cstring cstring) : cstring * Z :=
  (default (lit "127.0.0.1") (match getenv_set env (lit "IG_ENROLL_HOST") with
                              | Some h => Some h | None => getenv_set env (lit "IG_SERVER_HOST") end),
   match getenv_set env (lit "IG_ENROLL_PORT") with Some p => atoi p | None => 9443 end).

(** The exit status, what is left in the two buffers, the terminal, and the state
    of the exchange. [garbage]: the stack before. *)
(* @src main.c:548-615 run_enroll_mode *)
Definition run_enroll_mode (env : gmap cstring cstring) (garbage : secrets) (t : terminal) (es : enroll_state)
    : Z * secrets * terminal * enroll_state :=
  let '(enroll_host, enroll_port) := enroll_server env in
  let ca_crt := cert_path env (lit "IG_CA_CRT") (lit "ca.crt") in
  let agent_crt := cert_path env (lit "IG_AGENT_CRT") (lit "agent.crt") in
  let agent_key := cert_path env (lit "IG_AGENT_KEY") (lit "agent.key") in
  if negb (ig_enroll_needed readable agent_crt agent_key) then (1, garbage, t, es)
  else
    let '((rc, id), t) := read_interactive_value 256 true t in
    let m := Secrets id (sc_key garbage) in
    if rc <? 0 then (1, ig_secure_bzero_id m, t, es)
    else
      let '((rc, key), t) := read_interactive_value 512 false t in
      let m := Secrets id key in
      if rc <? 0 then (1, ig_secure_bzero_key (ig_secure_bzero_id m), t, es)
      else
        let cfg := EnrollConfig ca_crt agent_crt agent_key (sc_id m) (sc_key m)
                     (get_hostname gethostname) (get_local_ip (route enroll_host enroll_port)) (lit "Linux")
                     (parse_enroll_monitor_type env) in
        let '(r, es) := ig_enroll_execute HMAC calloc_ok file_result umask cfg rand
                          (connects enroll_host (u16 enroll_port)) es in
        let m := ig_secure_bzero_key (ig_secure_bzero_id m) in
        (match r with Some _ => 0 | None => 1 end, m, t, es).
End enrollment.

(** ** The log *)

(** [g_log_fp], [g_use_syslog], [g_verbose], and whether [openlog] is in force. *)
Inductive log_target := LogNone | LogStderr | LogFile (path : cstring).
Record logging := Logging { lg_fp : log_target; lg_use_syslog : bool; lg_verbose : Z; lg_open : bool }.

(** [opens]: whether the log file can be opened for appending. *)
(* @src main.c:145-157 init_logging *)
Definition init_logging (opens : cstring → bool) (cfg : ig_config) (l : logging) : logging :=
  let l := if cfg_log_to_syslog cfg =? 0 then l else Logging (lg_fp l) true (lg_verbose l) true in
  Logging (if opens (cfg_log_file cfg) then LogFile (cfg_log_file cfg) else LogStderr)
    (lg_use_syslog l) (cfg_verbose cfg) (lg_open l).

(* @src main.c:159-163 close_logging *)
Definition close_logging (l : logging) : logging :=
  Logging LogNone (lg_use_syslog l) (lg_verbose l) (if lg_use_syslog l then false else lg_open l).

(** Where a line goes. *)
(* @src realtime/monitor.h:163-192 ig_log *)
Definition ig_log (l : logging) : list log_target * bool :=
  (match lg_fp l with LogNone => [] | t => [t] end, lg_use_syslog l).

(** ** The version test *)

(** A number that fits in a [%d]. *)
Lemma scan_dotted_cons n z rest : - 2 ^ 31 ≤ z < 2 ^ 31 → stops isdigit rest →
  scan_dotted (S n) (decimal_int z ++ rest) =
  z :: match rest with
       | c :: rest => if c =? 46 then scan_dotted n rest else replicate n 0
       | [] => replicate n 0
       end.
Proof.
  intros Hz Hr. cbn [scan_dotted]. rewrite scan_decimal_int by (done || lia). cbn [sc_any sc_rest sc_neg sc_value].
  f_equal. unfold signed_value. cbn [sc_neg sc_value].
  replace (if z <? 0 then - Z.abs z else Z.abs z) with z by (destruct (Z.ltb_spec z 0); lia).
  rewrite Z.min_l, Z.max_r by lia. by apply s32_small.
Qed.

Definition release (maj min patch : Z) (suffix : cstring) : cstring :=
  decimal_int maj ++ 46 :: decimal_int min ++ 46 :: decimal_int patch ++ suffix.

Lemma release_version maj min patch suffix :
  0 ≤ maj < 2 ^ 31 → 0 ≤ min < 2 ^ 31 → 0 ≤ patch < 2 ^ 31 → stops isdigit suffix →
  get_kernel_version (Some (release maj min patch suffix)) = KERNEL_VER maj min + patch.
Proof.
  intros Hm Hn Hp Hs. unfold get_kernel_version, release.
  rewrite scan_dotted_cons by (done || lia). cbn [Z.eqb Pos.eqb].
  rewrite scan_dotted_cons by (done || lia). cbn [Z.eqb Pos.eqb].
  rewrite scan_dotted_cons by (done || lia). cbn [replicate].
  replace (match suffix with [] => [] | c :: rest => if c =? 46 then scan_dotted 0 rest else [] end) with (@nil Z)
    by (destruct suffix as [|c k]; [done|by destruct (c =? 46)]).
  done.
Qed.

(** For every release "maj.min.patch..." whose minor and patch numbers are
    below 256 the version number is the three fields side by side: the gate of
    the eBPF back end, [kver >= KERNEL_VER(5, 8)], is exactly "5.8 or later", and
    the major and minor numbers are read back from it. *)
Theorem kernel_gate_exact (maj min patch : Z) (suffix : cstring) (Hmaj : 0 ≤ maj < 2 ^ 15)
    (Hmin : 0 ≤ min < 256) (Hpatch : 0 ≤ patch < 256) (Hsuffix : stops isdigit suffix) :
  let kver := get_kernel_version (Some (release maj min patch suffix)) in
  (KERNEL_VER 5 8 ≤ kver ↔ 5 < maj ∨ (maj = 5 ∧ 8 ≤ min)) ∧ kver_major kver = maj ∧ kver_minor kver = min.
Proof.
  cbv zeta. rewrite release_version by (done || lia). unfold KERNEL_VER, kver_major, kver_minor.
  split; [lia|]. rewrite Z.quot_div_nonneg, Z.rem_mod_nonneg by lia.
  assert (Hd : (maj * 65536 + min * 256 + patch) / 65536 = maj)
    by (symmetry; apply (Z.div_unique _ _ _ (min * 256 + patch)); lia).
  assert (Hr : (maj * 65536 + min * 256 + patch) mod 65536 = min * 256 + patch)
    by (symmetry; apply (Z.mod_unique _ _ maj); lia).
  split; [done|]. rewrite Hr, Z.quot_div_nonneg by lia. symmetry. apply (Z.div_unique _ _ _ patch); lia.
Qed.

Lemma kernel_gate_exact_witness :
  let kver := get_kernel_version (Some (release 5 15 167 (lit "-generic"))) in
  (KERNEL_VER 5 8 ≤ kver ↔ 5 < 5 ∨ (5 = 5 ∧ 8 ≤ 15)) ∧ kver_major kver = 5 ∧ kver_minor kver = 15.
Proof. apply (kernel_gate_exact 5 15 167 (lit "-generic")); [lia|lia|lia|reflexivity]. Defined.

(** A patch number of 256 or more (the 4.9 and 4.14 series have them) carries
    into the minor number. *)
Example patch_carries_into_minor :
  let kver := get_kernel_version (Some (lit "4.14.336")) in
  (kver_major kver, kver_minor kver) = (4, 15) ∧
  get_kernel_version (Some (lit "5.7.256")) = KERNEL_VER 5 8.
Proof. by vm_compute. Qed.

(** ** The environment file *)

(** The first line that gives [k] a value. *)
Fixpoint first_setting (k : cstring) (chunks : list (list Z)) : option cstring :=
  match chunks with
  | [] => None
  | chunk :: chunks =>
      match env_line chunk with
      | Some (key, val) => if bool_decide (key = k) then Some val else first_setting k chunks
      | None => first_setting k chunks
      end
  end.

Lemma load_lines_lookup chunks : ∀ env k, k ≠ [] →
  fold_left (λ env chunk, match env_line chunk with Some kv => set_default env kv | None => env end)
    chunks env !! k =
  match env !! k with Some v => Some v | None => first_setting k chunks end.
Proof.
  induction chunks as [|chunk chunks IH]; intros env k Hk; cbn [fold_left first_setting]; [by destruct (env !! k)|].
  destruct (env_line chunk) as [[key val]|]; [|by apply IH]. rewrite IH by done.
  unfold set_default. cbn [fst snd]. destruct (decide (key = k)) as [->|Hne].
  - rewrite (bool_decide_eq_true_2 (k = k)) by done. destruct (env !! k) as [v|] eqn:E; [by rewrite E|].
    rewrite bool_decide_eq_false_2 by done. by rewrite lookup_insert_eq.
  - rewrite (bool_decide_eq_false_2 (key = k)) by done. destruct (env !! key) as [v|]; [done|].
    case_bool_decide; [done|]. by rewrite lookup_insert_ne.
Qed.

(** The environment file gives defaults and nothing else, and only when it is
    a regular file of root that others cannot write and no symbolic link: a
    variable that is set keeps its value, one that is not takes the value of the
    first line that names it. *)
Theorem load_env_exact (fs : cstring → option path_entry) (fdopen_ok : cstring → bool)
    (env : gmap cstring cstring) (path k : cstring) (Hk : k ≠ []) :
  load_env fs fdopen_ok env path !! k =
  match env !! k with
  | Some v => Some v
  | None =>
      match fs path with
      | Some e =>
          if bool_decide (pe_symlink e = false ∧ pe_uid e = 0 ∧ has_bits (pe_mode e) S_IWOTH = false ∧
                          S_ISREG (pe_mode e) = true ∧ fdopen_ok path = true)
          then first_setting k (file_lines 511 (pe_data e)) else None
      | None => None
      end
  end.
Proof.
  unfold load_env, secure_open. destruct (fs path) as [e|]; [|by destruct (env !! k)].
  destruct (pe_symlink e); [by destruct (env !! k)|].
  destruct (Z.eqb_spec (pe_uid e) 0) as [->|Hu]; cbn [negb].
  2:{ rewrite bool_decide_eq_false_2 by (intros (_ & ? & _); done). by destruct (env !! k). }
  destruct (has_bits _ _); [by destruct (env !! k)|].
  destruct (S_ISREG _); cbn [negb]; [|by destruct (env !! k)].
  destruct (fdopen_ok path); [|by destruct (env !! k)].
  rewrite load_lines_lookup by done. by rewrite bool_decide_eq_true_2.
Qed.

Definition env_file : path_entry :=
  PathEntry false 0 0x8180 (lit "# transport" ++ [10] ++ lit "IG_SERVER_HOST=10.0.0.5" ++ [13; 10] ++
                            lit "IG_SERVER_PORT=9443" ++ [10] ++ lit "IG_SERVER_HOST=10.0.0.6" ++ [10]).

Lemma load_env_exact_witness :
  load_env (λ _, Some env_file) (λ _, true) {[lit "IG_SERVER_PORT" := lit "9000"]} SYSTEM_ENV_PATH
    !! lit "IG_SERVER_HOST" = Some (lit "10.0.0.5").
Proof. rewrite (load_env_exact (λ _, Some env_file) (λ _, true) _ SYSTEM_ENV_PATH); [by vm_compute|done]. Defined.

(** ** Which configuration is trusted *)

(** [C29] The checks on the configuration file decide nothing: the file is read
    again by its name, and when [/etc/ig_monitor/ig.conf] is refused - because it
    is a symbolic link, belongs to another user or is writable by others - the
    fallback is that same path, so that the refused file is the one loaded. The
    same happens when the file of [-c] is refused. *)
Theorem refused_config_is_loaded (fs : cstring → option path_entry) (fdopen_ok : cstring → bool)
    (flag : option cstring) (e : path_entry) (Hflag : ∀ p, flag = Some p → secure_open fs fdopen_ok p = None)
    (Hfile : fs IG_CONFIG_PATH = Some e)
    (Hunsafe : pe_symlink e = true ∨ pe_uid e ≠ 0 ∨ has_bits (pe_mode e) S_IWOTH = true) :
  secure_open fs fdopen_ok IG_CONFIG_PATH = None ∧
  ig_config_load (fopen fs (config_path fs fdopen_ok flag)) = ig_config_load (Some (pe_data e)).
Proof.
  assert (Hs : secure_open fs fdopen_ok IG_CONFIG_PATH = None).
  { unfold secure_open. rewrite Hfile. destruct (pe_symlink e); [done|].
    destruct (Z.eqb_spec (pe_uid e) 0) as [Hu|]; [|done]. cbn [negb].
    destruct Hunsafe as [|[|Hw]]; [done..|]. by rewrite Hw. }
  split; [done|]. f_equal. unfold fopen, config_path, find_system_file.
  assert (E : strncpy IG_CONFIG_PATH (IG_MAX_PATH - 1) = IG_CONFIG_PATH) by by vm_compute.
  destruct flag as [p|].
  - rewrite (Hflag p eq_refl). cbn [default]. by rewrite E, Hfile.
  - rewrite Hs. cbn [default]. by rewrite E, Hfile.
Qed.

(** World-writable, and telling the agent to watch nothing but [/tmp]. *)
Definition planted_conf : path_entry := PathEntry false 0 0x81B6 (lit "[watch]" ++ [10] ++ lit "/tmp = file" ++ [10]).

Lemma refused_config_is_loaded_witness :
  let fs := λ p, if bool_decide (p = IG_CONFIG_PATH) then Some planted_conf else None in
  secure_open fs (λ _, true) IG_CONFIG_PATH = None ∧
  ig_config_load (fopen fs (config_path fs (λ _, true) None)) = ig_config_load (Some (pe_data planted_conf)).
Proof.
  intros fs. apply (refused_config_is_loaded fs (λ _, true) None planted_conf); [done|by vm_compute|].
  right. right. reflexivity.
Defined.

(** ** Reading a value *)

Lemma drain_app s rest : Forall (λ c, c ≠ 10) s → drain (s ++ 10 :: rest) = rest.
Proof. intros Hs. unfold drain. by rewrite break_at_app. Qed.

Lemma fgets_long n s k : Forall (λ c, c ≠ 10) s → (n ≤ length s)%nat → fgets n (s ++ k) = (take n s, drop n s ++ k).
Proof.
  revert s. induction n as [|n IH]; intros s Hs Hn; [done|]. destruct s as [|c s]; [cbn in Hn; lia|].
  apply Forall_cons in Hs as [Hc Hs]. cbn. rewrite (proj2 (Z.eqb_neq c 10)) by done.
  rewrite IH by (done || cbn in Hn; lia). done.
Qed.

Lemma trim_input_newline s : trim_input (s ++ [10]) = trim_input s.
Proof. unfold trim_input. by rewrite rev_app_distr. Qed.

(** A line typed at a prompt is taken whole or not at all: one that fits the
    buffer gives the value without its trailing blanks, refused when nothing is
    left; one that does not fit is refused and consumed to its end, so that its
    tail cannot answer the next prompt; and either way the terminal's ECHO flag
    is what it was, the line having been typed with it off when it is a secret. *)
Theorem interactive_value_exact (len : nat) (echo : bool) (t : terminal) (line rest : list Z)
    (Hlen : (2 ≤ len)%nat) (Hline : Forall (λ c, c ≠ 10) line) (Hstr : is_cstring line)
    (Hin : t_in t = line ++ 10 :: rest) :
  let '((rc, buf), t') := read_interactive_value len echo t in
  t_in t' = rest ∧ t_echo t' = t_echo t ∧
  t_typed t' = t_typed t ++ [if negb echo && t_tty t then false else t_echo t] ∧
  (rc = 0 ↔ (length line + 1 < len)%nat ∧ trim_input line ≠ []) ∧ (rc = 0 → buf = trim_input line).
Proof.
  unfold read_interactive_value.
  assert (E : t_in (if negb echo && t_tty t then set_echo false t else t) = line ++ 10 :: rest)
    by (by destruct (_ && _)).
  rewrite E. rewrite (bool_decide_eq_false_2 (_ ++ 10 :: _ = [])) by (by destruct line).
  destruct (decide (length line + 1 < len)%nat) as [Hfit|Hlong].
  - rewrite fgets_line by (done || lia).
    rewrite cstr_id by (by apply Forall_app; split; [|by_decide]).
    rewrite bool_decide_eq_false_2 by (intros H; apply H, elem_of_app; right; by left). cbn [andb].
    rewrite trim_input_newline.
    split_and!; try by destruct (_ && _).
    + case_bool_decide as Hb; split; try done. by intros [_ H].
  - rewrite fgets_long by (done || lia).
    rewrite cstr_id by (by apply Forall_take).
    rewrite bool_decide_eq_true_2 by (intros H%subseteq_take; by apply (proj1 (Forall_forall _ _) Hline) in H).
    rewrite bool_decide_eq_true_2 by (rewrite length_take; lia). cbn [andb].
    split_and!; try by destruct (_ && _).
    + destruct (_ && _); cbn; by rewrite drain_app by (by apply Forall_drop).
    + split; [done|]. intros [? _]. lia.
Qed.

(** Whatever is typed, the terminal comes back as it was. *)
Lemma read_value_terminal len echo t :
  t_echo (read_interactive_value len echo t).2 = t_echo t ∧ t_tty (read_interactive_value len echo t).2 = t_tty t ∧
  t_typed (read_interactive_value len echo t).2 = t_typed t ++ [if negb echo && t_tty t then false else t_echo t].
Proof.
  unfold read_interactive_value. destruct (fgets _ _) as [line rest].
  destruct (negb echo && t_tty t); cbv zeta; case_bool_decide; try done; by destruct (_ && _).
Qed.

(** No path of the interactive enrollment leaves a secret behind: on every
    exit the buffer of the enrollment identifier is wiped once something was read
    into it, the buffer of the key likewise - a refused key included, which stays
    in the buffer of [read_interactive_value] -, the key is typed with the
    terminal's echo off, and the echo is on again afterwards. With certificates in
    place nothing is read and nothing is sent. *)
Theorem enroll_leaves_no_secret (HMAC : list Z → list Z → option (list Z)) (calloc_ok : nat → bool)
    (file_result : cstring → file_io) (umask : Z) (readable : cstring → bool) (gethostname : option cstring)
    (route : cstring → Z → option cstring) (rand : option (list Z)) (connects : cstring → Z → bool)
    (env : gmap cstring cstring) (garbage : secrets) (t : terminal) (es : enroll_state) :
  let '(rc, m, t', es') := run_enroll_mode HMAC calloc_ok file_result umask readable gethostname route rand
                             connects env garbage t es in
  t_echo t' = t_echo t ∧
  ((rc = 1 ∧ m = garbage ∧ t' = t ∧ es' = es) ∨
   (rc = 1 ∧ m = Secrets [] (sc_key garbage) ∧ t_typed t' = t_typed t ++ [t_echo t] ∧ es' = es) ∨
   (m = Secrets [] [] ∧
    t_typed t' = t_typed t ++ [t_echo t; if t_tty t then false else t_echo t] ∧ (rc = 0 ∨ rc = 1))).
Proof.
  unfold run_enroll_mode. destruct (enroll_server env) as [host port].
  destruct (negb (ig_enroll_needed _ _ _)); [split; [done|by left]|].
  pose proof (read_value_terminal 256 true t) as (He1 & Ht1 & Hs1).
  destruct (read_interactive_value 256 true t) as [[rc1 id] t1]. cbn [snd negb andb] in *.
  destruct (rc1 <? 0); [split; [done|]; right; left; by split_and!|].
  pose proof (read_value_terminal 512 false t1) as (He2 & Ht2 & Hs2).
  destruct (read_interactive_value 512 false t1) as [[rc2 key] t2]. cbn [snd negb andb] in *.
  rewrite Ht1, He1, Hs1, <- app_assoc in Hs2. cbn [app] in Hs2.
  destruct (rc2 <? 0); [split; [congruence|]; right; right; split_and!; try done; by right|].
  cbv zeta. destruct (ig_enroll_execute _ _ _ _ _ _ _ _) as [r es']. split; [congruence|].
  right. right. split_and!; try done. destruct r; auto.
Qed.

Definition prompt_tty : terminal := Terminal (lit "agent-7 " ++ [10] ++ lit "k3y" ++ [10; 120]) true true [].

Lemma interactive_value_exact_witness :
  let '((rc, buf), t') := read_interactive_value 256 true prompt_tty in
  t_in t' = lit "k3y" ++ [10; 120] ∧ t_echo t' = true ∧ t_typed t' = [true] ∧
  (rc = 0 ↔ (8 + 1 < 256)%nat ∧ trim_input (lit "agent-7 ") ≠ []) ∧ (rc = 0 → buf = trim_input (lit "agent-7 ")).
Proof.
  apply (interactive_value_exact 256 true prompt_tty (lit "agent-7 ") (lit "k3y" ++ [10; 120])).
  - lia.
  - by_decide.
  - by_decide.
  - reflexivity.
Defined.
