(* ===== verification/TestTransport.v ===== *)
(** * The transport smoke test (transport/test_transport.c)

    A program of its own over the transport: it connects, registers as an eBPF
    agent, sends three made-up events and three heartbeats, and leaves. Against the
    collector's session it is a run of the client and the server together. *)

From S2P Require Import Prelude Bytes CText Monitor Protocol Collector Walker EbpfTrace TcpClient Baseline AgentMain Session.

Local Open Scope Z_scope.

(** What the test holds, and gives back before it returns. *)
Inductive smoke_held := STls | STcp.

#[export] Instance smoke_held_eq_dec : EqDecision smoke_held.
Proof. solve_decision. Defined.

(** Its world: the variable HOME, the replies of [gethostname] and of the route
    lookup, how the calls of the transport end, and the clock at each report. *)
Record smoke_env := SmokeEnv {
  sm_home : option cstring; sm_hostname : option cstring; sm_route : option cstring;
  sm_tls_ok : cstring → cstring → cstring → bool; sm_net : option conn; sm_alloc : bool; sm_clock : nat → Z }.

(* @src transport/test_transport.c:38-43 get_hostname *)
Definition get_hostname (reply : option cstring) : cstring := strncpy (default (lit "unknown-host") reply) 255.

(** [None]: no socket. *)
(* @src transport/test_transport.c:45-62 get_local_ip *)
Definition get_local_ip (route : option cstring) : cstring := strncpy (default (lit "0.0.0.0") route) 63.

(* @src transport/test_transport.c:65-70 build_cert_path *)
Definition build_cert_path (home : option cstring) (filename : cstring) : cstring :=
  strncpy (default (lit "/home/user") home ++ lit "/agent/certs/" ++ filename) 511.

(* @src transport/test_transport.c:144-153 main *)
Definition test_paths : list (cstring * ig_event_type) :=
  [(lit "/etc/passwd", IG_EVENT_MODIFY); (lit "/tmp/testfile.txt", IG_EVENT_CREATE);
   (lit "/home/user/documents/secret.key", IG_EVENT_DELETE)].

(* @src transport/test_transport.c:156-168 main *)
Definition test_event (now : Z) (t : cstring * ig_event_type) : ig_event :=
  Event t.2 IG_SOURCE_EBPF (strncpy t.1 (IG_MAX_PATH - 1)) (strncpy (basename t.1 t.1) 255) now 0 0 0 0 0 0 []
    pid_chain_zero.

Section smoke.
Variable inet_pton : cstring → option Z.

(** One report; that it failed is printed and no more. *)
(* @src transport/test_transport.c:170-196 main *)
Definition smoke_send (s : ig_tcp_client) (r : report) : option ig_tcp_client :=
  match r with
  | REvent ev => '(_, s) ← ig_tcp_send_event s ev; Some s
  | RBeat now =>
      enc ← run_writer 13 (ig_heartbeat_encode (MsgHeartbeat (cli_agent_id s) IG_STATUS_HEALTHY (u32 now)));
      match enc with
      | None => Some s
      | Some buf => '(_, s) ← ig_tcp_send_frame_locked s IG_MSG_HEARTBEAT buf; Some s
      end
  end.
Definition smoke_sends (s : ig_tcp_client) (rs : list report) : option ig_tcp_client :=
  fold_left (λ acc r, s ← acc; smoke_send s r) rs (Some s).

(** The reports of the two loops. *)
(* @src transport/test_transport.c:155-199 main *)
Definition smoke_reports (clock : nat → Z) : list report :=
  imap (λ i t, REvent (test_event (clock i) t)) test_paths ++ (RBeat ∘ clock <$> [3; 4; 5]%nat).

Definition smoke_reg (e : smoke_env) : reg_data :=
  RegData (get_hostname (sm_hostname e)) (get_local_ip (sm_route e)) IG_MON_EBPF (lit "Linux").

(** The exit status, what was given back, and the client before that. *)
(* @src transport/test_transport.c:73-204 main *)
Definition main (e : smoke_env) (args : list cstring) : option (Z * list smoke_held * option ig_tcp_client) :=
  match args with
  | server_host :: server_port :: _ =>
      if negb (sm_tls_ok e (build_cert_path (sm_home e) (lit "ca.crt")) (build_cert_path (sm_home e) (lit "agent.crt"))
                 (build_cert_path (sm_home e) (lit "agent.key")))
      then Some (1, [], None)
      else
        let client := ig_tcp_init server_host (u16 (atoi server_port)) in
        match ig_tcp_connect_locked client (sm_net e) with
        | (rc, client) =>
            if rc <? 0 then Some (1, [STcp; STls], Some client)
            else
              '(rc, client) ← ig_tcp_register_internal_locked inet_pton client
                 (smoke_reg e) (sm_alloc e);
              if rc <? 0 then Some (1, [STcp; STls], Some client)
              else
                client ← smoke_sends client (smoke_reports (sm_clock e));
                Some (0, [STcp; STls], Some client)
        end
  | _ => Some (1, [], None)
  end.

(** ** Over a connection that takes the frames *)

Lemma smoke_send_accepts s c r n : live s c → wf_report r → in_width 64 (cli_agent_id s) →
  accepts c (report_room + n) → smoke_send s r = send_report inet_pton s r.
Proof.
  intros Hlive Hr Hid Hacc. destruct r as [ev|now]; cbn [smoke_send send_report].
  - destruct (send_report_accepts inet_pton s c (REvent ev) n Hlive Hr Hid Hacc) as (s' & _ & Hs & _).
    cbn [send_report] in Hs. destruct (ig_tcp_send_event s ev) as [[rc s1]|]; [|done].
    cbn [mbind option_bind] in *. by destruct (rc =? 0).
  - unfold heartbeat_turn.
    set (p := wire_heartbeat (MsgHeartbeat (cli_agent_id s) IG_STATUS_HEALTHY (u32 now))).
    assert (Hlen : length p = 13%nat) by (unfold p, wire_heartbeat; by rewrite !length_app, !be_bytes_length).
    destruct (send_frame_accepts s c IG_MSG_HEARTBEAT p n Hlive) as (c' & Hsend & _).
    { rewrite Hlen. unfold IG_MAX_FRAME_SIZE, IG_MAX_PAYLOAD. lia. }
    { eapply accepts_le; [exact Hacc|]. unfold report_room, IG_MAX_PAYLOAD. rewrite Hlen. lia. }
    rewrite (run_writer_encodes _ _ _ (heartbeat_encodes (MsgHeartbeat (cli_agent_id s) IG_STATUS_HEALTHY (u32 now)))).
    fold p. rewrite bool_decide_eq_true_2 by lia. cbn [mbind option_bind]. rewrite Hsend. reflexivity.
Qed.

Lemma smoke_sends_accepts rs : ∀ s c n, live s c → Forall wf_report rs → in_width 64 (cli_agent_id s) →
  accepts c (report_room * length rs + n) → smoke_sends s rs = send_reports inet_pton s rs.
Proof.
  induction rs as [|r rs IH]; intros s c n Hlive Hrs Hid Hacc; [done|]. apply Forall_cons in Hrs as [Hr Hrs].
  assert (Ha : accepts c (report_room + (report_room * length rs + n)))
    by (eapply accepts_le; [exact Hacc|]; cbn [length]; lia).
  destruct (send_report_accepts inet_pton s c r _ Hlive Hr Hid Ha) as (s1 & c1 & H1 & Hl1 & Hid1 & _ & Ha1 & _).
  unfold smoke_sends, send_reports. cbn [fold_left mbind option_bind].
  rewrite (smoke_send_accepts s c r _ Hlive Hr Hid Ha), H1. by apply (IH s1 c1 n); [|..|rewrite Hid1|].
Qed.

Lemma smoke_reports_wf clock : Forall wf_report (smoke_reports clock).
Proof.
  assert (Hev : ∀ now t, t ∈ test_paths → wf_report (REvent (test_event now t))).
  { intros now t Ht. split; [|done].
    repeat (apply elem_of_cons in Ht as [->|Ht]); [..|by apply elem_of_nil in Ht];
      (split_and!; [eapply Nat.le_lt_trans; [apply strncpy_length|unfold IG_MAX_PATH; lia]
        |apply bytesb_spec; vm_compute; reflexivity|eapply Nat.le_lt_trans; [apply strncpy_length|lia]
        |apply bytesb_spec; vm_compute; reflexivity|constructor|done|done|apply wf_pid_chain_zero]). }
  unfold smoke_reports. cbn [test_paths imap fmap list_fmap map app].
  repeat (constructor; [first [apply Hev; unfold test_paths; set_solver|exact I]|]). constructor.
Qed.

Lemma smoke_reg_wf e : (∀ h, sm_hostname e = Some h → bytes h) → wf_reg (smoke_reg e) ∧ short_reg (smoke_reg e).
Proof.
  intros Hh. split.
  - split; [|split; [apply (bytesb_spec (lit "Linux")); reflexivity|done]].
    cbn [smoke_reg rd_hostname]. unfold get_hostname. apply Forall_take, bytes_cstr.
    destruct (sm_hostname e) as [h|]; [by apply Hh|]. apply (bytesb_spec (lit "unknown-host")). reflexivity.
  - split; [apply strncpy_length|cbn; lia].
Qed.

Variable me : nat.
Variable onEvent : bool.
Variable buffered : nat.
Variable register_answer : list effect → cstring → RegisterPayload → AgentCertificate → option store_error.
Variable save_ok : list effect → FileEventPayload → bool.
Variable write_ok : list effect → bool.

(** The smoke test passes against the collector: with its files in place, the
    connection made and the certificate of this host, it ends with status 0 after
    giving back what it held, and the collector registers it, saves and publishes
    the three events, records the three heartbeats, and takes it offline. *)
Theorem smoke_test_is_served (e : smoke_env) (host port : cstring) (c : conn) (ip : Z)
    (subjectHash fingerprint : cstring) (issued expires : Z) (v : server)
    (Htls : ∀ ca crt key, sm_tls_ok e ca crt key = true) (Hnet : sm_net e = Some c) (Halloc : sm_alloc e = true)
    (Hhost : ∀ h, sm_hostname e = Some h → bytes h)
    (Hip : inet_pton (get_local_ip (sm_route e)) = Some ip) (Hipw : in_width 32 ip)
    (Hin : c_in c = ack_frame 1 (agent_number (smoke_reg e) ip)) (Hdel : delivers c) (Hacc : accepts c (report_room * 7))
    (Hhash : subjectHash ≠ []) (Hfp : fingerprint ≠ [])
    (Hans : ∀ l i p c, register_answer l i p c = None) (Hsave : ∀ l p, save_ok l p = true)
    (Hwrite : ∀ l, write_ok l = true)
    (Hopen : me ∉ sv_closed v) (Hnew : sv_sessions v !! decimal (agent_number (smoke_reg e) ip) ≠ Some me) :
  let id := agent_number (smoke_reg e) ip in
  let sess := new_session (agentIdentityPrefix ++ decimal id) subjectHash fingerprint issued expires in
  ∃ s c' wire,
    main e [host; port] = Some (0, [STcp; STls], Some s) ∧ live s c' ∧ c_out c' = c_out c ++ wire ∧
    sv_log (Run me onEvent buffered register_answer save_ok write_ok wire sess v) =
      sv_log v ++
      [Registered (decimal id) (register_payload (register_seen (register_msg (smoke_reg e) ip)))
         (session_cert (set_identity (decimal id) id sess)); Sent (ack_frame 1 id)] ++
      mjoin (report_effects onEvent id <$> smoke_reports (sm_clock e)) ++ [SetOffline (decimal id)].
Proof.
  intros id sess. destruct (smoke_reg_wf e Hhost) as [Hr Hshort].
  destruct (GenerateAgentID_range (rd_hostname (smoke_reg e)) (Some (be_bytes 4 ip))) as [Hid _].
  fold (agent_number (smoke_reg e) ip) in Hid. fold id in Hid.
  pose proof (register_msg_length (smoke_reg e) ip Hr Hipw Hshort) as Hlen.
  unfold main. rewrite Htls. cbn [negb]. cbv zeta. rewrite Hnet. cbn [ig_tcp_connect_locked Z.ltb Z.compare].
  set (s0 := TcpClient (Some c) _ _ _ _ _ _ _).
  destruct (register_accepts inet_pton s0 c (smoke_reg e) ip id 1 (report_room * 6) (conj eq_refl eq_refl) Hr Hip Hipw Hid)
    as (s1 & c1 & Hreg & Hl1 & Hid1 & Hseq1 & Ha1 & Ho1); [done|exact Hin|exact Hdel| | |].
  { fold (register_msg (smoke_reg e) ip). lia. }
  { fold (register_msg (smoke_reg e) ip). eapply accepts_le; [exact Hacc|]. unfold report_room, IG_MAX_PAYLOAD. lia. }
  fold (register_msg (smoke_reg e) ip) in Ho1. change (cli_seq_num s0) with 0 in Hseq1, Ho1.
  change (u32 (0 + 1)) with 1 in Hseq1, Ho1. rewrite Halloc, Hreg. cbn [mbind option_bind Z.ltb Z.compare].
  assert (Ha1' : accepts c1 (report_room * length (smoke_reports (sm_clock e)) + 0)) by (by rewrite Nat.add_0_r).
  rewrite <- Hid1 in Hid. pose proof (smoke_reports_wf (sm_clock e)) as Hrs.
  destruct (send_reports_accepts inet_pton _ s1 c1 0 Hl1 Hrs Hid Ha1') as (s2 & c2 & Hsend & Hl2 & Ho2).
  rewrite (smoke_sends_accepts _ s1 c1 0 Hl1 Hrs Hid Ha1'), Hsend. cbn [mbind option_bind].
  exists s2, c2, (agent_stream (smoke_reg e) ip (smoke_reports (sm_clock e))).
  split; [reflexivity|]. split; [exact Hl2|]. rewrite Hid1, Hseq1 in Ho2.
  split; [by rewrite Ho2, Ho1, <- app_assoc|]. by apply session_serves_stream.
Qed.

(** Sends that fail do not fail the test: over a connection that takes the REGISTER
    and nothing more it still ends with status 0. *)
Theorem smoke_test_ignores_failures (e : smoke_env) (host port : cstring) (c : conn) (s1 : ig_tcp_client)
    (Htls : ∀ ca crt key, sm_tls_ok e ca crt key = true) (Hnet : sm_net e = Some c)
    (Hreg : ig_tcp_register_internal_locked inet_pton (ig_tcp_connect_locked (ig_tcp_init host (u16 (atoi port))) (Some c)).2
              (smoke_reg e) (sm_alloc e) = Some (0, s1)) (Hok : client_ok s1) :
  ∃ s, main e [host; port] = Some (0, [STcp; STls], Some s) ∧ client_ok s.
Proof.
  unfold main. rewrite Htls. cbn [negb]. cbv zeta. rewrite Hnet. cbn [ig_tcp_connect_locked Z.ltb Z.compare].
  cbn [ig_tcp_connect_locked snd] in Hreg. rewrite Hreg. cbn [mbind option_bind Z.ltb Z.compare]. clear Hreg.
  enough (∃ s, smoke_sends s1 (smoke_reports (sm_clock e)) = Some s ∧ client_ok s) as (s & -> & Hs) by by exists s.
  pose proof (smoke_reports_wf (sm_clock e)) as Hrs. revert s1 Hok.
  induction Hrs as [|r rs Hr _ IH]; intros s1 Hok; [by exists s1|].
  assert (Hstep : ∃ s, smoke_send s1 r = Some s ∧ client_ok s).
  { destruct r as [ev|now]; cbn [smoke_send].
    - destruct (send_event_ok s1 ev Hok (proj1 Hr)) as (rc & s & -> & Hs & _). by exists s.
    - rewrite (run_writer_encodes _ _ _ (heartbeat_encodes _)). cbn [mbind option_bind].
      case_bool_decide; [|by exists s1].
      destruct (send_frame_ok s1 IG_MSG_HEARTBEAT
        (wire_heartbeat (MsgHeartbeat (cli_agent_id s1) IG_STATUS_HEALTHY (u32 now))) Hok) as (rc & s & -> & Hs & _).
      by exists s. }
  destruct Hstep as (s & Hs & Hoks). unfold smoke_sends. cbn [fold_left mbind option_bind]. rewrite Hs. by apply IH.
Qed.
End smoke.

(** ** Witness: the test on vm1 *)

Definition smoke_conn : conn := Conn [] (replicate (report_room * 7) 65535) (ack_frame 1 vm1_id) (replicate 17 1).
Definition smoke_vm1 : smoke_env :=
  SmokeEnv None (Some (lit "vm1")) (Some (lit "10.0.0.5")) (λ _ _ _, true) (Some smoke_conn) true
    (λ n, 1700000000 + Z.of_nat n).

Lemma smoke_test_is_served_witness :
  ∃ s wire,
    main (λ _, Some vm1_ip) smoke_vm1 [lit "10.0.0.1"; lit "9000"] = Some (0, [STcp; STls], Some s) ∧
    sv_log (Run 5 true 0 records (λ _ _, true) (λ _, true) wire (new_session vm1_cert [1] [2] 0 0) empty_server) =
      [] ++
      [Registered (decimal vm1_id) (register_payload (register_seen (register_msg (smoke_reg smoke_vm1) vm1_ip)))
         (session_cert (set_identity (decimal vm1_id) vm1_id (new_session vm1_cert [1] [2] 0 0))); Sent (ack_frame 1 vm1_id)] ++
      mjoin (report_effects true vm1_id <$> smoke_reports (sm_clock smoke_vm1)) ++ [SetOffline (decimal vm1_id)].
Proof.
  assert (Hid : vm1_id = agent_number (smoke_reg smoke_vm1) vm1_ip) by (vm_compute; reflexivity).
  assert (Hip : in_width 32 vm1_ip) by (apply fits_in_width; vm_compute; reflexivity).
  assert (Hdel : delivers smoke_conn) by (split; [apply Forall_replicate; lia|vm_compute; lia]).
  assert (Hacc : accepts smoke_conn (report_room * 7)).
  { split; [apply Forall_replicate; lia|]. change (c_writes smoke_conn) with (replicate (report_room * 7) 65535).
    by rewrite length_replicate. }
  assert (Hin : c_in smoke_conn = ack_frame 1 (agent_number (smoke_reg smoke_vm1) vm1_ip)) by (rewrite <- Hid; reflexivity).
  assert (Hhost : ∀ h, sm_hostname smoke_vm1 = Some h → bytes h).
  { intros h [= <-]. apply (bytesb_spec (lit "vm1")). reflexivity. }
  pose proof (smoke_test_is_served (λ _, Some vm1_ip) 5 true 0 records (λ _ _, true) (λ _, true)
    smoke_vm1 (lit "10.0.0.1") (lit "9000") smoke_conn vm1_ip [1] [2] 0 0 empty_server (λ _ _ _, eq_refl) eq_refl eq_refl
    Hhost eq_refl Hip Hin Hdel Hacc ltac:(done) ltac:(done) ltac:(done)
    ltac:(done) ltac:(done) ltac:(apply not_elem_of_empty) ltac:(done)) as H.
  rewrite <- Hid in H. destruct H as (s & c' & wire & H1 & _ & _ & H2). exists s, wire. split; [exact H1|exact H2].
Defined.
