(* ===== verification/LogFile.v ===== *)
(** * The log file under several threads (main.c, realtime/monitor.h)

    [ig_log] writes a line in three pieces under [g_log_lock] and reads [g_log_fp]
    for each; a reload closes and opens the file in [close_logging] and
    [init_logging], which take no lock. Every access to the lock, to the pointer and
    to the stream is a step of its own. Shown: lines of any number of threads stay
    whole as long as nothing is reloaded, and a reload under a line can close its
    stream. *)

From S2P Require Import Prelude Bytes Monitor Config Startup.

Local Open Scope Z_scope.

(** An open [FILE]; every [fopen] makes a new one. *)
Inductive stream := StdErr | Stream (n : nat) (path : cstring).

#[export] Instance stream_eq_dec : EqDecision stream.
Proof. solve_decision. Defined.

Definition target_of (o : option stream) : log_target :=
  match o with None => LogNone | Some StdErr => LogStderr | Some (Stream _ p) => LogFile p end.

(** A thread in [ig_log]: about to take the lock, to test [g_log_fp], to print its
    piece [n] of 3, or to unlock. *)
(* @src realtime/monitor.h:163-192 ig_log *)
Inductive log_phase := LOut | LTest | LPiece (n : nat) | LUnlock.

(** The main thread: not reloading, about to test and close, to clear the pointer,
    or to open. *)
(* @src main.c:145-163 init_logging *)
Inductive reload_phase := MOut | MClose | MClear | MOpen (path : cstring) (opens : bool).

(** [lf_text]: what was printed, as stream, thread and piece. *)
Record log_file := LogState {
  lf_lock : option nat; lf_fp : option stream; lf_open : list stream; lf_next : nat;
  lf_threads : nat → log_phase; lf_main : reload_phase; lf_text : list (stream * nat * nat) }.

(** [Crashed]: a print to NULL or to a closed stream. *)
Inductive log_outcome := Ran (s : log_file) | Crashed.

Definition set_thread (t : nat) (lock : option nat) (ph : log_phase) (s : log_file) : log_file :=
  LogState lock (lf_fp s) (lf_open s) (lf_next s) (λ u, if decide (u = t) then ph else lf_threads s u) (lf_main s)
    (lf_text s).

(** [None]: the thread waits for the lock. *)
(* @src realtime/monitor.h:170-191 ig_log *)
Definition log_step (t : nat) (s : log_file) : option log_outcome :=
  match lf_threads s t with
  | LOut => match lf_lock s with None => Some (Ran (set_thread t (Some t) LTest s)) | Some _ => None end
  | LTest =>
      Some (Ran (set_thread t (lf_lock s) (match lf_fp s with Some _ => LPiece 0 | None => LUnlock end) s))
  | LPiece n =>
      match lf_fp s with
      | None => Some Crashed
      | Some f =>
          if bool_decide (f ∈ lf_open s) then
            let s' := set_thread t (lf_lock s) (if bool_decide (n = 2)%nat then LUnlock else LPiece (S n)) s in
            Some (Ran (LogState (lf_lock s') (lf_fp s') (lf_open s') (lf_next s') (lf_threads s') (lf_main s')
                         (lf_text s ++ [(f, t, n)])))
          else Some Crashed
      end
  | LUnlock => Some (Ran (set_thread t None LOut s))
  end.

Definition set_main (fp : option stream) (op : list stream) (next : nat) (m : reload_phase) (s : log_file) : log_file :=
  LogState (lf_lock s) fp op next (lf_threads s) m (lf_text s).

(** [close_logging], then [init_logging]. *)
(* @src main.c:145-163 close_logging *)
Definition reload_step (path : cstring) (opens : bool) (s : log_file) : log_file :=
  match lf_main s with
  | MOut => set_main (lf_fp s) (lf_open s) (lf_next s) MClose s
  | MClose =>
      set_main (lf_fp s)
        (match lf_fp s with Some f => if decide (f = StdErr) then lf_open s else filter (λ g, g ≠ f) (lf_open s)
         | None => lf_open s end) (lf_next s) MClear s
  | MClear => set_main None (lf_open s) (lf_next s) (MOpen path opens) s
  | MOpen path opens =>
      let f := if opens then Stream (lf_next s) path else StdErr in
      set_main (Some f) (f :: lf_open s) (S (lf_next s)) MOut s
  end.

Inductive log_move := Log (t : nat) | Reload (path : cstring) (opens : bool).

Definition lstep (s : log_file) (m : log_move) : option log_outcome :=
  match m with Log t => log_step t s | Reload path opens => Some (Ran (reload_step path opens s)) end.

Fixpoint lrun (ms : list log_move) (s : log_file) : option log_outcome :=
  match ms with
  | [] => Some (Ran s)
  | m :: ms => match lstep s m with Some (Ran s') => lrun ms s' | o => o end
  end.

Lemma lrun_step m ms s s' : lstep s m = Some (Ran s') → lrun (m :: ms) s = lrun ms s'.
Proof. intros H. cbn [lrun]. by rewrite H. Qed.

(** The log after [init_logging], no thread in [ig_log]. *)
Definition logging_to (f : stream) : log_file := LogState None (Some f) [StdErr; f] 1 (λ _, LOut) MOut [].

(** ** Without a reload lines are whole *)

Definition line (f : stream) (t : nat) : list (stream * nat * nat) := [(f, t, 0%nat); (f, t, 1%nat); (f, t, 2%nat)].

(** The pieces the holder of the lock has printed. *)
Definition printed (s : log_file) (t : nat) : nat :=
  match lf_threads s t with LPiece n => n | LUnlock => 3 | _ => 0 end.

Record lines_ok (f : stream) (s : log_file) : Prop := {
  ln_main : lf_main s = MOut;
  ln_fp : lf_fp s = Some f;
  ln_open : f ∈ lf_open s;
  ln_holder : ∀ t, lf_threads s t ≠ LOut ↔ lf_lock s = Some t;
  ln_piece : ∀ t n, lf_threads s t = LPiece n → (n < 3)%nat;
  ln_text : ∃ ts, lf_text s = mjoin (line f <$> ts) ++
              match lf_lock s with Some t => take (printed s t) (line f t) | None => [] end }.

Lemma lines_ok_start f : lines_ok f (logging_to f).
Proof. split; try done. - right. by left. - by exists []. Qed.

Lemma set_thread_same t lock ph s : lf_threads (set_thread t lock ph s) t = ph.
Proof. cbn. by rewrite decide_True. Qed.

Lemma set_thread_holder t lock ph s : (∀ u, lf_threads s u ≠ LOut ↔ lf_lock s = Some u) →
  (lf_lock s = None ∨ lf_lock s = Some t) → (ph ≠ LOut ↔ lock = Some t) → (lock = None ∨ lock = Some t) →
  ∀ u, lf_threads (set_thread t lock ph s) u ≠ LOut ↔ lock = Some u.
Proof.
  intros Hh Hl Hph Hlock u. cbn. destruct (decide (u = t)) as [->|Hne]; [done|].
  rewrite Hh. destruct Hl as [-> | ->], Hlock as [-> | ->]; split; congruence.
Qed.

Lemma log_step_ok f t s : lines_ok f s →
  log_step t s = None ∨ ∃ s', log_step t s = Some (Ran s') ∧ lines_ok f s'.
Proof.
  intros [Hm Hfp Hop Hh Hn [ts Ht]]. unfold log_step. destruct (lf_threads s t) as [| |n|] eqn:Eph.
  - destruct (lf_lock s) as [u|] eqn:El; [by left|right]. eexists. split; [reflexivity|]. split; try done.
    + cbn. apply set_thread_holder; [by rewrite El|by left|done|by right].
    + cbn. intros u n. destruct (decide (u = t)); [done|apply Hn].
    + exists ts. cbn [lf_lock lf_text set_thread]. unfold printed. rewrite set_thread_same. exact Ht.
  - right. eexists. split; [reflexivity|]. rewrite Hfp.
    assert (El : lf_lock s = Some t) by (apply Hh; by rewrite Eph). split; try done.
    + cbn. rewrite El. apply set_thread_holder; [done|by right|done|by right].
    + cbn. intros u n. destruct (decide (u = t)); [intros [= <-]; lia|apply Hn].
    + exists ts. cbn [lf_lock lf_text set_thread]. rewrite El in Ht |- *. unfold printed in *.
      rewrite set_thread_same. by rewrite Eph in Ht.
  - right. rewrite Hfp, bool_decide_true by done. eexists. split; [reflexivity|].
    assert (El : lf_lock s = Some t) by (apply Hh; by rewrite Eph). pose proof (Hn t n Eph) as Hlt. split; try done.
    + cbn. rewrite El. apply set_thread_holder; [done|by right| |by right]. by case_bool_decide.
    + cbn. intros u k. destruct (decide (u = t)); [|apply Hn]. case_bool_decide; [done|]. intros [= <-]. lia.
    + exists ts. cbn [lf_lock lf_text set_thread]. rewrite El in Ht |- *. unfold printed in *.
      cbn [lf_threads set_thread]. rewrite decide_True by done. rewrite Ht, Eph, <- app_assoc. f_equal.
      destruct n as [|[|[|n]]]; [reflexivity..|lia].
  - right. assert (El : lf_lock s = Some t) by (apply Hh; by rewrite Eph). eexists. split; [reflexivity|]. split; try done.
    + cbn. apply set_thread_holder; [done|by right|done|by left].
    + cbn. intros u n. destruct (decide (u = t)); [done|apply Hn].
    + exists (ts ++ [t]). cbn [lf_lock lf_text set_thread]. rewrite El in Ht. unfold printed in Ht. rewrite Eph in Ht.
      rewrite Ht, fmap_app, join_app, app_nil_r. f_equal.
Qed.

Definition only_logs (ms : list log_move) : Prop := Forall (λ m, match m with Log _ => True | Reload _ _ => False end) ms.

Lemma lrun_lines f ms : ∀ s, lines_ok f s → only_logs ms →
  lrun ms s = None ∨ ∃ s', lrun ms s = Some (Ran s') ∧ lines_ok f s'.
Proof.
  induction ms as [|m ms IH]; intros s Hs Hms; [right; by exists s|]. apply Forall_cons in Hms as [Hm Hms].
  destruct m as [t|]; [|done]. cbn [lrun lstep].
  destruct (log_step_ok f t s Hs) as [->|(s' & -> & Hs')]; [by left|by apply IH].
Qed.

(** Without a reload nothing ever crashes, and the file holds whole lines, one per
    call, followed by what the holder of the lock has printed so far. *)
Theorem log_lines_whole (f : stream) (ms : list log_move) (Hlogs : only_logs ms) :
  lrun ms (logging_to f) ≠ Some Crashed ∧
  ∀ s, lrun ms (logging_to f) = Some (Ran s) → ∃ ts, lf_text s = mjoin (line f <$> ts) ++
    match lf_lock s with Some t => take (printed s t) (line f t) | None => [] end.
Proof.
  destruct (lrun_lines f ms _ (lines_ok_start f) Hlogs) as [->|(s' & -> & Hs')]; [done|].
  split; [done|]. intros s [= <-]. apply Hs'.
Qed.

(** ** A reload *)

(** On its own a reload leaves the log where [init_logging] puts it. *)
Lemma reload_alone opens cfg l s : lf_main s = MOut → target_of (lf_fp s) = lg_fp l →
  let m := Reload (cfg_log_file cfg) (opens (cfg_log_file cfg)) in
  ∃ s', lrun [m; m; m; m] s = Some (Ran s') ∧ lf_main s' = MOut ∧
    target_of (lf_fp s') = lg_fp (init_logging opens cfg (close_logging l)).
Proof.
  intros Hm _ m. subst m. cbn [lrun lstep]. unfold reload_step. rewrite Hm. cbn [lf_main set_main].
  eexists. split; [reflexivity|]. split; [done|]. unfold init_logging. cbn. by destruct (opens _).
Qed.

(** Between two pieces of a line the reload closes its stream: the next piece goes
    to a [FILE] that is no longer there. *)
Theorem reload_closes_log_under_a_line (t n : nat) (p q : cstring) :
  lrun [Log t; Log t; Log t; Reload q true; Reload q true; Log t] (logging_to (Stream n p)) = Some Crashed.
Proof.
  set (s0 := logging_to (Stream n p)). set (s1 := set_thread t (Some t) LTest s0).
  set (s2 := set_thread t (Some t) (LPiece 0) s1).
  assert (H2 : log_step t s1 = Some (Ran s2)) by (unfold log_step, s1; by rewrite set_thread_same).
  assert (H3 : ∃ s3, log_step t s2 = Some (Ran s3) ∧ lf_threads s3 t = LPiece 1 ∧ lf_fp s3 = Some (Stream n p) ∧
    lf_open s3 = [StdErr; Stream n p] ∧ lf_main s3 = MOut).
  { unfold log_step, s2. rewrite set_thread_same. cbn [lf_fp lf_open set_thread s1 s0 logging_to].
    rewrite bool_decide_true by (right; by left). eexists. split; [reflexivity|]. split; [|done].
    cbn [lf_threads set_thread]. by rewrite decide_True. }
  destruct H3 as (s3 & H3 & Hph & Hfp & Hop & Hm).
  rewrite (lrun_step (Log t) _ s0 s1 eq_refl), (lrun_step (Log t) _ s1 s2 H2), (lrun_step (Log t) _ s2 s3 H3).
  cbn [lrun lstep]. unfold reload_step. rewrite Hm.
  cbn [lf_main set_main lf_fp lf_open lf_next]. unfold log_step. cbn [lf_threads set_main lf_fp lf_open].
  rewrite Hph, Hfp, Hop. rewrite decide_False by done. by rewrite bool_decide_false by (rewrite list_elem_of_filter; naive_solver).
Qed.
