(* ===== verification/MainLoop.v ===== *)
(** * The daemon (main.c, from the choice of a back end to the exit)

    The threads that feed the queue, the choice between eBPF and the kernel
    module, the connection at start-up, the main loop with its signals and its
    reload, and the order in which [main] takes and gives back what it uses.
    Composes AgentMain, EventQueue, EbpfLoader, Config and the clients. *)

From S2P Require Import Prelude Bytes CText Monitor Walker Config EventQueue Protocol LkmPolicy ProcCache.
From S2P Require Import LkmEvents LkmAccess LkmChardev EbpfPrograms PathCache EbpfTrace EbpfLoader TcpClient.
From S2P Require Import Baseline AgentMain Startup.
From stdpp Require Import vector.

Local Open Scope Z_scope.

Abbreviation table := (vec (list ig_policy_entry) 256).

(** ** The kernel module's event thread *)

(** One turn: [g_running] when it is tested, what [select] returns, and what a
    [read] on the device meets. *)
Record lkm_turn := LkmTurn {
  lt_running : bool; lt_select : Z; lt_woken : option (list ig_lkm_event);
  lt_alloc : bool; lt_copy : bool }.

Section lkm_thread.
Context `{ProcSource}.

(** Whether the thread ended on an error, and the queue; [None] only if the
    driver faults. *)
(* @src main.c:166-235 lkm_event_thread *)
Fixpoint lkm_event_thread (turns : list lkm_turn) (q : ig_event_queue) : K table (bool * ig_event_queue) :=
  match turns with
  | [] => kret (false, q)
  | t :: turns =>
      if negb (lt_running t) then kret (false, q)
      else
        (let* r := lkm_read_event_timeout (lt_select t) (lt_woken t) (lt_alloc t) (lt_copy t) in
         if r.1 =? - ETIMEDOUT then lkm_event_thread turns q
         else match r with
              | (0, Some lev) => lkm_event_thread turns (ig_queue_push q (event_of_lkm lev))
              | _ => kret (true, q)
              end)%kmon
  end.
End lkm_thread.

(** ** Which back end runs *)

(** [exists] and [opens]: of [/dev/ig_lkm]. The flags [g_ebpf_active] and
    [g_lkm_active]. *)
(* @src main.c:773-806 main *)
Definition select_backend (cfg : ig_config) (kver : Z) (c : bpf_calls) (dev_exists dev_opens : bool)
    (q : ig_event_queue) (ld : loader) : bool * bool * loader :=
  let '(ebpf, ld) :=
    if negb (cfg_ebpf_enabled cfg =? 0) && (KERNEL_VER 5 8 <=? kver) then
      let '(rc, ld) := ebpf_policy_init c q ld in (negb (rc <? 0), ld)
    else (false, ld) in
  (ebpf, if ebpf then false else dev_exists && dev_opens, ld).

(* @src main.c:100-112 current_transport_monitor_type *)
Definition current_transport_monitor_type (ebpf lkm : bool) : option Z :=
  if ebpf then Some IG_MON_EBPF else if lkm then Some IG_MON_LKM else None.

(** ** The connection at start-up *)

Section transport.
Variable inet_pton : cstring → option Z.

(** What the start-up meets: the certificates missing, the TLS context, the TCP
    client, one connection and the attempts of a reconnection. *)
Record transport_env := TransportEnv {
  te_cert_missing : bool; te_tls_ok : bool; te_tcp_ok : bool; te_net : option conn; te_alloc : bool;
  te_attempts : list attempt }.

(* @src main.c:815-819 main *)
Definition server_address (env : gmap cstring cstring) : cstring * Z :=
  (default (lit "127.0.0.1") (env !! lit "IG_SERVER_HOST"),
   match env !! lit "IG_SERVER_PORT" with Some p => atoi p | None => 9000 end).

(** [tls_inited], [transport_inited] and the globals after it. *)
(* @src main.c:832-883 main *)
Definition init_transport (e : transport_env) (host : cstring) (port : Z) (monitor_type : option Z)
    (hostname local_ip : cstring) (s : agent) : option (bool * bool * agent) :=
  match monitor_type with
  | None => Some (false, false, s)
  | Some mt =>
      if te_cert_missing e then Some (false, false, s)
      else if negb (te_tls_ok e) then Some (false, false, s)
      else if negb (te_tcp_ok e) then Some (true, false, s)
      else
        let r := RegData (take 255 hostname) (take 63 local_ip) mt (lit "Linux") in
        let cli := ig_tcp_init host (u16 port) in
        let cli := TcpClient (cli_ssl cli) (cli_connected cli) (cli_host cli) (cli_port cli) (cli_seq_num cli)
                     (cli_agent_id cli) (cli_send_failures cli) (Some r) in
        match ig_tcp_connect_locked cli (te_net e) with
        | (rc, cli) =>
            if rc <? 0 then
              '(rc, cli, _) ← ig_tcp_reconnect inet_pton cli (te_attempts e);
              Some (true, true, if rc =? 0 then set_ok true (set_id (cli_agent_id cli) (set_cli cli s))
                                else set_cli cli s)
            else
              '(rc, cli) ← ig_tcp_register_internal_locked inet_pton cli
                             (RegData hostname local_ip mt (lit "Linux")) (te_alloc e);
              Some (true, true, if rc =? 0 then set_ok true (set_id (cli_agent_id cli) (set_cli cli s))
                                else set_cli cli s)
        end
  end.
End transport.

(** ** Reload (SIGHUP) *)

(** What [main] keeps: the configuration and the log, the back end flags and the
    block mode, the loader, the globals of AgentMain, the queue, the two signal
    flags, the last drop count seen with the increments warned about, and the
    number of reloads done. *)
(* @src main.c:69-90 g_log_fp *)
Record mstate := MState {
  ms_cfg : ig_config; ms_log : logging; ms_ebpf : bool; ms_lkm : bool; ms_block : Z;
  ms_loader : loader; ms_agent : agent; ms_queue : ig_event_queue;
  ms_running : bool; ms_reload : bool; ms_last_dropped : Z; ms_warned : list Z; ms_reloads : nat }.

(** What a reload finds: memory, the file, which log files open, the file system,
    the inodes of the baseline's files and the kernel's memory for their policies. *)
Record reload_env := ReloadEnv {
  re_alloc : bool; re_file : option (list Z); re_opens : cstring → bool;
  re_lstat : cstring → option kstat; re_readdir : cstring → option (list cstring);
  re_stat : cstring → option (Z * Z); re_kzalloc : nat → bool }.

(** The log after a reload, and the settings it copies. *)
(* @src main.c:326-341 reload_config *)
Definition reload_log (opens : cstring → bool) (new cfg : ig_config) (l : logging) : ig_config * logging :=
  if negb (bool_decide (cfg_log_file cfg = cfg_log_file new)) || negb (cfg_log_to_syslog cfg =? cfg_log_to_syslog new)
  then
    let cfg := Config (cfg_daemonize cfg) (strncpy (cfg_log_file new) (IG_MAX_PATH - 1)) (cfg_log_to_syslog new)
                 (cfg_verbose new) (cfg_ebpf_enabled cfg) (cfg_watches cfg) (cfg_protect_paths cfg) in
    (cfg, init_logging opens cfg (close_logging l))
  else if negb (cfg_verbose cfg =? cfg_verbose new) then
    (Config (cfg_daemonize cfg) (cfg_log_file cfg) (cfg_log_to_syslog cfg) (cfg_verbose new) (cfg_ebpf_enabled cfg)
       (cfg_watches cfg) (cfg_protect_paths cfg),
     Logging (lg_fp l) (lg_use_syslog l) (cfg_verbose new) (lg_open l))
  else (cfg, l).

Definition set_cfg_watches (w : list watch) (c : ig_config) : ig_config :=
  Config (cfg_daemonize c) (cfg_log_file c) (cfg_log_to_syslog c) (cfg_verbose c) (cfg_ebpf_enabled c) w
    (cfg_protect_paths c).

Definition set_trace (t : trace_state) (ld : loader) : loader := Loader t (ld_rb ld) (ld_running ld) (ld_objects ld).

Section main_loop.
Variable jhash2 : list Z → Z → Z.
Variable hash_min : Z → fin 256.
Variable inet_pton : cstring → option Z.
Variable sha256 : list Z → list Z.
(** The descriptor of [/dev/ig_lkm], and a bound on the depth of directories. *)
Variable fd : Z.
Variable depth_max : nat.
#[local] Instance loop_store : PolicyStore table := policy_table_store jhash2 hash_min.

Definition klift {A} (o : option A) : K table A := λ k, a ← o; Some (a, k).

(* @src main.c:312-396 reload_config *)
Definition reload_config (e : reload_env) (s : mstate) : K table mstate :=
  if negb (re_alloc e) then kret s
  else
    let '(rc, new) := ig_config_load (re_file e) in
    if rc <? 0 then kret s
    else
      let '(cfg, l) := reload_log (re_opens e) new (ms_cfg s) (ms_log s) in
      (let* trace := klift (if ms_ebpf s
                            then reload_ebpf (re_lstat e) (re_readdir e) depth_max (cfg_watches cfg)
                                   (cfg_watches new) (ms_block s) (ld_trace (ms_loader s))
                            else Some (ld_trace (ms_loader s))) in
       let* agent := reload_config_lkm jhash2 hash_min (re_stat e) (re_kzalloc e) (ms_lkm s) fd
                       (if ms_block s =? 0 then IG_BLOCK_AUDIT else IG_BLOCK_DENY) (ms_agent s)
                       (Some (cfg_watches new)) in
       kret (MState (set_cfg_watches (cfg_watches new) cfg) l (ms_ebpf s) (ms_lkm s) (ms_block s)
               (set_trace trace (ms_loader s)) agent (ms_queue s) (ms_running s) (ms_reload s)
               (ms_last_dropped s) (ms_warned s) (S (ms_reloads s))))%kmon.

(** ** The loop *)

Inductive main_signal := SigTerm | SigInt | SigHup | SigPipe.

(* @src main.c:125-130 signal_handler *)
Definition signal_handler (sig : main_signal) (s : mstate) : mstate :=
  MState (ms_cfg s) (ms_log s) (ms_ebpf s) (ms_lkm s) (ms_block s) (ms_loader s) (ms_agent s) (ms_queue s)
    (match sig with SigTerm | SigInt => false | _ => ms_running s end)
    (match sig with SigHup => true | _ => ms_reload s end)
    (ms_last_dropped s) (ms_warned s) (ms_reloads s).

Definition set_reload (b : bool) (s : mstate) : mstate :=
  MState (ms_cfg s) (ms_log s) (ms_ebpf s) (ms_lkm s) (ms_block s) (ms_loader s) (ms_agent s) (ms_queue s)
    (ms_running s) b (ms_last_dropped s) (ms_warned s) (ms_reloads s).
Definition set_agent_of (a : agent) (s : mstate) : mstate :=
  MState (ms_cfg s) (ms_log s) (ms_ebpf s) (ms_lkm s) (ms_block s) (ms_loader s) a (ms_queue s)
    (ms_running s) (ms_reload s) (ms_last_dropped s) (ms_warned s) (ms_reloads s).
Definition set_queue (q : ig_event_queue) (s : mstate) : mstate :=
  MState (ms_cfg s) (ms_log s) (ms_ebpf s) (ms_lkm s) (ms_block s) (ms_loader s) (ms_agent s) q
    (ms_running s) (ms_reload s) (ms_last_dropped s) (ms_warned s) (ms_reloads s).
Definition warn (cur : Z) (s : mstate) : mstate :=
  MState (ms_cfg s) (ms_log s) (ms_ebpf s) (ms_lkm s) (ms_block s) (ms_loader s) (ms_agent s) (ms_queue s)
    (ms_running s) (ms_reload s) cur (ms_warned s ++ [u64 (cur - ms_last_dropped s)]) (ms_reloads s).

(** When signals come in a turn: before the test of [g_running]; between it and the
    test of [g_reload]; between that and the store that clears [g_reload]; while
    [reload_config] runs; later. *)
Record moments := Moments {
  at_start : list main_signal; at_entry : list main_signal; at_clear : list main_signal;
  at_reload : list main_signal; at_rest : list main_signal }.
Definition no_signals : moments := Moments [] [] [] [] [].

(** One turn: its signals, what a reload would find, the waits of the pop with what
    the other threads push, and the file system and network for the event. *)
Record main_turn := MainTurn {
  tn_signals : moments; tn_reload : reload_env;
  tn_waits : list cond_wait; tn_disk : disk; tn_attempts : list attempt }.

Definition deliver (sigs : list main_signal) (s : mstate) : mstate := fold_left (λ s g, signal_handler g s) sigs s.

(** A turn of the loop past its test. *)
(* @src main.c:963-978 main *)
Definition loop_turn (t : main_turn) (s : mstate) : K table mstate :=
  (let g := tn_signals t in
   let s := deliver (at_entry g) s in
   let* s := (if ms_reload s then
                let s := set_reload false (deliver (at_clear g) s) in
                reload_config (tn_reload t) (deliver (at_reload g) s)
              else kret (deliver (at_reload g) (deliver (at_clear g) s))) in
   let s := deliver (at_rest g) s in
   let '(q, r) := ig_queue_pop (ms_queue s) 500 (tn_waits t) in
   let s := set_queue q s in
   let* s := (match r with
              | PopEvent ev =>
                  let* a := klift (process_event inet_pton sha256 (ms_agent s) (tn_disk t) ev (tn_attempts t)) in
                  kret (set_agent_of a s)
              | PopTimeout => kret s
              | PopBlocked => klift None
              end) in
   let cur := ig_queue_dropped (ms_queue s) in
   kret (if cur =? ms_last_dropped s then s else warn cur s))%kmon.

(** The number of turns run, and the state; [None] if a turn does not end. *)
(* @src main.c:960-982 main *)
Fixpoint main_loop (turns : list main_turn) (s : mstate) : K table (nat * mstate) :=
  match turns with
  | [] => kret (0%nat, s)
  | t :: turns =>
      let s := deliver (at_start (tn_signals t)) s in
      if ms_running s then
        (let* s := loop_turn t s in
         let* r := main_loop turns s in kret (S r.1, r.2))%kmon
      else kret (0%nat, s)
  end.
End main_loop.

(** ** Signals *)

Definition is_stop (g : main_signal) : bool := match g with SigTerm | SigInt => true | _ => false end.
Definition is_hup (g : main_signal) : bool := match g with SigHup => true | _ => false end.

Lemma deliver_spec sigs s :
  deliver sigs s =
  MState (ms_cfg s) (ms_log s) (ms_ebpf s) (ms_lkm s) (ms_block s) (ms_loader s) (ms_agent s) (ms_queue s)
    (ms_running s && negb (existsb is_stop sigs)) (ms_reload s || existsb is_hup sigs)
    (ms_last_dropped s) (ms_warned s) (ms_reloads s).
Proof.
  unfold deliver. revert s. induction sigs as [|g sigs IH]; intros s; cbn [fold_left existsb].
  - destruct s; cbn. by rewrite andb_true_r, orb_false_r.
  - rewrite IH. cbn. destruct g; cbn [is_stop is_hup negb andb orb];
      rewrite ?andb_false_l, ?andb_false_r, ?orb_true_r; done.
Qed.

(** ** Turns keep the invariants *)

Section loop_facts.
Variable jhash2 : list Z → Z → Z.
Variable hash_min : Z → fin 256.
Variable inet_pton : cstring → option Z.
Variable sha256 : list Z → list Z.
Variable fd : Z.
Variable depth_max : nat.
Hypothesis inet_pton_width : ∀ s ip, inet_pton s = Some ip → in_width 32 ip.
Hypothesis fd_open : 0 ≤ fd.
#[local] Instance facts_store : PolicyStore table := policy_table_store jhash2 hash_min.

Definition table_ok (k : lkm table) : Prop := ∃ m, represents jhash2 hash_min (k_policy k) m.

Definition mstate_ok (s : mstate) (k : lkm table) : Prop :=
  queue_ok (ms_queue s) ∧ Forall wf_ev (contents (ms_queue s)) ∧ (∃ m, agent_ok (ms_agent s) m) ∧ table_ok k.

(** A wait that nobody ends times out. *)
Definition waits_end (ws : list cond_wait) : Prop := ∃ l evs, ws = l ++ [TimedOut evs].
Definition pushed (w : cond_wait) : list ig_event := match w with Signalled l | TimedOut l => l end.

(** The directories a reload walks are less than [depth_max] deep. *)
Definition shallow (e : reload_env) : Prop := ∃ depth : cstring → nat,
  (∀ p, depth p < depth_max)%nat ∧
  ∀ p names name, re_readdir e p = Some names → name ∈ names → dot_entry name = false →
    (depth (child_path p name) < depth p)%nat.

Definition turn_ok (t : main_turn) : Prop :=
  waits_end (tn_waits t) ∧ Forall (λ w, Forall wf_ev (pushed w)) (tn_waits t) ∧ shallow (tn_reload t) ∧
  bounded_memory (tn_disk t).

Definition loads (e : reload_env) : bool := re_alloc e && bool_decide (is_Some (re_file e)).

Lemma reload_lkm_ok stat kzalloc active block a w k : table_ok k →
  ∃ k', reload_config_lkm jhash2 hash_min stat kzalloc active fd block a (Some w) k = Some (set_watches w a, k') ∧
    table_ok k'.
Proof.
  intros [m Hm]. unfold reload_config_lkm. destruct active; [|by exists k; split; [|exists m]].
  destruct (clear_all_ok jhash2 hash_min fd k m fd_open Hm) as (t1 & Hc & Hr1).
  destruct (load_refines jhash2 hash_min stat fd block (with_memory kzalloc (se_path <$> sr_entries (ag_db a))) fd_open
    (set_table t1 k) ∅ Hr1) as (t2 & Ha & Hr2).
  exists (set_table t2 (set_table t1 k)). split; [|by eexists].
  unfold kbind. rewrite Hc. cbn [mbind option_bind]. by rewrite Ha.
Qed.

(** What a reload leaves alone, and when it counts. *)
Lemma reload_ok e s k : mstate_ok s k → shallow e →
  ∃ s' k', reload_config jhash2 hash_min fd depth_max e s k = Some (s', k') ∧ mstate_ok s' k' ∧
    ms_queue s' = ms_queue s ∧ ms_running s' = ms_running s ∧ ms_reload s' = ms_reload s ∧
    ms_reloads s' = (ms_reloads s + if loads e then 1 else 0)%nat ∧
    (loads e = true → cfg_watches (ms_cfg s') = cfg_watches (ig_config_load (re_file e)).2).
Proof.
  intros Hs (depth & Hmax & Hfall). pose proof Hs as (Hq & Hw & Ha & Ht). unfold reload_config, loads.
  destruct (re_alloc e); cbn [negb andb].
  2:{ exists s, k. repeat match goal with |- _ ∧ _ => split end; try done; lia. }
  destruct (re_file e) as [content|] eqn:Ef.
  2:{ cbn. exists s, k. repeat match goal with |- _ ∧ _ => split end; try done; lia. }
  rewrite bool_decide_eq_true_2 by by eexists.
  destruct (ig_config_load (Some content)) as [rc new] eqn:El.
  assert (rc = 0) as -> by (unfold ig_config_load in El; congruence). cbn [Z.ltb Z.compare].
  destruct (reload_log (re_opens e) new (ms_cfg s) (ms_log s)) as [cfg l].
  assert (Htr : is_Some (if ms_ebpf s then reload_ebpf (re_lstat e) (re_readdir e) depth_max (cfg_watches cfg)
            (cfg_watches new) (ms_block s) (ld_trace (ms_loader s)) else Some (ld_trace (ms_loader s)))).
  { destruct (ms_ebpf s); [|by eexists]. by apply (reload_ebpf_returns _ _ depth). }
  destruct Htr as [trace Htr].
  destruct (reload_lkm_ok (re_stat e) (re_kzalloc e) (ms_lkm s) (if ms_block s =? 0 then IG_BLOCK_AUDIT else IG_BLOCK_DENY)
    (ms_agent s) (cfg_watches new) k Ht) as (k' & Hk' & Ht').
  unfold kbind, klift. rewrite Htr. cbn [mbind option_bind]. rewrite Hk'. cbn [mbind option_bind].
  eexists _, k'. split; [reflexivity|]. cbn. split; [exact (conj Hq (conj Hw (conj Ha Ht')))|].
  repeat match goal with |- _ ∧ _ => split end; try done; lia.
Qed.

(** A wait that ends gives an answer, and only well-formed events come in. *)
Lemma pop_answers ws q : queue_ok q → Forall wf_ev (contents q) → Forall (λ w, Forall wf_ev (pushed w)) ws →
  waits_end ws → ∃ q' r, ig_queue_pop q 500 ws = (q', r) ∧ queue_ok q' ∧ Forall wf_ev (contents q') ∧
    match r with PopEvent ev => wf_ev ev | PopTimeout => True | PopBlocked => False end.
Proof.
  intros Hq Hc Hws Hend. destruct (pop_refines ws q 500 Hq) as (Hok & Hcon & Hres).
  destruct (ig_queue_pop q 500 ws) as [q' r]. exists q', r. cbn [fst snd] in *. rewrite Hcon, Hres.
  split; [done|]. split; [done|]. clear q' r Hok Hcon Hres Hq. revert Hc.
  generalize (contents q). clear q. destruct Hend as (l0 & evs & ->).
  assert (Hpush : ∀ evs l, Forall wf_ev evs → Forall wf_ev l → Forall wf_ev (fold_left spec_push evs l)).
  { clear. induction evs as [|e evs IH]; intros l He Hl; [done|]. inversion_clear He. cbn. apply IH; [done|].
    unfold spec_push. apply Forall_app. split; [|by constructor]. case_match; [|done].
    destruct l; [done|by inversion_clear Hl]. }
  induction l0 as [|w l0 IH]; intros l Hl; destruct l as [|ev l]; cbn [app spec_pop] in *;
    try (inversion_clear Hl; done); inversion_clear Hws as [|? ? H1 H2].
  - split; [by apply Hpush|done].
  - destruct w as [evs'|evs']; cbn [pushed] in H1; [|split; [by apply Hpush|done]].
    apply (IH H2). by apply Hpush.
Qed.

Lemma process_event_ok a d ev att : (∃ m, agent_ok a m) → wf_ev ev → bounded_memory d →
  ∃ a', process_event inet_pton sha256 a d ev att = Some a' ∧ ∃ m, agent_ok a' m.
Proof.
  intros (m & Hdb & Hcl) [Hev Hp] Hd. unfold process_event. set (a1 := set_db _ a).
  destruct (send_with_reconnect_ok inet_pton inet_pton_width a1 ev att Hcl Hev) as (a2 & -> & Hcl2 & Hdb2 & _).
  exists a2. split; [done|]. eexists. split; [|done]. rewrite Hdb2. by apply update_baseline_refines.
Qed.

(** Where in a reload a signal comes does not matter: it reads neither flag. *)
Lemma reload_deliver e sigs s (k : lkm table) :
  reload_config jhash2 hash_min fd depth_max e (deliver sigs s) k =
  r ← reload_config jhash2 hash_min fd depth_max e s k; Some (deliver sigs r.1, r.2).
Proof.
  rewrite deliver_spec. unfold reload_config. cbn [ms_cfg ms_log ms_ebpf ms_lkm ms_block ms_loader ms_agent].
  destruct (re_alloc e); cbn [negb]; [|unfold kret; cbn [mbind option_bind fst snd]; by rewrite deliver_spec].
  destruct (ig_config_load (re_file e)) as [rc new].
  destruct (rc <? 0); [unfold kret; cbn [mbind option_bind fst snd]; by rewrite deliver_spec|].
  destruct (reload_log (re_opens e) new (ms_cfg s) (ms_log s)) as [cfg l]. unfold kbind, klift.
  destruct (if ms_ebpf s then _ else _) as [trace|]; cbn [mbind option_bind]; [|done].
  destruct (reload_config_lkm _ _ _ _ _ _ _ _ _ k) as [[a k']|]; cbn [mbind option_bind]; [|done].
  unfold kret. cbn [mbind option_bind fst snd]. by rewrite deliver_spec.
Qed.

(** *** What a turn owes its signals *)

Definition stop_in (g : list main_signal) : bool := existsb is_stop g.
Definition hup_in (g : list main_signal) : bool := existsb is_hup g.

(** Past the test of [g_running]: a stop at any moment clears the flag; a reload
    wanted when [g_reload] is tested is done, and wanted again only for what comes
    after the flag is cleared. *)
Definition served (t : main_turn) (s s' : mstate) : Prop :=
  let g := tn_signals t in
  let wanted := ms_reload s || hup_in (at_entry g) in
  ms_running s' = ms_running s && negb (stop_in (at_entry g ++ at_clear g ++ at_reload g ++ at_rest g)) ∧
  ms_reload s' = negb wanted && hup_in (at_clear g) || hup_in (at_reload g ++ at_rest g) ∧
  ms_reloads s' = (ms_reloads s + if wanted && loads (tn_reload t) then 1 else 0)%nat.

Lemma deliver_ok sigs s k : mstate_ok s k → mstate_ok (deliver sigs s) k.
Proof. rewrite deliver_spec. done. Qed.

(** The part of a turn up to the pop. *)
Lemma turn_reloads t s k : mstate_ok s k → shallow (tn_reload t) → let g := tn_signals t in
  ∃ s1 k1, (let s := deliver (at_entry g) s in
      if ms_reload s then reload_config jhash2 hash_min fd depth_max (tn_reload t)
                            (deliver (at_reload g) (set_reload false (deliver (at_clear g) s)))
      else kret (deliver (at_reload g) (deliver (at_clear g) s))) k = Some (s1, k1) ∧
    mstate_ok s1 k1 ∧ served t s (deliver (at_rest g) s1).
Proof.
  intros Hs Hsh g. cbv zeta. rewrite (deliver_spec (at_entry g) s). unfold served. cbn [ms_reload ms_running].
  unfold stop_in, hup_in. rewrite !existsb_app. fold g.
  destruct (ms_reload s || existsb is_hup (at_entry g)) eqn:Ew; cbn [negb andb].
  - set (s0 := deliver (at_reload g) _).
    assert (Hs0 : mstate_ok s0 k).
    { apply deliver_ok. set (m := MState _ _ _ _ _ _ _ _ _ _ _ _ _). exact (deliver_ok (at_clear g) m k Hs). }
    destruct (reload_ok (tn_reload t) s0 k Hs0 Hsh) as (s1 & k1 & H1 & H2 & _ & H4 & H5 & H6 & _).
    exists s1, k1. split; [exact H1|]. split; [exact H2|]. rewrite deliver_spec. cbn [ms_running ms_reload ms_reloads].
    rewrite H4, H5, H6. unfold s0. rewrite (deliver_spec (at_reload g)). unfold set_reload. rewrite deliver_spec.
    cbn [ms_running ms_reload ms_reloads orb]. split; [|by split]. destruct (ms_running s), (existsb is_stop (at_entry g)), (existsb is_stop (at_clear g)),
      (existsb is_stop (at_reload g)), (existsb is_stop (at_rest g)); done.
  - eexists _, k. split; [reflexivity|].
    rewrite !deliver_spec. split; [exact Hs|]. cbn. split; [|split; [|lia]].
    + destruct (ms_running s), (existsb is_stop (at_entry g)), (existsb is_stop (at_clear g)),
        (existsb is_stop (at_reload g)), (existsb is_stop (at_rest g)); done.
    + by rewrite <- orb_assoc.
Qed.

Lemma loop_turn_ok t s k : mstate_ok s k → turn_ok t →
  ∃ s' k', loop_turn jhash2 hash_min inet_pton sha256 fd depth_max t s k = Some (s', k') ∧
    mstate_ok s' k' ∧ served t s s'.
Proof.
  intros Hs (Hend & Hpush & Hsh & Hmem). unfold loop_turn.
  destruct (turn_reloads t s k Hs Hsh) as (s1 & k1 & H1 & Hs1 & Hserved). cbv zeta in *.
  unfold kbind at 1. rewrite H1. cbn [mbind option_bind].
  set (sr := deliver (at_rest (tn_signals t)) s1) in *.
  assert (Hsr : mstate_ok sr k1) by (unfold sr; rewrite deliver_spec; exact Hs1).
  destruct Hsr as (Hq1 & Hw1 & Ha1 & Ht1).
  destruct (pop_answers (tn_waits t) (ms_queue sr) Hq1 Hw1 Hpush Hend) as (q & r & -> & Hq & Hw & Hr).
  set (s2 := set_queue q sr).
  assert (Hev : ∃ a, (match r with
            | PopEvent ev => let* a := klift (process_event inet_pton sha256 (ms_agent s2)
                (tn_disk t) ev (tn_attempts t)) in kret (set_agent_of a s2)
            | PopTimeout => kret s2 | PopBlocked => klift None end)%kmon k1 = Some (set_agent_of a s2, k1) ∧
            ∃ m, agent_ok a m).
  { destruct r as [| |ev]; [done|exists (ms_agent s2); split; [by destruct s2|exact Ha1]|].
    destruct (process_event_ok (ms_agent s2) (tn_disk t) ev (tn_attempts t) Ha1 Hr Hmem) as (a & Hp & Ha).
    exists a. split; [|done]. unfold kbind, klift. by rewrite Hp. }
  destruct Hev as (a & Hk & Ha). unfold kbind at 1. rewrite Hk. cbn [mbind option_bind].
  eexists _, k1. split; [reflexivity|].
  assert (Hfin : mstate_ok (set_agent_of a s2) k1 ∧ served t s (set_agent_of a s2))
    by (split; [exact (conj Hq (conj Hw (conj Ha Ht1)))|exact Hserved]).
  by destruct (_ =? _).
Qed.

(** *** What a run owes them *)

Abbreviation run := (main_loop jhash2 hash_min inet_pton sha256 fd depth_max).

(** The reloads done once the first [i] turns have run. *)
Definition reloads_after (turns : list main_turn) (s : mstate) (k : lkm table) (i : nat) : nat :=
  match run (take i turns) s k with Some ((_, s'), _) => ms_reloads s' | None => 0 end.
(** Turn [i] reloads. *)
Definition reloads_in (turns : list main_turn) (s : mstate) (k : lkm table) (i : nat) : Prop :=
  reloads_after turns s k (S i) = S (reloads_after turns s k i).

(** What a run of [n] turns that ends in [s'] owes its signals: a stop before the
    test of [g_running] ends the run there, one at any later moment of the turn at the
    next test; a SIGHUP before the test of [g_reload] is served in its own turn, one
    between that test and the store in its own turn or the next, one that comes
    while a reload runs or later in the next. *)
Definition signals_answered (turns : list main_turn) (n : nat) (s s' : mstate) (k : lkm table) : Prop :=
  (∀ i t, turns !! i = Some t → let g := tn_signals t in
    (stop_in (at_start g) = true → (n ≤ i)%nat) ∧
    (stop_in (at_entry g ++ at_clear g ++ at_reload g ++ at_rest g) = true → (n ≤ S i)%nat) ∧
    (hup_in (at_start g ++ at_entry g) = true → (i < n)%nat → loads (tn_reload t) = true → reloads_in turns s k i)) ∧
  (∀ i t u, turns !! i = Some t → turns !! S i = Some u → (S i < n)%nat → loads (tn_reload u) = true →
    let g := tn_signals t in
    (hup_in (at_reload g ++ at_rest g) = true → reloads_in turns s k (S i)) ∧
    (hup_in (at_clear g) = true → loads (tn_reload t) = true → reloads_in turns s k i ∨ reloads_in turns s k (S i))) ∧
  ((n < length turns)%nat → ms_running s' = false) ∧ (ms_running s' = true → n = length turns).

(** The flags as a turn finds them: a cleared [running] stops the loop, a set
    [reload] is answered by the first turn. *)
Definition flags_answered (turns : list main_turn) (n : nat) (s : mstate) (k : lkm table) : Prop :=
  (ms_running s = false → n = 0%nat) ∧
  (∀ t, ms_reload s = true → (0 < n)%nat → turns !! 0%nat = Some t → loads (tn_reload t) = true →
     reloads_in turns s k 0).

Lemma answered_stop t turns s k : ms_running s && negb (stop_in (at_start (tn_signals t))) = false →
  flags_answered (t :: turns) 0 s k ∧
  signals_answered (t :: turns) 0 s (deliver (at_start (tn_signals t)) s) k.
Proof.
  intros Er. rewrite deliver_spec. unfold flags_answered, signals_answered, stop_in in *. cbn [ms_running].
  rewrite Er. split; [split; [done|lia]|]. split; [intros i u Hu; split; [lia|]; split; lia|].
  split; [lia|]. by split.
Qed.

Lemma reloads_after_start turns s k : reloads_after turns s k 0 = ms_reloads s.
Proof. done. Qed.

(** The first turn of a run, and the rest of it. *)
Lemma reloads_after_turn t turns s k s2 k2 i : ms_running s = true → stop_in (at_start (tn_signals t)) = false →
  mstate_ok s2 k2 → Forall turn_ok turns →
  loop_turn jhash2 hash_min inet_pton sha256 fd depth_max t (deliver (at_start (tn_signals t)) s) k = Some (s2, k2) →
  reloads_after (t :: turns) s k (S i) = reloads_after turns s2 k2 i.
Proof.
  intros Hrun Hst Hs2 Hts Ht. unfold reloads_after. cbn [take main_loop].
  assert (ms_running (deliver (at_start (tn_signals t)) s) = true) as ->.
  { rewrite deliver_spec. cbn [ms_running]. unfold stop_in in Hst. by rewrite Hrun, Hst. }
  unfold kbind at 1. rewrite Ht. cbn [mbind option_bind]. unfold kbind.
  by destruct (run (take i turns) s2 k2) as [[[n s3] k3]|].
Qed.

(** One turn more, from what the rest of the run answers. *)
Lemma answered_turn t turns n s s2 s3 k k2 :
  ms_running s = true → stop_in (at_start (tn_signals t)) = false →
  served t (deliver (at_start (tn_signals t)) s) s2 →
  (∀ i, reloads_after (t :: turns) s k (S i) = reloads_after turns s2 k2 i) →
  flags_answered turns n s2 k2 → signals_answered turns n s2 s3 k2 →
  flags_answered (t :: turns) (S n) s k ∧ signals_answered (t :: turns) (S n) s s3 k.
Proof.
  intros Hrun Hnb Hserved Hshift (Hstop & Hrel) (Hi & Hj & Hend & Hall).
  rewrite deliver_spec in Hserved. destruct Hserved as (Hrun2 & Hrel2 & Hcnt2).
  unfold stop_in, hup_in in *. cbn [ms_running ms_reload ms_reloads] in Hrun2, Hrel2, Hcnt2.
  rewrite Hrun, Hnb in Hrun2. cbn [negb andb] in Hrun2.
  set (g := tn_signals t) in *. set (wanted := _ || existsb is_hup (at_entry g)) in *.
  assert (Hfirst : wanted = true → loads (tn_reload t) = true → reloads_in (t :: turns) s k 0).
  { intros Hh Hl. unfold reloads_in. rewrite Hshift, !reloads_after_start, Hcnt2, Hh, Hl. cbn. lia. }
  assert (Hnext : ∀ i, reloads_in turns s2 k2 i → reloads_in (t :: turns) s k (S i)).
  { intros i. unfold reloads_in. by rewrite !Hshift. }
  split; [split; [congruence|]|split; [|split; [|split]]].
  - intros u Hh _ [= <-] Hl. apply Hfirst; [unfold wanted; by rewrite Hh|done].
  - intros [|i] u Hu.
    + injection Hu as <-. unfold stop_in, hup_in. fold g. split; [congruence|]. split.
      * intros Hst. rewrite Hst in Hrun2. rewrite (Hstop Hrun2). lia.
      * rewrite existsb_app. intros Hh _ Hl. apply Hfirst; [|done]. unfold wanted.
        apply orb_true_iff in Hh as [->| ->]; by rewrite ?orb_true_r.
    + destruct (Hi i u Hu) as (Ha & Hb & Hc). split; [intros; specialize (Ha ltac:(done)); lia|].
      split; [intros; specialize (Hb ltac:(done)); lia|].
      intros Hh Hn Hl. apply Hnext, Hc; [done|lia|done].
  - intros [|i] u v Hu Hv Hn Hl.
    + injection Hu as <-. unfold hup_in. fold g. split.
      * intros Hh. apply Hnext, (Hrel v); [|lia|done|done]. rewrite Hrel2, Hh. apply orb_true_r.
      * intros Hh Hl2. destruct wanted eqn:Ew; [left; by apply Hfirst|right].
        apply Hnext, (Hrel v); [|lia|done|done]. by rewrite Hrel2, Hh.
    + destruct (Hj i u v Hu Hv ltac:(lia) Hl) as [H1 H2].
      split; [intros Hh; by apply Hnext, H1|]. intros Hh Hl2. destruct (H2 Hh Hl2); [left|right]; by apply Hnext.
  - cbn [length]. intros Hn. apply Hend. lia.
  - intros Hr. cbn [length]. by rewrite (Hall Hr).
Qed.

Lemma main_loop_answers turns : ∀ s k, mstate_ok s k → Forall turn_ok turns →
  ∃ n s' k', run turns s k = Some ((n, s'), k') ∧
    mstate_ok s' k' ∧ flags_answered turns n s k ∧ signals_answered turns n s s' k.
Proof.
  induction turns as [|t turns IH]; intros s k Hs Hts.
  { exists 0%nat, s, k. split; [done|]. split; [done|]. split; [split; [done|lia]|].
    split; [done|]. split; [done|]. split; [cbn; lia|done]. }
  inversion_clear Hts as [|? ? Ht Hts']. cbn [main_loop]. set (s1 := deliver (at_start (tn_signals t)) s).
  assert (Hs1 : mstate_ok s1 k) by (unfold s1; rewrite deliver_spec; exact Hs).
  assert (Er : ms_running s1 = ms_running s && negb (stop_in (at_start (tn_signals t))))
    by (unfold s1; by rewrite deliver_spec).
  rewrite Er. destruct (_ && _) eqn:Eb.
  2:{ exists 0%nat, s1, k. split; [done|]. split; [done|]. by apply answered_stop. }
  destruct (loop_turn_ok t s1 k Hs1 Ht) as (s2 & k2 & H2 & Hs2 & Hserved).
  destruct (IH s2 k2 Hs2 Hts') as (n & s3 & k3 & H3 & Hs3 & Hflags & Hsig).
  apply andb_true_iff in Eb as [Hrun Hnb]. apply negb_true_iff in Hnb.
  exists (S n), s3, k3. unfold kbind at 1. rewrite H2. cbn [mbind option_bind]. unfold kbind. rewrite H3.
  split; [done|]. split; [done|]. apply (answered_turn t turns n s s2 s3 k k2); try done.
  intros i. by apply reloads_after_turn.
Qed.

(** [C18] The main loop always answers its signals: for every sequence of turns in
    which a pop's wait ends (it has a timeout), whatever events, reload files,
    memory, file systems and connections they meet, and at whatever moments the
    signals come, every turn ends; the loop stops at the test that follows a SIGTERM
    or SIGINT, and stops only with the flag cleared; and every SIGHUP is followed by
    a reload: in its own turn when it comes before the test of [g_reload], in the
    next turn when it comes later, also while another reload is running, provided
    that turn is run and its file loads (one that comes between a test that found the flag
    set and its clearing is served by the reload that follows). A reload may run the kernel out of memory.
    The trees under reloaded paths are of bounded depth, and queued events carry paths
    that fit. *)
Theorem main_loop_serves_signals (turns : list main_turn) (s : mstate) (k : lkm table)
    (Hs : mstate_ok s k) (Hts : Forall turn_ok turns) :
  ∃ n s' k', run turns s k = Some ((n, s'), k') ∧
    mstate_ok s' k' ∧ signals_answered turns n s s' k.
Proof.
  destruct (main_loop_answers turns s k Hs Hts) as (n & s' & k' & H1 & H2 & _ & H3). by exists n, s', k'.
Qed.
End loop_facts.

(** ** The event thread of the kernel module *)

Section lkm_thread_facts.
Context `{HP : ProcSource} {HL : ProcSourceLaws HP}.

(** A signal ends the kernel module's event thread for good: when the wait
    of [select] is interrupted - a SIGHUP is enough, it is delivered to any
    thread and [select] is never restarted - the thread leaves its loop, and
    whatever the module reports afterwards, nothing reaches the queue any more.
    The eBPF thread goes on in the same case. *)
Theorem interrupted_wait_ends_lkm_thread (before after : list lkm_turn) (t : lkm_turn) (q : ig_event_queue)
    (k : lkm table)
    (Hbefore : Forall (λ t, lt_running t = true ∧ lt_select t = 0) before)
    (Hrun : lt_running t = true) (Hsel : lt_select t = - EINTR) :
  lkm_event_thread (before ++ t :: after) q k = Some ((true, q), k).
Proof.
  induction Hbefore as [|u before [Hu Hs] _ IH]; cbn [app lkm_event_thread].
  - rewrite Hrun, Hsel. done.
  - rewrite Hu, Hs. unfold lkm_read_event_timeout, kbind, kret. cbn [Z.ltb Z.compare Z.eqb negb mbind option_bind fst].
    exact IH.
Qed.

(** A turn that times out, or one whose read succeeds. *)
Definition quiet (t : lkm_turn) : bool := lt_select t =? 0.
Definition turn_plain (t : lkm_turn) : Prop :=
  lt_running t = true ∧ 0 ≤ lt_select t ∧ lt_alloc t = true ∧ lt_copy t = true.

Lemma read_turn lev evs t (k : lkm table) : turn_plain t → quiet t = false → k_fifo k = lev :: evs →
  lkm_read_event_timeout (lt_select t) (lt_woken t) (lt_alloc t) (lt_copy t) k =
  Some ((0, Some lev), set_fifo (λ _, evs) k).
Proof.
  intros (_ & Hs & -> & ->) Hq Hf. unfold quiet in Hq. apply Z.eqb_neq in Hq.
  unfold lkm_read_event_timeout. destruct (Z.ltb_spec (lt_select t) 0); [lia|].
  rewrite (proj2 (Z.eqb_neq _ _) Hq). unfold lkm_read_event, ig_read.
  destruct (Z.ltb_spec sizeof_event sizeof_event); [lia|].
  unfold kbind, kget, ig_event_empty, ig_event_pop, kret. rewrite Hf. cbn [mbind option_bind negb].
  rewrite Hf. cbn [mbind option_bind]. done.
Qed.

(** [C24] Until it is stopped the thread moves the module's fifo into the queue:
    over any turns that time out or find something to read, the events leave the
    fifo in order, each becomes one queue event, and every queue event is well
    typed when the kernel's structs are. *)
Theorem lkm_thread_moves_fifo (turns : list lkm_turn) (evs rest : list ig_lkm_event) (q : ig_event_queue)
    (k : lkm table) (Hturns : Forall turn_plain turns)
    (Hcount : length (filter (λ t, quiet t = false) turns) = length evs)
    (Hfifo : k_fifo k = evs ++ rest) (Hwf : Forall wf_lkm_event evs) (Hq : queue_wf q) :
  ∃ k', lkm_event_thread turns q k = Some ((false, fold_left ig_queue_push (event_of_lkm <$> evs) q), k') ∧
    k_fifo k' = rest ∧ k_policy k' = k_policy k ∧
    queue_wf (fold_left ig_queue_push (event_of_lkm <$> evs) q).
Proof.
  revert evs q k Hcount Hfifo Hwf Hq. induction Hturns as [|t turns Ht _ IH]; intros evs q k Hcount Hfifo Hwf Hq.
  - cbn in Hcount. symmetry in Hcount. apply nil_length_inv in Hcount as ->. by exists k.
  - pose proof Ht as (Hrun & Hsel & _). cbn [lkm_event_thread]. rewrite Hrun. cbn [negb].
    rewrite filter_cons in Hcount. destruct (quiet t) eqn:Hquiet; case_decide; try done.
    + unfold quiet in Hquiet. apply Z.eqb_eq in Hquiet. unfold kbind, lkm_read_event_timeout, kret.
      rewrite Hquiet. cbn [Z.ltb Z.compare Z.eqb mbind option_bind fst negb]. rewrite Z.eqb_refl.
      by apply IH.
    + destruct evs as [|lev evs]; [done|]. inversion_clear Hwf as [|? ? Hlev Hevs].
      unfold kbind. rewrite (read_turn lev (evs ++ rest) t k Ht Hquiet Hfifo). cbn [mbind option_bind fst Z.eqb].
      change (0 =? - ETIMEDOUT) with false. cbv iota.
      destruct (IH evs (ig_queue_push q (event_of_lkm lev)) (set_fifo (λ _, evs ++ rest) k))
        as (k' & H1 & H2 & H3 & H4); [cbn [length] in Hcount; lia|done|done|by apply queue_push_wf, event_of_lkm_wf|].
      exists k'. done.
Qed.
End lkm_thread_facts.

(** ** The connection at start-up *)

(** Starting the transport always terminates without a fault, and when it
    ends ready the client is connected and keeps its invariant, with the agent's
    id the one the server assigned; a client exists only with a TLS context, and
    without certificates or without a back end the globals are left as they are. *)
Theorem transport_ready_means_connected (inet_pton : cstring → option Z) (e : transport_env) (host : cstring)
    (port : Z) (monitor_type : option Z) (hostname local_ip : cstring) (s : agent)
    (Hpton : ∀ s ip, inet_pton s = Some ip → in_width 32 ip)
    (Hoff : ag_transport_ok s = false) (Hhost : bytes hostname)
    (Hmt : ∀ mt, monitor_type = Some mt → in_width 8 mt) :
  ∃ tls tcp s', init_transport inet_pton e host port monitor_type hostname local_ip s = Some (tls, tcp, s') ∧
    (tcp = true → tls = true ∧ client_ok (ag_cli s')) ∧ (tcp = false → s' = s) ∧
    (monitor_type = None ∨ te_cert_missing e = true → tls = false) ∧
    (ag_transport_ok s' = true →
       tcp = true ∧ cli_connected (ag_cli s') = true ∧ ag_agent_id s' = Some (cli_agent_id (ag_cli s'))).
Proof.
  unfold init_transport. destruct monitor_type as [mt|].
  2:{ exists false, false, s. split_and!; try done. congruence. }
  specialize (Hmt mt eq_refl). destruct (te_cert_missing e) eqn:Ec.
  { exists false, false, s. split_and!; try done. congruence. }
  assert (Hnone : ¬ (Some mt = None ∨ false = true)) by (by intros [?|?]).
  destruct (te_tls_ok e); cbn [negb].
  2:{ exists false, false, s. split_and!; try done. congruence. }
  destruct (te_tcp_ok e); cbn [negb].
  2:{ exists true, false, s. split_and!; try done. congruence. }
  set (r := RegData hostname local_ip mt (lit "Linux")). set (cli := TcpClient _ _ _ _ _ _ _ _).
  assert (Hr : wf_reg r) by (split_and!; [done|apply bytes_lit|done]).
  assert (Hcli : client_ok cli).
  { unfold client_ok. repeat match goal with |- _ ∧ _ => split end; try done.
    exact (conj (Forall_take _ _ _ Hhost) (conj (bytes_lit _) Hmt)). }
  pose proof (connect_ok cli (te_net e) Hcli) as Hcn. destruct (ig_tcp_connect_locked cli (te_net e)) as [rc cli1].
  destruct Hcn as (Hok1 & _ & [[-> Hcon]|(-> & _)]); cbn [Z.ltb Z.compare].
  - destruct (register_ok inet_pton Hpton cli1 r (te_alloc e) Hok1 Hr) as (rc2 & cli2 & -> & Hok2 & Hcon2 & Hcase).
    cbn [mbind option_bind]. exists true, true. eexists. split; [reflexivity|].
    destruct Hcase as [(-> & _)|(-> & _)]; cbn; (split; [done|]; split; [done|]; split; [done|]);
      intros ?; split_and!; congruence.
  - destruct (reconnect_ok inet_pton Hpton cli1 (te_attempts e) Hok1) as (rc2 & cli2 & w & -> & Hok2 & Hrec).
    cbn [mbind option_bind]. exists true, true. eexists. split; [reflexivity|].
    destruct Hrec as [[-> Hc]|(-> & _)]; cbn; (split; [done|]; split; [done|]; split; [done|]);
      intros ?; split_and!; congruence.
Qed.

(** ** Reload and the log *)

(** Syslog output cannot be switched off: [g_use_syslog] is only ever set, so
    after a reload whose file says [syslog = 0] every line still goes to syslog
    as well. *)
Theorem syslog_cannot_be_switched_off (opens : cstring → bool) (new cfg : ig_config) (l : logging)
    (Hon : lg_use_syslog l = true) (Hoff : cfg_log_to_syslog new = 0) :
  let '(cfg', l') := reload_log opens new cfg l in
  (cfg_log_to_syslog cfg ≠ 0 → cfg_log_to_syslog cfg' = 0) ∧ (ig_log l').2 = true.
Proof.
  unfold reload_log. rewrite Hoff. destruct (Z.eqb_spec (cfg_log_to_syslog cfg) 0) as [E|E]; cbn [negb].
  - destruct (bool_decide _); cbn [negb orb].
    + destruct (negb _); by split.
    + unfold init_logging. cbn. by split.
  - rewrite orb_true_r. unfold init_logging. cbn. by split.
Qed.

(** The options [-f] and [-v] do not outlive a reload: a daemon in the foreground
    moves its log from [/dev/stderr] to the file, and its [verbose] is the
    file's. *)
Example reload_forgets_options :
  let file := ig_config_load (Some (lit "[watch]" ++ [10] ++ lit "/etc = recursive" ++ [10])) in
  let started := Config 0 (lit "/dev/stderr") 0 1 1 (cfg_watches file.2) [] in
  let '(cfg, l) := reload_log (λ _, true) file.2 started (Logging (LogFile (lit "/dev/stderr")) false 1 false) in
  (lg_fp l, lg_verbose l) = (LogFile (lit "/var/log/ig_monitor.log"), 0).
Proof. by vm_compute. Qed.

(** ** What [main] holds, and in which order *)

(** [HStack]: the frame of [main], with the heartbeat thread's argument [hb_arg]. *)
Inductive held := HStack | HCfg | HLog | HLock | HQueue | HEbpf | HEbpfThread | HLkmFd | HTls | HTcp | HHbThread | HPaCache | HBaseline
  | HLkmThread.

#[export] Instance held_eq_dec : EqDecision held.
Proof. solve_decision. Defined.

(** Taking and giving back, and the visible steps in between. *)
Inductive main_op :=
  | Take (h : held) | Give (h : held) | LkmPolicies | EbpfPolicies | Ready | Loop | Exit (rc : Z).

(** How each call of the start-up ends; [ma_watches]: the configuration names a
    path to watch, [ma_daemonize]: its flag, [ma_transport]: [g_transport_ok] after
    the connection. *)
Record main_answers := MainAnswers {
  ma_cfg : bool; ma_load : bool; ma_watches : bool; ma_daemon : bool; ma_daemonize : bool; ma_lock : bool; ma_queue : bool; ma_gate : bool; ma_ebpf : bool; ma_ebpf_thread : bool; ma_dev : bool;
  ma_tls : bool; ma_tcp : bool; ma_transport : bool; ma_hb_thread : bool; ma_pa : bool; ma_baseline : bool;
  ma_lkm_thread : bool }.

(** [return]: the frame goes, then the process. *)
Definition leave (rc : Z) : list main_op := [Give HStack; Exit rc].

(** The label [done]. *)
(* @src main.c:1013-1019 main *)
Definition main_done : list main_op := [Give HLock; Give HLog; Give HCfg] ++ leave 0.

(** An exit before the lock. *)
(* @src main.c:727-731 main *)
Definition main_refused : list main_op := [Give HLog; Give HCfg] ++ leave 1.

(** From the end of the loop to the label. *)
(* @src main.c:986-1019 main *)
Definition main_shutdown (hb ebpf ebpf_thread lkm lkm_thread tcp tls pa : bool) : list main_op :=
  (if hb then [Give HHbThread] else []) ++
  (if ebpf_thread then [Give HEbpfThread] else []) ++ (if ebpf then [Give HEbpf] else []) ++
  (if lkm then [Give HLkmFd] else []) ++ (if lkm_thread then [Give HLkmThread] else []) ++
  (if tcp then [Give HTcp] else []) ++ (if tls then [Give HTls] else []) ++
  [Give HQueue; Give HBaseline] ++ (if pa then [Give HPaCache] else []) ++ main_done.

(** With the lock held. *)
(* @src main.c:753-1019 main *)
Definition main_locked (a : main_answers) : list main_op :=
  (if negb (ma_queue a) then main_done
   else Take HQueue ::
   (let ebpf := ma_gate a && ma_ebpf a in
    let ebpf_thread := ebpf && ma_ebpf_thread a in
    let lkm := negb ebpf && ma_dev a in
    (if ebpf then [Take HEbpf] else []) ++ (if ebpf_thread then [Take HEbpfThread] else []) ++
    (if lkm then [Take HLkmFd] else []) ++
    (if negb ebpf && negb lkm then main_done
     else
       let tls := ma_tls a in
       let tcp := tls && ma_tcp a in
       let hb := tcp && ma_transport a && ma_hb_thread a in
       (if tls then [Take HTls] else []) ++ (if tcp then [Take HTcp] else []) ++
       (if hb then [Take HHbThread] else []) ++ (if ma_pa a then [Take HPaCache] else []) ++
       (if negb (ma_baseline a) then main_done
        else
          let lkm_thread := lkm && ma_lkm_thread a in
          [Take HBaseline] ++ (if lkm then [LkmPolicies] else []) ++ (if lkm_thread then [Take HLkmThread] else []) ++
          (if ebpf then [EbpfPolicies] else []) ++ [Ready; Loop] ++
          main_shutdown hb ebpf ebpf_thread lkm lkm_thread tcp tls (ma_pa a))))).

(** The log is opened anew behind the double fork. *)
(* @src main.c:696-753 main *)
Definition main_ops (a : main_answers) : list main_op :=
  Take HStack ::
  if negb (ma_cfg a) then leave 1
  else Take HCfg ::
  (if negb (ma_load a) then Give HCfg :: leave 1
   else Take HLog ::
   (if negb (ma_watches a) then main_refused
    else if negb (ma_daemon a) then main_refused
    else
      (if ma_daemonize a then [Give HLog; Take HLog] else []) ++
      (if negb (ma_lock a) then main_refused else Take HLock :: main_locked a))).

(** What a thread, or the client over its TLS context, uses as long as it is there. *)
Definition uses (h : held) : list held :=
  match h with
  | HEbpfThread => [HEbpf; HQueue; HLog] | HLkmThread => [HLkmFd; HQueue; HLog]
  | HHbThread => [HStack; HTcp; HTls] | HTcp => [HTls] | _ => []
  end.

(** What a step works on. *)
Definition needs (o : main_op) : list held :=
  match o with
  | LkmPolicies => [HLkmFd; HBaseline; HLog] | EbpfPolicies => [HEbpf; HCfg; HLog]
  | Ready | Loop => [HStack; HCfg; HLog; HLock; HQueue; HBaseline] | _ => []
  end.
Definition has_back_end (hs : list held) : bool := bool_decide (HEbpf ∈ hs) || bool_decide (HLkmFd ∈ hs).
Definition may_run (o : main_op) (hs : list held) : bool :=
  forallb (λ u, bool_decide (u ∈ hs)) (needs o) &&
  match o with Ready | Loop => has_back_end hs | _ => true end.

(** Running the operations against what is held: [None] when something is taken
    twice or without what it uses, given back while missing or in use, or a step
    runs without what it works on. *)
Fixpoint run_ops (ops : list main_op) (hs : list held) : option (list held) :=
  match ops with
  | [] => Some hs
  | Take h :: ops =>
      if bool_decide (h ∈ hs) || negb (forallb (λ u, bool_decide (u ∈ hs)) (uses h)) then None
      else run_ops ops (h :: hs)
  | Give h :: ops =>
      if negb (bool_decide (h ∈ hs)) || existsb (λ t, bool_decide (h ∈ uses t)) hs then None
      else run_ops ops (filter (λ x, x ≠ h) hs)
  | o :: ops => if may_run o hs then run_ops ops hs else None
  end.

Definition loops (ops : list main_op) : bool :=
  existsb (λ o, match o with Loop => true | _ => false end) ops.

(** The operations before the agent reports ready. *)
Definition before_ready (ops : list main_op) : list main_op :=
  take_while (λ o, match o with Ready => false | _ => true end) ops.

Definition lkm_thread_runs (a : main_answers) : bool :=
  negb (ma_gate a && ma_ebpf a) && ma_dev a && ma_lkm_thread a.

Definition policies_in (ops : list main_op) : bool :=
  existsb (λ o, match o with LkmPolicies | EbpfPolicies => true | _ => false end) ops.
Definition exits_zero (ops : list main_op) : bool := match last ops with Some (Exit rc) => rc =? 0 | _ => false end.

(** The start got the lock. *)
Definition got_lock (a : main_answers) : bool :=
  ma_cfg a && ma_load a && ma_watches a && ma_daemon a && ma_lock a.
(** The thread that polls the ring buffer was started. *)
Definition ebpf_thread_runs (a : main_answers) : bool :=
  got_lock a && ma_queue a && ma_gate a && ma_ebpf a && ma_ebpf_thread a.

(** The heartbeat thread was started. *)
Definition hb_thread_runs (a : main_answers) : bool :=
  got_lock a && ma_queue a && (ma_gate a && ma_ebpf a || ma_dev a) &&
  ma_tls a && ma_tcp a && ma_transport a && ma_hb_thread a.

(** A statement about every combination of answers behind the lock, by
    enumeration. *)
Definition each (f : bool → bool) : bool := f true && f false.
Definition each_answer (f : main_answers → bool) : bool :=
  each (λ b1, each (λ b2, each (λ b3, each (λ b4, each (λ b5, each (λ b6, each (λ b7, each (λ b8, each (λ b9,
  each (λ b10, each (λ b11, each (λ b12, each (λ b13,
    f (MainAnswers true true true true b1 true b2 b3 b4 b5 b6 b7 b8 b9 b10 b11 b12 b13)))))))))))))).

Lemma each_spec f b : each f = true → f b = true.
Proof. intros [H1 H2]%andb_true_iff. by destruct b. Qed.

Lemma each_answer_spec f a : each_answer f = true → got_lock a = true → f a = true.
Proof.
  unfold each_answer, got_lock. intros H Hl.
  destruct a as [c l w d b1 k b2 b3 b4 b5 b6 b7 b8 b9 b10 b11 b12 b13]. cbn in Hl.
  rewrite !andb_true_iff in Hl. destruct Hl as [[[[-> ->] ->] ->] ->].
  apply (each_spec _ b1), (each_spec _ b2), (each_spec _ b3), (each_spec _ b4), (each_spec _ b5), (each_spec _ b6),
    (each_spec _ b7), (each_spec _ b8), (each_spec _ b9), (each_spec _ b10), (each_spec _ b11), (each_spec _ b12),
    (each_spec _ b13) in H. exact H.
Qed.

(** The same operations as far as they are not the start or the end of these threads. *)
Definition without (ts : list held) (ops : list main_op) : list main_op :=
  List.filter (λ o, match o with Take h | Give h => negb (bool_decide (h ∈ ts)) | _ => true end) ops.

(** What [main_order] says of one combination. *)
Definition order_ok (a : main_answers) : bool :=
  let ops := main_ops a in
  implb (loops ops) (bool_decide (run_ops ops [] = if lkm_thread_runs a then None else Some []) &&
                     policies_in (before_ready ops) && negb (loops (before_ready ops)) &&
                     bool_decide (run_ops (without [HLkmThread] ops) [] = Some [])) &&
  negb (bool_decide (run_ops (without [HEbpfThread; HHbThread; HLkmThread] ops) [] = None)) &&
  implb (negb (loops ops)) (Bool.eqb (bool_decide (run_ops ops [] = None)) (ebpf_thread_runs a || hb_thread_runs a)) &&
  Bool.eqb (exits_zero ops) (got_lock a).

Lemma order_ok_all a : order_ok a = true.
Proof.
  destruct (got_lock a) eqn:Hl; [apply each_answer_spec; [by vm_compute|done]|].
  destruct a as [[] [] [] [] [] [] b2 b3 b4 b5 b6 b7 b8 b9 b10 b11 b12 b13]; done.
Qed.


(** ** Witnesses *)

(** An eBPF agent that watches [/srv], told to watch [/srv] and [/etc]. *)
Definition loop_state : mstate :=
  MState (Config 1 (lit "/var/log/ig_monitor.log") 0 0 1 [(lit "/srv", true)] []) (Logging LogStderr false 0 false)
    true false 1 (Loader trace_zero true 1 1) srv_agent (ig_queue_push ig_queue_init (db_event IG_EVENT_MODIFY))
    true false 0 [] 0.
Definition loop_table : lkm table := Lkm ig_policy_init (pc_index_init, stats_zero) [] false.
Definition two_watches : list Z :=
  lit "[watch]" ++ [10] ++ lit "/srv = recursive" ++ [10] ++ lit "/etc = recursive" ++ [10].
Definition turn_at (g : moments) : main_turn :=
  MainTurn g (ReloadEnv true (Some two_watches) (λ _, true) etc_lstat etc_readdir (λ _, None) (λ _, true))
    [TimedOut []] (srv_disk [7; 7]) [].
Definition plain_turn (start : list main_signal) : main_turn := turn_at (Moments start [] [] [] []).

Lemma turn_at_ok g : turn_ok 2 (turn_at g).
Proof.
  split; [by exists [], []|]. split; [repeat constructor|]. split; [|apply srv_bounded]. exists etc_depth. split.
  - intros p. unfold etc_depth. case_decide; lia.
  - intros p names name Hr Hin Hdot. cbn in Hr. unfold etc_readdir in Hr. unfold etc_depth.
    destruct (decide (p = lit "/etc")) as [->|]; [|discriminate]. injection Hr as <-.
    rewrite !elem_of_cons, elem_of_nil in Hin. destruct Hin as [->|[->|[->|[]]]]; try discriminate.
    vm_compute. lia.
Qed.

Lemma loop_state_ok : mstate_ok (λ _ _, 0) hash_zero loop_state loop_table.
Proof.
  destruct queue_init_ok as [Hq Hc]. destruct (push_refines ig_queue_init (db_event IG_EVENT_MODIFY) Hq) as [H1 H2].
  split; [exact H1|]. split.
  - change (ms_queue loop_state) with (ig_queue_push ig_queue_init (db_event IG_EVENT_MODIFY)).
    rewrite H2, Hc. constructor; [apply db_event_wf|constructor].
  - split; [exists empty_spec; exact (conj empty_refines sample_client_ok)|]. exists ∅. apply represents_init.
Qed.

(** A SIGHUP comes while the reload another one asked for is running: it is served in
    the next turn. *)
Definition two_hups : list main_turn :=
  [turn_at (Moments [SigHup] [] [] [SigHup] []); plain_turn []; plain_turn [SigTerm]; plain_turn []].

Lemma main_loop_serves_signals_witness :
  ∃ n s' k', main_loop (λ _ _, 0) hash_zero (λ _, Some 0) toy_digest 4 2 two_hups loop_state loop_table =
      Some ((n, s'), k') ∧ n = 2%nat ∧ ms_running s' = false ∧
    reloads_in (λ _ _, 0) hash_zero (λ _, Some 0) toy_digest 4 2 two_hups loop_state loop_table 0 ∧
    reloads_in (λ _ _, 0) hash_zero (λ _, Some 0) toy_digest 4 2 two_hups loop_state loop_table 1.
Proof.
  destruct (main_loop_serves_signals (λ _ _, 0) hash_zero (λ _, Some 0) toy_digest 4 2
    ltac:(intros _ ip [= <-]; unfold in_width; lia) ltac:(lia)
    two_hups loop_state loop_table
    loop_state_ok ltac:(repeat (constructor; [apply turn_at_ok|]); constructor))
    as (n & s' & k' & H1 & _ & Hi & Hj & Hend & _).
  assert (n = 2%nat) as ->.
  { assert (Hn : (λ r, r.1.1) <$> main_loop (λ _ _, 0) hash_zero (λ _, Some 0) toy_digest 4 2 two_hups loop_state
      loop_table = Some 2%nat) by (vm_compute; reflexivity). rewrite H1 in Hn. by injection Hn as ->. }
  destruct (Hi 0%nat _ eq_refl) as (_ & _ & Hhup). destruct (Hj 0%nat _ _ eq_refl eq_refl ltac:(lia) eq_refl) as [Hnext _].
  exists 2%nat, s', k'. split; [exact H1|]. split; [done|]. split; [apply Hend; cbn; lia|].
  split; [apply Hhup; [done|lia|done]|by apply Hnext].
Defined.

Definition idle_turn : lkm_turn := LkmTurn true 0 None true true.
Definition ready_turn : lkm_turn := LkmTurn true 1 None true true.

Lemma interrupted_wait_ends_lkm_thread_witness :
  let k := set_fifo (λ _, [sample_lkm_event]) loop_table in
  @lkm_event_thread no_proc ([idle_turn] ++ LkmTurn true (- EINTR) None true true :: [ready_turn]) ig_queue_init k =
  Some ((true, ig_queue_init), k).
Proof.
  intros k. apply (@interrupted_wait_ends_lkm_thread no_proc).
  - constructor; [by split|constructor].
  - reflexivity.
  - reflexivity.
Defined.

Lemma lkm_thread_moves_fifo_witness :
  ∃ k', @lkm_event_thread no_proc [idle_turn; ready_turn; idle_turn] ig_queue_init
          (set_fifo (λ _, [sample_lkm_event]) loop_table) =
        Some ((false, fold_left ig_queue_push (@event_of_lkm no_proc <$> [sample_lkm_event]) ig_queue_init), k') ∧
    k_fifo k' = [].
Proof.
  destruct (@lkm_thread_moves_fifo no_proc no_proc_laws [idle_turn; ready_turn; idle_turn] [sample_lkm_event] []
    ig_queue_init (set_fifo (λ _, [sample_lkm_event]) loop_table)) as (k' & H1 & H2 & _).
  - repeat (constructor; [split_and!; cbn; (reflexivity || lia)|]). constructor.
  - reflexivity.
  - reflexivity.
  - constructor; [apply sample_lkm_event_wf|constructor].
  - apply queue_init_wf.
  - by exists k'.
Defined.

Lemma transport_ready_means_connected_witness :
  ∃ tls tcp s', init_transport (λ _, Some 0) (TransportEnv false true true (Some sample_conn) true [])
      (lit "127.0.0.1") 9000 (Some IG_MON_LKM) (lit "host") (lit "10.0.0.2") (set_ok false srv_agent) =
      Some (tls, tcp, s') ∧ (tcp = true → tls = true ∧ client_ok (ag_cli s')).
Proof.
  destruct (transport_ready_means_connected (λ _, Some 0) (TransportEnv false true true (Some sample_conn) true [])
    (lit "127.0.0.1") 9000 (Some IG_MON_LKM) (lit "host") (lit "10.0.0.2") (set_ok false srv_agent)
    ltac:(intros _ ip [= <-]; unfold in_width; lia) ltac:(reflexivity) ltac:(apply bytes_lit)
    ltac:(intros mt [= <-]; unfold in_width, IG_MON_LKM; lia)) as (tls & tcp & s' & H1 & H2 & _).
  exists tls, tcp, s'. exact (conj H1 H2).
Defined.

Lemma syslog_cannot_be_switched_off_witness :
  let '(cfg, l) := reload_log (λ _, true) (ig_config_load (Some two_watches)).2
                     (Config 1 (lit "/var/log/ig_monitor.log") 1 0 1 [] []) (Logging LogStderr true 0 true) in
  (1 ≠ 0 → cfg_log_to_syslog cfg = 0) ∧ (ig_log l).2 = true.
Proof.
  exact (syslog_cannot_be_switched_off (λ _, true) (ig_config_load (Some two_watches)).2
    (Config 1 (lit "/var/log/ig_monitor.log") 1 0 1 [] []) (Logging LogStderr true 0 true) eq_refl eq_refl).
Defined.
