(* ===== verification/Signals.v ===== *)
(** * Signal dispositions (main.c, core/daemon.c)

    What a signal does depends on the action in place when it arrives: before
    [setup_signals] the kernel's default, which ends the process. MainLoop starts
    where the handlers are installed; here is how they get there, and what is
    exposed before. *)

From S2P Require Import Prelude Bytes CText Monitor Daemon EbpfTrace EbpfLoader TcpClient Walker Baseline AgentMain Startup MainLoop.

Local Open Scope Z_scope.

Inductive signal := SIGTERM | SIGINT | SIGHUP | SIGPIPE | SIGCHLD.

#[export] Instance signal_eq_dec : EqDecision signal.
Proof. solve_decision. Defined.

(** The handlers of main.c and of core/daemon.c. *)
Inductive handler := MainHandler | DaemonTerm | DaemonHup | DaemonChld.
Inductive action := SIG_DFL | SIG_IGN | Handler (h : handler).
Definition actions := signal → action.

Definition sigaction (g : signal) (a : action) (t : actions) : actions := λ g', if decide (g' = g) then a else t g'.

(** After [execve] nothing is handled. *)
Definition initial : actions := λ _, SIG_DFL.

(* @src main.c:132-142 setup_signals *)
Definition setup_signals (t : actions) : actions :=
  let sa := Handler MainHandler in
  sigaction SIGPIPE SIG_IGN (sigaction SIGHUP sa (sigaction SIGINT sa (sigaction SIGTERM sa t))).

(* @src core/daemon.c:52-74 daemon_init_signals *)
Definition daemon_init_signals (t : actions) : actions :=
  let t := sigaction SIGINT (Handler DaemonTerm) (sigaction SIGTERM (Handler DaemonTerm) t) in
  let t := sigaction SIGHUP (Handler DaemonHup) t in
  let t := sigaction SIGCHLD (Handler DaemonChld) t in
  sigaction SIGPIPE SIG_IGN t.

(** [g_running] and [g_reload] are static in both files: two pairs of flags. *)
Record flags := Flags { fl_running : bool; fl_reload : bool; fl_daemon : daemon_flags }.

(* @src main.c:125-130 signal_handler *)
Definition main_handler (g : signal) (f : flags) : flags :=
  match g with
  | SIGTERM | SIGINT => Flags false (fl_reload f) (fl_daemon f)
  | SIGHUP => Flags (fl_running f) true (fl_daemon f)
  | _ => f
  end.

Definition run_handler (h : handler) (g : signal) (f : flags) : flags :=
  let daemon d := Flags (fl_running f) (fl_reload f) (handle_signal d (fl_daemon f)) in
  match h with
  | MainHandler => main_handler g f
  | DaemonTerm => daemon Daemon.SigTerm | DaemonHup => daemon Daemon.SigHup | DaemonChld => daemon SigChld
  end.

(** [None]: the process is ended. SIGCHLD alone is ignored by default. *)
Definition raise (t : actions) (g : signal) (f : flags) : option flags :=
  match t g with
  | SIG_DFL => if decide (g = SIGCHLD) then Some f else None
  | SIG_IGN => Some f
  | Handler h => Some (run_handler h g f)
  end.
Definition raise_all (t : actions) (gs : list signal) (f : flags) : option flags :=
  fold_left (λ acc g, f ← acc; raise t g f) gs (Some f).

Lemma raise_all_cons t g gs f : raise_all t (g :: gs) f = f' ← raise t g f; raise_all t gs f'.
Proof. unfold raise_all. cbn. destruct (raise t g f); [done|]. by induction gs. Qed.

(** ** What is exposed before the handlers *)

(** [write] on a connection the peer has closed raises SIGPIPE first; if the
    process lives it returns -1 with EPIPE. *)
Definition write_closed (t : actions) (f : flags) : option (Z * flags) := f ← raise t SIGPIPE f; Some (-1, f).

(** A signal while [read_interactive_value] waits in [fgets]: the terminal it
    leaves if the process ends. *)
(* @src main.c:513-523 read_interactive_value *)
Definition prompt_signal (t : actions) (g : signal) (echo : bool) (term : terminal) (f : flags)
    : terminal + flags :=
  match raise t g f with
  | None => inl (if negb echo && t_tty term then set_echo false term else term)
  | Some f => inr f
  end.

(** ** Properties *)

(** The signals of the main loop. *)
Definition of_main (g : main_signal) : signal :=
  match g with MainLoop.SigTerm => SIGTERM | SigInt => SIGINT | MainLoop.SigHup => SIGHUP | MainLoop.SigPipe => SIGPIPE end.

Definition same_flags (f : flags) (s : mstate) : Prop := fl_running f = ms_running s ∧ fl_reload f = ms_reload s.

(** Once [setup_signals] has run no SIGTERM, SIGINT, SIGHUP or SIGPIPE ends the
    agent, whatever the actions before: any sequence of them leaves the flags that
    the main loop reads as MainLoop's deliveries do, and a write on a closed
    connection returns its error. *)
Theorem handlers_feed_main_loop (t : actions) (gs : list main_signal) (f : flags) (s : mstate)
    (Hf : same_flags f s) :
  (∃ f', raise_all (setup_signals t) (of_main <$> gs) f = Some f' ∧ same_flags f' (deliver gs s) ∧
         fl_daemon f' = fl_daemon f) ∧
  write_closed (setup_signals t) f = Some (-1, f).
Proof.
  split; [|reflexivity]. revert f s Hf. induction gs as [|g gs IH]; intros f s Hf; [by exists f|].
  cbn [fmap list_fmap]. rewrite raise_all_cons.
  destruct (IH (main_handler (of_main g) f) (signal_handler g s)) as (f' & Hr & Hs & Hd).
  { destruct Hf as [H1 H2]. destruct g; split; cbn; done. }
  exists f'. split; [|split; [exact Hs|by rewrite Hd; destruct g]].
  rewrite <- Hr. by destruct g.
Qed.

(** The handlers of core/daemon.c keep the process alive as well, and set the
    flags of that file; installed over those of main.c they would take SIGTERM and
    SIGHUP from the main loop, whose own flags no longer change. *)
Theorem daemon_handlers_feed_daemon_flags (t : actions) (gs : list signal) (f : flags) :
  ∃ f', raise_all (daemon_init_signals t) gs f = Some f' ∧ fl_running f' = fl_running f ∧ fl_reload f' = fl_reload f ∧
    (df_running (fl_daemon f') = 0 ↔ df_running (fl_daemon f) = 0 ∨ SIGTERM ∈ gs ∨ SIGINT ∈ gs) ∧
    (df_reload (fl_daemon f') = 1 ↔ df_reload (fl_daemon f) = 1 ∨ SIGHUP ∈ gs).
Proof.
  revert f. induction gs as [|g gs IH]; intros f.
  { exists f. do 3 (split; [done|]). rewrite !elem_of_nil. split; tauto. }
  rewrite raise_all_cons.
  assert (Hg : ∃ f1, raise (daemon_init_signals t) g f = Some f1 ∧ fl_running f1 = fl_running f ∧
    fl_reload f1 = fl_reload f ∧
    (df_running (fl_daemon f1) = 0 ↔ df_running (fl_daemon f) = 0 ∨ SIGTERM = g ∨ SIGINT = g) ∧
    (df_reload (fl_daemon f1) = 1 ↔ df_reload (fl_daemon f) = 1 ∨ SIGHUP = g)).
  { destruct g; (eexists; split; [reflexivity|]); cbn; intuition congruence. }
  destruct Hg as (f1 & -> & H1 & H2 & H3 & H4). cbn [mbind option_bind].
  destruct (IH f1) as (f' & -> & H5 & H6 & H7 & H8). exists f'. rewrite !elem_of_cons, H7, H8, H3, H4.
  split; [done|]. split; [congruence|]. split; [congruence|]. split; tauto.
Qed.

(** Enrollment runs before the handlers are installed: a server that closes the
    connection while the agent writes ends it with SIGPIPE instead of the error
    path of [write_all], and an interrupt at the prompt for the key leaves the
    terminal without echo, which every return of the function restores. *)
Theorem enrollment_unprotected_from_signals (f : flags) (term : terminal) (len : nat)
    (Htty : t_tty term = true) :
  write_closed initial f = None ∧ write_closed (setup_signals initial) f = Some (-1, f) ∧
  (∃ left, prompt_signal initial SIGINT false term f = inl left ∧ t_echo left = false) ∧
  t_echo (read_interactive_value len false term).2 = t_echo term.
Proof.
  split; [done|]. split; [done|]. split.
  - eexists. split; [reflexivity|]. by rewrite Htty.
  - unfold read_interactive_value. rewrite Htty. cbn [negb andb].
    destruct (fgets (len - 1) _) as [line rest]. destruct (bool_decide (t_in _ = [])); [done|].
    by destruct (_ && _).
Qed.

(** *** Witnesses *)

Definition running_flags : flags := Flags true false (DaemonFlags 1 0).

Lemma enrollment_unprotected_from_signals_witness :
  let term := Terminal (lit "key") true true [] in
  (∃ left, prompt_signal initial SIGINT false term running_flags = inl left ∧ t_echo left = false) ∧
  t_echo (read_interactive_value 512 false term).2 = true.
Proof.
  destruct (enrollment_unprotected_from_signals running_flags (Terminal (lit "key") true true []) 512 eq_refl)
    as (_ & _ & H1 & H2). split; [exact H1|exact H2].
Defined.
