(* ===== verification/StartLkm.v ===== *)
(** * Starting on a kernel module (main.c, scanner/, lkm/)

    What [main] does between the connection and the loop when it works with the
    kernel module: the baseline of the watched paths is built, the policies an
    earlier run left in the module are cleared, and the baseline's files are
    registered. The theorem puts the walk, the scan, the client, the policy table
    and the hooks together. *)

From S2P Require Import Prelude Bytes Monitor LkmPolicy ProcCache LkmEvents LkmAccess LkmSyscall LkmChardev.
From S2P Require Import EbpfTrace Walker Baseline AgentMain.

Local Open Scope Z_scope.

Section start.
Abbreviation table := (vec (list ig_policy_entry) 256).
Variable jhash2 : list Z → Z → Z.
Variable hash_min : Z → fin 256.
Variable hash_min_pid : Z → Z.
Variable sha256 : list Z → list Z.
#[local] Instance start_store : PolicyStore table := policy_table_store jhash2 hash_min.

(** [d]: the file system and the memory during the scan; [stat]: device and inode of
    a path when the policies are registered; [kzalloc]: whether the kernel has memory
    for the policy of the [i]-th entry; [lock_mode]: [g_ebpf_block]. The result is
    [None] for [goto done], otherwise the baseline, the count the scan returns
    and the number of policies registered. *)
(* @src main.c:903-926 main *)
Definition start_lkm (rwlock_ok : bool) (d : disk) (stat : cstring → option (Z * Z)) (kzalloc : nat → bool)
    (watches : list watch) (lkm_active lock_mode : bool) (fd : Z) : K table (option (ig_scan_result * Z * option Z)) :=
  (let '(rc, db) := ig_baseline_db_init rwlock_ok in
   if rc <? 0 then kret None
   else
     let '(count, db) := ig_baseline_db_build sha256 d db watches in
     if lkm_active then
       let* _ := lkm_clear_all jhash2 hash_min fd in
       let* n := lkm_add_from_baseline jhash2 hash_min stat fd (with_memory kzalloc (se_path <$> sr_entries db))
                   (if lock_mode then IG_BLOCK_DENY else IG_BLOCK_AUDIT) in
       kret (Some (db, count, Some n))
     else kret (Some (db, count, None)))%kmon.

(** A readable file found under a watch. *)
Definition scanned_path (d : disk) (watches : list watch) (p : cstring) : Prop :=
  ∃ base recursive st, (base, recursive) ∈ watches ∧
    found (d_lstat d) (d_readdir d) recursive 65 (nbase base) p st ∧ is_Some (d_contents d p).

(** The object such a file is now. *)
Definition watched_file (d : disk) (stat : cstring → option (Z * Z)) (watches : list watch) (k : Z * Z) : Prop :=
  ∃ p dev ino, scanned_path d watches p ∧ stat p = Some (dev, ino) ∧ k = (stat_dev_to_kernel dev, ino).

(** The baseline the start builds, and the objects it registers: those of its files
    that can be inspected and that the kernel has memory for. *)
Definition built (d : disk) (watches : list watch) : ig_scan_result :=
  (ig_baseline_db_build sha256 d scan_result_empty watches).2.
Definition paths_of (db : ig_scan_result) : list cstring := se_path <$> sr_entries db.
Definition loaded_file (stat : cstring → option (Z * Z)) (kzalloc : nat → bool) (db : ig_scan_result) (k : Z * Z)
    : Prop := loads_key stat (with_memory kzalloc (paths_of db)) k.

(** Memory was refused for a file: the scan's for its entry, or the kernel's for its
    policy. *)
Definition no_memory (d : disk) (kzalloc : nat → bool) (db : ig_scan_result) (p : cstring) : Prop :=
  refused d db p ∨ ∃ i, paths_of db !! i = Some p ∧ kzalloc i = false.

(** What is in the baseline is watched, on any tree. *)
Lemma built_scanned d watches p : plain_listings d → bounded_memory d →
  p ∈ paths_of (built d watches) → scanned_path d watches p.
Proof.
  intros Hl Hd (e & -> & He)%list_elem_of_fmap.
  apply (scan_entries_sound sha256 d watches e Hl Hd) in He as (base & rc & Hw & st & c & Hf & Hc & _).
  exists base, rc, st. split; [done|]. split; [done|by exists c].
Qed.

(** What is watched is in the baseline, on scannable trees and with memory. *)
Lemma scanned_built d watches p : plain_listings d → bounded_memory d →
  Forall (λ w, scannable d w.1 w.2) watches → scanned_path d watches p →
  p ∈ paths_of (built d watches) ∨ refused d (built d watches) p.
Proof.
  intros Hl Hd Hs (base & rc & st & Hw & Hf & [c Hc]). rewrite Forall_forall in Hs.
  destruct (scan_entries_complete sha256 d watches base rc (ScanEntry p (hex (sha256 c)) (fst_mtime st) (fst_size st)))
    as [He|]; [done|done|exact Hw|exact (Hs _ Hw)|by exists st, c| |by right].
  left. apply list_elem_of_fmap. eexists; split; [|exact He]; done.
Qed.

Lemma loaded_watched d stat kzalloc watches k : plain_listings d → bounded_memory d →
  loaded_file stat kzalloc (built d watches) k → watched_file d stat watches k.
Proof.
  intros Hl Hd (p & dev & ino & Hp & Hst & ->). exists p, dev, ino. split; [|done].
  apply (built_scanned d watches p Hl Hd). apply (list_elem_of_fmap_2 fst) in Hp.
  by rewrite with_memory_paths in Hp.
Qed.

Lemma watched_loaded d stat kzalloc watches p dev ino : plain_listings d → bounded_memory d →
  Forall (λ w, scannable d w.1 w.2) watches → scanned_path d watches p → stat p = Some (dev, ino) →
  loaded_file stat kzalloc (built d watches) (stat_dev_to_kernel dev, ino) ∨
  no_memory d kzalloc (built d watches) p.
Proof.
  intros Hl Hd Hs Hp Hst. destruct (scanned_built d watches p Hl Hd Hs Hp) as [[i Hi]%list_elem_of_lookup_1|];
    [|by right; left]. destruct (kzalloc i) eqn:Hk; [left|by right; right; exists i].
  exists p, dev, ino. split; [|done]. apply list_elem_of_lookup. exists i. unfold with_memory.
  by rewrite list_lookup_imap, Hi, <- Hk.
Qed.

(** What the module holds once it is started: the table represents a map whose
    entries are those of the registered files, all of them protected. *)
Definition started (stat : cstring → option (Z * Z)) (kzalloc : nat → bool) (db : ig_scan_result) (block : Z)
    (k : lkm table) : Prop :=
  ∃ m, represents jhash2 hash_min (k_policy k) m ∧
    (∀ key, loaded_file stat kzalloc db key → protected m block key) ∧
    (∀ key, is_Some (m !! key) → loaded_file stat kzalloc db key) ∧
    map_Forall (entry_for stat block (paths_of db)) m.

Lemma start_loads d stat kzalloc watches (lock_mode : bool) fd (k : lkm table) m :
  0 ≤ fd → represents jhash2 hash_min (k_policy k) m → let db := built d watches in
  ∃ n t, start_lkm true d stat kzalloc watches true lock_mode fd k =
      Some (Some (db, sr_count db, Some n), set_table t k) ∧
    0 ≤ n ≤ sr_count db ∧
    started stat kzalloc db (if lock_mode then IG_BLOCK_DENY else IG_BLOCK_AUDIT) (set_table t k).
Proof.
  intros Hfd Hleft db. set (block := if lock_mode then IG_BLOCK_DENY else IG_BLOCK_AUDIT).
  destruct (clear_all_ok jhash2 hash_min fd k m Hfd Hleft) as (t1 & Hclear & Hr1).
  set (es := with_memory kzalloc (paths_of db)).
  destruct (load_refines jhash2 hash_min stat fd block es Hfd (set_table t1 k) ∅ Hr1) as (t & Hload & Hr).
  exists (load_map stat block es ∅).2, t. split; [|split].
  - unfold start_lkm. cbn [ig_baseline_db_init Z.ltb Z.compare].
    change (ig_baseline_db_build sha256 d scan_result_empty watches) with (sr_count db, db).
    unfold kbind at 1. rewrite Hclear. cbn [mbind option_bind]. unfold kbind. fold block (paths_of db) es. by rewrite Hload.
  - pose proof (load_map_count stat block es ∅) as Hn. unfold sr_count.
    assert (Hlen : length es = length (sr_entries db)); [|lia].
    unfold es, with_memory, paths_of. by rewrite length_imap, length_fmap.
  - exists (load_map stat block es ∅).1. split; [exact Hr|]. split; [intros key Hk; apply load_map_protects; by left|].
    split.
    + intros key Hk. destruct (load_map_only stat block es key ∅ Hk) as [[x Hx]|]; [by rewrite lookup_empty in Hx|done].
    + rewrite <- (with_memory_paths kzalloc (paths_of db)).
      apply (load_map_entries stat block es [] ∅), map_Forall_empty.
Qed.

(** The policies of a started module, for the operations the baseline protects. *)
Lemma started_lookup stat kzalloc db block k : started stat kzalloc db block k →
  ∀ dev ino op, op ∈ [IG_OP_WRITE; IG_OP_DELETE; IG_OP_RENAME] → ∀ b,
    inode_policy_lookup (k_policy k) dev ino op = Some b ↔ b = block ∧ loaded_file stat kzalloc db (dev, ino).
Proof.
  intros (m & [_ Hm] & Hprot & Honly & Hent) dev ino op Hop b. unfold inode_policy_lookup.
  change (ps_find (k_policy k) dev ino) with (find_entry jhash2 hash_min (k_policy k) dev ino). rewrite Hm.
  assert (Hfull : has_bits full_mask op = true).
  { rewrite !elem_of_cons, elem_of_nil in Hop. by destruct Hop as [->|[->|[->|[]]]]. }
  split.
  - destruct (m !! (dev, ino)) as [e|] eqn:He; [|done].
    destruct (Hent _ _ He) as (p & d' & i & _ & _ & _ & -> & -> & _). rewrite Hfull. intros [= <-].
    split; [done|]. apply Honly. by eexists.
  - intros (-> & Hl). destruct (Hprot _ Hl) as (e & He & Hmask & Hb). by rewrite He, Hmask, Hfull, Hb.
Qed.

End start.

(** *** Witness: [/srv] is watched, [/etc/passwd] was *)

Definition srv_stat (p : cstring) : option (Z * Z) := (λ st, (fst_dev st, fst_ino st)) <$> table_find srv_stats p.

(** [/srv/a.conf] is open as descriptor 3, [/etc/passwd] as 4. *)
Definition srv_vfs : vfs := Vfs (λ _ _ _, None)
  (λ fd, if fd =? 3 then Some (Some (KInode (Some (stat_dev_to_kernel 8388609)) 3 0x81A4))
         else if fd =? 4 then Some (Some (KInode (Some 0x800001) 7 0x81A4)) else None).

Definition old_policy : policy_op := OpAdd true 0x800001 7 full_mask IG_BLOCK_DENY (Some (lit "/etc/passwd")).
Definition old_module : lkm (vec (list ig_policy_entry) 256) :=
  Lkm (policy_exec (λ _ _, 0) hash_zero ig_policy_init old_policy).1 (pc_index_init, stats_zero) [] false.

Lemma srv_watched : watched_file (srv_disk [7; 7]) srv_stat [(lit "/srv", true)] (stat_dev_to_kernel 8388609, 3).
Proof.
  exists (sub_path (lit "/srv") (lit "a.conf")), 8388609, 3. split; [|by split].
  exists (lit "/srv"), true, (reg 3). split; [by left|]. split; [|by eexists].
  apply (found_entry _ _ _ _ _ (dir 8388609 2)); [done| |done].
  eexists. split; [reflexivity|]. split; [by right; right; left|]. split; [done|].
  by apply (bool_decide_unpack _).
Qed.

Lemma passwd_not_watched : ¬ watched_file (srv_disk [7; 7]) srv_stat [(lit "/srv", true)] (0x800001, 7).
Proof.
  intros (p & dev & ino & _ & Hst & Hk). unfold srv_stat in Hst.
  destruct (table_find srv_stats p) as [fs|] eqn:Hf; [|done]. apply table_find_in in Hf. unfold srv_stats in Hf.
  repeat (apply elem_of_cons in Hf as [Hf|Hf]); [..|by apply elem_of_nil in Hf]; injection Hf as -> ->;
    injection Hst as <- <-; discriminate Hk.
Qed.

Lemma srv_path_bytes p : scanned_path (srv_disk [7; 7]) [(lit "/srv", true)] p → bytes p.
Proof.
  intros (base & rc & st & [= -> ->]%list_elem_of_singleton & Hf & _).
  assert (Hp : ∃ st, table_find srv_stats p = Some st).
  { induction Hf as [? ? ? [? _]|? ? ? ? ? ? ? [? _]|]; eauto. }
  destruct Hp as [st' Hp%table_find_in]. unfold srv_stats in Hp.
  repeat (apply elem_of_cons in Hp as [Hp|Hp]); [..|by apply elem_of_nil in Hp];
    change p with (p, st').1; rewrite Hp; apply bytes_lit.
Qed.

(** Two files are registered. *)
Definition srv_start := start_lkm (λ _ _, 0) hash_zero toy_digest true (srv_disk [7; 7]) srv_stat (λ _, true)
  [(lit "/srv", true)] true true 4 old_module.
Definition srv_db : ig_scan_result := built toy_digest (srv_disk [7; 7]) [(lit "/srv", true)].

Lemma srv_started_count db count n k : srv_start = Some (Some (db, count, Some n), k) → n = 2 ∧ db = srv_db.
Proof.
  intros Hs. assert (Hn : srv_start ≫= (λ r, r.1 ≫= snd) = Some 2) by (vm_compute; reflexivity).
  assert (Hd : srv_start ≫= (λ r, r.1 ≫= λ x, Some x.1.1) = Some srv_db) by (vm_compute; reflexivity).
  rewrite Hs in Hn, Hd. injection Hn as ->. injection Hd as ->. by split.
Qed.

Lemma srv_loaded : loaded_file srv_stat (λ _, true) srv_db (stat_dev_to_kernel 8388609, 3).
Proof.
  exists (lit "/srv/a.conf"), 8388609, 3. split; [|by split].
  assert (Hm : with_memory (λ _, true) (paths_of srv_db) = [(lit "/srv/a.conf", true); (lit "/srv/data/b.db", true)])
    by (vm_compute; reflexivity). rewrite Hm. by left.
Qed.

