(* ===== verification/EndToEnd.v ===== *)
(** * From the system call to the collector

    The whole path of a blocked access: the watched paths scanned and loaded into
    the kernel module, the hooked system call, the module's fifo, the event thread, the
    queue, a turn of the main loop, the TLS stream and the collector's session.
    Nothing new is modelled here; the components' definitions are put one after
    the other. *)

From S2P Require Import Prelude Bytes CText Monitor Protocol Collector EventQueue LkmPolicy ProcCache LkmEvents.
From S2P Require Import LkmAccess LkmSyscall LkmChardev EbpfTrace EbpfLoader TcpClient Session Walker Baseline AgentMain.
From S2P Require Import Startup MainLoop StartLkm.
From stdpp Require Import vector.

Local Open Scope Z_scope.

(** ** What the kernel holds of a process *)

Definition wf_task (t : task) : Prop :=
  in_width 32 (t_pid t) ∧ in_width 64 (t_start_ns t) ∧ bytes (t_comm t).
Definition wf_cached (e : ig_pc_entry) : Prop :=
  in_width 32 (pc_pid e) ∧ in_width 64 (pc_start_time_ns e) ∧ bytes (pc_comm e) ∧ bytes (pc_tty e) ∧
  bytes (pc_exe e) ∧ bytes (pc_cmdline e).
Definition wf_kenv (env : kenv) : Prop :=
  in_width 32 (ke_tgid env) ∧ wf_task (ke_current env) ∧ map_Forall (λ _, wf_task) (ke_tasks env).

Lemma wf_chain_entry_of e : wf_cached e → wf_chain_entry (chain_entry_of e).
Proof.
  intros (H1 & H2 & H3 & H4 & H5 & H6). unfold wf_chain_entry. cbn.
  split_and!; try done; by apply Forall_take, bytes_cstr.
Qed.

Lemma ancestry_wf l cur d os tr : Forall wf_cached l → ancestry l cur d os tr → Forall wf_chain_entry os.
Proof.
  intros Hl. assert (Hfind : ∀ cur e, lookup_pid cur l = Some e → wf_chain_entry (chain_entry_of e)).
  { intros c e He. apply wf_chain_entry_of. rewrite Forall_forall in Hl. apply Hl, list_elem_of_In.
    by apply List.find_some in He as [He _]. }
  induction 1; repeat first [apply Forall_nil_2 | apply Forall_cons_2]; eauto.
Qed.

Lemma live_chain_wf fuel tasks t : map_Forall (λ _, wf_task) tasks →
  (∀ u, t = Some u → wf_task u) → Forall wf_chain_entry (live_chain fuel tasks t).1.
Proof.
  intros Ht. assert (Hlive : ∀ u, wf_task u → wf_chain_entry (live_entry u)).
  { intros u (H1 & H2 & H3). unfold wf_chain_entry. cbn. split_and!; try done; constructor. }
  revert t. induction fuel as [|fuel IH]; intros t Hu; [constructor|]. cbn [live_chain].
  destruct t as [u|]; [|constructor]. specialize (Hlive u (Hu u eq_refl)).
  destruct (t_ppid u) as [pp|]; [|repeat constructor; apply Hlive].
  destruct (_ || _); [repeat constructor; apply Hlive|].
  specialize (IH (tasks !! pp) ltac:(intros w Hw; by eapply Ht)).
  destruct (live_chain fuel tasks (tasks !! pp)) as [es tr]. constructor; [exact Hlive|exact IH].
Qed.

(** ** The report of an access *)

Section report.
Context {T : Type} `{PolicyStore T}.
Variable hash_min : Z → Z.
Variable env : kenv.

(** An enqueued event is well typed, and the oldest when the fifo was empty. *)
Lemma enqueue_wf dev ino op blocked (s : lkm T) :
  ix_ok hash_min (k_cache s).1 → wf_kenv env → ke_alloc_ok env = true →
  Forall wf_cached (entries (k_cache s).1) → bytes (inode_policy_path (k_policy s) dev ino) →
  in_width 64 dev → in_width 64 ino → 0 ≤ blocked < 2 ^ 31 → k_fifo s = [] →
  ∃ s' ev, ig_event_enqueue hash_min env dev ino op blocked s = Some (tt, s') ∧
    k_fifo s' = [ev] ∧ reports env (k_policy s) dev ino op blocked ev ∧ wf_lkm_event ev.
Proof.
  intros Hok (Htg & Hcur & Htasks) Halloc Hcache Hpath Hdev Hino Hb Hfifo.
  unfold ig_event_enqueue. rewrite Halloc.
  destruct (collect_chain_ok hash_min env s Hok) as (ch & c & Hc & _ & Hlen & Hch).
  assert (Hwf : Forall wf_chain_entry ch.1).
  { destruct Hch as [Ha|[_ ->]]; [by eapply ancestry_wf|].
    apply live_chain_wf; [done|]. by intros u [= <-]. }
  unfold kbind at 1. rewrite Hc. cbn [mbind option_bind]. unfold kbind, kget, kmodify.
  cbn [mbind option_bind k_policy]. eexists _, _. split; [reflexivity|].
  cbn [set_flush set_fifo k_fifo k_policy]. rewrite Hfifo. split; [reflexivity|].
  set (path := inode_policy_path (k_policy s) dev ino) in *. unfold reports, wf_lkm_event.
  cbn [le_dev le_ino le_op le_blocked le_pid le_uid le_timestamp_ns le_path le_chain_depth le_chain le_comm].
  split; [by repeat (split; [reflexivity|])|].
  split; [pose proof (strncpy_length path 255); lia|]. split; [by apply Forall_take, bytes_cstr|].
  split; [apply strncpy_is_cstring|]. split; [apply Forall_take, bytes_cstr, Hcur|].
  unfold IG_LKM_CHAIN_MAX, IG_PA_MAX_DEPTH in *.
  do 4 (split; [done|]). split; [lia|]. split; [exact Hlen|exact Hwf].
Qed.

(** Where every policy denies, a call that meets one is stopped at the first. *)
Lemma first_denied accs (s : lkm T) :
  (∀ dev ino op b, inode_policy_lookup (k_policy s) dev ino op = Some b → b = IG_BLOCK_DENY) →
  existsb (denied (k_policy s)) accs = true →
  ∃ a, a ∈ accs ∧ inode_policy_lookup (k_policy s) (a_dev a) (a_ino a) (a_op a) = Some IG_BLOCK_DENY ∧
    run_accesses hash_min env accs s =
      (ig_event_enqueue hash_min env (a_dev a) (a_ino a) (a_op a) 1;;; kret (- EPERM))%kmon s.
Proof.
  intros Hdeny. induction accs as [|a accs IH]; intros Hex; [done|]. cbn [existsb] in Hex.
  cbn [run_accesses]. unfold kbind at 1, check_access, kbind at 1, kget. cbn [mbind option_bind].
  unfold denied in Hex at 1.
  destruct (inode_policy_lookup (k_policy s) (a_dev a) (a_ino a) (a_op a)) as [b|] eqn:Hl.
  - assert (b = IG_BLOCK_DENY) as -> by by eapply Hdeny. exists a. split; [by left|]. split; [exact Hl|].
    rewrite Z.eqb_refl. unfold kbind.
    by destruct (ig_event_enqueue hash_min env (a_dev a) (a_ino a) (a_op a) 1 s) as [[[] s1]|].
  - destruct (IH Hex) as (a' & Hin & Ha' & Hrun). exists a'. split; [by right|]. split; [done|]. exact Hrun.
Qed.
End report.

(** ** The agent *)

(** An agent that waits for an event: connected and registered, its queue empty,
    no signal pending, over a connection that takes one frame. *)
Record agent_waiting (s : mstate) (c : conn) : Prop := {
  aw_queue : queue_ok (ms_queue s);
  aw_empty : contents (ms_queue s) = [];
  aw_running : ms_running s = true;
  aw_reload : ms_reload s = false;
  aw_ok : ag_transport_ok (ms_agent s) = true;
  aw_id : is_Some (ag_agent_id (ms_agent s));
  aw_client : client_ok (ag_cli (ms_agent s));
  aw_live : live (ag_cli (ms_agent s)) c;
  aw_accepts : accepts c (IG_FRAME_HEADER_SIZE + Z.to_nat IG_MAX_PAYLOAD) }.

Lemma event_of_lkm_reportable `{HP : ProcSource} {HL : ProcSourceLaws HP} lev :
  wf_lkm_event lev → reportable (event_of_lkm lev).
Proof. intros H. split; [by apply event_of_lkm_wf|done]. Qed.

Lemma spec_pop_cons ev l n ws : spec_pop (ev :: l) n ws = (l, PopEvent ev).
Proof. by destruct ws. Qed.

(** What the collector makes of the bytes [wire] when its session with agent [id]
    has seen the frames up to [seq]: one event saved, published and handed on. *)
Definition stored (id seq : Z) (wire : list Z) (seen : FileEventMsg) : Prop :=
  ∀ me onEvent buffered register_answer save_ok write_ok sess v,
    id ≠ 0 → serves id seq sess → (∀ l p, save_ok l p = true) →
    ∃ sess', run_loop me onEvent buffered register_answer save_ok write_ok (S (length wire)) wire sess v =
      (sess', emit_all ([Saved (event_payload seen); Published (event_payload seen)] ++
                        (if onEvent then [Notified (decimal id) (event_payload seen)] else [])) v) ∧
      as_agentNum sess' = id ∧ as_AgentID sess' = decimal id.

Section agent.
Context `{HP : ProcSource} {HL : ProcSourceLaws HP}.
Variable jhash2 : list Z → Z → Z.
Variable hash_min : Z → fin 256.
Variable inet_pton : cstring → option Z.
Variable sha256 : list Z → list Z.
Variable fd : Z.
Variable depth_max : nat.

(** A turn without signals and with one event queued sends that event. *)
Lemma turn_sends s c t ev (k : lkm table) :
  agent_waiting s c → reportable ev → tn_signals t = no_signals →
  let f := event_frame (ag_cli (ms_agent s)) ev in
  ∃ s' c', main_loop jhash2 hash_min inet_pton sha256 fd depth_max [t]
             (set_queue (ig_queue_push (ms_queue s) ev) s) k = Some ((1%nat, s'), k) ∧
    contents (ms_queue s') = [] ∧ live (ag_cli (ms_agent s')) c' ∧
    c_out c' = c_out c ++ wire_frame_header f.1 ++ f.2.
Proof.
  intros [Hq He Hrun Hrel Hok [id Hid] Hcl Hlive Hacc] Hev Hsig f.
  destruct (push_refines (ms_queue s) ev Hq) as [Hq1 Hc1]. rewrite He in Hc1.
  set (q1 := ig_queue_push _ _) in *. cbn [main_loop]. rewrite Hsig. cbn [deliver at_start no_signals fold_left ms_running set_queue].
  rewrite Hrun. unfold loop_turn, kbind, kret. rewrite Hsig.
  cbn [deliver at_entry at_clear at_reload at_rest no_signals fold_left ms_reload set_queue]. rewrite Hrel.
  cbn [mbind option_bind deliver fold_left ms_queue set_queue]. cbv zeta.
  destruct (pop_refines (tn_waits t) q1 500 Hq1) as (_ & Hcq & Hres). rewrite Hc1 in Hcq, Hres.
  change (spec_push [] ev) with [ev] in *. rewrite spec_pop_cons in Hcq, Hres.
  destruct (ig_queue_pop q1 500 (tn_waits t)) as [q2 r]. cbn [fst snd] in Hcq, Hres. subst r.
  assert (Hcon : cli_connected (ag_cli (ms_agent s)) = true) by apply Hlive.
  destruct (reportable_sent (ag_cli (ms_agent s)) ev Hev) as (Hsend & Hfit & _); [apply Hcl|done|].
  destruct (send_frame_accepts (ag_cli (ms_agent s)) c IG_MSG_FILE_EVENT f.2 0 Hlive) as (c' & Hframe & Hout & _).
  - unfold IG_MAX_FRAME_SIZE, IG_MAX_PAYLOAD, f in *. lia.
  - eapply accepts_le; [exact Hacc|]. subst f. lia.
  - subst f. rewrite <- Hsend in Hframe. unfold process_event, send_event_with_reconnect, klift.
    cbn [mbind option_bind ms_agent set_queue set_db ag_transport_ok ag_agent_id ag_cli]. rewrite Hok, Hid, Hframe.
    cbn [mbind option_bind Z.eqb]. eexists _, c'. split; [reflexivity|].
    split; [by destruct (_ =? _)|]. split; [by destruct (_ =? _)|]. exact Hout.
Qed.

(** The collector's session takes the frame of an event. *)
Lemma frame_stored (s : ig_tcp_client) ev : reportable ev → client_ok s →
  stored (cli_agent_id s) (cli_seq_num s) (wire_frame_header (event_frame s ev).1 ++ (event_frame s ev).2)
    (event_seen (message_of_event (cli_agent_id s) ev)).
Proof.
  intros Hev Hcl me onEvent buffered answer save_ok write_ok sess v Hnz Hserves Hsave.
  set (wire := wire_frame_header _ ++ _).
  destruct (loop_reports me onEvent buffered answer save_ok write_ok (cli_agent_id s) [REvent ev]
    (cli_seq_num s) sess v (S (length wire))) as (sess' & Hrun & Hn & Hi).
  all: try match goal with |- in_width _ _ => apply Hcl end.
  { exact Hnz. }
  { apply Forall_singleton. exact Hev. }
  { exact Hserves. }
  { exact Hsave. }
  { subst wire. unfold wire_frame_header. rewrite !length_app, !be_bytes_length. cbn [length]. lia. }
  exists sess'. split; [|by split].
  assert (Hw : wire_frames (numbered (cli_seq_num s) (report_msg (cli_agent_id s) <$> [REvent ev])) = wire).
  { change (wire_frames (numbered (cli_seq_num s) (report_msg (cli_agent_id s) <$> [REvent ev]))) with (wire ++ []).
    apply app_nil_r. }
  rewrite <- Hw at 2. rewrite Hrun. cbn [fmap list_fmap map mjoin list_join]. by rewrite app_nil_r.
Qed.
End agent.

(** ** The whole path *)

(** What the collector is told of a refused call: one of the objects it touches,
    which is one of the files [watched], with that file's path, the operation, the
    calling process, and that it was blocked. *)
Definition tells (env : kenv) (stat : cstring → option (Z * Z)) (watched : cstring → Prop) (accs : list access)
    (seen : FileEventMsg) : Prop :=
  ∃ a p d i, a ∈ accs ∧ watched p ∧ stat p = Some (d, i) ∧ (a_dev a, a_ino a) = (stat_dev_to_kernel d, i) ∧
    ge_target_dev seen = a_dev a ∧ ge_target_ino seen = a_ino a ∧ ge_file_path seen = strncpy p 255 ∧
    ge_event_type seen = map_event_type (event_type_of_op (a_op a)) ∧ ge_blocked seen = true ∧
    ge_pid seen = ke_tgid env ∧ ge_detected_by seen = IG_MON_LKM.

Section whole_path.
Context `{HP : ProcSource} {HL : ProcSourceLaws HP}.
Variable jhash2 : list Z → Z → Z.
Variable hash_min : Z → fin 256.
Variable hash_min_pid : Z → Z.
Variable inet_pton : cstring → option Z.
Variable sha256 : list Z → list Z.
Variable fd : Z.
Variable depth_max : nat.
Hypothesis fd_open : 0 ≤ fd.
#[local] Instance path_store : PolicyStore table := policy_table_store jhash2 hash_min.

(** A module whose policies are those of a DENY baseline, before any event. *)
Definition baseline_loaded (stat : cstring → option (Z * Z)) (paths : list cstring) (s : lkm table) : Prop :=
  k_fifo s = [] ∧ ∀ dev ino e, ps_find (k_policy s) dev ino = Some e →
    entry_for stat IG_BLOCK_DENY paths (dev, ino) e.

Lemma loaded_lookup stat paths s dev ino op b : baseline_loaded stat paths s →
  inode_policy_lookup (k_policy s) dev ino op = Some b →
  b = IG_BLOCK_DENY ∧ ∃ p d i, p ∈ paths ∧ stat p = Some (d, i) ∧ (dev, ino) = (stat_dev_to_kernel d, i) ∧
    inode_policy_path (k_policy s) dev ino = strncpy p 255.
Proof.
  intros [_ Hent] Hl. unfold inode_policy_lookup, inode_policy_path in *.
  destruct (ps_find (k_policy s) dev ino) as [e|] eqn:He; [|done].
  destruct (Hent _ _ _ He) as (p & d & i & Hp & Hst & Hk & _ & Hb & Hpath).
  destruct (has_bits _ _); [|done]. injection Hl as <-. split; [done|]. by exists p, d, i.
Qed.

(** The kernel's part: the call is refused and leaves its report in the fifo. *)
Lemma call_reported v env stat paths nr r (s : lkm table) :
  ix_ok hash_min_pid (k_cache s).1 → Forall wf_cached (entries (k_cache s).1) → wf_kenv env →
  ke_alloc_ok env = true → Forall bytes paths →
  Forall (λ a, in_width 64 (a_dev a) ∧ in_width 64 (a_ino a)) (accesses v nr r) →
  baseline_loaded stat paths s → existsb (denied (k_policy s)) (accesses v nr r) = true →
  ∃ s' lev, entry_310 hash_min_pid v env nr r s = Some (HReturn (- EPERM), s') ∧ k_fifo s' = [lev] ∧
    wf_lkm_event lev ∧ ∀ id, tells env stat (λ p, p ∈ paths) (accesses v nr r) (seen_of_lkm id lev).
Proof.
  intros Hix Hcache Henv Halloc Hpaths Hwidth Hload Hden.
  destruct (first_denied hash_min_pid env (accesses v nr r) s) as (a & Ha & Hla & Hrun); [|done|].
  { intros dev ino op b Hl. by eapply loaded_lookup. }
  destruct (loaded_lookup _ _ _ _ _ _ _ Hload Hla) as (_ & p & d & i & Hp & Hst & Hk & Hpath).
  rewrite Forall_forall in Hwidth. rewrite Forall_forall in Hpaths. destruct (Hwidth a Ha) as [Hd Hi].
  destruct (enqueue_wf hash_min_pid env (a_dev a) (a_ino a) (a_op a) 1 s) as (s' & lev & He & Hf & Hrep & Hwf);
    try done; [rewrite Hpath; by apply Forall_take, bytes_cstr, Hpaths|apply Hload|].
  exists s', lev. split; [|split; [done|split; [done|]]].
  - rewrite entry_310_run, Hrun. unfold hook_outcome, kbind. by rewrite He.
  - intros id. exists a, p, d, i. do 4 (split; [done|]).
    destruct (lkm_event_seen id lev Hwf) as (H1 & H2 & H3 & H4 & H5 & H6 & H7 & _).
    destruct Hrep as (R1 & R2 & R3 & R4 & R5 & _ & _ & R8 & _).
    rewrite H1, H2, H3, H4, H5, H6, H7, R1, R2, R3, R4, R5, R8, Hpath.
    repeat (split; [done|]). split; [|done].
    apply strncpy_id; [apply strncpy_is_cstring|apply strncpy_length].
Qed.

Lemma tells_mono env stat (P Q : cstring → Prop) accs seen :
  (∀ p, P p → Q p) → tells env stat P accs seen → tells env stat Q accs seen.
Proof. intros HPQ (a & p & d & i & Ha & Hp & Hrest). exists a, p, d, i. split; [done|]. split; [by apply HPQ|done]. Qed.

Lemma started_loaded stat kzalloc db (k : lkm table) : k_fifo k = [] →
  started jhash2 hash_min stat kzalloc db IG_BLOCK_DENY k → baseline_loaded stat (paths_of db) k.
Proof.
  intros Hf (m & [_ Hm] & _ & _ & Hent). split; [exact Hf|]. intros dev ino e He. apply Hent. by rewrite <- Hm.
Qed.

End whole_path.

(** *** Witness: a shell writes to [/srv/a.conf] *)

Definition open_conn : conn := Conn [] (replicate (Z.to_nat 65535) 1) [] [].
Definition open_client : ig_tcp_client := TcpClient (Some open_conn) true (lit "ig.local") 9000 0 7 0 None.
Definition waiting_agent : mstate :=
  MState (Config 1 (lit "/var/log/ig_monitor.log") 0 0 0 [(lit "/etc", true)] []) (Logging LogStderr false 0 false)
    false true 1 (Loader trace_zero false 0 0)
    (Agent scan_result_empty open_client true (Some 7) [(lit "/etc", true)])
    ig_queue_init true false 0 [] 0.

Lemma waiting_agent_ok : agent_waiting waiting_agent open_conn.
Proof.
  destruct queue_init_ok as [Hq Hc].
  assert (Hcl : client_ok open_client) by (unfold client_ok, in_width; cbn; split_and!; (done || lia)).
  split; [exact Hq|exact Hc|reflexivity|reflexivity|reflexivity|by eexists|exact Hcl|by split|].
  split; [by apply Forall_replicate|]. unfold open_conn. cbn [c_writes]. rewrite length_replicate.
  unfold IG_FRAME_HEADER_SIZE, IG_MAX_PAYLOAD. lia.
Qed.

Lemma sample_env_wf : wf_kenv sample_env.
Proof.
  unfold wf_kenv, wf_task, in_width. split; [cbn; lia|]. split; [|apply map_Forall_empty].
  split; [cbn; lia|]. split; [cbn; lia|]. apply bytes_lit.
Qed.

