(* ===== verification/EbpfEndToEnd.v ===== *)
(** * From the BPF program to the collector

    The whole path of an access refused by the eBPF back end: the programs
    loaded, the policies of the watches put in at start-up, an LSM event, the
    ring buffer, the polling thread, the queue, a turn of the main loop, the TLS
    stream and the collector's session. *)

From S2P Require Import Prelude Bytes CText Monitor Protocol Collector EventQueue LkmPolicy LkmAccess.
From S2P Require Import Walker EbpfPrograms PathCache LkmChardev EbpfTrace EbpfLoader TcpClient Baseline.
From S2P Require Import ProcCache LkmEvents AgentMain Startup MainLoop EndToEnd.
From stdpp Require Import vector.

Local Open Scope Z_scope.

(** ** What adding policies keeps *)

Section additions.
Context `{ProcSource}.
Variable lstat : cstring → option kstat.
Variable readdir : cstring → option (list cstring).

(** One visited path: its policy and, when that went in, its cache entry. *)
Definition add_step (s : trace_state) (path : cstring) (st : kstat) (mask block : Z) : trace_state :=
  let (rc, s1) := add_policy_inode s (inode_key_of st).1 (inode_key_of st).2 mask block in
  if rc =? 0 then set_cache (λ t, path_cache_put t (inode_key_of st).1 (inode_key_of st).2 path) s1 else s1.

Lemma reach_trans a b c : reach lstat readdir a b → reach lstat readdir b c → reach lstat readdir a c.
Proof. intros Hab. induction 1; [done|by eapply reach_child]. Qed.

Lemma fold_entries_inv (I : trace_state → Prop) (f : trace_state → cstring → option (Z * trace_state)) names s s' :
  (∀ name s rc s', name ∈ names → dot_entry name = false → f s name = Some (rc, s') → I s → I s') →
  fold_left (λ acc name, s ← acc; if dot_entry name then Some s
                         else '(_, s) ← f s name; Some s) names (Some s) = Some s' → I s → I s'.
Proof.
  intros Hf. apply (fold_option_inv (λ s name, if dot_entry name then Some s else '(_, s) ← f s name; Some s)
    (λ a b, I a → I b)); [done|auto|].
  intros a name b Hin. destruct (dot_entry name) eqn:Hd; [by intros [= ->]|].
  destruct (f a name) as [[rc d]|] eqn:E; [|done]. cbn. intros [= <-]. by apply (Hf name a rc).
Qed.

(** What every visited path keeps, the whole walk keeps. *)
Lemma add_path_inv (I : trace_state → Prop) mask block fuel : ∀ path s rc s' recursive,
  (∀ p st s, reach lstat readdir path p → lstat p = Some st → I s → I (add_step s p st mask block)) →
  add_path_internal lstat readdir fuel s path mask block recursive = Some (rc, s') → I s → I s'.
Proof.
  induction fuel as [|fuel IH]; intros path s rc s' recursive Hstep; cbn [add_path_internal];
    (destruct (lstat path) as [st|] eqn:Hl; [|by intros [= _ ->]]);
    pose proof (Hstep path st s (reach_root _ _ _) Hl) as H1; unfold add_step in H1; cbn [inode_key_of fst snd] in H1;
    destruct (add_policy_inode s _ _ mask block) as [rc1 s1]; set (s2 := if rc1 =? 0 then _ else s1) in *;
    (destruct (negb recursive || negb (S_ISDIR (st_mode st))) eqn:Hleaf; [intros [= _ <-]; exact H1|]);
    apply orb_false_iff in Hleaf as [_ Hdir%negb_false_iff];
    (destruct (readdir path) as [names|] eqn:Hrd; [|intros [= _ <-]; exact H1]); [done|].
  destruct (fold_left _ _ _) as [s3|] eqn:Hf; [|done]. cbn [mbind option_bind]. intros [= _ <-] Hs.
  apply (fold_entries_inv I _ _ _ _) in Hf; [done| |by apply H1].
  intros name a r b Hin Hdot. apply IH. intros p st' a' Hr. apply Hstep.
  apply (reach_trans _ (child_path path name)); [|exact Hr].
  by apply (reach_child _ _ path path st names name (reach_root _ _ _)).
Qed.

Lemma startup_inv (I : trace_state → Prop) fuel ws block s s' :
  (∀ w p st s, w ∈ ws → reach lstat readdir w.1 p → lstat p = Some st → I s → I (add_step s p st protect_mask block)) →
  startup_policies lstat readdir fuel ws block s = Some s' → I s → I s'.
Proof.
  intros Hstep. unfold startup_policies.
  apply (fold_option_inv (λ s (w : watch), '(_, s) ← add_path_internal lstat readdir fuel s w.1 protect_mask block true; Some s)
    (λ a b, I a → I b)); [done|auto|].
  intros a w b Hin. destruct (add_path_internal _ _ _ a w.1 _ _ _) as [[rc d]|] eqn:E; [|done].
  cbn. intros [= <-]. apply (add_path_inv I _ _ _ _ _ _ _ _ (λ p st s, Hstep w p st s Hin) E).
Qed.
End additions.

(** ** The path cache follows the policies

    As long as entries are only added, every inode with a policy has its path in
    the cache: the two tables have the same size, and a slot is used only for an
    inode that has a policy. *)

Section tracking.
Context `{ProcSource}.
Variable lstat : cstring → option kstat.
Variable known : cstring → Prop.

Record tracks (pol : inode_policy) (s : trace_state) : Prop := {
  tk_ok : cache_ok (tr_cache s);
  tk_plain : ∀ i, ps_used (slot (tr_cache s) i) ≠ SLOT_DELETED;
  tk_used : ∀ i, ps_used (slot (tr_cache s) i) = SLOT_USED →
            is_Some (policies s !! (ps_dev (slot (tr_cache s) i), ps_ino (slot (tr_cache s) i)));
  tk_held : ∀ k q, policies s !! k = Some q → q = pol ∧ ∃ p st,
            known p ∧ lstat p = Some st ∧ inode_key_of st = k ∧
            PathCache.held (tr_cache s) k.1 k.2 = Some (strncpy p 4095) }.

(** A table without an empty slot holds as many policies as it has slots. *)
Lemma full_cache_full_map pol s : tracks pol s →
  (∀ i, 0 ≤ i < PATH_CACHE_CAP → ps_used (slot (tr_cache s) i) ≠ SLOT_EMPTY) →
  PATH_CACHE_CAP ≤ Z.of_nat (size (policies s)).
Proof.
  intros [Hok Hpl Hus _] Hfull.
  assert (Hall : ∀ i, 0 ≤ i < PATH_CACHE_CAP → ps_used (slot (tr_cache s) i) = SLOT_USED).
  { intros i Hi. specialize (Hfull i Hi). specialize (Hpl i). by destruct (ps_used (slot (tr_cache s) i)). }
  set (key := λ i, (ps_dev (slot (tr_cache s) i), ps_ino (slot (tr_cache s) i))).
  set (l := key <$> seqZ 0 PATH_CACHE_CAP).
  assert (Hnd : NoDup l).
  { apply NoDup_fmap_2_strong; [|apply NoDup_seqZ]. intros i j Hi Hj [= Hd Hn].
    rewrite elem_of_seqZ in Hi. rewrite elem_of_seqZ in Hj.
    apply (co_uniq _ Hok (ps_dev (slot (tr_cache s) i)) (ps_ino (slot (tr_cache s) i)));
      (split; [apply Hall; lia|by apply is_key_spec]). }
  assert (Hsub : list_to_set l ⊆ (dom (policies s) : gset (Z * Z))).
  { intros k Hk. apply elem_of_list_to_set in Hk. apply list_elem_of_fmap in Hk as (i & -> & Hi).
    rewrite elem_of_seqZ in Hi. apply elem_of_dom, Hus, Hall. lia. }
  apply subseteq_size in Hsub. rewrite size_list_to_set in Hsub by done. rewrite size_dom in Hsub.
  unfold l in Hsub. rewrite length_fmap, length_seqZ in Hsub. unfold PATH_CACHE_CAP in *. lia.
Qed.

Lemma add_step_tracks mask block s p st : known p → lstat p = Some st →
  tracks (InodePolicy mask block) s → tracks (InodePolicy mask block) (add_step s p st mask block).
Proof.
  intros Hp Hst Ht. unfold add_step, add_policy_inode. set (k := inode_key_of st).
  destruct (tr_skel s) as [m|] eqn:Em; [|exact Ht].
  assert (Hpol : policies s = policy_map m) by (unfold policies; by rewrite Em).
  rewrite <- surjective_pairing. destruct (map_full (policy_map m) k) eqn:Hfull; [exact Ht|]. cbn [Z.eqb].
  set (s' := set_cache _ _).
  assert (Hpol' : policies s' = <[k := InodePolicy mask block]> (policies s)).
  { unfold s', policies at 1, set_cache, set_skel. cbn [tr_skel]. rewrite Em. cbn. by rewrite Hpol. }
  change (tr_cache s') with (path_cache_put (tr_cache s) k.1 k.2 p) in *.
  destruct (put_spec (tr_cache s) k.1 k.2 p (tk_ok _ _ Ht)) as (Hok' & Hput & Hother).
  assert (Hheld : PathCache.held (path_cache_put (tr_cache s) k.1 k.2 p) k.1 k.2 = Some (strncpy p 4095)).
  { destruct Hput as [?|(_ & Hn & Hno)]; [done|]. exfalso.
    pose proof (full_cache_full_map _ _ Ht Hno) as Hsz. rewrite Hpol in Hsz.
    destruct (policies s !! k) as [q|] eqn:Hk.
    - destruct (tk_held _ _ Ht k q Hk) as (_ & ? & ? & _ & _ & _ & Hh). congruence.
    - unfold map_full in Hfull. rewrite Hpol in Hk. rewrite bool_decide_eq_true_2 in Hfull by done.
      apply bool_decide_eq_false_1 in Hfull. unfold PATH_CACHE_CAP, POLICY_MAP_MAX in *. lia. }
  pose proof (put_slots (tr_cache s) k.1 k.2 p) as Hslot.
  split; change (tr_cache s') with (path_cache_put (tr_cache s) k.1 k.2 p); [exact Hok'|..].
  - intros j. destruct (Hslot j) as [->| ->]; [apply (tk_plain _ _ Ht)|done].
  - intros j. rewrite Hpol'. destruct (Hslot j) as [->| ->].
    + intros Hu. destruct (tk_used _ _ Ht j Hu) as [q Hq]. rewrite lookup_insert. destruct (decide _); by eexists.
    + intros _. cbn [ps_dev ps_ino]. rewrite <- surjective_pairing, lookup_insert_eq. by eexists.
  - intros k' q. rewrite Hpol'. intros [[<- <-]|[Hne Hq]]%lookup_insert_Some; [split; [done|]; by exists p, st|].
    destruct (tk_held _ _ Ht k' q Hq) as (-> & p' & st' & ? & ? & Hkey & Hh). split; [done|]. exists p', st'.
    split; [done|]. split; [done|]. split; [done|]. rewrite Hother; [done|]. rewrite <- !surjective_pairing. congruence.
Qed.
End tracking.

(** ** Start-up *)

(** The statics of ig_trace.c before [ebpf_policy_init], and libbpf's success. *)
Definition loader_zero : loader := Loader (TraceState None ∅ ∅ (OffsetState 0 0) None) false 1 0.
Definition bpf_calls_ok : bpf_calls := BpfCalls true true true true.

Section startup.
Context `{HP : ProcSource} {HL : ProcSourceLaws HP}.
Variable lstat : cstring → option kstat.
Variable readdir : cstring → option (list cstring).
(** The tree is finite and its names are strings of bytes. *)
Variable depth : cstring → nat.
Hypothesis depth_child : ∀ p names name, readdir p = Some names → name ∈ names →
  dot_entry name = false → (depth (child_path p name) < depth p)%nat.
Hypothesis names_bytes : ∀ p names, readdir p = Some names → Forall bytes names.

(** Below a configured watch. *)
Definition watched_path (ws : list watch) (p : cstring) : Prop := ∃ w : watch, w ∈ ws ∧ reach lstat readdir w.1 p.

Lemma reach_bytes a p : bytes a → reach lstat readdir a p → bytes p.
Proof.
  intros Ha. induction 1 as [|p st names name _ IH _ _ Hr Hin _]; [done|].
  apply names_bytes in Hr. rewrite Forall_forall in Hr.
  apply Forall_take, Forall_app. split; [exact IH|]. constructor; [unfold is_byte; lia|by apply Hr].
Qed.

Lemma watched_bytes ws p : Forall (λ w : watch, bytes w.1) ws → watched_path ws p → bytes p.
Proof. rewrite Forall_forall. intros Hws (w & Hw & Hr). apply (reach_bytes w.1); [by apply Hws|done]. Qed.

(** What adding policies leaves alone, and the strings it puts in the cache. *)
Record loaded (q : ig_event_queue) (s : trace_state) : Prop := {
  ld_maps : ∃ m, tr_skel s = Some m ∧ audit_rb m = [] ∧ proc_map m = ∅;
  ld_dedup : tr_dedup s = ∅;
  ld_queue : tr_queue s = Some q;
  ld_bytes : ∀ i e, tr_cache s !! i = Some e → bytes (ps_path e) }.

Lemma add_step_loaded q s p st mask block : bytes p → loaded q s → loaded q (add_step s p st mask block).
Proof.
  intros Hp [(m & Hm & Hrb & Hpm) Hd Hq Hb]. unfold add_step, add_policy_inode. rewrite Hm.
  destruct (map_full _ _); [split; try done; by exists m|]. cbn [Z.eqb].
  set (k := inode_key_of st). split; [|done|done|].
  - eexists. cbn [set_cache set_skel tr_skel]. rewrite Hm. split; [reflexivity|done].
  - cbn [set_cache set_skel tr_cache]. intros i e. destruct (put_cases (tr_cache s) k.1 k.2 p) as [->|[j ->]]; [apply Hb|].
    intros [[_ <-]|[_ He]]%lookup_insert_Some; [by apply Forall_take, bytes_cstr|by eapply Hb].
Qed.

Lemma startup_covers fuel block ws : (∀ w, w ∈ ws → (depth w.1 < fuel)%nat) → ∀ s, is_Some (tr_skel s) →
  ∃ s', startup_policies lstat readdir fuel ws block s = Some s' ∧ extends (InodePolicy protect_mask block) s s' ∧
    ∀ p st, watched_path ws p → lstat p = Some st → covered (InodePolicy protect_mask block) s' (inode_key_of st).
Proof.
  induction ws as [|w ws IH]; intros Hd s Hs.
  { exists s. split; [done|]. split; [apply extends_refl|]. by intros p st (w & ?%elem_of_nil & _). }
  destruct (add_recursive_spec lstat readdir depth depth_child fuel w.1 s protect_mask block) as (rc & s1 & H1 & He1 & Hc1);
    [apply Hd, list_elem_of_here|exact Hs|].
  destruct (IH (λ v Hv, Hd v (list_elem_of_further _ _ _ Hv)) s1 (proj1 He1 Hs)) as (s2 & H2 & He2 & Hc2).
  exists s2. split; [|split; [by eapply extends_trans|]].
  - unfold startup_policies. cbn [fold_left mbind option_bind]. rewrite H1. exact H2.
  - intros p st (v & [->|Hv]%elem_of_cons & Hr) Hp; [exact (proj2 He2 _ (Hc1 p st Hr Hp))|]. apply (Hc2 p st); [by exists v|exact Hp].
Qed.

(** After start-up: every path below a watch has its policy, every inode with a
    policy has a watched path in the cache, and nothing has been reported. *)
Lemma startup_ready fuel block ws q : (∀ w, w ∈ ws → (depth w.1 < fuel)%nat) → Forall (λ w : watch, bytes w.1) ws →
  ∃ ld tr m, ebpf_policy_init bpf_calls_ok q loader_zero = (0, ld) ∧ ld_running ld = 1 ∧
    startup_policies lstat readdir fuel ws block (ld_trace ld) = Some tr ∧ tr_skel tr = Some m ∧
    tracks lstat (watched_path ws) (InodePolicy protect_mask block) tr ∧ loaded q tr ∧
    ∀ p st, watched_path ws p → lstat p = Some st → covered (InodePolicy protect_mask block) tr (inode_key_of st).
Proof.
  intros Hd Hws. eexists. set (ld := snd (ebpf_policy_init bpf_calls_ok q loader_zero)).
  set (s0 := ld_trace ld). set (pol := InodePolicy protect_mask block).
  destruct (startup_covers fuel block ws Hd s0) as (tr & Hrun & _ & Hcov); [by eexists|].
  assert (H : tracks lstat (watched_path ws) pol tr ∧ loaded q tr).
  { refine (startup_inv lstat readdir (λ s, tracks lstat (watched_path ws) pol s ∧ loaded q s)
      fuel ws block s0 tr _ Hrun _).
    - intros w p st s Hw Hr Hp [Ht Hl]. assert (watched_path ws p) by by exists w.
      split; [by apply add_step_tracks|]. by apply add_step_loaded; [eapply watched_bytes|].
    - split; [split|split].
      + apply cache_ok_empty.
      + by intros i.
      + by intros i.
      + intros k p. unfold policies. cbn. by rewrite lookup_empty.
      + by exists empty_maps.
      + done.
      + done.
      + by intros i e. }
  destruct H as [Ht Hl]. destruct (ld_maps _ _ Hl) as (m & Hm & _).
  exists tr, m. split; [reflexivity|]. split; [reflexivity|]. by split_and!.
Qed.
End startup.

(** ** The report *)

(** Where every policy blocks, an event that meets one is stopped and reported
    at the first. *)
Lemma first_blocked (pm : gmap (Z * Z) inode_policy) accs :
  (∀ k q, pm !! k = Some q → ip_block q ≠ 0) → existsb (denies pm) accs = true →
  ∃ a, a ∈ accs ∧ denies pm a = true ∧ reported pm accs = [a].
Proof.
  intros Hb. induction accs as [|a accs IH]; [done|]. cbn [existsb reported].
  destruct (applies pm a) as [q|] eqn:Ha.
  - assert (Hd : denies pm a = true).
    { unfold denies. rewrite Ha. unfold applies in Ha. destruct (pm !! a.1.1) as [q'|] eqn:Hk; [|done].
      cbn in Ha. destruct (has_bits _ _); [|done]. injection Ha as <-. apply negb_true_iff, Z.eqb_neq. by eapply Hb. }
    rewrite Hd. intros _. exists a. split; [by left|]. by split.
  - unfold denies at 1. rewrite Ha. cbn [orb]. intros He. destruct (IH He) as (b & Hin & Hd & Hr).
    exists b. split; [by right|]. by split.
Qed.

(** What the collector is told of an access refused by a program: an inode of
    the event with a path below a watch, the operation and the process. *)
Definition told (lstat : cstring → option kstat) (known : cstring → Prop) (env : bpf_env) (accs : list bpf_access)
    (seen : FileEventMsg) : Prop :=
  ∃ a p st, a ∈ accs ∧ known p ∧ lstat p = Some st ∧ a.1.1 = inode_key_of st ∧
    (ge_target_dev seen, ge_target_ino seen) = a.1.1 ∧ ge_file_path seen = strncpy p 4095 ∧
    ge_event_type seen = map_event_type (op_to_ig_type a.1.2) ∧ ge_blocked seen = true ∧
    ge_pid seen = Z.shiftr (be_pid_tgid env) 32 ∧ ge_detected_by seen = IG_MON_EBPF.

Lemma seen_full_path p : (length (strncpy p 4095) ≤ 4095)%nat → ∀ n, n = u16 (Z.of_nat (length (strncpy p 4095))) →
  sent_str (Some (strncpy p 4095)) n = strncpy p 4095.
Proof.
  intros Hl n ->. unfold sent_str, src_bytes, u16. rewrite wrap_small by (unfold in_width; lia).
  rewrite Nat2Z.id. cbn [default]. by apply take_ge.
Qed.

Section report.
Context `{HP : ProcSource} {HL : ProcSourceLaws HP}.
Variable lstat : cstring → option kstat.

(** The handler queues the report of a denied access with the cached path. *)
Lemma handle_denied known mask block q s env a clocks :
  tracks lstat known (InodePolicy mask block) s → loaded q s → queue_wf q →
  (∀ p, known p → bytes p) → in_width 64 a.1.1.1 → in_width 64 a.1.1.2 → bytes (be_comm env) →
  in_width 64 (be_pid_tgid env) → denies (policies s) a = true →
  ∃ ev, tr_queue (handle_audit_event s (Some (event_of env (policies s) a)) clocks) = Some (ig_queue_push q ev) ∧
    reportable ev ∧ ∀ id accs, a ∈ accs → told lstat known env accs (event_seen (message_of_event id ev)).
Proof.
  intros Ht Hl Hq Hbytes Hd Hi Hcomm Hpid Hden.
  assert (Hk : ∃ q', policies s !! a.1.1 = Some q').
  { unfold denies, applies in Hden. destruct (policies s !! a.1.1) as [q'|]; [by eexists|done]. }
  destruct Hk as [q' Hk]. destruct (tk_held _ _ _ _ Ht _ _ Hk) as (_ & p & st & Hp & Hst & Hkey & Hheld).
  unfold handle_audit_event, event_of. cbn [ae_dev ae_ino ae_op_mask ae_ts_ns ae_pid ae_hook_id ae_denied].
  rewrite Hden, (ld_dedup _ _ Hl). unfold hook_dedup_check. rewrite lookup_empty. cbn [default hd_used dedup_zero andb].
  rewrite andb_false_r. cbn [set_dedup tr_queue tr_cache]. rewrite (ld_queue _ _ Hl).
  rewrite get_held, Hheld. cbn [default from_option id].
  set (chain := ig_ebpf_chain_collect _ _). destruct (ig_mono_to_real_offset_ns _ _) as [off o].
  assert (Hchain : wf_chain chain).
  { apply chain_collect_wf. split; [exact (ld_bytes _ _ Hl)|]. destruct (ld_maps _ _ Hl) as (m & Hm & _ & Hpm). split.
    - cbn [set_dedup tr_skel]. rewrite Hm. intros m' [= <-] k e. by rewrite Hpm, lookup_empty.
    - cbn [set_dedup tr_queue]. rewrite (ld_queue _ _ Hl). intros q0 Hq0. assert (q0 = q) as -> by congruence. exact Hq. }
  change (4096 - 1)%nat with 4095%nat. set (path := strncpy (strncpy p 4095) 4095).
  assert (Hpath : path = strncpy p 4095) by (apply strncpy_id; [apply strncpy_is_cstring|apply strncpy_length]).
  eexists. split; [reflexivity|]. split; [split; [|done]|].
  - apply event_of_audit_wf; [done| |done]. rewrite Hpath. by apply Forall_take, bytes_cstr, Hbytes.
  - intros id accs Ha. exists a, p, st. do 4 (split; [done|]). split; [by destruct a as [[[? ?] ?] ?]|].
    unfold event_seen, message_of_event, event_of_audit.
    cbn [ge_file_path me_file_path me_file_path_len ev_path ge_event_type me_event_type ev_type ae_op_mask
         ge_blocked me_blocked ev_blocked ae_denied ge_pid me_pid ev_pid ae_pid ge_detected_by me_detected_by ev_source].
    split; [|split; [done|split; [done|split; [|done]]]].
    + rewrite Hpath, (strncpy_id (strncpy p 4095)); [|apply strncpy_is_cstring|apply strncpy_length].
      apply seen_full_path; [apply strncpy_length|done].
    + rewrite u32_s32; [done|]. unfold in_width in *. rewrite Z.shiftr_div_pow2 by lia.
      split; [apply Z.div_pos; lia|]. apply Z.div_lt_upper_bound; lia.
Qed.
End report.

(** ** The whole path *)

Section whole_path.
Context `{HP : ProcSource} {HL : ProcSourceLaws HP}.
Variable jhash2 : list Z → Z → Z.
Variable hash_min : Z → fin 256.
Variable inet_pton : cstring → option Z.
Variable sha256 : list Z → list Z.
Variable fd : Z.
Variable depth_max : nat.
Variable lstat : cstring → option kstat.
Variable readdir : cstring → option (list cstring).
Variable depth : cstring → nat.
Hypothesis depth_child : ∀ p names name, readdir p = Some names → name ∈ names →
  dot_entry name = false → (depth (child_path p name) < depth p)%nat.
Hypothesis names_bytes : ∀ p names, readdir p = Some names → Forall bytes names.

(** [C2] From the BPF program to the collector: once start-up has put in the
    policies of the watches in lock mode and the map had room, an access that
    would write, delete or change the attributes of any file or directory below
    a watch is refused by its program with [-EPERM]; the one record it leaves is
    taken by the polling thread, one turn of the main loop sends it, and the
    collector's session with this agent saves, publishes and hands on (when there is a
    handler) exactly one event, which names a watched path of the inode, the
    operation and the process, and says it was blocked. That is for one access by itself:
    every libbpf call of the start succeeds, the programs before it in the hook gave
    the verdict 0, the ring buffer is empty and has room for the record (without
    room the access is refused but nothing is reported), the watched trees are of finite
    depth, no signal is pending or arrives in the turn of the main loop, the agent is
    registered, connected and idle over a connection that takes one more frame whole, and the collector's session
    is that agent's, over a database that saves. *)
Theorem ebpf_denial_reaches_collector (fuel : nat) (ws : list watch) (block : Z) (p : cstring) (st : kstat)
    (env : bpf_env) (ev : lsm_event) (op hook : Z) (clocks : option (Z * Z * Z * Z))
    (s : mstate) (c : conn) (t : main_turn) (k : lkm table)
    (Hdepth : ∀ w, w ∈ ws → (depth w.1 < fuel)%nat) (Hws : Forall (λ w : watch, bytes w.1) ws)
    (Hblock : block ≠ 0) (Hp : watched_path lstat readdir ws p) (Hst : lstat p = Some st)
    (Hacc : (inode_key_of st, op, hook) ∈ event_accesses ev) (Hop : has_bits protect_mask op = true)
    (Hroom : ∀ ld tr, ebpf_policy_init bpf_calls_ok (ms_queue s) loader_zero = (0, ld) →
       startup_policies lstat readdir fuel ws block (ld_trace ld) = Some tr →
       Z.of_nat (size (policies tr)) < POLICY_MAP_MAX)
    (Hwidth : Forall (λ a, in_width 64 a.1.1.1 ∧ in_width 64 a.1.1.2) (event_accesses ev))
    (Henv : bytes (be_comm env) ∧ in_width 64 (be_pid_tgid env)) (Hring : be_reserve_ok env = true)
    (Hagent : agent_waiting s c) (Hquiet : tn_signals t = no_signals) :
  ∃ ld tr maps maps' record q s' c' wire seen,
    ebpf_policy_init bpf_calls_ok (ms_queue s) loader_zero = (0, ld) ∧
    startup_policies lstat readdir fuel ws block (ld_trace ld) = Some tr ∧ tr_skel tr = Some maps ∧
    lsm_program env ev 0 maps = (- EPERM, maps') ∧ audit_rb maps' = [record] ∧
    tr_queue (ld_trace (ebpf_poll_thread [PollTurn false [(Some record, clocks)] 1]
                          (Loader tr true (ld_running ld) 1))) = Some q ∧
    main_loop jhash2 hash_min inet_pton sha256 fd depth_max [t] (set_queue q s) k =
      Some ((1%nat, s'), k) ∧
    live (ag_cli (ms_agent s')) c' ∧ c_out c' = c_out c ++ wire ∧
    stored (cli_agent_id (ag_cli (ms_agent s))) (cli_seq_num (ag_cli (ms_agent s))) wire seen ∧
    told lstat (watched_path lstat readdir ws) env (event_accesses ev) seen.
Proof.
  destruct (startup_ready lstat readdir depth depth_child names_bytes fuel block ws (ms_queue s) Hdepth Hws)
    as (ld & tr & m & Hinit & Hrun & Hstart & Hm & Htr & Hl & Hcov).
  assert (Hpol : policies tr = policy_map m) by (unfold policies; by rewrite Hm).
  assert (Hall : ∀ k q, policy_map m !! k = Some q → q = InodePolicy protect_mask block).
  { rewrite <- Hpol. intros key q Hq. by apply (tk_held _ _ _ _ Htr key q). }
  assert (Hkey : policy_map m !! inode_key_of st = Some (InodePolicy protect_mask block)).
  { rewrite <- Hpol. destruct (Hcov p st Hp Hst) as [?|Hfull]; [done|]. specialize (Hroom ld tr Hinit Hstart). lia. }
  destruct (first_blocked (policy_map m) (event_accesses ev)) as (a & Ha & Hden & Hrep).
  { intros key q Hq. by rewrite (Hall _ _ Hq). }
  { apply existsb_exists. exists (inode_key_of st, op, hook). split; [by apply list_elem_of_In|].
    unfold denies, applies. cbn [fst snd]. rewrite Hkey. cbn [mbind option_bind ip_mask]. rewrite Hop. cbn [ip_block].
    by apply negb_true_iff, Z.eqb_neq. }
  destruct (program_spec env ev m) as (Hv & _ & _ & Hrb).
  assert (existsb (denies (policy_map m)) (event_accesses ev) = true) as Hex.
  { apply existsb_exists. exists a. split; [by apply list_elem_of_In|done]. }
  rewrite Hex in Hv. destruct (ld_maps _ _ Hl) as (m0 & Hm0 & Hrb0 & _). assert (m0 = m) as -> by congruence.
  rewrite Hrb0, Hring, Hrep in Hrb. cbn [app fmap list_fmap map] in Hrb.
  destruct (lsm_program env ev 0 m) as [v maps'] eqn:Eprog. cbn [fst snd] in Hv, Hrb. subst v.
  rewrite Forall_forall in Hwidth. destruct (Hwidth a Ha) as [Hwd Hwi].
  destruct (handle_denied lstat (watched_path lstat readdir ws) protect_mask block (ms_queue s) tr env a clocks)
    as (e & Hq & Hev & Htold); try done.
  { split; [apply Hagent|]. rewrite (aw_empty _ _ Hagent). constructor. }
  { intros p' Hp'. by eapply watched_bytes. }
  { apply Henv. }
  { apply Henv. }
  { by rewrite Hpol. }
  destruct (turn_sends jhash2 hash_min inet_pton sha256 fd depth_max s c t e k Hagent Hev Hquiet)
    as (s' & c' & Hturn & _ & Hlive & Hout).
  exists ld, tr, m, maps', (event_of env (policy_map m) a), (ig_queue_push (ms_queue s) e), s', c'.
  eexists _, (event_seen (message_of_event (cli_agent_id (ag_cli (ms_agent s))) e)).
  split; [exact Hinit|]. split; [exact Hstart|]. split; [exact Hm|]. split; [exact Eprog|]. split; [exact Hrb|].
  split; [rewrite Hrun; cbn [ebpf_poll_thread pt_stop pt_records pt_err ld_running Z.eqb handle_all fold_left fst snd ld_trace];
    rewrite <- Hpol; exact Hq|].
  split; [exact Hturn|]. split; [exact Hlive|]. split; [exact Hout|]. split; [|by apply Htold].
  apply frame_stored; [exact Hev|apply Hagent].
Qed.
End whole_path.

(** *** Witness: a shell writes to [/etc/passwd], [/etc] being watched *)

#[local] Existing Instance no_proc.

Definition etc_watches : list watch := [(lit "/etc", true)].
Definition shell_env : bpf_env := BpfEnv true (Z.shiftl 4242 32) 0 5000000000 (lit "sh") [].
Definition passwd_open : lsm_event := FileOpen (Some (KFile FMODE_WRITE (Some (KInode (Some 0x800001) 7 0x81A4)))).

(** A bound on the policies that a run leaves, checked by evaluation. *)
Lemma policies_below (o : option trace_state) n :
  match o with Some tr => Z.of_nat (size (policies tr)) <? n | None => true end = true →
  ∀ tr, o = Some tr → Z.of_nat (size (policies tr)) < n.
Proof. intros H tr ->. by apply Z.ltb_lt. Qed.

Lemma etc_room q ld tr : ebpf_policy_init bpf_calls_ok q loader_zero = (0, ld) →
  startup_policies etc_lstat etc_readdir 2 etc_watches 1 (ld_trace ld) = Some tr →
  Z.of_nat (size (policies tr)) < POLICY_MAP_MAX.
Proof.
  intros Hi. assert (ld = snd (ebpf_policy_init bpf_calls_ok q loader_zero)) as -> by by rewrite Hi.
  apply policies_below. vm_compute. reflexivity.
Qed.

Lemma ebpf_denial_reaches_collector_witness :
  ∃ tr maps maps' record wire seen,
    startup_policies etc_lstat etc_readdir 2 etc_watches 1
      (ld_trace (ebpf_policy_init bpf_calls_ok ig_queue_init loader_zero).2) = Some tr ∧
    tr_skel tr = Some maps ∧
    lsm_program shell_env passwd_open 0 maps = (- EPERM, maps') ∧ audit_rb maps' = [record] ∧
    stored 7 0 wire seen ∧
    told etc_lstat (watched_path etc_lstat etc_readdir etc_watches) shell_env (event_accesses passwd_open) seen.
Proof.
  destruct (@ebpf_denial_reaches_collector no_proc no_proc_laws (λ _ _, 0) hash_zero (λ _, None) toy_digest
    4 2%nat etc_lstat etc_readdir etc_depth etc_depth_child) with (fuel := 2%nat) (ws := etc_watches) (block := 1)
    (p := lit "/etc/passwd") (st := KStat 0x801 7 0x81A4) (env := shell_env) (ev := passwd_open)
    (op := IG_EBPF_OP_WRITE) (hook := IG_HOOK_FILE_OPEN) (clocks := @None (Z * Z * Z * Z)) (s := waiting_agent)
    (c := open_conn) (t := plain_turn []) (k := Lkm ig_policy_init (pc_index_init, stats_zero) [] false)
    as (ld & tr & maps & maps' & record & q & s' & c' & wire & seen & H1 & H2 & H3 & H4 & H5 & _ & _ & _ & _ & H10 & H11).
  - intros p names Hr. unfold etc_readdir in Hr. destruct (decide _); [|discriminate]. injection Hr as <-.
    repeat constructor; done.
  - intros w Hw. assert (w = (lit "/etc", true)) as -> by (by apply list_elem_of_singleton). vm_compute. lia.
  - repeat constructor; done.
  - discriminate.
  - exists (lit "/etc", true). split; [by left|exact etc_passwd_reached].
  - reflexivity.
  - by left.
  - reflexivity.
  - apply etc_room.
  - repeat constructor; done.
  - split; [apply bytes_lit|]. apply fits_in_width. vm_compute. reflexivity.
  - reflexivity.
  - exact waiting_agent_ok.
  - reflexivity.
  - exists tr, maps, maps', record, wire, seen.
    assert (ld = (ebpf_policy_init bpf_calls_ok ig_queue_init loader_zero).2) as ->
      by (change ig_queue_init with (ms_queue waiting_agent); by rewrite H1).
    do 5 (split; [assumption|]). exact H11.
Defined.
